(* ===== verification/_CoqProject ===== *)
-Q . S2P
Prelude.v
Errors.v
Wire.v
Codec.v
Backends.v
AsyncIO.v
Frame.v
Context.v
Channel.v
Extension.v
TransformSend.v
Shutdown.v
Stream.v
Connection.v
SecureWire.v
AsyncClient.v
AsyncServer.v
AsyncListen.v
ServerConn.v
Rpc.v
StreamRpc.v
StreamServe.v
Delivery.v
TypedRpc.v
TypedStream.v
SyncChannel.v
SyncClient.v
SyncServer.v
SyncPool.v
SyncRpc.v
SyncListen.v
SyncShutdown.v
Addr.v
AsyncTransport.v
AsyncPipe.v
SyncSockets.v
WindowsPipe.v
Names.v
Scope.v
Writer.v
Codegen.v
GeneratedText.v
ModRs.v
FrontEnd.v
Svcgen.v
ProstText.v
ProstCodegen.v
