(* ===== verification/Prelude.v ===== *)
(** * A verification library for ttrpc-rust

    ttrpc is a remote procedure call protocol over one byte stream per connection: ten byte headers,
    protobuf payloads, odd stream identifiers chosen by the client, and unary or streaming calls.
    The library models the runtime crate (src/src) with its asynchronous and synchronous sides, and
    the crates that generate client and server code (src/compiler with its front end
    src/ttrpc-codegen, and src/ttrpc-codegen-prost).

    ** How the parts interact

    A generated client encodes the application's message and calls [Client::request] or
    [Client::new_stream] of the runtime; the client picks a stream id, registers the call, and hands
    a frame to the connection, whose extension may transform the payload before the writer puts it
    on the socket. On the other side the frame reader gives whole frames to the server, which inverts
    the transform, finds the handler in the tables made by generated code, runs it in a task or a
    worker thread, and sends the response back the same way. The client's reader routes what arrives
    by its stream id to the caller or to the stream. The theorems follow this path: what is written
    is read back (Frame, Wire, SyncChannel), what is sent reaches the writer in order (TransformSend,
    Connection), what arrives reaches the one it is for (AsyncClient, SyncClient), the server answers
    what it must (AsyncServer, SyncServer), and the composition of both sides is a function call
    (unary_call_end_to_end, typed_unary_end_to_end), also when many calls share a connection
    (concurrent_calls_correct, and sync_concurrent_calls for the threads of the other runtime), and
    for streams: the messages of a stream reach its caller in order (streams_in_order), a handler
    those of its call alone (handlers_see_their_stream), and a server-streaming call gives its caller
    what the method sent (server_streaming_end_to_end). The other direction has no such theorem: the
    server's tasks can overtake each other (data_frames_can_overtake), so client_streaming_end_to_end
    ties the reply to whatever the method has received, and that to what the client sent only where
    the tasks kept the order. The tables and stubs that both sides rely on are those the generators
    write (GeneratedText, ProstText).

    ** The files, with what they model

    The runtime, shared by both sides:
    - Prelude: results, the state-and-error monads, machine integers, bytes, ASCII strings, tactics.
    - Errors: [Error] and its texts (error.rs), [Code], [Status], [Request], [Response] (ttrpc.proto),
      the builders of proto.rs.
    - Wire: message headers and flags, their encoding and decoding, the limits (proto.rs).
    - Codec: the [Codec] trait of proto.rs as a type class with the laws of the protobuf library.
      Backends: its implementations over rust-protobuf and prost, and how the builders of the two differ.
    - AsyncIO: tokio's byte stream operations as type classes.
    - Frame: [GenMessage], [Message], the asynchronous frame reader with its discarding of oversized
      frames, and the frame writer with its bounded prefix buffer (proto.rs).
    - Context: timeouts and metadata (context.rs).
    - Channel: tokio's channels as a type class, and [SendingMessage] with its delivery control
      (stream.rs).
    - Extension: [PayloadTransform], [ConnectionContext] with [inbound] and [outbound], the accept
      hook, and the variants compiled without the feature (security_extension.rs).

    The asynchronous runtime (src/src/asynchronous):
    - TransformSend: [transform_send_with_control], many tasks over one context, lock and channel, as
      a step relation in which a task may be dropped at every await (security_extension.rs).
    - Shutdown: the notifier and its waiters as interleaved threads (shutdown.rs).
    - Stream: the untyped halves of a stream and the operations of its typed wrappers (stream.rs).
    - TypedStream: the wrappers themselves, one per kind of streaming call, and whole streaming calls
      from the stub to the caller's receiver (stream.rs, utils.rs).
    - Connection: the writer task and the reader loop (connection.rs). SecureWire: one direction of a
      connection with a transform, from the calls of [transform_send] to what the peer decodes.
    - AsyncClient: calls, the registry of pending streams and its guard, the reader, and the
      interleaving of calls with frames (client.rs).
    - AsyncServer: service tables, the handling of a frame, responses, the interleaving of the reader
      with handler tasks (server.rs, utils.rs). AsyncListen: the server's life and the accept loop.
      ServerConn: the whole of a connection (reader delegate, handler tasks, stream handlers, writer)
      as one step relation, and the server that waits for its connections when it shuts down.
    - Rpc: a client with any number of concurrent calls and the connection of the server, on the two
      directions of one socket ([rpc_step]); its runs project to runs of AsyncClient and ServerConn.
      StreamRpc: the streams of that client, what their mailboxes get. StreamServe: the streams of that
      server, what the mailboxes of their handlers get. Delivery: what a run of frames that the
      client's reader hands over leaves in the mailbox of one call.
    - TypedRpc: what the macros of utils.rs expand to, for both runtimes.

    The synchronous runtime (src/src/sync):
    - SyncChannel: frames over a blocking socket, with short and interrupted calls (channel.rs,
      sys/unix/net.rs).
    - SyncClient: calling threads, sender and receiver, interleaved (client.rs).
    - SyncServer, SyncPool, SyncListen: what a worker does with a message, the worker pool of a
      connection, the server's life with its listener, handlers and reaper (server.rs, utils.rs).
      SyncRpc: the threads of a client and of a connection of the server on the two directions of one
      socket ([sync_step]). SyncShutdown: how the client handlers and the reaper end when the server is disconnected.
    - Addr: addresses of both runtimes, and the making of sockets from them (common.rs, transport).
      AsyncTransport: listeners and sockets of the asynchronous runtime, by address, from descriptors
      and from streams of the application, with the constructors of the client (transport, client.rs).
      SyncSockets: the descriptors of the synchronous listeners, connections and clients
      (sys/unix/net.rs). WindowsPipe: named pipes with their events (sys/windows/net.rs).
      AsyncPipe: the asynchronous listener on a named pipe (transport/windows.rs).

    The generators:
    - Names, Scope, Writer: names of generated items, search of message types, the code writer
      (compiler/src/util, prost util.rs). Codegen, ModRs: the compiler crate's service generator and
      its output files (codegen.rs). GeneratedText: what the text it writes is. FrontEnd: the builder of
      ttrpc-codegen and the protoc plugin over it (ttrpc-codegen/src/lib.rs, codegen.rs).
    - Svcgen, ProstCodegen: the prost crate's service generator and builder (svcgen.rs, codegen.rs).
      ProstText: what the tokens it emits are, and how they compare with the compiler crate's.

    ** How code becomes definitions

    A struct is a Record, an enum an Inductive, a function a Definition of its name; PROJECT.json maps
    each definition to the lines it models. Code that mutates state and may fail is in the monad [st], which keeps
    the state on failure as Rust does. What several tasks or threads do is a step relation on the
    state they share, with one step for the code between two points where they can be suspended or
    interleaved; theorems about it are proved by induction on the steps and hold for every schedule.
    Integers are [Z] with [as_u8], [as_u32], [as_u64] where the code converts, and wrap-around where
    it wraps. Libraries (protobuf, tokio, the kernel, quote, prost-build) are type classes of
    operations, with what the code relies on as a second class of laws; the laws are those the
    libraries document, and every property of PROJECT.json that assumes some has a witness at an instance in
    which they hold: lists as channels, byte lists as sockets, a transform that appends a nonce.

    ** What the theorems show

    - Framing and values: round trips of headers, frames, metadata, requests, streams and addresses;
      bounds on every size that is checked; what happens to an oversized frame.
    - Order and routing: the concurrent send path refines the sequential transform; the writer writes
      whole frames in order and answers each message once; the peer decodes the bytes to the messages
      sent, however far the writer came (secure_wire); a result reaches only the call whose id it
      carries; a stream is registered before the frames that follow its opening are handled, gets all
      its frames in order on the client, and only frames of its call on the server; one receive takes
      one message, and the half closes on exactly the messages that end it.
    - Hygiene and liveness: registrations end with their calls; the loss of a connection reaches every
      caller of the asynchronous runtime, and of the synchronous one while its receiver runs; no shutdown notification is lost; the worker pool and the table of
      connections keep their bounds and their entries.
    - Descriptors: what listeners, sockets and clients open is owned once and closed, on every path
      but those the findings name, which the theorems except by name; hooks run on the descriptor of
      their connection.
    - Shutdown: a shutdown of the asynchronous server returns only when the readers and writers of all
      connections have ended, with the sent messages written where no error occurred. Its steps, and
      those of the threads of the synchronous server, decrease a measure of the work that is left.
      Neither server ends whatever others do: what is left waiting when no own step is possible is
      named (shutdown_terminates, sync_shutdown): a handler or a stream of the application, a peer that
      does not read, a connection that is still served.
    - Server behaviour: a response is bounded and on its request's stream; violations of the protocol
      are answered at most once and change no stream; the workers answer every message.
    - Generated code: every generated file nests its brackets and its literals are the wire names by
      which client and server meet, for both generators, and when these agree (generators_agree); the
      module index and the builder's files.

    Some theorems record where code and intention part; the findings of PROJECT.json name them.

    ** Fuel and bounds

    - Frame: the discarding loop has one unit per page of the announced length, [discard_loop_exact]
      shows that more changes nothing.
    - SyncChannel: retries take fuel, and [None] is a call that has not ended; the theorems assume
      more fuel than the socket has transient failures left, and conclude a result.
    - Names: a name of length [n] has fuel [n + 1]; [splitter_ends] shows that every name ends.
    - Step relations have no bound: theorems hold for runs of any length, and the termination theorems
      bound the runs by a measure of the state they start in ([nsteps_measure]).

    ** Not modelled

    - Compiled otherwise: on other systems than Linux, Android and Windows the making of sockets differs
      in the flags of system calls; only the addresses they accept are modelled ([other_platforms]).
    - I/O only: build scripts. Examples and tests are not part of the program.
    - Libraries: protobuf and prost encodings, prost-build, the printing of tokens by quote and
      proc_macro2, [proto_name_to_rs] of the protobuf crate, tokio's and the kernel's scheduling.
    - Simplifications: atomics are sequentially consistent, also those the code reads Relaxed; names
      and addresses are ASCII where the code asks for letter case or white space; status codes are
      those of ttrpc.proto, but for [backends_agree]; [usize] counters do not wrap; logging is left out. *)
From Stdlib Require Export ZArith Lia.
From Stdlib Require Strings.Byte.
From stdpp Require Export base tactics gmap strings pretty numbers list.

#[global] Open Scope Z_scope.

Declare Scope ttrpc_scope.
Delimit Scope ttrpc_scope with ttrpc.
#[global] Open Scope ttrpc_scope.

(** ** Results and the state-and-error monad *)

(** Rust's [Result<A, E>], with the error type first so that it is a monad in its last argument. *)
Inductive res (E A : Type) : Type :=
  | Ok (a : A)
  | Err (e : E).
Arguments Ok {E A} a.
Arguments Err {E A} e.

#[global] Instance res_ret E : MRet (res E) := fun A a => Ok a.
#[global] Instance res_bind E : MBind (res E) :=
  fun A B f r => match r with Ok a => f a | Err e => Err e end.
#[global] Instance res_fmap E : FMap (res E) :=
  fun A B f r => match r with Ok a => Ok (f a) | Err e => Err e end.
#[global] Instance res_eq_dec E A `{EqDecision E, EqDecision A} : EqDecision (res E A).
Proof. solve_decision. Defined.

(** [Result::map_err]. *)
Definition map_err {E F A} (f : E -> F) (r : res E A) : res F A :=
  match r with Ok a => Ok a | Err e => Err (f e) end.

(** [Option::ok_or]. *)
Definition ok_or {E A} (o : option A) (e : E) : res E A :=
  match o with Some a => Ok a | None => Err e end.

Definition is_ok {E A} (r : res E A) : bool := match r with Ok _ => true | Err _ => false end.
Definition is_err {E A} (r : res E A) : bool := negb (is_ok r).

(** Code that mutates a state and may fail: the state is kept on both outcomes, as the
    mutations made before a [?] are. *)
Definition st (S E A : Type) : Type := S -> S * res E A.

#[global] Instance st_ret S E : MRet (st S E) := fun A a s => (s, Ok a).
#[global] Instance st_bind S E : MBind (st S E) :=
  fun A B f m s => match m s with (s', Ok a) => f a s' | (s', Err e) => (s', Err e) end.

Definition st_fail {S E A} (e : E) : st S E A := fun s => (s, Err e).
Definition st_lift {S E A} (r : res E A) : st S E A := fun s => (s, r).
Definition st_map_err {S E F A} (f : E -> F) (m : st S E A) : st S F A :=
  fun s => let '(s', r) := m s in (s', map_err f r).
Definition st_get {S E} : st S E S := fun s => (s, Ok s).
Definition st_modify {S E} (f : S -> S) : st S E unit := fun s => (f s, Ok tt).

Notation "m ?: f" := (st_map_err f m) (at level 59, left associativity) : ttrpc_scope.

(** Stateful, fallible code whose loops run on fuel: [None] is a run that has not ended. *)
Definition pst (S E A : Type) : Type := S -> option (S * res E A).

#[global] Instance pst_ret S E : MRet (pst S E) := fun A a s => Some (s, Ok a).
#[global] Instance pst_bind S E : MBind (pst S E) :=
  fun A B f m s => match m s with
                   | Some (s', Ok a) => f a s'
                   | Some (s', Err e) => Some (s', Err e)
                   | None => None
                   end.

Definition pst_fail {S E A} (e : E) : pst S E A := fun s => Some (s, Err e).
Definition pst_none {S E A} : pst S E A := fun _ => None.

(** ** Tactics *)

(** Destructs the scrutinee of a [match] in the goal or in a hypothesis. *)
Ltac case_match_in H :=
  match type of H with
  | context [match ?x with _ => _ end] => let E := fresh "Heq" in destruct x eqn:E
  end.

(** Splits conjunctions and existentials of the context. *)
Ltac deep_split :=
  repeat match goal with
  | H : _ /\ _ |- _ => destruct H
  | H : exists _, _ |- _ => destruct H
  | H : Ok _ = Ok _ |- _ => inv H
  | H : Err _ = Err _ |- _ => inv H
  | H : (_, _) = (_, _) |- _ => inv H
  | H : Some _ = Some _ |- _ => inv H
  end.

(** Unfolds the monads of this development and simplifies. *)
Ltac munfold :=
  unfold mret, mbind, res_ret, res_bind, st_ret, st_bind, st_fail, st_lift, st_map_err, map_err,
    ok_or, st_modify, st_get, is_err, pst_ret, pst_bind, pst_fail, pst_none in *.
Ltac msimpl := munfold; simplify_eq/=.

(** Runs a monadic definition by cases on its intermediate results. *)
Ltac mcases := repeat (msimpl; try done; first [case_match | case_decide]); msimpl.

(** ** Machine integers *)

Definition U8 : Z := 256.
Definition U32 : Z := 4294967296.
Definition U64 : Z := 18446744073709551616.

(** The Rust [as u8], [as u32], [as u64], [as i64] conversions. *)
Definition as_u8 (z : Z) : Z := z mod U8.
Definition as_u32 (z : Z) : Z := z mod U32.
Definition as_u64 (z : Z) : Z := z mod U64.
Definition as_i64 (z : Z) : Z :=
  let m := z mod U64 in if decide (m < U64 / 2) then m else m - U64.

Definition is_u8 (z : Z) : Prop := 0 <= z < U8.
Definition is_u32 (z : Z) : Prop := 0 <= z < U32.
Definition is_i64 (z : Z) : Prop := - (U64 / 2) <= z < U64 / 2.
#[global] Instance is_u8_dec z : Decision (is_u8 z) := _.
#[global] Instance is_u32_dec z : Decision (is_u32 z) := _.
#[global] Instance is_i64_dec z : Decision (is_i64 z) := _.

(** [n as u32] for a length. *)
Definition len {A} (l : list A) : Z := Z.of_nat (length l).
Definition len_u32 {A} (l : list A) : Z := as_u32 (len l).

Create HintDb ttrpc discriminated.
#[export] Hint Constants Transparent : ttrpc.
Create Rewrite HintDb ttrpc_len.

(** ** Bytes and big-endian integers *)

Abbreviation byte := Byte.byte.

#[global] Instance byte_eq_dec : EqDecision byte := Byte.byte_eq_dec.
#[global] Program Instance byte_countable : Countable byte :=
  inj_countable Byte.to_N Byte.of_N _.
Next Obligation. apply Byte.of_to_N. Qed.

(** A [u8] as a number, and the low eight bits of a number as a byte. *)
Definition byte_val (b : byte) : Z := Z.of_N (Byte.to_N b).
Definition byte_of (z : Z) : byte := default Byte.x00 (Byte.of_N (Z.to_N (as_u8 z))).

Lemma byte_val_range b : is_u8 (byte_val b).
Proof. unfold is_u8, byte_val, U8. pose proof (Byte.to_N_bounded b). lia. Qed.

Lemma byte_val_of z : byte_val (byte_of z) = as_u8 z.
Proof.
  unfold byte_of, byte_val.
  assert (0 <= as_u8 z < 256) as Hr by (apply Z.mod_pos_bound; done).
  destruct (Byte.of_N (Z.to_N (as_u8 z))) as [b|] eqn:E; simpl.
  - apply Byte.to_of_N in E. rewrite E. lia.
  - apply Byte.of_N_None_iff in E. lia.
Qed.

Lemma byte_of_val b : byte_of (byte_val b) = b.
Proof.
  unfold byte_of, byte_val, as_u8.
  pose proof (Byte.to_N_bounded b).
  rewrite Z.mod_small by (unfold U8; lia). by rewrite N2Z.id, Byte.of_to_N.
Qed.

(** The [n] low bytes of [z], most significant first ([to_be_bytes]). *)
Fixpoint be_bytes (n : nat) (z : Z) : list byte :=
  match n with
  | O => []
  | S n' => byte_of (z / 256 ^ Z.of_nat n') :: be_bytes n' z
  end.

(** The number a big-endian byte string denotes ([from_be_bytes]). *)
Fixpoint be_value (l : list byte) : Z :=
  match l with
  | [] => 0
  | b :: l' => byte_val b * 256 ^ len l' + be_value l'
  end.

Lemma length_be_bytes n z : length (be_bytes n z) = n.
Proof. induction n; simpl; congruence. Qed.

Lemma be_value_range l : 0 <= be_value l < 256 ^ len l.
Proof.
  induction l as [|b l IH]; [done|]. cbn [be_value].
  unfold len in *. cbn [length]. rewrite Nat2Z.inj_succ, Z.pow_succ_r by lia.
  pose proof (byte_val_range b) as Hb. unfold is_u8, U8 in Hb. nia.
Qed.

Lemma be_bytes_mod n z m :
  (n <= m)%nat -> be_bytes n (z mod 256 ^ Z.of_nat m) = be_bytes n z.
Proof.
  induction n as [|n IH]; intros Hn; [done|]. cbn [be_bytes]. f_equal; [|apply IH; lia].
  rewrite <- (byte_of_val (byte_of _)). symmetry. rewrite <- (byte_of_val (byte_of _)).
  f_equal. rewrite !byte_val_of. unfold as_u8, U8.
  replace (Z.of_nat m) with (Z.of_nat n + (1 + (Z.of_nat m - Z.of_nat n - 1))) by lia.
  rewrite Z.pow_add_r, Z.pow_add_r by lia. change (256 ^ 1) with 256.
  set (p := 256 ^ Z.of_nat n). set (q := 256 ^ (Z.of_nat m - Z.of_nat n - 1)).
  assert (0 < p) by (apply Z.pow_pos_nonneg; lia).
  assert (0 < q) by (apply Z.pow_pos_nonneg; lia).
  rewrite Z.rem_mul_r by lia.
  rewrite (Z.mul_comm p), Z.div_add by lia.
  rewrite (Z.div_small (z mod p)) by (apply Z.mod_pos_bound; done).
  rewrite Z.add_0_l, Z.rem_mul_r by lia. rewrite (Z.mul_comm 256 (_ mod q)), Z.mod_add by lia.
  by rewrite Z.mod_mod by lia.
Qed.

Lemma be_value_bytes n z : be_value (be_bytes n z) = z mod 256 ^ Z.of_nat n.
Proof.
  revert z. induction n as [|n IH]; intros z; [symmetry; apply Z.mod_1_r|].
  cbn [be_bytes be_value]. rewrite IH, byte_val_of. unfold len. rewrite length_be_bytes.
  rewrite Nat2Z.inj_succ, Z.pow_succ_r by lia.
  assert (0 < 256 ^ Z.of_nat n) by (apply Z.pow_pos_nonneg; lia).
  rewrite (Z.mul_comm 256), Z.rem_mul_r by lia. unfold as_u8, U8. lia.
Qed.

Lemma be_bytes_value l : be_bytes (length l) (be_value l) = l.
Proof.
  induction l as [|b l IH]; [done|]. cbn [be_bytes be_value length].
  fold (len l). pose proof (be_value_range l).
  rewrite (Z.add_comm (_ * _)), Z.div_add by (apply Z.pow_nonzero; unfold len; lia).
  rewrite Z.div_small, Z.add_0_l, byte_of_val by done. f_equal.
  rewrite <- (be_bytes_mod _ _ (length l)) by done. fold (len l).
  rewrite Z.mod_add by (apply Z.pow_nonzero; unfold len; lia).
  by rewrite Z.mod_small.
Qed.

Lemma be_bytes_4 z : is_u32 z -> be_value (be_bytes 4 z) = z.
Proof. intros Hz. rewrite be_value_bytes. by apply Z.mod_small. Qed.

(** ** Lists *)

Lemma take_drop_len {A} n (l : list A) : (n <= length l)%nat -> length (take n l) = n.
Proof. intros. rewrite length_take. lia. Qed.

Lemma len_nonneg {A} (l : list A) : 0 <= len l.
Proof. unfold len. lia. Qed.

Lemma len_app {A} (l k : list A) : len (l ++ k) = len l + len k.
Proof. unfold len. rewrite length_app. lia. Qed.

Lemma len_u32_small {A} (l : list A) : len l < U32 -> len_u32 l = len l.
Proof. intros. unfold len_u32, as_u32. rewrite Z.mod_small; [done|]. pose proof (len_nonneg l). lia. Qed.

#[export] Hint Rewrite @length_app @length_take @length_drop @length_be_bytes @length_replicate
  @length_fmap @len_app : ttrpc_len.
#[export] Hint Resolve len_nonneg byte_val_range : ttrpc.

(** Length goals over [++], [take], [drop] and the byte encodings. *)
Ltac len_solve := unfold len in *; autorewrite with ttrpc_len in *; simpl in *; lia.

Lemma take_app_exact {A} (l k : list A) n : length l = n -> take n (l ++ k) = l.
Proof. intros <-. apply take_app_length. Qed.
Lemma drop_app_exact {A} (l k : list A) n : length l = n -> drop n (l ++ k) = k.
Proof. intros <-. apply drop_app_length. Qed.

(** Splitting a list in two places is unique once the lengths agree. *)
Lemma app_split_inj {A} (a b c d : list A) : length a = length b -> a ++ c = b ++ d -> a = b /\ c = d.
Proof. intros Hl E. by apply app_inj_1. Qed.

(** ** Strings *)

(** [str::strip_prefix]. *)
Fixpoint strip_prefix (p s : string) : option string :=
  match p, s with
  | EmptyString, _ => Some s
  | String c p', String d s' => if decide (c = d) then strip_prefix p' s' else None
  | String _ _, EmptyString => None
  end.

Lemma strip_prefix_Some p s r : strip_prefix p s = Some r <-> s = (p +:+ r)%string.
Proof.
  revert s. induction p as [|c p IH]; intros s; simpl.
  { split; [by intros [= ->] | by intros ->]. }
  destruct s as [|d s]; [split; intros; discriminate|]. case_decide as Hc; [subst d|].
  - rewrite IH. split; [by intros -> | by intros [= ->]].
  - split; [done | intros [= ? ?]; done].
Qed.

Lemma strip_prefix_app p r : strip_prefix p (p +:+ r) = Some r.
Proof. by apply strip_prefix_Some. Qed.

(** [str::split(c)]: there is always one part more than separators. *)
Fixpoint split_char (c : Ascii.ascii) (s : string) : list string :=
  match s with
  | EmptyString => [EmptyString]
  | String a s' =>
      if decide (a = c) then EmptyString :: split_char c s'
      else match split_char c s' with
           | p :: ps => String a p :: ps
           | [] => [String a EmptyString]
           end
  end.

Fixpoint string_all (p : Ascii.ascii -> bool) (s : string) : bool :=
  match s with
  | EmptyString => true
  | String c s' => p c && string_all p s'
  end.

Lemma string_cons_app c s t : String c s +:+ t = String c (s +:+ t).
Proof. done. Qed.

Lemma string_app_nil_r s : s +:+ "" = s.
Proof. induction s as [|c s IH]; [done|]. by rewrite string_cons_app, IH. Qed.

Lemma string_app_assoc s t u : (s +:+ t) +:+ u = s +:+ (t +:+ u).
Proof. induction s as [|c s IH]; [done|]. by rewrite !string_cons_app, IH. Qed.

Lemma string_all_app p s t : string_all p (s +:+ t) = string_all p s && string_all p t.
Proof. induction s as [|c s IH]; simpl; [done|]. rewrite IH. apply andb_assoc. Qed.

Lemma string_all_mono (p q : Ascii.ascii -> bool) s :
  (forall c, p c = true -> q c = true) -> string_all p s = true -> string_all q s = true.
Proof.
  intros Hpq. induction s as [|c s IH]; cbn; [done|]. intros [Hc Hs]%andb_prop.
  by rewrite Hpq, IH.
Qed.

(** A string without the separator is one part. *)
Definition no_char (c : Ascii.ascii) : string -> bool := string_all (fun a => bool_decide (a <> c)).

Lemma split_char_none c s : no_char c s = true -> split_char c s = [s].
Proof.
  unfold no_char. induction s as [|a s IH]; cbn; [done|].
  intros [Ha%bool_decide_eq_true Hs]%andb_prop. rewrite decide_False by done. by rewrite IH.
Qed.

Lemma split_char_app c s t :
  no_char c s = true -> split_char c (s +:+ String c t) = s :: split_char c t.
Proof.
  unfold no_char. induction s as [|a s IH]; cbn [string_all].
  { intros _. change (EmptyString +:+ String c t) with (String c t). cbn [split_char].
    by rewrite decide_True. }
  intros [Ha%bool_decide_eq_true Hs]%andb_prop. rewrite string_cons_app. cbn [split_char].
  rewrite decide_False by done. by rewrite IH.
Qed.

(** Two parts only come from one separator. *)
Lemma split_char_nonempty c s : split_char c s <> [].
Proof. destruct s as [|a s]; cbn; [done|]. case_decide; [done|]. by destruct (split_char c s). Qed.

Lemma split_char_one c s p : split_char c s = [p] -> s = p.
Proof.
  revert p. induction s as [|a s IH]; intros p; cbn; [by intros [= <-]|].
  case_decide; [by intros [= _ ?%split_char_nonempty]|].
  destruct (split_char c s) as [|p' ps] eqn:E; [by apply split_char_nonempty in E|].
  intros [= <- ->]. by rewrite (IH p').
Qed.

Lemma split_char_two c s p q : split_char c s = [p; q] -> s = p +:+ String c q.
Proof.
  revert p. induction s as [|a s IH]; intros p; cbn; [done|]. case_decide as Ha.
  - intros [= <- Hq]. apply split_char_one in Hq as ->. by subst a.
  - destruct (split_char c s) as [|p' ps]; [done|]. intros [= <- ->]. by rewrite (IH p').
Qed.

Lemma split_char_app_list c s t : split_char c (s +:+ String c t) = split_char c s ++ split_char c t.
Proof.
  induction s as [|a s IH].
  { change (EmptyString +:+ String c t) with (String c t). cbn [split_char]. by rewrite decide_True. }
  rewrite string_cons_app. cbn [split_char]. case_decide; [by rewrite IH|].
  rewrite IH. pose proof (split_char_nonempty c s). by destruct (split_char c s).
Qed.

(** The double quote and the backslash characters. *)
Definition dquote : Ascii.ascii := Ascii.ascii_of_nat 34.
Definition backslash : Ascii.ascii := Ascii.ascii_of_nat 92.
Definition newline : Ascii.ascii := Ascii.ascii_of_nat 10.

Definition ascii_num (c : Ascii.ascii) : Z := Z.of_N (Ascii.N_of_ascii c).
Definition is_ascii_uppercase (c : Ascii.ascii) : bool :=
  bool_decide (65 <= ascii_num c <= 90).
Definition is_ascii_lowercase (c : Ascii.ascii) : bool :=
  bool_decide (97 <= ascii_num c <= 122).
Definition ascii_lower (c : Ascii.ascii) : Ascii.ascii :=
  if is_ascii_uppercase c then Ascii.ascii_of_N (Ascii.N_of_ascii c + 32) else c.
Definition ascii_upper (c : Ascii.ascii) : Ascii.ascii :=
  if is_ascii_lowercase c then Ascii.ascii_of_N (Ascii.N_of_ascii c - 32) else c.

Fixpoint string_map (f : Ascii.ascii -> Ascii.ascii) (s : string) : string :=
  match s with EmptyString => EmptyString | String c s' => String (f c) (string_map f s') end.

(** [to_lowercase] and [to_uppercase] of a string of ASCII characters. *)
Definition to_ascii_lowercase : string -> string := string_map ascii_lower.
Definition to_ascii_uppercase : string -> string := string_map ascii_upper.

Lemma ascii_lower_idemp c : ascii_lower (ascii_lower c) = ascii_lower c.
Proof. destruct c as [[] [] [] [] [] [] [] []]; reflexivity. Qed.

Lemma string_map_idemp f s : (forall c, f (f c) = f c) -> string_map f (string_map f s) = string_map f s.
Proof. intros Hf. induction s; simpl; congruence. Qed.

Lemma to_ascii_lowercase_idemp s : to_ascii_lowercase (to_ascii_lowercase s) = to_ascii_lowercase s.
Proof. apply string_map_idemp, ascii_lower_idemp. Qed.

(** [format!("{:?}", s)] of a [str]: the escapes of [char::escape_debug] for ASCII. *)
Definition debug_char (c : Ascii.ascii) : string :=
  let n := ascii_num c in
  if decide (c = dquote) then String backslash (String dquote EmptyString)
  else if decide (c = backslash) then String backslash (String backslash EmptyString)
  else if decide (n = 0) then String backslash "0"
  else if decide (n = 9) then String backslash "t"
  else if decide (n = 10) then String backslash "n"
  else if decide (n = 13) then String backslash "r"
  else String c EmptyString.

Fixpoint debug_chars (s : string) : string :=
  match s with EmptyString => EmptyString | String c s' => (debug_char c +:+ debug_chars s')%string end.

Definition debug_str (s : string) : string :=
  (String dquote (debug_chars s) +:+ String dquote EmptyString)%string.

(** ** Sums over tables, and bounded runs *)

Definition map_sum {K A} `{Countable K} (f : A -> nat) (m : gmap K A) : nat := sum_list_with (fun p => f p.2) (map_to_list m).

Lemma map_sum_empty {K A} `{Countable K} (f : A -> nat) : map_sum f (∅ : gmap K A) = O.
Proof. done. Qed.

Lemma map_sum_new {K A} `{Countable K} (f : A -> nat) (m : gmap K A) i x : m !! i = None -> map_sum f (<[i := x]> m) = (f x + map_sum f m)%nat.
Proof. intros Hi. unfold map_sum. by rewrite map_to_list_insert. Qed.

Lemma map_sum_update {K A} `{Countable K} (f : A -> nat) (m : gmap K A) i x y :
  m !! i = Some x -> (map_sum f (<[i := y]> m) + f x = map_sum f m + f y)%nat.
Proof.
  intros Hi. rewrite <- (insert_delete_id m i x Hi) at 2.
  rewrite <- insert_delete_eq, !map_sum_new by apply lookup_delete_eq. lia.
Qed.

Lemma map_sum_delete {K A} `{Countable K} (f : A -> nat) (m : gmap K A) i x :
  m !! i = Some x -> (map_sum f (delete i m) + f x = map_sum f m)%nat.
Proof.
  intros Hi. rewrite <- (insert_delete_id m i x Hi) at 2. rewrite map_sum_new by apply lookup_delete_eq. lia.
Qed.

Lemma sum_list_update {A} (f : A -> nat) (l : list A) i x y :
  l !! i = Some x -> (sum_list_with f (<[i := y]> l) + f x = sum_list_with f l + f y)%nat.
Proof.
  revert i. induction l as [|z l IH]; intros [|i] Hi; simpl in *; [done|done|simplify_eq; lia|].
  specialize (IH i Hi). lia.
Qed.

(** A relation whose every step, from where [P] holds, decreases [mu], has runs of at most [mu] steps. *)
Lemma nsteps_measure {A} (R : relation A) (P : A -> Prop) (mu : A -> nat) n x y :
  (forall a b, P a -> R a b -> P b /\ (mu b < mu a)%nat) ->
  P x -> nsteps R n x y -> P y /\ (n + mu y <= mu x)%nat.
Proof.
  intros Hd Hx Hn. induction Hn as [x|n x y z Hxy Hn IH]; [split; [done|lia]|].
  destruct (Hd _ _ Hx Hxy) as [Hy Hlt]. destruct (IH Hy) as [Hz Hle]. split; [done|lia].
Qed.
