(* ===== verification/Errors.v ===== *)
(** Error values and the wire messages (src/src/error.rs, src/src/ttrpc.proto and the backend
    neutral builders of src/src/proto.rs): the [Error] enumeration with its renderings, the
    [Code], [Status], [Request] and [Response] messages, and the conversions between them. *)
From S2P Require Import Prelude.

(** ** Protocol Buffers messages *)

(** [Code] of ttrpc.proto. *)
Inductive Code :=
  | OK | CANCELLED | UNKNOWN | INVALID_ARGUMENT | DEADLINE_EXCEEDED | NOT_FOUND
  | ALREADY_EXISTS | PERMISSION_DENIED | UNAUTHENTICATED | RESOURCE_EXHAUSTED
  | FAILED_PRECONDITION | ABORTED | OUT_OF_RANGE | UNIMPLEMENTED | INTERNAL | UNAVAILABLE
  | DATA_LOSS.

#[global] Instance Code_eq_dec : EqDecision Code.
Proof. solve_decision. Defined.

(** The wire number of a code. *)
Definition code_num (c : Code) : Z :=
  match c with
  | OK => 0 | CANCELLED => 1 | UNKNOWN => 2 | INVALID_ARGUMENT => 3 | DEADLINE_EXCEEDED => 4
  | NOT_FOUND => 5 | ALREADY_EXISTS => 6 | PERMISSION_DENIED => 7 | UNAUTHENTICATED => 16
  | RESOURCE_EXHAUSTED => 8 | FAILED_PRECONDITION => 9 | ABORTED => 10 | OUT_OF_RANGE => 11
  | UNIMPLEMENTED => 12 | INTERNAL => 13 | UNAVAILABLE => 14 | DATA_LOSS => 15
  end.

Definition all_codes : list Code :=
  [OK; CANCELLED; UNKNOWN; INVALID_ARGUMENT; DEADLINE_EXCEEDED; NOT_FOUND; ALREADY_EXISTS;
   PERMISSION_DENIED; UNAUTHENTICATED; RESOURCE_EXHAUSTED; FAILED_PRECONDITION; ABORTED;
   OUT_OF_RANGE; UNIMPLEMENTED; INTERNAL; UNAVAILABLE; DATA_LOSS].

Definition code_of_num (n : Z) : option Code :=
  head (filter (fun c => code_num c = n) all_codes).

Lemma code_of_num_num c : code_of_num (code_num c) = Some c.
Proof. by destruct c. Qed.

#[global] Program Instance Code_countable : Countable Code :=
  inj_countable code_num code_of_num _.
Next Obligation. apply code_of_num_num. Qed.

Record Any := MkAny { type_url : string; any_value : list byte }.
#[global] Instance Any_eq_dec : EqDecision Any.
Proof. solve_decision. Defined.

Record Status := MkStatus { code : Code; message : string; details : list Any }.
#[global] Instance Status_eq_dec : EqDecision Status.
Proof. solve_decision. Defined.

(** [Status::new()], the default message. *)
Definition Status_new : Status := MkStatus OK "" [].

Record KeyValue := MkKeyValue { key : string; value : string }.
#[global] Instance KeyValue_eq_dec : EqDecision KeyValue.
Proof. solve_decision. Defined.

Record Request := MkRequest {
  service : string;
  method : string;
  req_payload : list byte;
  timeout_nano : Z;
  metadata : list KeyValue }.
#[global] Instance Request_eq_dec : EqDecision Request.
Proof. solve_decision. Defined.

Definition Request_new : Request := MkRequest "" "" [] 0 [].

Record Response := MkResponse { status : option Status; res_payload : list byte }.
#[global] Instance Response_eq_dec : EqDecision Response.
Proof. solve_decision. Defined.

Definition Response_new : Response := MkResponse None [].

(** ** [RequestInit] and [ResponseInit] for the rust-protobuf backend *)

Definition init_request (service method : string) (timeout_nano : Z) (metadata : list KeyValue)
  : Request := MkRequest service method (req_payload Request_new) timeout_nano metadata.

Definition request_set_payload (r : Request) (payload : list byte) : Request :=
  MkRequest (service r) (method r) payload (timeout_nano r) (metadata r).

Definition init_status (s : Status) : Response := MkResponse (Some s) (res_payload Response_new).

Definition response_set_payload (r : Response) (payload : list byte) : Response :=
  MkResponse (status r) payload.

Definition response_set_status (r : Response) (s : Status) : Response :=
  MkResponse (Some s) (res_payload r).

(** [non_ok]: the generated accessor [status()] reads an absent message as the default one. *)
Definition non_ok (r : Response) : option Status :=
  let s := default Status_new (status r) in
  if decide (code s <> OK) then Some s else None.

(** ** The error enumeration *)

Inductive Error :=
  | Socket (s : string)
  | RpcStatus (s : Status)
  | Nix (errno : Z)
  | LocalClosed
  | RemoteClosed
  | Eof
  | Others (s : string).

#[global] Instance Error_eq_dec : EqDecision Error.
Proof. solve_decision. Defined.

(** [crate::error::Result]. *)
Abbreviation Result := (res Error).

(** Renderings produced by third-party code: the derived [Debug] of the generated [Status] and
    the texts of [nix::Error] and of [tokio::sync::mpsc::error::SendError]. *)
Class Texts := {
  status_debug : Status -> string;
  nix_display : Z -> string;
  nix_debug : Z -> string;
  tokio_send_error : string }.

Section Rendering.
Context `{Texts}.

(** The [#[error(...)]] texts, as [e.to_string()] gives them. *)
Definition error_display (e : Error) : string :=
  match e with
  | Socket s => "socket err: " +:+ s
  | RpcStatus s => "rpc status: " +:+ status_debug s
  | Nix n => "Nix error: " +:+ nix_display n
  | LocalClosed => "ttrpc err: local stream closed"
  | RemoteClosed => "ttrpc err: remote stream closed"
  | Eof => "eof"
  | Others s => "ttrpc err: " +:+ s
  end.

(** The derived [Debug] of the enumeration, as [format!("{:?}", e)] gives it. *)
Definition error_debug (e : Error) : string :=
  match e with
  | Socket s => "Socket(" +:+ debug_str s +:+ ")"
  | RpcStatus s => "RpcStatus(" +:+ status_debug s +:+ ")"
  | Nix n => "Nix(" +:+ nix_debug n +:+ ")"
  | LocalClosed => "LocalClosed"
  | RemoteClosed => "RemoteClosed"
  | Eof => "Eof"
  | Others s => "Others(" +:+ debug_str s +:+ ")"
  end.

Definition get_status (c : Code) (msg : string) : Status :=
  MkStatus c msg (details Status_new).

Definition get_rpc_status (c : Code) (msg : string) : Error := RpcStatus (get_status c msg).

(** [impl From<Error> for Response]. *)
Definition error_into_response (e : Error) : Response :=
  let s := match e with
           | RpcStatus s => s
           | _ => get_status UNKNOWN (error_display e)
           end in
  response_set_status Response_new s.

Definition SOCK_DICONNECTED : string := "socket disconnected".

(** [sock_error_msg]: a zero-byte read means that the peer is gone. *)
Definition sock_error_msg (size : Z) (msg : string) : Error :=
  if decide (size = 0) then Socket SOCK_DICONNECTED else get_rpc_status INVALID_ARGUMENT msg.

(** [err_to_others_err!(e, s)]. *)
Definition err_to_others_err (s : string) (e : string) : Error := Others (s +:+ e).

Lemma error_into_response_status e :
  status (error_into_response e) =
    Some (match e with RpcStatus s => s | _ => get_status UNKNOWN (error_display e) end).
Proof. done. Qed.

Lemma error_into_response_non_ok e :
  (forall s, e = RpcStatus s -> code s <> OK) ->
  non_ok (error_into_response e) = status (error_into_response e).
Proof.
  intros He. unfold non_ok. rewrite error_into_response_status. simpl.
  destruct e; try done. rewrite decide_True; naive_solver.
Qed.
End Rendering.
