(* ===== verification/Wire.v ===== *)
(** The wire framing (src/src/proto.rs): message headers and their ten byte encoding, untyped and
    typed frames, and the asynchronous frame reader and writer over an abstract byte stream. *)
From S2P Require Import Prelude Errors.

(** ** Constants *)

Definition MESSAGE_HEADER_LENGTH : nat := 10.
Definition MESSAGE_LENGTH_MAX : Z := Z.shiftl 4 20.
Definition DEFAULT_PAGE_SIZE : nat := 4096.

Definition MESSAGE_TYPE_REQUEST : Z := 1.
Definition MESSAGE_TYPE_RESPONSE : Z := 2.
Definition MESSAGE_TYPE_DATA : Z := 3.

Definition FLAG_REMOTE_CLOSED : Z := 1.
Definition FLAG_REMOTE_OPEN : Z := 2.
Definition FLAG_NO_DATA : Z := 4.

(** [check_oversize(len, return_rpc_error)]. *)
Definition oversize_msg (n : Z) : string :=
  "message length " +:+ pretty n +:+ " exceed maximum message size of " +:+ pretty MESSAGE_LENGTH_MAX.

Definition check_oversize (n : Z) (return_rpc_error : bool) : Result unit :=
  if decide (n > MESSAGE_LENGTH_MAX) then
    Err (if return_rpc_error then get_rpc_status INVALID_ARGUMENT (oversize_msg n)
         else Others (oversize_msg n))
  else Ok tt.

Lemma check_oversize_ok n b : check_oversize n b = Ok tt <-> n <= MESSAGE_LENGTH_MAX.
Proof. unfold check_oversize. case_decide; split; intros; try done; lia. Qed.

Lemma check_oversize_err n b : n > MESSAGE_LENGTH_MAX ->
  check_oversize n b = Err (if b then get_rpc_status INVALID_ARGUMENT (oversize_msg n)
                            else Others (oversize_msg n)).
Proof. unfold check_oversize. case_decide; intros; [done|lia]. Qed.

(** ** Message headers *)

Record MessageHeader := MkHeader {
  h_length : Z;    (* u32 *)
  stream_id : Z;   (* u32 *)
  type_ : Z;       (* u8 *)
  flags : Z        (* u8 *) }.

#[global] Instance MessageHeader_eq_dec : EqDecision MessageHeader.
Proof. solve_decision. Defined.

(** The field ranges, which the Rust field types enforce. *)
Definition wf_header (h : MessageHeader) : Prop :=
  is_u32 (h_length h) /\ is_u32 (stream_id h) /\ is_u8 (type_ h) /\ is_u8 (flags h).

Definition default_header : MessageHeader := MkHeader 0 0 0 0.

(** The derived [Debug]. *)
Definition header_debug (h : MessageHeader) : string :=
  "MessageHeader { length: " +:+ pretty (h_length h) +:+ ", stream_id: " +:+ pretty (stream_id h)
  +:+ ", type_: " +:+ pretty (type_ h) +:+ ", flags: " +:+ pretty (flags h) +:+ " }".

(** [MessageHeader::from(buf)]; [None] stands for the panic of the slice indexing on a short
    buffer. *)
Definition header_from (buf : list byte) : option MessageHeader :=
  match buf with
  | l0 :: l1 :: l2 :: l3 :: s0 :: s1 :: s2 :: s3 :: t :: f :: _ =>
      Some (MkHeader (be_value [l0; l1; l2; l3]) (be_value [s0; s1; s2; s3])
                     (byte_val t) (byte_val f))
  | _ => None
  end.

(** [buf[off..off + src.len()].copy_from_slice(src)] on a range inside the buffer. *)
Definition splice (off : nat) (src buf : list byte) : list byte :=
  take off buf ++ src ++ drop (off + length src) buf.

(** [MessageHeader::into_buf], for a buffer of at least [MESSAGE_HEADER_LENGTH] bytes: the
    [debug_assert!] of the source, which [into_buf_callers] discharges for every caller. *)
Definition into_buf (h : MessageHeader) (buf : list byte) : list byte :=
  let buf := splice 0 (be_bytes 4 (h_length h)) buf in
  let buf := splice 4 (be_bytes 4 (stream_id h)) buf in
  let buf := splice 8 [byte_of (type_ h)] buf in
  splice 9 [byte_of (flags h)] buf.

(** [Vec::<u8>::from(mh)]. *)
Definition header_into_vec (h : MessageHeader) : list byte :=
  into_buf h (replicate MESSAGE_HEADER_LENGTH Byte.x00).

Definition header_new_request (sid n : Z) : MessageHeader := MkHeader n sid MESSAGE_TYPE_REQUEST 0.
Definition header_new_response (sid n : Z) : MessageHeader := MkHeader n sid MESSAGE_TYPE_RESPONSE 0.
Definition header_new_data (sid n : Z) : MessageHeader := MkHeader n sid MESSAGE_TYPE_DATA 0.

Definition set_stream_id (h : MessageHeader) (sid : Z) : MessageHeader :=
  MkHeader (h_length h) sid (type_ h) (flags h).
Definition set_flags (h : MessageHeader) (f : Z) : MessageHeader :=
  MkHeader (h_length h) (stream_id h) (type_ h) f.
Definition add_flags (h : MessageHeader) (f : Z) : MessageHeader :=
  MkHeader (h_length h) (stream_id h) (type_ h) (Z.lor (flags h) f).
(** The assignment [header.length = n]. *)
Definition set_length (h : MessageHeader) (n : Z) : MessageHeader :=
  MkHeader n (stream_id h) (type_ h) (flags h).

(** [(flags & f) == f]. *)
Definition has_flag (h : MessageHeader) (f : Z) : bool := bool_decide (Z.land (flags h) f = f).

(** ** Stream ids

    Both clients number their streams 1, 3, 5, ... in a [u32]. *)
Definition nth_id (i : nat) : Z := as_u32 (1 + 2 * Z.of_nat i).

Lemma nth_id_S n : nth_id (S n) = as_u32 (nth_id n + 2).
Proof.
  unfold nth_id, as_u32. rewrite Z.add_mod_idemp_l by done. f_equal. lia.
Qed.

Lemma nth_id_inj i j :
  Z.of_nat i < U32 / 2 -> Z.of_nat j < U32 / 2 -> nth_id i = nth_id j -> i = j.
Proof.
  unfold nth_id, as_u32. change (U32 / 2) with 2147483648. unfold U32. intros Hi Hj.
  rewrite !Z.mod_small by lia. lia.
Qed.

Lemma nth_id_odd i : is_u32 (nth_id i) /\ nth_id i mod 2 = 1.
Proof.
  unfold nth_id, as_u32. split; [by apply Z.mod_pos_bound|].
  change U32 with (2 * 2147483648). rewrite Z.rem_mul_r by lia.
  rewrite (Z.mul_comm 2 (_ mod 2147483648)), Z.mod_add by lia. rewrite Z.mod_mod by lia.
  rewrite (Z.mul_comm 2), Z.mod_add by lia. done.
Qed.

(** The ten header bytes. *)
Definition header_bytes (h : MessageHeader) : list byte :=
  be_bytes 4 (h_length h) ++ be_bytes 4 (stream_id h) ++ [byte_of (type_ h); byte_of (flags h)].

Lemma length_header_bytes h : length (header_bytes h) = MESSAGE_HEADER_LENGTH.
Proof. done. Qed.

(** On a buffer that can hold a header, [into_buf] overwrites exactly its first ten bytes. *)
Lemma into_buf_spec h buf :
  (MESSAGE_HEADER_LENGTH <= length buf)%nat ->
  into_buf h buf = header_bytes h ++ drop MESSAGE_HEADER_LENGTH buf.
Proof.
  intros Hl. do 10 (destruct buf as [|? buf]; [simpl in Hl; unfold MESSAGE_HEADER_LENGTH in Hl; lia|]).
  done.
Qed.

Lemma header_into_vec_spec h : header_into_vec h = header_bytes h.
Proof. unfold header_into_vec. rewrite into_buf_spec; [|done]. by rewrite app_nil_r. Qed.

Lemma header_from_bytes h rest : wf_header h -> header_from (header_bytes h ++ rest) = Some h.
Proof.
  intros (Hl & Hs & Ht & Hf). destruct h as [l s t f]; cbn [h_length stream_id type_ flags] in *.
  pose proof (be_bytes_4 l Hl) as El. pose proof (be_bytes_4 s Hs) as Es.
  unfold header_bytes; cbn [h_length stream_id type_ flags].
  pose proof (length_be_bytes 4 l) as Ll. pose proof (length_be_bytes 4 s) as Ls.
  destruct (be_bytes 4 l) as [|? [|? [|? [|? [|]]]]]; try done.
  destruct (be_bytes 4 s) as [|? [|? [|? [|? [|]]]]]; try done.
  unfold header_from; cbn [app]. rewrite El, Es, !byte_val_of. unfold as_u8.
  by rewrite !Z.mod_small.
Qed.

Lemma header_from_wf buf h : header_from buf = Some h -> wf_header h.
Proof.
  unfold header_from. intros E.
  do 10 (destruct buf as [|? buf]; [done|]). simplify_eq.
  unfold wf_header; cbn [h_length stream_id type_ flags]. repeat split;
    try apply byte_val_range; apply be_value_range.
Qed.

Lemma header_from_inv buf h :
  header_from buf = Some h -> buf = header_bytes h ++ drop MESSAGE_HEADER_LENGTH buf.
Proof.
  unfold header_from. intros E.
  do 10 (destruct buf as [|? buf]; [done|]). simplify_eq.
  unfold header_bytes; cbn [h_length stream_id type_ flags].
  change 4%nat with (length [b; b0; b1; b2]) at 1.
  change 4%nat with (length [b3; b4; b5; b6]) at 1.
  rewrite !be_bytes_value, !byte_of_val. done.
Qed.

Lemma header_from_short buf : (length buf < MESSAGE_HEADER_LENGTH)%nat <-> header_from buf = None.
Proof.
  split; intros H.
  - do 10 (destruct buf as [|? buf]; [done|]). simpl in H. unfold MESSAGE_HEADER_LENGTH in H. lia.
  - do 10 (destruct buf as [|? buf]; [simpl; unfold MESSAGE_HEADER_LENGTH; lia|]). done.
Qed.

Lemma header_from_exact buf :
  length buf = MESSAGE_HEADER_LENGTH -> exists h, header_from buf = Some h /\ buf = header_bytes h.
Proof.
  intros Hl. destruct (header_from buf) as [h|] eqn:E.
  - exists h. split; [done|]. apply header_from_inv in E as E'.
    rewrite drop_ge, app_nil_r in E' by (unfold MESSAGE_HEADER_LENGTH in *; lia). done.
  - apply header_from_short in E. lia.
Qed.

(** The ten byte encoding of a header is its own inverse in both directions: writing a header
    with in-range fields into any buffer that can hold it and reading the buffer back gives the same
    header, the bytes after the first ten being kept; and the header read from ten bytes is in range
    and is written back as those ten bytes. *)
Theorem header_roundtrip (h : MessageHeader) (buf bytes : list byte) :
  wf_header h -> (MESSAGE_HEADER_LENGTH <= length buf)%nat -> length bytes = MESSAGE_HEADER_LENGTH ->
  header_from (into_buf h buf) = Some h /\
  drop MESSAGE_HEADER_LENGTH (into_buf h buf) = drop MESSAGE_HEADER_LENGTH buf /\
  exists h', header_from bytes = Some h' /\ wf_header h' /\ header_into_vec h' = bytes.
Proof.
  intros Hwf Hbuf Hbytes. rewrite into_buf_spec by done. split_and!.
  - by apply header_from_bytes.
  - apply drop_app_exact, length_header_bytes.
  - destruct (header_from_exact bytes Hbytes) as (h' & E & Eb). exists h'.
    rewrite header_into_vec_spec. eauto using header_from_wf.
Qed.

Lemma header_roundtrip_witness :
  let h := MkHeader 4194304 4294967295 2 3 in
  header_from (into_buf h (replicate 12 Byte.xff)) = Some h /\
  drop MESSAGE_HEADER_LENGTH (into_buf h (replicate 12 Byte.xff)) = [Byte.xff; Byte.xff] /\
  exists h', header_from (replicate 10 Byte.x01) = Some h' /\ wf_header h' /\
             header_into_vec h' = replicate 10 Byte.x01.
Proof. apply (header_roundtrip _ (replicate 12 Byte.xff));
  [by vm_compute | apply Nat.leb_le; reflexivity | done]. Defined.

#[global] Opaque header_bytes header_from into_buf.
#[global] Arguments check_oversize : simpl never.
#[global] Arguments oversize_msg : simpl never.
#[global] Arguments MESSAGE_LENGTH_MAX : simpl never.
#[global] Arguments MESSAGE_HEADER_LENGTH : simpl never.
#[global] Arguments DEFAULT_PAGE_SIZE : simpl never.
