(* ===== verification/Codec.v ===== *)
(** The [Codec] trait of src/src/proto.rs as an interface, the laws the runtime relies on, and two
    lawful codecs: raw bytes, and any countable type (which makes the interface inhabited at the
    request and response messages). *)
From S2P Require Import Prelude Errors Wire.

(** [trait Codec]. Its implementations encode with the protobuf or prost crates, so they are
    parameters; the associated error type is read only through its [Display] text. *)
Class Codec (C : Type) := {
  codec_size : C -> Z;
  codec_encode : C -> res string (list byte);
  codec_decode : list byte -> res string C;
  codec_merge : C -> list byte -> C * res string unit }.

(** What the protobuf libraries document: the size is the length of the encoding truncated to 32
    bits, and decoding inverts encoding. *)
Class CodecLaws (C : Type) `{Codec C} : Prop := {
  codec_size_encode : forall c b, codec_encode c = Ok b -> codec_size c = len_u32 b;
  codec_decode_encode : forall c b, codec_encode c = Ok b -> codec_decode b = Ok c }.

(** Payloads that are bytes already. *)
#[global] Instance bytes_codec : Codec (list byte) := {
  codec_size := len_u32;
  codec_encode := Ok;
  codec_decode := Ok;
  codec_merge := fun c b => (c ++ b, Ok tt) }.
#[global] Instance bytes_codec_laws : CodecLaws (list byte).
Proof. split; intros; simplify_eq/=; done. Qed.

(** ** A lawful codec for every countable type *)
Section Countable.
Context {C : Type} `{Countable C}.

(** The binary digits of a positive, least significant first, one per byte. *)
Fixpoint pos_bytes (p : positive) : list byte :=
  match p with
  | xH => []
  | xO p' => Byte.x00 :: pos_bytes p'
  | xI p' => Byte.x01 :: pos_bytes p'
  end.

Fixpoint bytes_pos (l : list byte) : positive :=
  match l with
  | [] => xH
  | b :: l' => if decide (b = Byte.x00) then xO (bytes_pos l') else xI (bytes_pos l')
  end.

Lemma bytes_pos_bytes p : bytes_pos (pos_bytes p) = p.
Proof. induction p; simpl; congruence. Qed.

Definition countable_encode (c : C) : list byte := pos_bytes (encode c).
Definition countable_decode (b : list byte) : res string C :=
  ok_or (decode (bytes_pos b)) "invalid encoding".

Definition countable_codec : Codec C := {|
  codec_size := fun c => len_u32 (countable_encode c);
  codec_encode := fun c => Ok (countable_encode c);
  codec_decode := countable_decode;
  codec_merge := fun c b =>
    match countable_decode b with Ok c' => (c', Ok tt) | Err e => (c, Err e) end |}.

Lemma countable_codec_laws : @CodecLaws C countable_codec.
Proof.
  split; intros c b E; simplify_eq/=; [done|].
  unfold countable_decode, countable_encode. by rewrite bytes_pos_bytes, decode_encode.
Qed.
End Countable.

(** ** Countable instances of the messages *)

#[global] Program Instance Any_countable : Countable Any :=
  inj_countable' (fun a => (type_url a, any_value a)) (fun p => MkAny p.1 p.2) _.
Next Obligation. by intros []. Qed.
#[global] Program Instance Status_countable : Countable Status :=
  inj_countable' (fun s => (code s, message s, details s)) (fun p => MkStatus p.1.1 p.1.2 p.2) _.
Next Obligation. by intros []. Qed.
#[global] Program Instance KeyValue_countable : Countable KeyValue :=
  inj_countable' (fun k => (key k, value k)) (fun p => MkKeyValue p.1 p.2) _.
Next Obligation. by intros []. Qed.
#[global] Program Instance Request_countable : Countable Request :=
  inj_countable' (fun r => (service r, method r, req_payload r, timeout_nano r, metadata r))
    (fun p => MkRequest p.1.1.1.1 p.1.1.1.2 p.1.1.2 p.1.2 p.2) _.
Next Obligation. by intros []. Qed.
#[global] Program Instance Response_countable : Countable Response :=
  inj_countable' (fun r => (status r, res_payload r)) (fun p => MkResponse p.1 p.2) _.
Next Obligation. by intros []. Qed.

Definition request_codec : Codec Request := countable_codec.
Definition response_codec : Codec Response := countable_codec.
Lemma request_codec_laws : @CodecLaws Request request_codec.
Proof. apply countable_codec_laws. Qed.
Lemma response_codec_laws : @CodecLaws Response response_codec.
Proof. apply countable_codec_laws. Qed.
