(* ===== verification/Backends.v ===== *)
(** The two backends of src/src/proto.rs: the implementations of [Codec] over the messages of
    rust-protobuf and of prost, and of [RequestInit] and [ResponseInit], on messages as they are
    after decoding, where a status code can be any number. *)
From S2P Require Import Prelude Errors Wire Codec.

(** ** [Codec] *)

(** What the libraries offer on a message. A [CodedOutputStream] over a slice writes into the slice:
    the result is what the slice holds after [flush]. *)
Class ProtobufMessage (M : Type) := {
  compute_size : M -> Z;
  write_to : M -> list byte -> res string (list byte);
  parse_from : list byte -> res string M;
  merge_from_bytes : M -> list byte -> M * res string unit }.
Class ProstMessage (M : Type) := {
  encoded_len : M -> Z;
  encode_to_vec : M -> list byte;
  prost_decode : list byte -> res string M;
  prost_merge : M -> list byte -> M * res string unit }.

(** The computed size is that of the encoding, which fills a slice of that size when it can be
    written, and which is parsed to the message. *)
Class ProtobufLaws (M : Type) `{ProtobufMessage M} := {
  wire_bytes : M -> list byte;
  compute_size_bytes : forall m, compute_size m = len (wire_bytes m);
  write_to_bytes : forall m buf b, length buf = length (wire_bytes m) -> write_to m buf = Ok b -> b = wire_bytes m;
  parse_from_bytes : forall m, parse_from (wire_bytes m) = Ok m }.
Class ProstLaws (M : Type) `{ProstMessage M} : Prop := {
  encoded_len_bytes : forall m, encoded_len m = len (encode_to_vec m);
  prost_decode_bytes : forall m, prost_decode (encode_to_vec m) = Ok m }.

(** [impl<M: protobuf::Message> Codec for M]. *)
Definition protobuf_encode {M} `{ProtobufMessage M} (m : M) : res string (list byte) :=
  write_to m (replicate (Z.to_nat (compute_size m)) Byte.x00).
Definition protobuf_codec (M : Type) `{ProtobufMessage M} : Codec M := {|
  codec_size := fun m => as_u32 (compute_size m);
  codec_encode := protobuf_encode;
  codec_decode := parse_from;
  codec_merge := merge_from_bytes |}.

(** [impl<M: prost::Message + Default> Codec for M]. *)
Definition prost_codec (M : Type) `{ProstMessage M} : Codec M := {|
  codec_size := fun m => as_u32 (encoded_len m);
  codec_encode := fun m => Ok (encode_to_vec m);
  codec_decode := prost_decode;
  codec_merge := prost_merge |}.

Lemma protobuf_encode_bytes {M} `{ProtobufLaws M} (m : M) b : protobuf_encode m = Ok b -> b = wire_bytes m.
Proof.
  unfold protobuf_encode. rewrite compute_size_bytes. apply write_to_bytes.
  rewrite length_replicate. unfold len. lia.
Qed.

(** Both are what the runtime asks of a codec. *)
Lemma protobuf_codec_laws {M} `{ProtobufLaws M} : @CodecLaws M (protobuf_codec M).
Proof.
  split; cbn; intros m b ->%protobuf_encode_bytes; [by rewrite compute_size_bytes|apply parse_from_bytes].
Qed.
Lemma prost_codec_laws {M} `{ProstLaws M} : @CodecLaws M (prost_codec M).
Proof. split; cbn; intros m b [= <-]; [by rewrite encoded_len_bytes|apply prost_decode_bytes]. Qed.

(** ** Responses after decoding *)

Record WireStatus := MkWireStatus { w_code : Z; w_message : string; w_details : list Any }.
Record WireResponse := MkWireResponse { w_status : option WireStatus; w_payload : list byte }.
Definition WireStatus_new : WireStatus := MkWireStatus 0 "" [].
Definition WireResponse_new : WireResponse := MkWireResponse None [].

Definition wire_status (s : Status) : WireStatus := MkWireStatus (code_num (code s)) (message s) (details s).
Definition wire_response (r : Response) : WireResponse := MkWireResponse (wire_status <$> status r) (res_payload r).

(** [EnumOrUnknown::enum_value_or] of rust-protobuf, which its accessor [code()] uses with [OK]. *)
Class EnumOrUnknown := { enum_value_or : Z -> Code -> Code }.
Class EnumOrUnknownLaws `{EnumOrUnknown} : Prop := {
  enum_value_or_spec : forall n d, enum_value_or n d = default d (code_of_num n) }.

(** [RequestInit] and [ResponseInit] of prost. *)
Definition prost_init_request (service method : string) (timeout_nano : Z) (metadata : list KeyValue) : Request :=
  MkRequest service method (req_payload Request_new) timeout_nano metadata.
Definition prost_request_set_payload (r : Request) (payload : list byte) : Request :=
  MkRequest (service r) (method r) payload (timeout_nano r) (metadata r).
Definition prost_init_status (s : WireStatus) : WireResponse := MkWireResponse (Some s) (w_payload WireResponse_new).
Definition prost_response_set_payload (r : WireResponse) (payload : list byte) : WireResponse :=
  MkWireResponse (w_status r) payload.
Definition prost_response_set_status (r : WireResponse) (s : WireStatus) : WireResponse :=
  MkWireResponse (Some s) (w_payload r).
Definition prost_non_ok (r : WireResponse) : option WireStatus :=
  s ← w_status r; if decide (w_code s <> code_num OK) then Some s else None.

(** [non_ok] of rust-protobuf, on any code; the accessor [status()] reads an absent status as the default one. *)
Definition protobuf_non_ok `{EnumOrUnknown} (r : WireResponse) : option WireStatus :=
  let s := default WireStatus_new (w_status r) in
  if decide (enum_value_or (w_code s) OK <> OK) then Some s else None.

Lemma code_num_inj c c' : code_num c = code_num c' -> c = c'.
Proof. intros E. apply (inj Some). by rewrite <- !code_of_num_num, E. Qed.

Lemma code_of_num_spec n c : code_of_num n = Some c -> code_num c = n.
Proof.
  unfold code_of_num. intros Hh. destruct (filter _ all_codes) as [|c' l] eqn:E; [done|]. cbn in Hh. simplify_eq.
  assert (c ∈ filter (fun c => code_num c = n) all_codes) as Hin by (rewrite E; left).
  by apply list_elem_of_filter in Hin as [? _].
Qed.

(** ** Properties *)

(** C40: what a caller takes for an error does not depend on the backend for the codes of ttrpc.proto:
    the builders of prost make the messages that those of rust-protobuf make, and both backends see
    the error that the response model has. A code that ttrpc.proto does not know is an error for
    prost; rust-protobuf reads it as [OK], so that the caller is given the response as a success. *)
Theorem backends_agree `{EnumOrUnknownLaws} :
  (forall service method timeout metadata p,
     prost_request_set_payload (prost_init_request service method timeout metadata) p =
       request_set_payload (init_request service method timeout metadata) p) /\
  (forall s, prost_init_status (wire_status s) = wire_response (init_status s)) /\
  (forall r p, prost_response_set_payload (wire_response r) p = wire_response (response_set_payload r p)) /\
  (forall r s, prost_response_set_status (wire_response r) (wire_status s) = wire_response (response_set_status r s)) /\
  (forall r, prost_non_ok (wire_response r) = wire_status <$> non_ok r /\
             protobuf_non_ok (wire_response r) = wire_status <$> non_ok r) /\
  (forall r s, w_status r = Some s -> code_of_num (w_code s) = None ->
     prost_non_ok r = Some s /\ protobuf_non_ok r = None) /\
  (forall r, prost_non_ok r = protobuf_non_ok r <->
     forall s, w_status r = Some s -> is_Some (code_of_num (w_code s))).
Proof.
  assert (forall r s, w_status r = Some s -> code_of_num (w_code s) = None ->
    prost_non_ok r = Some s /\ protobuf_non_ok r = None) as Hunknown.
  { intros r s Hs Hc. unfold prost_non_ok, protobuf_non_ok. rewrite Hs. cbn. rewrite enum_value_or_spec, Hc. cbn.
    split; [|by rewrite decide_False by (intros []; done)]. apply decide_True. intros E. by rewrite E in Hc. }
  split_and!; [done|done|done|done| |exact Hunknown|].
  - intros r. unfold prost_non_ok, protobuf_non_ok, non_ok, wire_response. cbn [w_status].
    destruct (status r) as [s|]; cbn; rewrite enum_value_or_spec; [|by split]. rewrite code_of_num_num.
    cbn [default from_option id]. destruct (decide (code s = OK)) as [E|E].
    + rewrite E. by rewrite !decide_False by (intros []; done).
    + by rewrite !decide_True by (done || by intros ?%(code_num_inj _ OK)).
  - intros r. split.
    + intros E s Hs. destruct (code_of_num (w_code s)) as [c|] eqn:Hc; [done|].
      destruct (Hunknown r s Hs Hc) as [E1 E2]. by rewrite E1, E2 in E.
    + intros Hk. unfold prost_non_ok, protobuf_non_ok. destruct (w_status r) as [s|] eqn:Hs; cbn;
        rewrite enum_value_or_spec; [|done].
      destruct (Hk s eq_refl) as [c Hc]. rewrite Hc. cbn. apply code_of_num_spec in Hc. rewrite <- Hc.
      destruct (decide (c = OK)) as [->|Hne]; [by rewrite !decide_False by (intros []; done)|].
      rewrite !decide_True; [done|exact Hne|by intros E%(code_num_inj _ OK)].
Qed.

Section Witness.
Local Instance enum_instance : EnumOrUnknown := { enum_value_or := fun n d => default d (code_of_num n) }.
Local Instance enum_instance_laws : EnumOrUnknownLaws.
Proof. by split. Qed.

(** Code 77 of a newer peer. *)
Lemma backends_agree_witness :
  let r := MkWireResponse (Some (MkWireStatus 77 "quota" [])) [] in
  prost_non_ok r = Some (MkWireStatus 77 "quota" []) /\ protobuf_non_ok r = None /\ prost_non_ok r <> protobuf_non_ok r.
Proof.
  intros r. destruct backends_agree as (_ & _ & _ & _ & _ & Hu & _).
  destruct (Hu r _ eq_refl eq_refl) as [E1 E2]. split_and!; [exact E1|exact E2|]. by rewrite E1, E2.
Defined.
End Witness.
