(* ===== verification/AsyncIO.v ===== *)
(** Byte streams as the runtime uses them: the reading and writing operations of
    [tokio::io::AsyncReadExt] and [AsyncWriteExt] as interfaces with the laws tokio documents, and
    the in-memory streams that satisfy them. *)
From S2P Require Import Prelude.

(** [read_exact(&mut [0; n])]; an [io::Error] is observed only through its text. [source] is the
    byte sequence the peer will have sent from here on (specification only). *)
Class AsyncRead (R : Type) := {
  read_exact : nat -> st R string (list byte);
  source : R -> list byte }.

(** A successful [read_exact] fills the buffer with the next bytes of the stream. *)
Class AsyncReadLaws (R : Type) `{AsyncRead R} : Prop := {
  read_exact_ok : forall n r r' b,
    read_exact n r = (r', Ok b) -> length b = n /\ source r = b ++ source r' }.

(** A transport that does not fail while bytes are left, and reports the end of the stream. *)
Class ReliableRead (R : Type) `{AsyncRead R} : Prop := {
  read_exact_enough : forall n r,
    (n <= length (source r))%nat -> exists r' b, read_exact n r = (r', Ok b);
  read_exact_short : forall n r,
    (length (source r) < n)%nat -> exists r' e, read_exact n r = (r', Err e) }.

(** [write_all] and [flush]; [sent] is what has reached the transport (specification only). *)
Class AsyncWrite (W : Type) := {
  write_all : list byte -> st W string unit;
  flush : st W string unit;
  sent : W -> list byte }.

(** [write_all] writes the whole buffer in order, or fails after a prefix of it. *)
Class AsyncWriteLaws (W : Type) `{AsyncWrite W} : Prop := {
  write_all_ok : forall b w w', write_all b w = (w', Ok tt) -> sent w' = sent w ++ b;
  write_all_err : forall b w w' e, write_all b w = (w', Err e) ->
    exists p, p `prefix_of` b /\ sent w' = sent w ++ p;
  flush_sent : forall w w' r, flush w = (w', r) -> sent w' = sent w }.

Class ReliableWrite (W : Type) `{AsyncWrite W} : Prop := {
  write_all_total : forall b w, exists w', write_all b w = (w', Ok tt);
  flush_total : forall w, exists w', flush w = (w', Ok tt) }.

(** ** In-memory streams *)

Record MemReader := MkMemReader { mem_source : list byte }.

Definition mem_read_exact (n : nat) : st MemReader string (list byte) := fun r =>
  if decide (n <= length (mem_source r))%nat
  then (MkMemReader (drop n (mem_source r)), Ok (take n (mem_source r)))
  else (MkMemReader [], Err "early eof").

#[global] Instance mem_reader : AsyncRead MemReader :=
  { read_exact := mem_read_exact; source := mem_source }.

#[global] Instance mem_reader_laws : AsyncReadLaws MemReader.
Proof.
  split. intros n r r' b. simpl. unfold mem_read_exact. case_decide; intros; simplify_eq/=.
  split; [rewrite length_take; lia | by rewrite take_drop].
Qed.

#[global] Instance mem_reader_reliable : ReliableRead MemReader.
Proof.
  split; intros n r; simpl; unfold mem_read_exact; intros Hn.
  - rewrite decide_True by done. eauto.
  - rewrite decide_False by lia. eauto.
Qed.

Record MemWriter := MkMemWriter { mem_sent : list byte; mem_flushes : nat }.

#[global] Instance mem_writer : AsyncWrite MemWriter := {
  write_all := fun b w => (MkMemWriter (mem_sent w ++ b) (mem_flushes w), Ok tt);
  flush := fun w => (MkMemWriter (mem_sent w) (S (mem_flushes w)), Ok tt);
  sent := mem_sent }.

#[global] Instance mem_writer_laws : AsyncWriteLaws MemWriter.
Proof. split; intros; simplify_eq/=; done. Qed.

#[global] Instance mem_writer_reliable : ReliableWrite MemWriter.
Proof. split; intros; simpl; eauto. Qed.
