(* ===== verification/Frame.v ===== *)
(** Frames (src/src/proto.rs): [GenMessage] and [Message<C>], the asynchronous frame reader with
    its oversize handling, and the frame writer with its bounded prefix buffer. *)
From S2P Require Import Prelude Errors Wire Codec AsyncIO.

(** ** Frames *)

Record GenMessage := MkGen { header : MessageHeader; payload : list byte }.
#[global] Instance GenMessage_eq_dec : EqDecision GenMessage.
Proof. solve_decision. Defined.

(** [GenMessage::default()], what [std::mem::take] leaves behind. *)
Definition default_gen : GenMessage := MkGen default_header [].

Inductive GenMessageError :=
  | InternalError (e : Error)
  | ReturnError (h : MessageHeader) (e : Error).

Definition gen_new_data (sid : Z) (payload : list byte) : GenMessage :=
  MkGen (header_new_data sid (len_u32 payload)) payload.

Definition gen_new_response (sid : Z) (payload : list byte) : GenMessage :=
  MkGen (header_new_response sid (len_u32 payload)) payload.

Definition gen_new_close (sid : Z) : GenMessage :=
  MkGen (set_flags (header_new_data sid 0) (Z.lor FLAG_REMOTE_CLOSED FLAG_NO_DATA)) [].

(** [GenMessage::check]. *)
Definition gen_check (m : GenMessage) : Result unit := check_oversize (h_length (header m)) true.

(** A frame whose header describes its payload and which a peer accepts. *)
Definition wf_frame (m : GenMessage) : Prop :=
  wf_header (header m) /\ h_length (header m) = len (payload m) /\
  len (payload m) <= MESSAGE_LENGTH_MAX.

(** The bytes of a frame on the wire. *)
Definition frame_bytes (m : GenMessage) : list byte := header_bytes (header m) ++ payload m.

Record Message (C : Type) := MkMessage { msg_header : MessageHeader; msg_payload : C }.
Arguments MkMessage {C} _ _.
Arguments msg_header {C} _.
Arguments msg_payload {C} _.

Section Typed.
Context {C : Type} `{Codec C}.

(** [TryFrom<GenMessage> for Message<C>]. *)
Definition message_try_from (g : GenMessage) : res string (Message C) :=
  p ← codec_decode (payload g); mret (MkMessage (header g) p).

(** [TryFrom<Message<C>> for GenMessage]. *)
Definition gen_try_from (m : Message C) : res string GenMessage :=
  b ← codec_encode (msg_payload m); mret (MkGen (msg_header m) b).

(** [Message::new_request]. *)
Definition message_new_request (sid : Z) (message : C) : Result (Message C) :=
  let size := codec_size message in
  _ ← check_oversize size false;
  mret (MkMessage (header_new_request sid size) message).

Lemma gen_roundtrip `{!CodecLaws C} (m : Message C) g :
  gen_try_from m = Ok g -> message_try_from g = Ok m.
Proof.
  unfold gen_try_from, message_try_from. destruct m as [h p]; simpl.
  destruct (codec_encode p) as [b|] eqn:E; [|done]. intros; msimpl.
  by rewrite (codec_decode_encode _ _ E).
Qed.

(** A request frame is built with the length of its encoding, and is never oversized. *)
Lemma new_request_frame `{!CodecLaws C} sid (p : C) m g :
  message_new_request sid p = Ok m -> gen_try_from m = Ok g ->
  header g = header_new_request sid (len_u32 (payload g)) /\
  len_u32 (payload g) <= MESSAGE_LENGTH_MAX.
Proof.
  unfold message_new_request, gen_try_from. intros Hm Hg.
  destruct (check_oversize (codec_size p) false) as [[]|] eqn:Hc; msimpl.
  destruct (codec_encode p) as [b|] eqn:E; msimpl.
  apply check_oversize_ok in Hc. by rewrite (codec_size_encode _ _ E) in *.
Qed.
End Typed.

(** ** Reading *)

Section Reading.
Context {R : Type} `{AsyncRead R}.

Definition DEFAULT_PAGE : Z := Z.of_nat DEFAULT_PAGE_SIZE.

(** The number of iterations of the discarding loop. *)
Definition pages (n : Z) : nat := Z.to_nat ((n + DEFAULT_PAGE - 1) / DEFAULT_PAGE).

(** The [while need_discard > 0] loop; the fuel counts its iterations. *)
Fixpoint discard_loop (fuel : nat) (need_discard : Z) : st R Error unit :=
  match fuel with
  | O => mret tt
  | S fuel' =>
      if decide (need_discard > 0) then
        let once_discard := Z.min DEFAULT_PAGE need_discard in
        _ ← read_exact (Z.to_nat once_discard) ?: Socket;
        discard_loop fuel' (need_discard - once_discard)
      else mret tt
  end.

#[global] Arguments pages : simpl never.

Definition discard_message_body (h : MessageHeader) : st R Error unit :=
  discard_loop (pages (h_length h)) (h_length h).

(** [MessageHeader::read_from]; the buffer has the header's length, so the conversion does not
    panic ([header_from_exact]). *)
Definition header_read_from : st R string MessageHeader :=
  content ← read_exact MESSAGE_HEADER_LENGTH;
  mret (default default_header (header_from content)).

(** [GenMessage::read_from]; [?] wraps a local error with [GenMessageError::from]. *)
Definition gen_read_from : st R GenMessageError GenMessage :=
  h ← header_read_from ?: (InternalError ∘ Socket);
  match check_oversize (h_length h) true with
  | Err e =>
      _ ← discard_message_body h ?: InternalError;
      st_fail (ReturnError h e)
  | Ok _ =>
      content ← read_exact (Z.to_nat (h_length h)) ?: (InternalError ∘ Socket);
      mret (MkGen h content)
  end.

(** [Message::<C>::read_from]. *)
Definition message_read_from {C} `{Codec C} : st R Error (Message C) :=
  h ← header_read_from ?: Socket;
  if is_err (check_oversize (h_length h) true) then
    _ ← discard_message_body h;
    p ← st_lift (map_err (err_to_others_err "Decode payload failed.") (codec_decode []));
    mret (MkMessage h p)
  else
    content ← read_exact (Z.to_nat (h_length h)) ?: Socket;
    p ← st_lift (map_err (err_to_others_err "Decode payload failed.") (codec_decode content));
    mret (MkMessage h p).
End Reading.

(** ** Writing *)

(** A [Vec<u8>]: its contents and its capacity. *)
Record Vec := MkVec { vec_data : list byte; vec_cap : nat }.
Definition Vec_new : Vec := MkVec [] 0.
Definition wf_vec (v : Vec) : Prop := (length (vec_data v) <= vec_cap v)%nat.

Definition reserve_exact (additional : nat) (v : Vec) : Vec :=
  MkVec (vec_data v) (Nat.max (vec_cap v) (length (vec_data v) + additional)).
Definition vec_resize (n : nat) (v : Vec) : Vec :=
  MkVec (take n (vec_data v) ++ replicate (n - length (vec_data v)) Byte.x00)
        (Nat.max (vec_cap v) n).

(** How much of the payload goes into the first write. *)
Definition prefix_len (payload : list byte) : nat :=
  Nat.min (length payload) (DEFAULT_PAGE_SIZE - MESSAGE_HEADER_LENGTH).

#[global] Arguments prefix_len : simpl never.

(** The prefix buffer of a frame, common to [write_message_buffered] and the synchronous
    [write_frame]: reserve, resize, header, start of the payload. *)
Definition fill_prefix (h : MessageHeader) (payload : list byte) (prefix : Vec) : Vec :=
  let n := (MESSAGE_HEADER_LENGTH + prefix_len payload)%nat in
  let prefix := if decide (vec_cap prefix < n)%nat
                then reserve_exact (n - length (vec_data prefix)) prefix else prefix in
  let prefix := vec_resize n prefix in
  let data := into_buf h (vec_data prefix) in
  let data := splice MESSAGE_HEADER_LENGTH (take (prefix_len payload) payload) data in
  MkVec data (vec_cap prefix).

Section Writing.
Context {W : Type} `{AsyncWrite W}.

(** Operations of the writer, the prefix buffer being left alone. *)
Definition on_writer {E A} (m : st W E A) : st (W * Vec) E A := fun s =>
  let '(w, v) := s in let '(w', r) := m w in ((w', v), r).

Definition write_message_buffered (h : MessageHeader) (payload : list byte)
  : st (W * Vec) Error unit :=
  _ ← st_modify (fun s => (s.1, fill_prefix h payload s.2));
  prefix ← (fun s => (s, Ok (vec_data s.2)));
  _ ← on_writer (write_all prefix ?: Socket);
  _ ← on_writer (write_all (drop (prefix_len payload) payload) ?: Socket);
  on_writer (flush ?: Socket).

Definition write_message (h : MessageHeader) (payload : list byte) : st W Error unit := fun w =>
  let '((w', _), r) := write_message_buffered h payload (w, Vec_new) in (w', r).

(** [MessageHeader::write_to]: tokio's [write_u32] is documented to write big-endian. *)
Definition header_write_to (h : MessageHeader) : st W string unit :=
  _ ← write_all (be_bytes 4 (h_length h));
  _ ← write_all (be_bytes 4 (stream_id h));
  _ ← write_all [byte_of (type_ h)];
  _ ← write_all [byte_of (flags h)];
  flush.

Definition gen_write_to (m : GenMessage) : st W Error unit :=
  write_message (header m) (payload m).

Definition gen_write_to_buffered (m : GenMessage) : st (W * Vec) Error unit :=
  write_message_buffered (header m) (payload m).

Definition message_write_to {C} `{Codec C} (m : Message C) : st W Error unit :=
  content ← st_lift (map_err (err_to_others_err "Encode payload failed.")
                       (codec_encode (msg_payload m)));
  write_message (msg_header m) content.
End Writing.

(** ** Lemmas on reading *)

Section ReadingLemmas.
Context {R : Type} `{AsyncReadLaws R}.

Lemma header_read_from_ok (r r' : R) h :
  header_read_from r = (r', Ok h) -> wf_header h /\ source r = header_bytes h ++ source r'.
Proof.
  unfold header_read_from. munfold. intros E.
  destruct (read_exact MESSAGE_HEADER_LENGTH r) as [r1 [b|]] eqn:Er; msimpl.
  apply read_exact_ok in Er as [Hl Hs].
  destruct (header_from_exact b Hl) as (h & Hh & ->). rewrite Hh. simpl.
  split; [by eapply header_from_wf | done].
Qed.

(** A frame that is delivered is the next frame of the stream, whole and within the limit. *)
Lemma gen_read_from_ok (r r' : R) m :
  gen_read_from r = (r', Ok m) -> wf_frame m /\ source r = frame_bytes m ++ source r'.
Proof.
  unfold gen_read_from. munfold. intros E.
  destruct (header_read_from r) as [r1 [h|]] eqn:Eh; msimpl.
  apply header_read_from_ok in Eh as [Hwf Hs].
  destruct (check_oversize (h_length h) true) as [[]|] eqn:Hc.
  2: { destruct (discard_message_body h r1) as [? [|]]; msimpl. }
  destruct (read_exact _ r1) as [r2 [b|]] eqn:Er; msimpl.
  apply read_exact_ok in Er as [Hl Hs']. apply check_oversize_ok in Hc.
  destruct Hwf as (Hw & ?). assert (len b = h_length h).
  { unfold len, is_u32 in *. lia. }
  unfold wf_frame, frame_bytes; simpl. split; [|by rewrite Hs, Hs', app_assoc].
  split; [done | split; lia].
Qed.

Context `{!ReliableRead R}.

Lemma read_exact_exact (r : R) b rest :
  source r = b ++ rest -> exists r', read_exact (length b) r = (r', Ok b) /\ source r' = rest.
Proof.
  intros Hs. destruct (read_exact_enough (length b) r) as (r' & c & E).
  { rewrite Hs, length_app. lia. }
  pose proof (read_exact_ok _ _ _ _ E) as [Hl Hs'].
  rewrite Hs in Hs'. apply app_split_inj in Hs' as [-> ->]; [|done]. eauto.
Qed.

Lemma header_read_from_exact (r : R) h rest :
  wf_header h -> source r = header_bytes h ++ rest ->
  exists r', header_read_from r = (r', Ok h) /\ source r' = rest.
Proof.
  intros Hwf Hs. destruct (read_exact_exact _ _ _ Hs) as (r' & E & Hr').
  rewrite length_header_bytes in E. exists r'. split; [|done].
  unfold header_read_from. munfold. rewrite E. f_equal. f_equal.
  pose proof (header_from_bytes h [] Hwf) as Hf. rewrite app_nil_r in Hf. by rewrite Hf.
Qed.

Lemma gen_read_from_exact (r : R) m rest :
  wf_frame m -> source r = frame_bytes m ++ rest ->
  exists r', gen_read_from r = (r', Ok m) /\ source r' = rest.
Proof.
  intros (Hwf & Hlen & Hmax) Hs. unfold frame_bytes in Hs. rewrite <- app_assoc in Hs.
  destruct (header_read_from_exact _ _ _ Hwf Hs) as (r1 & E1 & Hs1).
  destruct (read_exact_exact _ _ _ Hs1) as (r2 & E2 & Hs2).
  exists r2. split; [|done]. unfold gen_read_from. munfold. rewrite E1.
  rewrite (proj2 (check_oversize_ok (h_length (header m)) true)) by lia.
  rewrite Hlen. unfold len. rewrite Nat2Z.id, E2. by destruct m.
Qed.

Lemma pages_step n : n > 0 -> pages n = S (pages (n - Z.min DEFAULT_PAGE n)).
Proof.
  intros Hn. unfold pages.
  assert (DEFAULT_PAGE = 4096) as -> by done.
  assert (n <= 4096 \/ n > 4096) as [Hle|Hgt] by lia.
  - rewrite Z.min_r by lia. replace (n - n) with 0 by lia.
    change (Z.to_nat ((0 + 4096 - 1) / 4096)) with 0%nat.
    replace ((n + 4096 - 1) / 4096) with 1; [done|].
    apply Z.div_unique with (n - 1); lia.
  - rewrite Z.min_l by lia.
    replace (n + 4096 - 1) with ((n - 4096 + 4096 - 1) + 1 * 4096) by lia.
    rewrite Z.div_add by lia.
    assert (0 <= (n - 4096 + 4096 - 1) / 4096) by (apply Z.div_pos; lia). lia.
Qed.

(** The iterations counted by [pages] discard exactly the announced number of bytes; more fuel
    changes nothing. *)
Lemma discard_loop_exact k n (r : R) body rest :
  len body = n -> source r = body ++ rest ->
  exists r', discard_loop (k + pages n) n r = (r', Ok tt) /\ source r' = rest.
Proof.
  remember (pages n) as p eqn:Hp. revert n r body Hp.
  induction p as [|p IH]; intros n r body Hp Hlen Hs.
  - assert (n = 0) as ->.
    { destruct (decide (n > 0)) as [Hn|]; [|pose proof (len_nonneg body); lia].
      rewrite pages_step in Hp by done. done. }
    destruct body; [|unfold len in Hlen; simpl in Hlen; lia].
    exists r. split; [|done]. by destruct k.
  - assert (n > 0) as Hn.
    { destruct (decide (n > 0)); [done|]. pose proof (len_nonneg body).
      replace n with 0 in Hp by lia. done. }
    rewrite pages_step in Hp by done. simplify_eq.
    set (once := Z.min DEFAULT_PAGE (len body)) in *.
    assert (0 < once <= len body).
    { unfold once. assert (DEFAULT_PAGE = 4096) by done. lia. }
    destruct (read_exact_exact r (take (Z.to_nat once) body)
                (drop (Z.to_nat once) body ++ rest)) as (r1 & E1 & Hs1).
    { by rewrite app_assoc, take_drop. }
    rewrite length_take in E1.
    replace (Z.to_nat once `min` length body)%nat with (Z.to_nat once) in E1 by (unfold len in *; lia).
    destruct (IH (len body - once) r1 (drop (Z.to_nat once) body)) as (r2 & E2 & Hs2); try done.
    { unfold len in *. rewrite length_drop. lia. }
    exists r2. split; [|done]. rewrite Nat.add_succ_r. cbn [discard_loop].
    rewrite decide_True by done. fold once. munfold. by rewrite E1.
Qed.

(** An oversized frame is skipped exactly, so that the stream stays in step. *)
Lemma gen_read_from_oversize (r : R) h body rest :
  wf_header h -> h_length h > MESSAGE_LENGTH_MAX -> len body = h_length h ->
  source r = header_bytes h ++ body ++ rest ->
  exists r', gen_read_from r =
      (r', Err (ReturnError h (get_rpc_status INVALID_ARGUMENT (oversize_msg (h_length h)))))
    /\ source r' = rest.
Proof.
  intros Hwf Hbig Hlen Hs.
  destruct (header_read_from_exact _ _ _ Hwf Hs) as (r1 & E1 & Hs1).
  destruct (discard_loop_exact 0 (h_length h) r1 body rest Hlen Hs1) as (r2 & E2 & Hs2).
  exists r2. split; [|done]. unfold gen_read_from. munfold. rewrite E1.
  rewrite check_oversize_err by done.
  unfold discard_message_body. simpl in E2. by rewrite E2.
Qed.
End ReadingLemmas.

(** ** Lemmas on writing *)

Lemma vec_resize_length n v : length (vec_data (vec_resize n v)) = n.
Proof. simpl. rewrite length_app, length_take, length_replicate. lia. Qed.

Lemma prefix_len_le p : (prefix_len p <= length p)%nat.
Proof. unfold prefix_len. lia. Qed.

Lemma prefix_len_page p : (MESSAGE_HEADER_LENGTH + prefix_len p <= DEFAULT_PAGE_SIZE)%nat.
Proof. unfold prefix_len, MESSAGE_HEADER_LENGTH, DEFAULT_PAGE_SIZE. lia. Qed.

(** Every use of [into_buf] is on a buffer of at least [MESSAGE_HEADER_LENGTH] bytes. *)
Lemma into_buf_callers h p v :
  (MESSAGE_HEADER_LENGTH <= length (vec_data (vec_resize (MESSAGE_HEADER_LENGTH + prefix_len p) v)))%nat
  /\ (MESSAGE_HEADER_LENGTH <= length (replicate MESSAGE_HEADER_LENGTH Byte.x00))%nat
  /\ length (take (prefix_len p) p)
     = length (drop MESSAGE_HEADER_LENGTH
         (into_buf h (vec_data (vec_resize (MESSAGE_HEADER_LENGTH + prefix_len p) v)))).
Proof.
  rewrite into_buf_spec by (rewrite vec_resize_length; lia).
  rewrite drop_app_exact by done. rewrite vec_resize_length, length_drop, vec_resize_length.
  rewrite length_take, length_replicate. pose proof (prefix_len_le p). lia.
Qed.

(** The prefix holds the header and the start of the payload, whatever it held before. *)
Lemma fill_prefix_data h p v :
  vec_data (fill_prefix h p v) = header_bytes h ++ take (prefix_len p) p.
Proof.
  unfold fill_prefix. cbn zeta. cbn [vec_data].
  set (v' := if decide _ then _ else v).
  rewrite into_buf_spec by (rewrite vec_resize_length; lia).
  unfold splice. rewrite (take_app_exact (header_bytes h)) by done. f_equal.
  rewrite drop_ge; [by rewrite app_nil_r|].
  rewrite length_app, length_drop, vec_resize_length, length_header_bytes, length_take.
  pose proof (prefix_len_le p). lia.
Qed.

(** The capacity of the prefix never grows past one page, and the [usize] subtraction of
    [reserve_exact] does not underflow. *)
Lemma fill_prefix_cap h p v :
  wf_vec v ->
  wf_vec (fill_prefix h p v) /\
  (vec_cap (fill_prefix h p v) <= Nat.max (vec_cap v) DEFAULT_PAGE_SIZE)%nat /\
  ((vec_cap v < MESSAGE_HEADER_LENGTH + prefix_len p)%nat ->
   (length (vec_data v) <= MESSAGE_HEADER_LENGTH + prefix_len p)%nat).
Proof.
  intros Hv. unfold wf_vec in *. rewrite fill_prefix_data.
  rewrite length_app, length_header_bytes, length_take.
  pose proof (prefix_len_le p). pose proof (prefix_len_page p).
  unfold fill_prefix; cbn [vec_cap vec_data].
  case_decide; cbn [vec_resize reserve_exact vec_cap vec_data]; lia.
Qed.

#[global] Opaque fill_prefix.

Section WritingLemmas.
Context {W : Type} `{AsyncWriteLaws W}.

Lemma prefix_drop_payload h (p : list byte) :
  (header_bytes h ++ take (prefix_len p) p) ++ drop (prefix_len p) p = header_bytes h ++ p.
Proof. by rewrite <- app_assoc, take_drop. Qed.

(** What reaches the transport is the frame on success and a prefix of it on failure. *)
Lemma write_message_buffered_sent h p (w w' : W) v v' r :
  write_message_buffered h p (w, v) = ((w', v'), r) ->
  v' = fill_prefix h p v /\
  exists b, sent w' = sent w ++ b /\ b `prefix_of` header_bytes h ++ p /\
            (r = Ok tt -> b = header_bytes h ++ p).
Proof.
  unfold write_message_buffered, on_writer. munfold. cbn [fst snd].
  rewrite fill_prefix_data. intros E.
  split; [by repeat case_match; simplify_eq/=|].
  destruct (write_all (header_bytes h ++ _) w) as [w1 [[]|e]] eqn:E1; simplify_eq/=.
  2: { apply write_all_err in E1 as (b & Hb & Hs). exists b. split_and!; [done| |done].
       etrans; [exact Hb|]. rewrite <- (prefix_drop_payload h p). by apply prefix_app_r. }
  apply write_all_ok in E1.
  destruct (write_all (drop (prefix_len p) p) w1) as [w2 [[]|e]] eqn:E2; simplify_eq/=.
  - apply write_all_ok in E2. destruct (flush w2) as [w3 [[]|e]] eqn:E3; simplify_eq/=;
      apply flush_sent in E3; exists (header_bytes h ++ p);
      rewrite E3, E2, E1, <- app_assoc, prefix_drop_payload;
      by split_and!.
  - apply write_all_err in E2 as (b & Hb & Hs).
    exists ((header_bytes h ++ take (prefix_len p) p) ++ b). split_and!; [|  |done].
    + by rewrite Hs, E1, <- !app_assoc.
    + rewrite <- (prefix_drop_payload h p). by apply prefix_app.
Qed.

Context `{!ReliableWrite W}.

Lemma write_message_buffered_total h p (w : W) v :
  exists w' v', write_message_buffered h p (w, v) = ((w', v'), Ok tt).
Proof.
  unfold write_message_buffered, on_writer. munfold. cbn [fst snd].
  destruct (write_all_total (vec_data (fill_prefix h p v)) w) as (w1 & ->).
  destruct (write_all_total (drop (prefix_len p) p) w1) as (w2 & ->).
  destruct (flush_total w2) as (w3 & ->). eauto.
Qed.
End WritingLemmas.

(** ** Sequences of frames *)

(** What the connection reader and writer loops do as long as no error occurs. *)
Fixpoint read_frames {R} `{AsyncRead R} (k : nat) : st R GenMessageError (list GenMessage) :=
  match k with
  | O => mret []
  | S k' => m ← gen_read_from; ms ← read_frames k'; mret (m :: ms)
  end.

Fixpoint write_frames {W} `{AsyncWrite W} (ms : list GenMessage) : st (W * Vec) Error unit :=
  match ms with
  | [] => mret tt
  | m :: ms' => _ ← gen_write_to_buffered m; write_frames ms'
  end.

Lemma read_frames_exact {R} `{AsyncReadLaws R, !ReliableRead R} ms (r : R) rest :
  Forall wf_frame ms -> source r = concat (frame_bytes <$> ms) ++ rest ->
  exists r', read_frames (length ms) r = (r', Ok ms) /\ source r' = rest.
Proof.
  revert r. induction ms as [|m ms IH]; intros r Hwf Hs; [by exists r|].
  apply Forall_cons_1 in Hwf as [Hm Hms]. simpl in Hs. rewrite <- app_assoc in Hs.
  destruct (gen_read_from_exact _ _ _ Hm Hs) as (r1 & E1 & Hs1).
  destruct (IH _ Hms Hs1) as (r2 & E2 & Hs2).
  exists r2. cbn [read_frames length]. munfold. by rewrite E1, E2.
Qed.

Lemma write_frames_sent {W} `{AsyncWriteLaws W} ms (w w' : W) v v' :
  write_frames ms (w, v) = ((w', v'), Ok tt) ->
  sent w' = sent w ++ concat (frame_bytes <$> ms).
Proof.
  revert w v. induction ms as [|m ms IH]; intros w v; simpl.
  { munfold. intros [= -> ->]. by rewrite app_nil_r. }
  unfold gen_write_to_buffered. munfold.
  destruct (write_message_buffered _ _ _) as [[w1 v1] [[]|]] eqn:E1; [|done]. intros E2.
  apply write_message_buffered_sent in E1 as (_ & b & Hs & _ & Hb).
  apply IH in E2. rewrite E2, Hs, Hb by done. by rewrite <- app_assoc.
Qed.

Section Properties.
Definition ex_frame : GenMessage := MkGen (header_new_request 1 2) [Byte.x2a; Byte.x2b].

Lemma ex_frame_wf : wf_frame ex_frame.
Proof. by vm_compute. Qed.

(** C19: frames written one after the other through the shared prefix buffer, whatever that
    buffer held before, are read back by the peer one by one, in order and unchanged, and the
    bytes after them are left in the stream. *)
Theorem frames_roundtrip {R W} `{AsyncReadLaws R, !ReliableRead R, AsyncWriteLaws W}
    (ms : list GenMessage) (w w' : W) (v v' : Vec) (r : R) (rest : list byte) :
  Forall wf_frame ms ->
  write_frames ms (w, v) = ((w', v'), Ok tt) ->
  sent w ++ source r = sent w' ++ rest ->
  exists r', read_frames (length ms) r = (r', Ok ms) /\ source r' = rest.
Proof.
  intros Hwf Hw Hs. apply write_frames_sent in Hw. rewrite Hw, <- app_assoc in Hs.
  apply (app_inv_head (sent w)) in Hs. by apply read_frames_exact.
Qed.

Lemma frames_roundtrip_witness :
  let w := MkMemWriter [] 0 in let ms := [ex_frame; gen_new_close 3; ex_frame] in
  exists w' v' r',
    write_frames ms (w, MkVec [Byte.xff] 1) = ((w', v'), Ok tt) /\
    read_frames 3 (MkMemReader (mem_sent w' ++ [Byte.x07])) = (r', Ok ms) /\
    source r' = [Byte.x07].
Proof.
  intros w ms.
  destruct (write_frames ms (w, MkVec [Byte.xff] 1)) as [[w' v'] r] eqn:E.
  assert (r = Ok tt) as -> by (revert E; vm_compute; congruence).
  destruct (frames_roundtrip ms w w' (MkVec [Byte.xff] 1) v'
              (MkMemReader (mem_sent w' ++ [Byte.x07])) [Byte.x07]) as (r' & E' & Hr').
  - by repeat constructor; vm_compute.
  - done.
  - done.
  - by exists w', v', r'.
Defined.

(** C32: a frame whose header announces more than [MESSAGE_LENGTH_MAX] bytes is discarded whole:
    the reader reports the header with an [INVALID_ARGUMENT] status for the peer, and the next
    frame of the stream is read as if the oversized one had not been there. *)
Theorem oversized_frame_skipped {R} `{AsyncReadLaws R, !ReliableRead R}
    (r : R) (h : MessageHeader) (body rest : list byte) (next : GenMessage) :
  wf_header h -> h_length h > MESSAGE_LENGTH_MAX -> len body = h_length h -> wf_frame next ->
  source r = header_bytes h ++ body ++ frame_bytes next ++ rest ->
  exists r1 r2,
    gen_read_from r =
      (r1, Err (ReturnError h (get_rpc_status INVALID_ARGUMENT (oversize_msg (h_length h))))) /\
    gen_read_from r1 = (r2, Ok next) /\ source r2 = rest.
Proof.
  intros Hh Hbig Hlen Hnext Hs.
  destruct (gen_read_from_oversize _ _ _ _ Hh Hbig Hlen Hs) as (r1 & E1 & Hs1).
  destruct (gen_read_from_exact _ _ _ Hnext Hs1) as (r2 & E2 & Hs2). eauto.
Qed.

Lemma oversized_frame_skipped_witness :
  let h := header_new_request 5 (MESSAGE_LENGTH_MAX + 1) in
  let body := replicate (Z.to_nat (MESSAGE_LENGTH_MAX + 1)) Byte.x00 in
  exists r1 r2,
    gen_read_from (MkMemReader (header_bytes h ++ body ++ frame_bytes ex_frame ++ [])) =
      (r1, Err (ReturnError h (get_rpc_status INVALID_ARGUMENT (oversize_msg (h_length h))))) /\
    gen_read_from r1 = (r2, Ok ex_frame) /\ source r2 = [].
Proof.
  intros h body. apply (oversized_frame_skipped _ h body [] ex_frame).
  - by vm_compute.
  - by vm_compute.
  - unfold len, body. rewrite length_replicate, Z2Nat.id; done.
  - apply ex_frame_wf.
  - done.
Defined.

(** Whatever happens during a buffered write, the bytes that reach the transport are the
    header followed by the payload on success and a prefix of that on failure; no byte of an
    earlier frame is resent, and the reused buffer stays within one page. *)
Theorem buffered_write_bounded {W} `{AsyncWriteLaws W}
    (h : MessageHeader) (p : list byte) (w w' : W) (v v' : Vec) (r : Result unit) :
  wf_vec v -> (vec_cap v <= DEFAULT_PAGE_SIZE)%nat ->
  write_message_buffered h p (w, v) = ((w', v'), r) ->
  wf_vec v' /\ (vec_cap v' <= DEFAULT_PAGE_SIZE)%nat /\
  exists b, sent w' = sent w ++ b /\ b `prefix_of` header_bytes h ++ p /\
            (r = Ok tt -> b = header_bytes h ++ p).
Proof.
  intros Hv Hc E. apply write_message_buffered_sent in E as [-> Hb].
  pose proof (fill_prefix_cap h p v Hv). split_and!; [tauto|lia|done].
Qed.

Lemma buffered_write_bounded_witness :
  exists w' v', write_message_buffered (header ex_frame) (payload ex_frame)
                  (MkMemWriter [] 0, Vec_new) = ((w', v'), Ok tt) /\
    (vec_cap v' <= DEFAULT_PAGE_SIZE)%nat /\ wf_vec v'.
Proof.
  destruct (write_message_buffered (header ex_frame) (payload ex_frame) (MkMemWriter [] 0, Vec_new))
    as [[w' v'] r] eqn:E.
  assert (r = Ok tt) as -> by (revert E; vm_compute; congruence).
  exists w', v'.
  destruct (buffered_write_bounded (header ex_frame) (payload ex_frame)
    (MkMemWriter [] 0) w' Vec_new v' (Ok tt)) as (Hv & Hc & _);
    [by vm_compute | unfold Vec_new, DEFAULT_PAGE_SIZE; simpl; lia | done | done].
Defined.
End Properties.
