(* ===== verification/Context.v ===== *)
(** Request contexts (src/src/context.rs): timeouts, metadata maps, and the conversions between a
    metadata map and the key-value entries of a request. *)
From S2P Require Import Prelude Errors.

(** [str::to_lowercase] of the standard library, which follows the Unicode tables; the model fixes
    it on strings of ASCII characters only. *)
Definition is_ascii (s : string) : Prop :=
  Forall (fun c => ascii_num c < 128) (String.list_ascii_of_string s).

Class Lowercase := { to_lowercase : string -> string }.
Class LowercaseLaws `{Lowercase} : Prop := {
  to_lowercase_ascii : forall s, is_ascii s -> to_lowercase s = to_ascii_lowercase s;
  to_lowercase_idemp : forall s, to_lowercase (to_lowercase s) = to_lowercase s }.

#[global] Instance ascii_lowercase : Lowercase := { to_lowercase := to_ascii_lowercase }.
#[global] Instance ascii_lowercase_laws : LowercaseLaws.
Proof. split; [done|]. apply to_ascii_lowercase_idemp. Qed.

(** [HashMap<String, Vec<String>>]. *)
Abbreviation Metadata := (gmap string (list string)).

Record Context_ := MkContext { ctx_metadata : Metadata; ctx_timeout_nano : Z }.
#[global] Instance Context_eq_dec : EqDecision Context_.
Proof. solve_decision. Defined.

(** [std::time::Duration]: seconds as a u64, nanoseconds below one second. *)
Record Duration := MkDuration { d_secs : Z; d_nanos : Z }.
Definition wf_duration (d : Duration) : Prop :=
  0 <= d_secs d < U64 /\ 0 <= d_nanos d < 1000000000.
Definition as_nanos (d : Duration) : Z := d_secs d * 1000000000 + d_nanos d.

Definition with_timeout (i : Z) : Context_ := MkContext ∅ i.
Definition with_duration (du : Duration) : Context_ := with_timeout (as_i64 (as_nanos du)).
Definition with_metadata (md : Metadata) : Context_ := MkContext md 0.

Section Operations.
Context `{Lowercase}.

(** [Context::add]. *)
Definition add (c : Context_) (key value : string) : Context_ :=
  match ctx_metadata c !! key with
  | Some vl => MkContext (<[key := vl ++ [value]]> (ctx_metadata c)) (ctx_timeout_nano c)
  | None => MkContext (<[to_lowercase key := [value]]> (ctx_metadata c)) (ctx_timeout_nano c)
  end.

(** [Context::set]. *)
Definition set (c : Context_) (key : string) (value : list string) : Context_ :=
  match value with
  | [] => MkContext (delete key (ctx_metadata c)) (ctx_timeout_nano c)
  | _ => MkContext (<[to_lowercase key := value]> (ctx_metadata c)) (ctx_timeout_nano c)
  end.
End Operations.

(** One iteration of the loop of [from_pb]. *)
Definition from_pb_step (meta : Metadata) (kv : KeyValue) : Metadata :=
  match meta !! key kv with
  | Some vl => <[key kv := vl ++ [value kv]]> meta
  | None => <[key kv := [value kv]]> meta
  end.

Definition from_pb (kvs : list KeyValue) : Metadata := foldl from_pb_step ∅ kvs.

(** The inner loop of [to_pb]: the key is cloned while a value follows, and moved out of [k] (by
    [mem::take]) for the last one. *)
Fixpoint to_pb_values (k : string) (values : list string) : list KeyValue :=
  match values with
  | [] => []
  | value :: rest =>
      let '(key, k') := match rest with [] => (k, EmptyString) | _ :: _ => (k, k) end in
      MkKeyValue key value :: to_pb_values k' rest
  end.

(** [to_pb] on the entries of the map in the order the [HashMap] yields them. *)
Definition to_pb (kvs : list (string * list string)) : list KeyValue :=
  concat ((fun '(k, vl) => to_pb_values k vl) <$> kvs).

(** ** Lemmas *)

(** The values of a key, in order of appearance. *)
Definition values_of (k : string) (kvs : list KeyValue) : list string :=
  value <$> filter (fun kv => key kv = k) kvs.

Definition nonempty (vl : list string) : option (list string) :=
  match vl with [] => None | _ => Some vl end.

Lemma values_of_app k l1 l2 : values_of k (l1 ++ l2) = values_of k l1 ++ values_of k l2.
Proof. unfold values_of. by rewrite list.filter_app, fmap_app. Qed.

Lemma to_pb_values_spec k vl : to_pb_values k vl = MkKeyValue k <$> vl.
Proof.
  induction vl as [|v vl IH]; [done|]. cbn [to_pb_values fmap list_fmap].
  destruct vl as [|v' vl]; [done|]. by rewrite IH.
Qed.

Lemma to_pb_cons k vl kvs : to_pb ((k, vl) :: kvs) = (MkKeyValue k <$> vl) ++ to_pb kvs.
Proof. unfold to_pb. cbn [fmap list_fmap concat]. by rewrite to_pb_values_spec. Qed.

Lemma from_pb_snoc kvs kv : from_pb (kvs ++ [kv]) = from_pb_step (from_pb kvs) kv.
Proof. unfold from_pb. by rewrite foldl_app. Qed.

(** The map holds under each key exactly the values of that key, in order. *)
Lemma from_pb_lookup kvs k : from_pb kvs !! k = nonempty (values_of k kvs).
Proof.
  induction kvs as [|kv kvs IH] using rev_ind; [done|].
  rewrite from_pb_snoc, values_of_app. unfold from_pb_step.
  destruct (decide (key kv = k)) as [<-|Hk].
  - rewrite IH. unfold values_of at 3. rewrite filter_cons_True by done. cbn.
    destruct (values_of (key kv) kvs) eqn:E; simpl; by rewrite lookup_insert_eq.
  - unfold values_of at 2. rewrite filter_cons_False by done. cbn. rewrite app_nil_r.
    destruct (from_pb kvs !! key kv); by rewrite lookup_insert_ne.
Qed.

Lemma values_of_fmap k k' vl :
  values_of k (MkKeyValue k' <$> vl) = if decide (k' = k) then vl else [].
Proof.
  unfold values_of. induction vl as [|v vl IH]; [by case_decide|].
  cbn [fmap list_fmap]. case_decide as Hk.
  - rewrite filter_cons_True by done. cbn. by f_equal.
  - by rewrite filter_cons_False.
Qed.

Lemma values_of_to_pb_absent k kvs : k ∉ kvs.*1 -> values_of k (to_pb kvs) = [].
Proof.
  induction kvs as [|[k' vl] kvs IH]; [done|]. rewrite fmap_cons; simpl. intros Hk.
  rewrite to_pb_cons, values_of_app, values_of_fmap, decide_False by (intros ->; apply Hk; left).
  apply IH. intros Hin. apply Hk. by right.
Qed.

Lemma values_of_to_pb k vl kvs :
  NoDup kvs.*1 -> (k, vl) ∈ kvs -> values_of k (to_pb kvs) = vl.
Proof.
  induction kvs as [|[k' vl'] kvs IH]; [set_solver|]. rewrite fmap_cons; simpl. intros Hnd Hin.
  apply NoDup_cons in Hnd as [Hk' Hnd]. rewrite to_pb_cons, values_of_app, values_of_fmap.
  apply elem_of_cons in Hin as [[= -> ->]|Hin].
  - rewrite decide_True by done. by rewrite values_of_to_pb_absent, app_nil_r.
  - rewrite decide_False; [by apply IH|]. intros ->. apply Hk'. by apply (list_elem_of_fmap_2 fst) in Hin.
Qed.

Lemma values_of_to_pb_map (m : Metadata) order k :
  order ≡ₚ map_to_list m -> values_of k (to_pb order) = default [] (m !! k).
Proof.
  intros Hp. assert (NoDup order.*1) by (rewrite Hp; apply NoDup_fst_map_to_list).
  destruct (m !! k) as [vl|] eqn:E; simpl.
  - apply values_of_to_pb; [done|]. rewrite Hp. by apply elem_of_map_to_list.
  - apply values_of_to_pb_absent. rewrite Hp. intros Hin.
    apply list_elem_of_fmap in Hin as ([k' vl] & -> & Hin). apply elem_of_map_to_list in Hin.
    simpl in E. congruence.
Qed.

Lemma from_pb_to_pb (m : Metadata) order :
  order ≡ₚ map_to_list m -> from_pb (to_pb order) = filter (fun kv => kv.2 <> []) m.
Proof.
  intros Ho. apply map_eq. intros k.
  rewrite from_pb_lookup, (values_of_to_pb_map _ _ _ Ho), map_lookup_filter.
  destruct (m !! k) as [[|v vl]|]; done.
Qed.

(** Normalised contexts: keys are lowercase and no key has an empty list of values. *)
Definition normal `{Lowercase} (c : Context_) : Prop :=
  map_Forall (fun k vl => to_lowercase k = k /\ vl <> []) (ctx_metadata c).

Section Properties.
Context `{LowercaseLaws}.

(** Request metadata survives the wire: whatever order the hash map yields its entries in, the
    receiver rebuilds the map, less the keys without values; and re-encoding a received list keeps
    every key's values in their order. *)
Theorem metadata_roundtrip (m : Metadata) (order : list (string * list string))
    (kvs : list KeyValue) (order' : list (string * list string)) :
  order ≡ₚ map_to_list m -> order' ≡ₚ map_to_list (from_pb kvs) ->
  from_pb (to_pb order) = filter (fun kv => kv.2 <> []) m /\
  forall k, values_of k (to_pb order') = values_of k kvs.
Proof.
  intros Ho Ho'. split; [by apply from_pb_to_pb|]. intros k.
  rewrite (values_of_to_pb_map _ _ _ Ho'), from_pb_lookup. by destruct (values_of k kvs).
Qed.

Lemma metadata_roundtrip_witness :
  let m : Metadata := {["trace" := ["a"; "b"]; "empty" := []; "user" := ["c"]]} in
  let kvs := [MkKeyValue "k" "1"; MkKeyValue "l" "2"; MkKeyValue "k" "3"] in
  from_pb (to_pb (map_to_list m)) = filter (fun kv => kv.2 <> []) m /\
  values_of "k" (to_pb (reverse (map_to_list (from_pb kvs)))) = ["1"; "3"].
Proof.
  intros m kvs.
  destruct (metadata_roundtrip m (map_to_list m) kvs (reverse (map_to_list (from_pb kvs))))
    as [Hm Hk]; [done | by rewrite reverse_Permutation |].
  split; [exact Hm | exact (Hk "k")].
Defined.

(** On normalised contexts (lowercase keys, no key without values) [add] and [set] do what
    their documentation says, and keep the context normalised: [add] with a lowercase key appends
    to the values of the key, [set] replaces the values of the lowercased key, [set] of the empty
    list removes the key, and every other key and the timeout keep their value. With a key that is
    not lowercase [add] does not append: it replaces what was under the lowercased key. *)
Theorem context_updates (c : Context_) (k : string) (v : string) (vl : list string) :
  normal c -> vl <> [] ->
  normal (add c k v) /\ normal (set c k vl) /\ normal (set c k []) /\
  ctx_metadata (add c k v) =
    <[to_lowercase k := (if decide (to_lowercase k = k) then default [] (ctx_metadata c !! k)
                         else []) ++ [v]]> (ctx_metadata c) /\
  ctx_metadata (set c k vl) = <[to_lowercase k := vl]> (ctx_metadata c) /\
  ctx_metadata (set c k []) = delete k (ctx_metadata c) /\
  ctx_timeout_nano (add c k v) = ctx_timeout_nano c /\
  ctx_timeout_nano (set c k vl) = ctx_timeout_nano c.
Proof.
  unfold normal. intros Hn Hvl.
  assert (forall w, w <> [] -> map_Forall (fun k' vl' => to_lowercase k' = k' /\ vl' <> [])
            (<[to_lowercase k := w]> (ctx_metadata c))) as Hins.
  { intros w Hw. apply map_Forall_insert_2; [|done]. by rewrite to_lowercase_idemp. }
  assert (ctx_metadata (add c k v) = <[to_lowercase k :=
    (if decide (to_lowercase k = k) then default [] (ctx_metadata c !! k) else []) ++ [v]]>
      (ctx_metadata c)) as Hadd.
  { unfold add. destruct (ctx_metadata c !! k) as [w|] eqn:E; simpl.
    - destruct (Hn _ _ E) as [Hk _]. by rewrite Hk, decide_True.
    - by case_decide. }
  rewrite Hadd. split_and!; try done.
  - apply Hins. by destruct (if decide _ then _ else _).
  - destruct vl; [done|]. by apply Hins.
  - by apply map_Forall_delete.
  - by destruct vl.
  - unfold add. by destruct (ctx_metadata c !! k).
  - by destruct vl.
Qed.
End Properties.

Lemma context_updates_witness :
  let c := with_metadata {["trace" := ["a"]]} in
  ctx_metadata (add c "trace" "b") = {["trace" := ["a"; "b"]]} /\
  ctx_metadata (add c "Trace" "b") = {["trace" := ["b"]]} /\
  normal (set c "Trace" ["z"]).
Proof.
  intros c. assert (normal c) as Hc by (by apply map_Forall_singleton).
  destruct (context_updates c "trace" "b" ["z"] Hc ltac:(done)) as (_ & _ & _ & H1 & _).
  destruct (context_updates c "Trace" "b" ["z"] Hc ltac:(done)) as (_ & H3 & _ & H2 & _).
  split_and!; [rewrite H1; reflexivity | rewrite H2; reflexivity | exact H3].
Defined.

(** A context made from a duration holds its nanoseconds exactly when they are below 2^63; a
    longer duration wraps, the result always being an i64: it may come out negative, and it is
    zero, which disables the timeout, exactly for the durations that are multiples of 2^64
    nanoseconds. Read back as a u64, as the client does, the timeout is the duration modulo 2^64. *)
Theorem duration_timeout (d : Duration) :
  wf_duration d ->
  is_i64 (ctx_timeout_nano (with_duration d)) /\
  (ctx_timeout_nano (with_duration d) = as_nanos d <-> as_nanos d < U64 / 2) /\
  (ctx_timeout_nano (with_duration d) = 0 <-> exists n, as_nanos d = n * U64) /\
  as_u64 (ctx_timeout_nano (with_duration d)) = as_nanos d mod U64.
Proof.
  intros [Hs Hn]. assert (0 <= as_nanos d) as Hp by (unfold as_nanos; lia).
  unfold with_duration, with_timeout, as_i64, as_u64, is_i64; cbn [ctx_timeout_nano].
  revert Hp. generalize (as_nanos d) as n. intros n Hp. change (U64 / 2) with 9223372036854775808.
  pose proof (Z.mod_pos_bound n U64 ltac:(done)) as Hb.
  pose proof (Z.div_mod n U64 ltac:(done)) as Hd. unfold U64 in *. cbv zeta.
  set (m := n mod 18446744073709551616) in *. set (q := n / 18446744073709551616) in *.
  case_decide; split_and!; try lia; try (split; [intros; exists q; lia | intros [k ?]; lia]);
    try (split; lia).
  - by rewrite Z.mod_small.
  - replace (m - 18446744073709551616) with (m + (-1) * 18446744073709551616) by lia.
    rewrite Z.mod_add by lia. by rewrite Z.mod_small.
Qed.

Lemma duration_timeout_witness :
  ctx_timeout_nano (with_duration (MkDuration 5 7)) = 5000000007 /\
  is_i64 (ctx_timeout_nano (with_duration (MkDuration 18446744073 709551616))) /\
  ctx_timeout_nano (with_duration (MkDuration 18446744073 709551616)) = 0.
Proof.
  destruct (duration_timeout (MkDuration 5 7)) as (_ & H1 & _ & _); [by vm_compute|].
  destruct (duration_timeout (MkDuration 18446744073 709551616)) as (H2 & _ & H3 & _);
    [by vm_compute|].
  split_and!; [apply H1; by vm_compute | exact H2 | apply H3; by exists 1].
Defined.
