(* ===== verification/Channel.v ===== *)
(** Message channels: the tokio channels the asynchronous runtime is built on, as an interface with
    their documented laws, and what travels over them (src/src/asynchronous/stream.rs): frames with
    their delivery control. *)
From S2P Require Import Prelude Errors Wire Frame.

(** ** Multi-producer channels

    [tokio::sync::mpsc], bounded or not: [mpsc_send] gives the value back (here: [false]) when the
    receiver is gone, [mpsc_recv] is one poll of [recv()], [mpsc_drop_rx] the receiver's drop,
    [mpsc_open] is [!Sender::is_closed()]. [mpsc_items] is specification only. *)
Class Mpsc (Q : Type -> Type) := {
  mpsc_channel : forall A, Q A;
  mpsc_send : forall A, A -> Q A -> Q A * bool;
  mpsc_recv : forall A, Q A -> Q A * option A;
  mpsc_drop_rx : forall A, Q A -> Q A;
  mpsc_open : forall A, Q A -> bool;
  mpsc_items : forall A, Q A -> list A }.
#[global] Hint Mode Mpsc ! : typeclass_instances.
Arguments mpsc_channel {Q _ A}.
Arguments mpsc_send {Q _ A} _ _.
Arguments mpsc_recv {Q _ A} _.
Arguments mpsc_drop_rx {Q _ A} _.
Arguments mpsc_open {Q _ A} _.
Arguments mpsc_items {Q _ A} _.

(** A channel is a first-in first-out queue that accepts values until its receiver is dropped. *)
Class MpscLaws (Q : Type -> Type) `{Mpsc Q} : Prop := {
  mpsc_channel_spec : forall A,
    mpsc_items (mpsc_channel : Q A) = [] /\ mpsc_open (mpsc_channel : Q A) = true;
  mpsc_send_spec : forall A (a : A) (q q' : Q A) b, mpsc_send a q = (q', b) ->
    b = mpsc_open q /\ mpsc_open q' = mpsc_open q /\
    mpsc_items q' = if mpsc_open q then mpsc_items q ++ [a] else mpsc_items q;
  mpsc_recv_spec : forall A (q q' : Q A) o, mpsc_recv q = (q', o) ->
    o = head (mpsc_items q) /\ mpsc_items q' = tail (mpsc_items q) /\ mpsc_open q' = mpsc_open q;
  mpsc_drop_spec : forall A (q : Q A),
    mpsc_open (mpsc_drop_rx q) = false /\ mpsc_items (mpsc_drop_rx q) = [] }.

(** Values of a channel as a list. *)
Record ListChan (A : Type) := MkListChan { lc_items : list A; lc_open : bool }.
Arguments MkListChan {A} _ _.
Arguments lc_items {A} _.
Arguments lc_open {A} _.

#[global] Instance list_chan : Mpsc ListChan := {
  mpsc_channel := fun A => MkListChan [] true;
  mpsc_send := fun A a q =>
    if lc_open q then (MkListChan (lc_items q ++ [a]) true, true) else (q, false);
  mpsc_recv := fun A q => (MkListChan (tail (lc_items q)) (lc_open q), head (lc_items q));
  mpsc_drop_rx := fun A q => MkListChan [] false;
  mpsc_open := fun A => lc_open;
  mpsc_items := fun A => lc_items }.

#[global] Instance list_chan_laws : MpscLaws ListChan.
Proof.
  split; intros; simpl in *; try done.
  - destruct (lc_open q) eqn:E; simplify_eq/=; by rewrite ?E.
  - by simplify_eq/=.
Qed.

(** [std::sync::mpsc::Sender::send]: fails with the text of [SendError] once the receiver is
    gone. *)
Record StdChan (A : Type) := MkStdChan { std_items : list A; std_open : bool }.
Arguments MkStdChan {A} _ _.
Arguments std_items {A} _.
Arguments std_open {A} _.

Definition std_send {A} (a : A) : st (StdChan A) string unit := fun c =>
  if std_open c then (MkStdChan (std_items c ++ [a]) true, Ok tt)
  else (c, Err "sending on a closed channel").

(** Identities of the shared channels of a process. *)
Abbreviation chan_id := nat.

(** ** Frames on their way to the writer *)

(** [MessageControl]: an [Instant] as a number, and the mailbox of the caller. *)
Record MessageControl := MkControl { deadline : option Z; response_tx : chan_id }.
#[global] Instance MessageControl_eq_dec : EqDecision MessageControl.
Proof. solve_decision. Defined.

(** [is_cancelled]: the caller's mailbox is closed; [closed] tells which mailboxes are. *)
Definition is_cancelled (closed : chan_id -> bool) (control : MessageControl) : bool :=
  closed (response_tx control).

(** [SendingMessage]; the oneshot sender [result_chan] is named by its identity. *)
Record SendingMessage := MkSending {
  sm_msg : GenMessage;
  result_chan : option chan_id;
  control : option MessageControl }.
#[global] Instance SendingMessage_eq_dec : EqDecision SendingMessage.
Proof. solve_decision. Defined.

Definition sending_new (msg : GenMessage) : SendingMessage := MkSending msg None None.
Definition sending_new_with_control (msg : GenMessage) (c : MessageControl) : SendingMessage :=
  MkSending msg None (Some c).
Definition sending_new_with_result (msg : GenMessage) (ch : chan_id) : SendingMessage :=
  MkSending msg (Some ch) None.
(** The assignment [sending_msg.control = control]. *)
Definition sending_set_control (s : SendingMessage) (c : option MessageControl) : SendingMessage :=
  MkSending (sm_msg s) (result_chan s) c.

(** [send_result]: takes the oneshot sender out and answers on it; the log of the answers given
    is the second component. *)
Definition send_result (s : SendingMessage) (result : Result unit)
  : SendingMessage * list (chan_id * Result unit) :=
  match result_chan s with
  | Some ch => (MkSending (sm_msg s) None (control s), [(ch, result)])
  | None => (s, [])
  end.

(** A second [send_result] on the same message answers nobody. *)
Lemma send_result_once s r1 r2 : snd (send_result (fst (send_result s r1)) r2) = [].
Proof. unfold send_result. destruct (result_chan s) eqn:E; simpl; by rewrite ?E. Qed.

Lemma send_result_msg s r : sm_msg (fst (send_result s r)) = sm_msg s.
Proof. unfold send_result. by destruct (result_chan s). Qed.
