(* ===== verification/Extension.v ===== *)
(** The connection extension (src/src/security_extension.rs): payload transforms, the per
    connection context and its inbound and outbound pipelines, the accept hook, and the variants
    that are compiled when the extension is disabled. The concurrent send path is in
    [TransformSend]. *)
From S2P Require Import Prelude Errors Wire Frame Channel.

(** ** Payload transforms *)

(** [trait PayloadTransform]. Applications implement it; the methods take [&self] and keep their
    nonces and counters behind interior mutability, so the state of the shared object is threaded
    through them. *)
Class PayloadTransform (T : Type) := {
  transform_inbound : list byte -> list byte -> st T string (list byte);
  transform_outbound : list byte -> list byte -> st T string (list byte);
  max_overhead : T -> Z }.

(** What the trait's documentation asks of an implementation: outbound payloads grow by at most
    the declared overhead, which does not depend on the internal state. *)
Class TransformLaws (T : Type) `{PayloadTransform T} : Prop := {
  outbound_overhead : forall p aad x x' c,
    transform_outbound p aad x = (x', Ok c) -> len c <= len p + max_overhead x;
  overhead_nonneg : forall x, 0 <= max_overhead x;
  overhead_outbound : forall p aad x x' r,
    transform_outbound p aad x = (x', r) -> max_overhead x' = max_overhead x;
  overhead_inbound : forall p aad x x' r,
    transform_inbound p aad x = (x', r) -> max_overhead x' = max_overhead x }.

(** Two ends of a connection whose transforms invert each other as long as the frames of the first
    reach the second in the order they were transformed in: [in_step a b] relates the sender's
    state to the receiver's. A refused payload leaves them in step, and so does the traffic of the
    other direction. *)
Class PeerLaws (T : Type) `{PayloadTransform T} (in_step : T -> T -> Prop) : Prop := {
  in_step_ok : forall a b a' p aad c,
    in_step a b -> transform_outbound p aad a = (a', Ok c) ->
    exists b', transform_inbound c aad b = (b', Ok p) /\ in_step a' b';
  in_step_err : forall a b a' p aad e,
    in_step a b -> transform_outbound p aad a = (a', Err e) -> in_step a' b;
  in_step_inbound : forall a b a' p aad r,
    in_step a b -> transform_inbound p aad a = (a', r) -> in_step a' b;
  in_step_outbound : forall a b b' p aad r,
    in_step a b -> transform_outbound p aad b = (b', r) -> in_step a b' }.

(** The default of [max_overhead]. *)
Definition default_max_overhead : Z := 64.

Definition serialize_aad (h : MessageHeader) : list byte :=
  let buf := replicate 6 Byte.x00 in
  let buf := splice 0 (be_bytes 4 (stream_id h)) buf in
  let buf := splice 4 [byte_of (type_ h)] buf in
  splice 5 [byte_of (flags h)] buf.

(** ** Connection data *)

Section ConnectionData.
Context {TypeId : Type} `{EqDecision TypeId} (V : TypeId -> Type).

(** A [Box<dyn Any + Send + Sync>] with the type it was built from. *)
Definition DynAny : Type := {t : TypeId & V t}.
Definition ConnectionData : Type := gmap string DynAny.

Definition downcast_ref (t : TypeId) (a : DynAny) : option (V t) :=
  match decide (projT1 a = t) with
  | left E => Some (eq_rect (projT1 a) V (projT2 a) t E)
  | right _ => None
  end.

(** [ConnectionDataExt::get_typed]. *)
Definition get_typed (t : TypeId) (data : ConnectionData) (k : string) : option (V t) :=
  a ← data !! k; downcast_ref t a.
End ConnectionData.

(** ** Connection context *)

Record HookOutput (D T : Type) := MkHookOutput { ho_data : D; ho_transform : option T }.
Arguments MkHookOutput {D T} _ _.
Arguments ho_data {D T} _.
Arguments ho_transform {D T} _.

(** [ConnectionContext]; the locks are part of the concurrent model. *)
Record ConnectionContext (D T : Type) := MkCtx { data : D; payload_transform : option T }.
Arguments MkCtx {D T} _ _.
Arguments data {D T} _.
Arguments payload_transform {D T} _.

Section Pipelines.
Context {D T : Type} `{PayloadTransform T} (data_default : D).

(** [ConnectionContext::new]. *)
Definition context_new (output : option (HookOutput D T)) : ConnectionContext D T :=
  match output with
  | Some o => MkCtx (ho_data o) (ho_transform o)
  | None => MkCtx data_default None
  end.

Definition set_transform (c : ConnectionContext D T) (x : T) : ConnectionContext D T :=
  MkCtx (data c) (Some x).

(** [saturating_sub] on [usize]. *)
Definition saturating_sub (a b : Z) : Z := Z.max 0 (a - b).

Definition max_raw_payload_len (c : ConnectionContext D T) : Z :=
  match payload_transform c with
  | Some x => saturating_sub MESSAGE_LENGTH_MAX (max_overhead x)
  | None => MESSAGE_LENGTH_MAX
  end.

Definition ctx_transform_inbound (payload aad : list byte)
  : st (ConnectionContext D T) string (list byte) := fun c =>
  match payload_transform c with
  | Some x => let '(x', r) := transform_inbound payload aad x in (set_transform c x', r)
  | None => (c, Ok payload)
  end.

Definition ctx_transform_outbound (payload aad : list byte)
  : st (ConnectionContext D T) string (list byte) := fun c =>
  match payload_transform c with
  | Some x => let '(x', r) := transform_outbound payload aad x in (set_transform c x', r)
  | None => (c, Ok payload)
  end.

Definition inbound_failed (e : string) : Error := Others ("transform_inbound failed: " +:+ e).
Definition outbound_failed (e : string) : Error := Others ("transform_outbound failed: " +:+ e).

Definition unsafe_len_msg (n max_len : Z) : string :=
  "payload " +:+ pretty n +:+ " bytes exceeds safe limit " +:+ pretty max_len +:+
  " bytes (MESSAGE_LENGTH_MAX - transform overhead)".

(** [inbound_buf(data, aad, rpc_error)]. *)
Definition inbound_buf (b aad : list byte) (rpc_error : bool)
  : st (ConnectionContext D T) Error (list byte) :=
  transformed ← ctx_transform_inbound b aad ?: inbound_failed;
  _ ← st_lift (check_oversize (len transformed) rpc_error);
  mret transformed.

(** [outbound_buf(data, aad, rpc_error)]. *)
Definition outbound_buf (b aad : list byte) (rpc_error : bool)
  : st (ConnectionContext D T) Error (list byte) :=
  c ← st_get;
  transformed ←
    match payload_transform c with
    | Some _ =>
        let max_len := max_raw_payload_len c in
        if decide (len b > max_len) then st_fail (Others (unsafe_len_msg (len b) max_len))
        else ctx_transform_outbound b aad ?: outbound_failed
    | None => mret b
    end;
  _ ← st_lift (check_oversize (len transformed) rpc_error);
  mret transformed.

(** The update of the message in [inbound] and [outbound]: on a transform error the payload has
    been taken out of the message, and the header keeps its length. *)
Definition replace_payload (m : GenMessage) (r : res string (list byte)) : GenMessage :=
  match r with
  | Ok p => MkGen (set_length (header m) (len_u32 p)) p
  | Err _ => MkGen (header m) []
  end.

(** [inbound(msg, rpc_error)], on the context and the message. *)
Definition inbound (rpc_error : bool) : st (ConnectionContext D T * GenMessage) Error unit :=
  fun '(c, m) =>
  match payload_transform c with
  | Some _ =>
      let '(c', r) := ctx_transform_inbound (payload m) (serialize_aad (header m)) c in
      let m' := replace_payload m r in
      ((c', m'), p ← map_err inbound_failed r; check_oversize (len (payload m')) rpc_error)
  | None => ((c, m), check_oversize (len (payload m)) rpc_error)
  end.

(** [outbound(msg, rpc_error)], on the context and the message. *)
Definition outbound (rpc_error : bool) : st (ConnectionContext D T * GenMessage) Error unit :=
  fun '(c, m) =>
  match payload_transform c with
  | Some _ =>
      let max_len := max_raw_payload_len c in
      if decide (len (payload m) > max_len) then
        ((c, m), Err (Others (unsafe_len_msg (len (payload m)) max_len +:+ "; reduce payload size")))
      else
        let '(c', r) := ctx_transform_outbound (payload m) (serialize_aad (header m)) c in
        let m' := replace_payload m r in
        ((c', m'), p ← map_err outbound_failed r; check_oversize (len (payload m')) rpc_error)
  | None => ((c, m), check_oversize (len (payload m)) rpc_error)
  end.

(** [send_response_sync(buf, aad, tx, mh)]: under the outbound lock, transform and enqueue. *)
Definition send_response_sync (buf aad : list byte) (mh : MessageHeader)
  : st (ConnectionContext D T * StdChan (MessageHeader * list byte)) Error unit := fun '(c, tx) =>
  match outbound_buf buf aad true c with
  | (c', Err e) => ((c', tx), Err e)
  | (c', Ok buf) =>
      let mh := set_length mh (len_u32 buf) in
      let '(tx', r) := std_send (mh, buf) tx in
      ((c', tx'), map_err (fun e => Others ("send to wire channel failed: " +:+ e)) r)
  end.
End Pipelines.

#[global] Arguments inbound : simpl never.
#[global] Arguments outbound : simpl never.
#[global] Arguments max_raw_payload_len : simpl never.

(** ** Waiting for the outbound channel and lock *)

Definition request_timeout_error : Error := Others "Request deadline elapsed".

(** What an [await] under an optional deadline has come to: still pending, elapsed, or a result. *)
Inductive Awaited (A : Type) := Pending | Elapsed | Ready (a : A).
Arguments Pending {A}.
Arguments Elapsed {A}.
Arguments Ready {A} _.

(** [timeout_at(deadline, f)] when there is a deadline, [f] otherwise. *)
Definition timeout_at {A} (dl : option Z) (w : Awaited A) : option (Result A) :=
  match w, dl with
  | Ready a, _ => Some (Ok a)
  | Elapsed, Some _ => Some (Err request_timeout_error)
  | Elapsed, None | Pending, _ => None
  end.

(** [reserve_message_slot]: [try_reserve] first, then a wait that fails when the channel is closed.
    [None]: the caller is suspended. *)
Definition reserve_message_slot `{Texts} (try_reserve : bool) (dl : option Z)
    (w : Awaited bool) : option (Result unit) :=
  if try_reserve then Some (Ok tt)
  else match timeout_at dl w with
       | None => None
       | Some (Err e) => Some (Err e)
       | Some (Ok true) => Some (Ok tt)
       | Some (Ok false) =>
           Some (Err (Others ("reserve channel capacity failed: " +:+ tokio_send_error)))
       end.

(** ** The accept hook *)

(** An [io::Error], by its renderings. *)
Record IoError := MkIoError { io_debug : string; io_display : string }.

Inductive HookError :=
  | Rejected (msg : string)
  | Timeout
  | Io (e : IoError)
  | Other (msg : string).

Definition hook_error_debug (e : HookError) : string :=
  match e with
  | Rejected msg => "Rejected(" +:+ msg +:+ ")"
  | Timeout => "Timeout"
  | Io e => "Io(" +:+ io_debug e +:+ ")"
  | Other msg => "Other(" +:+ msg +:+ ")"
  end.

Definition hook_error_display (e : HookError) : string :=
  match e with
  | Rejected msg => "connection rejected: " +:+ msg
  | Timeout => "handshake timeout"
  | Io e => "I/O error: " +:+ io_display e
  | Other msg => msg
  end.

(** [AcceptHook::on_accept] and [ConnectHook::on_connect], by the descriptor they are given. *)
Definition Hook (D T : Type) : Type := Z -> res HookError (HookOutput D T).

(** [ServerExtensionConfig]. *)
Record ServerExtensionConfig (D T : Type) := MkExtConfig { accept_hook : option (Hook D T) }.
Arguments MkExtConfig {D T} _.
Arguments accept_hook {D T} _.

(** How the race between the blocking task and the [ACCEPT_HOOK_TIMEOUT] ends. *)
Inductive HookRace := HookReturned | HookJoinError (e : string) | HookTimedOut.

(** [ServerExtensionConfig::on_accept]: [fd] is [conn.as_raw_fd()], [dup] what
    [fcntl(fd, F_DUPFD_CLOEXEC, 0)] returns, [last_os_error] the error it left. *)
Definition on_accept {D T} (cfg : ServerExtensionConfig D T) (fd : option Z) (dup : Z -> Z)
    (last_os_error : IoError) (race : HookRace) : res HookError (option (HookOutput D T)) :=
  match accept_hook cfg with
  | None => Ok None
  | Some hook =>
      fd ← ok_or fd (Other "accept hook requires a raw fd; use Server::bind() or construct Socket from a platform stream (UnixStream, TcpStream, VsockStream)");
      let dup_fd := dup fd in
      if decide (dup_fd < 0) then Err (Io last_os_error)
      else match race with
           | HookReturned => Some <$> hook dup_fd
           | HookJoinError e => Err (Other ("accept hook task failed: " +:+ e))
           | HookTimedOut => Err Timeout
           end
  end.

(** ** The variants without the extension *)
Section NoopPipelines.
Context {D T : Type}.

Definition noop_max_raw_payload_len (c : ConnectionContext D T) : Z := MESSAGE_LENGTH_MAX.

Definition noop_inbound (rpc_error : bool) : st (ConnectionContext D T * GenMessage) Error unit :=
  fun s => (s, check_oversize (len (payload s.2)) rpc_error).

Definition noop_outbound (rpc_error : bool) : st (ConnectionContext D T * GenMessage) Error unit :=
  fun s => (s, check_oversize (len (payload s.2)) rpc_error).

Definition noop_inbound_buf (b aad : list byte) (rpc_error : bool)
  : st (ConnectionContext D T) Error (list byte) :=
  _ ← st_lift (check_oversize (len b) rpc_error); mret b.

Definition noop_outbound_buf (b aad : list byte) (rpc_error : bool)
  : st (ConnectionContext D T) Error (list byte) :=
  _ ← st_lift (check_oversize (len b) rpc_error); mret b.

Definition noop_send_response_sync (buf aad : list byte) (mh : MessageHeader)
  : st (ConnectionContext D T * StdChan (MessageHeader * list byte)) Error unit := fun '(c, tx) =>
  match check_oversize (len buf) true with
  | Err e => ((c, tx), Err e)
  | Ok _ =>
      let mh := set_length mh (len_u32 buf) in
      let '(tx', r) := std_send (mh, buf) tx in
      ((c, tx'), map_err (fun e => Others ("send to wire channel failed: " +:+ e)) r)
  end.
End NoopPipelines.

(** [ConnectionData] is empty: nothing is found in it. *)
Definition noop_get_typed {V : Type} (k : string) : option V := None.

(** ** A stateful transform

    Two nonces, one per direction; an outbound payload is prefixed with its nonce and the
    authenticated header fields, and an inbound one is accepted only with the expected prefix. *)
Record NonceTransform := MkNonce { out_nonce : Z; in_nonce : Z }.
#[global] Instance NonceTransform_eq_dec : EqDecision NonceTransform.
Proof. solve_decision. Defined.

Definition nonce_prefix (n : Z) (aad : list byte) : list byte := be_bytes 4 n ++ aad.

Definition nonce_outbound (p aad : list byte) : st NonceTransform string (list byte) := fun x =>
  if decide (len aad > 6) then (x, Err "bad header")
  else (MkNonce (out_nonce x + 1) (in_nonce x), Ok (nonce_prefix (out_nonce x) aad ++ p)).

Definition nonce_inbound (p aad : list byte) : st NonceTransform string (list byte) := fun x =>
  let expected := nonce_prefix (in_nonce x) aad in
  if decide (take (length expected) p = expected)
  then (MkNonce (out_nonce x) (in_nonce x + 1), Ok (drop (length expected) p))
  else (x, Err "authentication failed").

#[global] Instance nonce_transform : PayloadTransform NonceTransform := {
  transform_inbound := nonce_inbound;
  transform_outbound := nonce_outbound;
  max_overhead := fun _ => default_max_overhead }.

#[global] Instance nonce_transform_laws : TransformLaws NonceTransform.
Proof.
  split; intros; simpl in *; unfold nonce_outbound, default_max_overhead in *; try done.
  case_decide; simplify_eq. unfold nonce_prefix, len in *.
  cbn [length]. rewrite !length_app. lia.
Qed.

Definition nonce_in_step (a b : NonceTransform) : Prop := out_nonce a = in_nonce b.

#[global] Opaque nonce_prefix.

#[global] Instance nonce_peer_laws : PeerLaws NonceTransform nonce_in_step.
Proof.
  unfold nonce_in_step. split; intros a b ? p aad; unfold transform_outbound, transform_inbound,
    nonce_transform, nonce_outbound, nonce_inbound; cbv zeta; intros.
  - case_decide; simplify_eq. exists (MkNonce (out_nonce b) (in_nonce b + 1)).
    replace (out_nonce a) with (in_nonce b) by done.
    rewrite take_app_length, decide_True, drop_app_length by done. split; [done|]. simpl. lia.
  - case_decide; by simplify_eq.
  - case_decide; by simplify_eq/=.
  - case_decide; by simplify_eq/=.
Qed.

(** ** Lemmas *)

Lemma serialize_aad_spec h :
  serialize_aad h = be_bytes 4 (stream_id h) ++ [byte_of (type_ h); byte_of (flags h)].
Proof. done. Qed.

Lemma length_serialize_aad h : length (serialize_aad h) = 6%nat.
Proof. done. Qed.

#[global] Opaque serialize_aad.

Section Lemmas.
Context {D T : Type} `{TransformLaws T}.
Implicit Types (c : ConnectionContext D T) (m : GenMessage).

Lemma serialize_aad_set_length h n : serialize_aad (set_length h n) = serialize_aad h.
Proof. by rewrite !serialize_aad_spec. Qed.

(** The exact behaviour of [outbound] with a transform. *)
Lemma outbound_transform b c m x :
  payload_transform c = Some x ->
  outbound b (c, m) =
    if decide (len (payload m) > max_raw_payload_len c)
    then ((c, m), Err (Others (unsafe_len_msg (len (payload m)) (max_raw_payload_len c)
                               +:+ "; reduce payload size")))
    else let '(x', r) := transform_outbound (payload m) (serialize_aad (header m)) x in
         ((set_transform c x', replace_payload m r),
          p ← map_err outbound_failed r; check_oversize (len p) b).
Proof.
  intros Hc. unfold outbound. rewrite Hc. case_decide; [done|].
  unfold ctx_transform_outbound. rewrite Hc.
  by destruct (transform_outbound _ _ _) as [x' [p|e]].
Qed.

Lemma outbound_none b c m :
  payload_transform c = None -> outbound b (c, m) = ((c, m), check_oversize (len (payload m)) b).
Proof. intros Hc. unfold outbound. by rewrite Hc. Qed.

Lemma inbound_transform b c m x :
  payload_transform c = Some x ->
  inbound b (c, m) =
    let '(x', r) := transform_inbound (payload m) (serialize_aad (header m)) x in
    ((set_transform c x', replace_payload m r),
     p ← map_err inbound_failed r; check_oversize (len p) b).
Proof.
  intros Hc. unfold inbound, ctx_transform_inbound. rewrite Hc.
  by destruct (transform_inbound _ _ _) as [x' [p|e]].
Qed.

(** The routing fields of a frame are those it arrived with. *)
Lemma inbound_routing b c m c' m' r :
  inbound b (c, m) = ((c', m'), r) ->
  stream_id (header m') = stream_id (header m) /\ type_ (header m') = type_ (header m) /\
  flags (header m') = flags (header m).
Proof.
  unfold inbound. destruct (payload_transform c); [|by intros; simplify_eq].
  destruct (ctx_transform_inbound _ _ _) as [x1 [p|e]]; by intros; simplify_eq.
Qed.

(** Under the laws, a payload within the limit stays within the frame limit. *)
Lemma outbound_fits b c m x p x' :
  payload_transform c = Some x -> max_overhead x <= MESSAGE_LENGTH_MAX ->
  len (payload m) <= max_raw_payload_len c ->
  transform_outbound (payload m) (serialize_aad (header m)) x = (x', Ok p) ->
  outbound b (c, m) =
    ((set_transform c x', MkGen (set_length (header m) (len p)) p), Ok tt) /\
  len p <= MESSAGE_LENGTH_MAX.
Proof.
  intros Hc Hx Hl E. pose proof (outbound_overhead _ _ _ _ _ E) as Ho.
  unfold max_raw_payload_len, saturating_sub in Hl. rewrite Hc in Hl.
  assert (len p <= MESSAGE_LENGTH_MAX) as Hp by lia.
  rewrite (outbound_transform b c m x Hc), decide_False, E.
  2: { unfold max_raw_payload_len, saturating_sub. rewrite Hc. lia. }
  munfold. cbn [replace_payload]. rewrite len_u32_small.
  2: { eapply Z.le_lt_trans; [exact Hp|done]. }
  split; [|done]. f_equal. by apply check_oversize_ok.
Qed.
End Lemmas.

(** ** A run of messages through both pipelines *)

Section Runs.
Context {D T : Type} `{TransformLaws T} (in_step : T -> T -> Prop) `{!PeerLaws T in_step}.
Implicit Types (c : ConnectionContext D T) (m : GenMessage).

(** Sends messages one after the other; the ones [outbound] refuses are not sent. The result
    pairs every message sent with the frame it became. *)
Fixpoint outbound_run (b : bool) (c : ConnectionContext D T) (ms : list GenMessage)
  : ConnectionContext D T * list (GenMessage * GenMessage) :=
  match ms with
  | [] => (c, [])
  | m :: ms' =>
      match outbound b (c, m) with
      | ((c', f), Ok _) => let '(c'', fs) := outbound_run b c' ms' in (c'', (m, f) :: fs)
      | ((c', _), Err _) => outbound_run b c' ms'
      end
  end.

(** Receives frames one after the other. *)
Fixpoint inbound_run (b : bool) (c : ConnectionContext D T) (fs : list GenMessage)
  : ConnectionContext D T * list (res Error GenMessage) :=
  match fs with
  | [] => (c, [])
  | f :: fs' =>
      let '((c', m), r) := inbound b (c, f) in
      let '(c'', rs) := inbound_run b c' fs' in
      (c'', (match r with Ok _ => Ok m | Err e => Err e end) :: rs)
  end.

(** Both ends of a connection: no transform on either side, or transforms in step, the sender's
    overhead being below the frame limit. *)
Definition ctx_in_step (a c : ConnectionContext D T) : Prop :=
  match payload_transform a, payload_transform c with
  | None, None => True
  | Some x, Some y => in_step x y /\ max_overhead x <= MESSAGE_LENGTH_MAX
  | _, _ => False
  end.

(** A message as the runtime builds it: its header has the length of its payload. *)
Definition sized (m : GenMessage) : Prop := h_length (header m) = len (payload m).

Lemma outbound_inbound b b' a c m a' f r :
  ctx_in_step a c -> sized m -> outbound b (a, m) = ((a', f), r) ->
  match r with
  | Ok _ => sized f /\ len (payload f) <= MESSAGE_LENGTH_MAX /\
            exists c', inbound b' (c, f) = ((c', m), Ok tt) /\ ctx_in_step a' c'
  | Err _ => ctx_in_step a' c
  end.
Proof.
  unfold ctx_in_step. intros Hab Hm E.
  destruct (payload_transform a) as [x|] eqn:Ha, (payload_transform c) as [y|] eqn:Hc; try done.
  - destruct Hab as [Hxy Hx].
    destruct (decide (len (payload m) <= max_raw_payload_len a)) as [Hl|Hl].
    2: { rewrite (outbound_transform _ _ _ _ Ha), decide_True in E by lia. simplify_eq. by rewrite Ha. }
    destruct (transform_outbound (payload m) (serialize_aad (header m)) x) as [x' [p|e]] eqn:Ex.
    2: { rewrite (outbound_transform _ _ _ _ Ha), decide_False, Ex in E by lia. msimpl.
         split; [by eapply in_step_err|]. by rewrite (overhead_outbound _ _ _ _ _ Ex). }
    destruct (outbound_fits b a m x p x' Ha Hx Hl Ex) as [E' Hp]. rewrite E' in E. simplify_eq/=.
    split_and!; [done|done|].
    destruct (in_step_ok _ _ _ _ _ _ Hxy Ex) as (y' & Ey & Hxy').
    exists (set_transform c y'). split.
    + rewrite (inbound_transform _ _ _ _ Hc). cbn [header payload].
      rewrite serialize_aad_set_length, Ey. munfold. cbn [replace_payload header].
      unfold max_raw_payload_len, saturating_sub in Hl. rewrite Ha in Hl.
      pose proof (overhead_nonneg x).
      assert (len (payload m) <= MESSAGE_LENGTH_MAX) as Hmax.
      { change MESSAGE_LENGTH_MAX with 4194304 in *. lia. }
      rewrite len_u32_small by (eapply Z.le_lt_trans; [exact Hmax|done]).
      f_equal; [|by apply check_oversize_ok]. f_equal. unfold sized in Hm.
      destruct m as [[l s t fl] pl]; cbn in *. by subst.
    + simpl. split; [done|]. by rewrite (overhead_outbound _ _ _ _ _ Ex).
  - rewrite (outbound_none _ _ _ Ha) in E. simplify_eq.
    destruct (check_oversize (len (payload f)) b) as [[]|] eqn:Hk.
    + apply check_oversize_ok in Hk. split_and!; [done..|].
      exists c. unfold inbound. rewrite Hc. split; [|by rewrite Ha].
      f_equal. by apply check_oversize_ok.
    + by rewrite Ha.
Qed.

(** Decoding frames of the other direction keeps the sender in step. *)
Lemma inbound_in_step b a c m a' m' r :
  ctx_in_step a c -> inbound b (a, m) = ((a', m'), r) -> ctx_in_step a' c.
Proof.
  unfold ctx_in_step. intros Hac E. destruct (payload_transform a) as [x|] eqn:Ha.
  - rewrite (inbound_transform _ _ _ _ Ha) in E.
    destruct (transform_inbound _ _ _) as [x' t] eqn:Ex. simplify_eq. cbn [set_transform payload_transform].
    destruct (payload_transform c) as [y|]; [|done]. destruct Hac as [Hxy Hx].
    split; [by eapply in_step_inbound|]. by rewrite (overhead_inbound _ _ _ _ _ Ex).
  - unfold inbound in E. rewrite Ha in E. simplify_eq. by rewrite Ha.
Qed.

Lemma inbound_run_app b c fs1 fs2 :
  inbound_run b c (fs1 ++ fs2) =
    let '(c1, r1) := inbound_run b c fs1 in
    let '(c2, r2) := inbound_run b c1 fs2 in (c2, r1 ++ r2).
Proof.
  revert c. induction fs1 as [|f fs1 IH]; intros c; cbn [app inbound_run].
  { by destruct (inbound_run b c fs2). }
  destruct (inbound b (c, f)) as [[c1 m] r]. rewrite IH.
  destruct (inbound_run b c1 fs1) as [c2 r1]. by destruct (inbound_run b c2 fs2).
Qed.

Lemma length_inbound_run b c fs : length (inbound_run b c fs).2 = length fs.
Proof.
  revert c. induction fs as [|f fs IH]; intros c; cbn [inbound_run]; [done|].
  destruct (inbound b (c, f)) as [[c1 m] r]. specialize (IH c1).
  destruct (inbound_run b c1 fs). cbn in *. lia.
Qed.

(** Receiving the frames of a run in order gives the messages back. *)
Lemma outbound_inbound_run b b' ms a c a' mfs :
  ctx_in_step a c -> Forall sized ms -> outbound_run b a ms = (a', mfs) ->
  exists c', inbound_run b' c mfs.*2 = (c', Ok <$> mfs.*1) /\ ctx_in_step a' c'.
Proof.
  revert a c a' mfs. induction ms as [|m ms IH]; intros a c a' mfs Hac Hms E; simpl in E.
  { simplify_eq. by exists c. }
  apply Forall_cons_1 in Hms as [Hm Hms].
  destruct (outbound b (a, m)) as [[a1 f] r] eqn:E1.
  pose proof (outbound_inbound b b' _ _ _ _ _ _ Hac Hm E1) as Hr. destruct r as [[]|e].
  - destruct Hr as (_ & _ & c1 & Ec1 & Hac1).
    destruct (outbound_run b a1 ms) as [a2 fs] eqn:E2. simplify_eq.
    destruct (IH _ _ _ _ Hac1 Hms E2) as (c2 & Ec2 & Hac2).
    exists c2. cbn [fmap list_fmap inbound_run fst snd]. by rewrite Ec1, Ec2.
  - by eapply IH.
Qed.
End Runs.

(** ** Properties *)

Section Properties.
Context {D T : Type} `{TransformLaws T}.

(** The data authenticated with a payload determines the routing fields of its header and
    nothing else: two in-range headers have the same authenticated data exactly when they agree
    on stream, type and flags, whatever their lengths. *)
Theorem aad_routing_fields (h1 h2 : MessageHeader) :
  wf_header h1 -> wf_header h2 ->
  (serialize_aad h1 = serialize_aad h2 <->
   stream_id h1 = stream_id h2 /\ type_ h1 = type_ h2 /\ flags h1 = flags h2).
Proof.
  intros (_ & Hs1 & Ht1 & Hf1) (_ & Hs2 & Ht2 & Hf2). rewrite !serialize_aad_spec. split.
  - intros E. apply app_split_inj in E as [Es Etf]; [|by rewrite !length_be_bytes].
    apply (f_equal be_value) in Es. rewrite !be_bytes_4 in Es by done.
    injection Etf as Et Ef. apply (f_equal byte_val) in Et, Ef.
    rewrite !byte_val_of in Et, Ef. unfold as_u8 in Et, Ef.
    rewrite !Z.mod_small in Et, Ef by done. done.
  - by intros (-> & -> & ->).
Qed.

(** C31: with a transform whose overhead is within the frame limit, a payload above
    [MESSAGE_LENGTH_MAX - max_overhead] is refused before the transform runs, so that neither its
    state nor the message changes; any other payload goes through the transform exactly once, and
    succeeds exactly when the transform does: the size check after it never fails. The frame sent
    keeps the routing fields, its header has the length of the new payload, and it is within the
    frame limit. *)
Theorem outbound_guard (b : bool) (c c' : ConnectionContext D T) (m m' : GenMessage) (x : T)
    (r : Result unit) :
  payload_transform c = Some x -> max_overhead x <= MESSAGE_LENGTH_MAX ->
  outbound b (c, m) = ((c', m'), r) ->
  (len (payload m) > MESSAGE_LENGTH_MAX - max_overhead x /\ c' = c /\ m' = m /\ is_err r = true) \/
  (len (payload m) <= MESSAGE_LENGTH_MAX - max_overhead x /\
   exists x' t, transform_outbound (payload m) (serialize_aad (header m)) x = (x', t) /\
     c' = set_transform c x' /\
     match t with
     | Ok p => r = Ok tt /\ m' = MkGen (set_length (header m) (len p)) p /\
               len p <= MESSAGE_LENGTH_MAX
     | Err e => r = Err (outbound_failed e) /\ m' = MkGen (header m) []
     end).
Proof.
  intros Hc Hx E.
  assert (max_raw_payload_len c = MESSAGE_LENGTH_MAX - max_overhead x) as Hmax.
  { unfold max_raw_payload_len, saturating_sub. rewrite Hc. lia. }
  destruct (decide (len (payload m) <= max_raw_payload_len c)) as [Hl|Hl].
  - right. split; [lia|].
    destruct (transform_outbound (payload m) (serialize_aad (header m)) x) as [x' [p|e]] eqn:Ex.
    + destruct (outbound_fits b c m x p x' Hc Hx Hl Ex) as [E' Hp]. rewrite E' in E.
      simplify_eq. by exists x', (Ok p).
    + rewrite (outbound_transform _ _ _ _ Hc), decide_False, Ex in E by lia. msimpl.
      by exists x', (Err e).
  - left. rewrite (outbound_transform _ _ _ _ Hc), decide_True in E by lia. simplify_eq.
    split_and!; [lia|done..].
Qed.

(** Without a transform the pipelines of the extension behave like the ones compiled when the
    extension is disabled, on every input. *)
Theorem noop_equivalent (c : ConnectionContext D T) (m : GenMessage) (p aad : list byte)
    (mh : MessageHeader) (tx : StdChan (MessageHeader * list byte)) (b : bool) :
  payload_transform c = None ->
  max_raw_payload_len c = noop_max_raw_payload_len c /\
  inbound b (c, m) = noop_inbound b (c, m) /\
  outbound b (c, m) = noop_outbound b (c, m) /\
  inbound_buf p aad b c = noop_inbound_buf p aad b c /\
  outbound_buf p aad b c = noop_outbound_buf p aad b c /\
  send_response_sync p aad mh (c, tx) = noop_send_response_sync p aad mh (c, tx).
Proof.
  intros Hc.
  assert (outbound_buf p aad true c = noop_outbound_buf p aad true c) as Hb.
  { unfold outbound_buf, noop_outbound_buf. munfold. by rewrite Hc. }
  split_and!.
  - unfold max_raw_payload_len. by rewrite Hc.
  - unfold inbound. by rewrite Hc.
  - unfold outbound. by rewrite Hc.
  - unfold inbound_buf, noop_inbound_buf, ctx_transform_inbound. munfold. by rewrite Hc.
  - unfold outbound_buf, noop_outbound_buf. munfold. by rewrite Hc.
  - unfold send_response_sync, noop_send_response_sync. rewrite Hb. unfold noop_outbound_buf. munfold.
    by destruct (check_oversize (len p) true).
Qed.
End Properties.

Lemma aad_routing_fields_witness :
  let h := MkHeader 10 7 1 0 in
  serialize_aad h = serialize_aad (set_length h 99) /\ serialize_aad h <> serialize_aad (set_flags h 1).
Proof.
  intros h. assert (wf_header h) as Hh by (by vm_compute). split.
  - apply (aad_routing_fields h (set_length h 99)); [done| by vm_compute | done].
  - intros E. apply (aad_routing_fields h (set_flags h 1)) in E as (_ & _ & ?);
      [done | done | by vm_compute].
Defined.

Lemma outbound_guard_witness :
  let c : ConnectionContext unit NonceTransform := MkCtx tt (Some (MkNonce 5 0)) in
  let m := gen_new_data 1 [Byte.x2a] in
  exists c' m', outbound false (c, m) = ((c', m'), Ok tt) /\
    payload_transform c' = Some (MkNonce 6 0) /\ h_length (header m') = 11.
Proof.
  intros c m. destruct (outbound false (c, m)) as [[c' m'] r] eqn:E.
  destruct (outbound_guard false c c' m m' (MkNonce 5 0) r) as [Hbad|(_ & x' & t & Et & -> & Hr)];
    [done | by vm_compute | done | |].
  - exfalso. destruct Hbad as [Hbad _]. revert Hbad. by vm_compute.
  - vm_compute in Et. simplify_eq/=. destruct Hr as (-> & -> & _).
    by do 2 eexists.
Defined.

Lemma noop_equivalent_witness :
  let c : ConnectionContext unit NonceTransform := MkCtx tt None in
  let m := gen_new_data 1 [Byte.x2a] in
  outbound true (c, m) = ((c, m), Ok tt) /\
  send_response_sync [Byte.x2a] [] (header m) (c, MkStdChan [] true) =
    ((c, MkStdChan [(header m, [Byte.x2a])] true), Ok tt).
Proof.
  intros c m.
  destruct (noop_equivalent c m [Byte.x2a] [] (header m) (MkStdChan [] true) true) as
    (_ & _ & -> & _ & _ & ->); [reflexivity|]. split; reflexivity.
Defined.
