(* ===== verification/TransformSend.v ===== *)
(** The concurrent send path (src/src/security_extension.rs, [transform_send] and
    [transform_send_with_control]): any number of tasks share one connection context, one outbound
    lock and one bounded channel to the writer. Every await of [transform_send_inner] is a point
    where the task may be suspended or dropped; the code between two awaits is one poll. *)
From S2P Require Import Prelude Errors Wire Frame Channel Extension.

Section TransformSend.
Context {D T : Type} {Q : Type -> Type} `{TransformLaws T, MpscLaws Q, Texts}.

(** Where a call of [transform_send_inner] is suspended. *)
Inductive Pc :=
  | AtReserve                       (* [reserve_message_slot(tx, deadline).await] *)
  | AtLock                          (* [async_outbound_lock.lock()] *)
  | Locked                          (* the guard is held, before [self.outbound] *)
  | Transformed (taken : GenMessage) (* after [std::mem::take(msg)], before [permit.send] *)
  | AtAck                           (* [result_rx.await] *)
  | Returned (r : Result unit).

(** A call: its arguments and where it is. *)
Record Task := MkTask {
  t_msg : GenMessage;
  t_rpc_error : bool;
  t_await_ack : bool;
  t_control : option MessageControl;
  t_result_tx : chan_id;
  t_pc : Pc }.

Definition set_pc (k : Task) (pc : Pc) : Task :=
  MkTask (t_msg k) (t_rpc_error k) (t_await_ack k) (t_control k) (t_result_tx k) pc.
Definition set_msg_control (k : Task) (m : GenMessage) (c : option MessageControl) : Task :=
  MkTask m (t_rpc_error k) (t_await_ack k) c (t_result_tx k) (t_pc k).

(** What the tasks share: the context, the holder of the outbound lock, the writer's channel. *)
Record Shared := MkShared {
  sh_ctx : ConnectionContext D T;
  sh_lock : option nat;
  sh_chan : Q SendingMessage }.

(** What the environment decides at a suspension point. *)
Inductive Choice :=
  | OnReserve (try_reserve : bool) (w : Awaited bool)
  | OnLock (w : Awaited unit)
  | Run
  | OnAck (r : option (Result unit)).

(** Observations: a payload went through the transform, a message entered the channel, the writer
    took one out. *)
Inductive Event :=
  | EvTransform (before after : GenMessage)
  | EvEnqueue (s : SendingMessage)
  | EvReceive (s : SendingMessage).

Definition task_deadline (k : Task) : option Z := c ← t_control k; deadline c.

(** The frame as it enters the channel. *)
Definition sending_of (k : Task) (taken : GenMessage) : SendingMessage :=
  if t_await_ack k then
    sending_set_control (sending_new_with_result taken (t_result_tx k)) (t_control k)
  else match t_control k with
       | Some c => sending_new_with_control taken c
       | None => sending_new taken
       end.

(** One poll of [transform_send_inner] by task [tid]; [None]: the choice does not apply. *)
Definition poll (tid : nat) (k : Task) (ch : Choice) (sh : Shared)
  : option (Shared * Task * list Event) :=
  match t_pc k, ch with
  | AtReserve, OnReserve try_reserve w =>
      r ← reserve_message_slot try_reserve (task_deadline k) w;
      Some (sh, set_pc k (match r with Ok _ => AtLock | Err e => Returned (Err e) end), [])
  | AtLock, OnLock w =>
      r ← timeout_at (task_deadline k) w;
      match r with
      | Ok _ => Some (MkShared (sh_ctx sh) (Some tid) (sh_chan sh), set_pc k Locked, [])
      | Err e => Some (sh, set_pc k (Returned (Err e)), [])
      end
  | Locked, Run =>
      let '((c', m'), r) := outbound (t_rpc_error k) (sh_ctx sh, t_msg k) in
      match r with
      | Err e => Some (MkShared c' None (sh_chan sh),
                       set_pc (set_msg_control k m' (t_control k)) (Returned (Err e)), [])
      | Ok _ =>
          let control := match payload_transform (sh_ctx sh) with
                         | Some _ => None
                         | None => t_control k
                         end in
          Some (MkShared c' (sh_lock sh) (sh_chan sh),
                set_pc (set_msg_control k default_gen control) (Transformed m'),
                [EvTransform (t_msg k) m'])
      end
  | Transformed taken, Run =>
      let s := sending_of k taken in
      let '(chan', _) := mpsc_send s (sh_chan sh) in
      Some (MkShared (sh_ctx sh) None chan',
            set_pc k (if t_await_ack k then AtAck else Returned (Ok tt)), [EvEnqueue s])
  | AtAck, OnAck r =>
      Some (sh, set_pc k (Returned (match r with
                                    | Some r => r
                                    | None => Err (Others "writer task dropped result channel")
                                    end)), [])
  | _, _ => None
  end.

(** The lock is granted to one task at a time, and a permit only while the channel is open. *)
Definition enabled (sh : Shared) (ch : Choice) : Prop :=
  match ch with
  | OnReserve try_reserve w =>
      (try_reserve = true \/ w = Ready true -> mpsc_open (sh_chan sh) = true) /\
      (try_reserve = false -> w = Ready false -> mpsc_open (sh_chan sh) = false)
  | OnLock (Ready _) => sh_lock sh = None
  | _ => True
  end.

(** A future can be dropped where it awaits. *)
Definition droppable (k : Task) : bool :=
  match t_pc k with
  | AtReserve | AtLock | AtAck | Returned _ => true
  | Locked | Transformed _ => false
  end.

Record System := MkSystem { shared : Shared; tasks : gmap nat Task }.

Inductive step : System -> list Event -> System -> Prop :=
  | StepSpawn sys tid k :
      tasks sys !! tid = None -> t_pc k = AtReserve -> sized (t_msg k) ->
      step sys [] (MkSystem (shared sys) (<[tid := k]> (tasks sys)))
  | StepPoll sys tid k ch sh' k' evs :
      tasks sys !! tid = Some k -> enabled (shared sys) ch ->
      poll tid k ch (shared sys) = Some (sh', k', evs) ->
      step sys evs (MkSystem sh' (<[tid := k']> (tasks sys)))
  | StepDrop sys tid k :
      tasks sys !! tid = Some k -> droppable k = true ->
      step sys [] (MkSystem (shared sys) (delete tid (tasks sys)))
  | StepInbound sys b m m' c' r :
      (* the connection reader decodes a frame with the same context *)
      inbound b (sh_ctx (shared sys), m) = ((c', m'), r) ->
      step sys [] (MkSystem (MkShared c' (sh_lock (shared sys)) (sh_chan (shared sys))) (tasks sys))
  | StepWriter sys s chan' :
      mpsc_recv (sh_chan (shared sys)) = (chan', Some s) ->
      step sys [EvReceive s]
        (MkSystem (MkShared (sh_ctx (shared sys)) (sh_lock (shared sys)) chan') (tasks sys))
  | StepWriterExit sys :
      step sys [] (MkSystem (MkShared (sh_ctx (shared sys)) (sh_lock (shared sys))
                               (mpsc_drop_rx (sh_chan (shared sys)))) (tasks sys)).

Definition initial (c : ConnectionContext D T) : System :=
  MkSystem (MkShared c None mpsc_channel) ∅.

(** Reachability with the history of the events. *)
Inductive reachable (c : ConnectionContext D T) : list Event -> System -> Prop :=
  | ReachInit : reachable c [] (initial c)
  | ReachStep evs sys evs' sys' :
      reachable c evs sys -> step sys evs' sys' -> reachable c (evs ++ evs') sys'.

Definition transformed (evs : list Event) : list (GenMessage * GenMessage) :=
  omap (fun e => match e with EvTransform m f => Some (m, f) | _ => None end) evs.
Definition enqueued (evs : list Event) : list SendingMessage :=
  omap (fun e => match e with EvEnqueue s => Some s | _ => None end) evs.
Definition received (evs : list Event) : list SendingMessage :=
  omap (fun e => match e with EvReceive s => Some s | _ => None end) evs.

(** ** The polls by cases *)

(** The task is between taking the lock and releasing it. *)
Definition holds (k : Task) : bool :=
  match t_pc k with Locked | Transformed _ => true | _ => false end.

Inductive poll_spec (tid : nat) (k : Task) (sh : Shared) : Shared -> Task -> list Event -> Prop :=
  | PollQuiet pc :
      holds k = false -> holds (set_pc k pc) = false -> (t_pc k = AtLock -> pc <> AtReserve) ->
      poll_spec tid k sh sh (set_pc k pc) []
  | PollLock :
      holds k = false -> sh_lock sh = None ->
      poll_spec tid k sh (MkShared (sh_ctx sh) (Some tid) (sh_chan sh)) (set_pc k Locked) []
  | PollRefused c' m' e :
      t_pc k = Locked -> outbound (t_rpc_error k) (sh_ctx sh, t_msg k) = ((c', m'), Err e) ->
      poll_spec tid k sh (MkShared c' None (sh_chan sh))
        (set_pc (set_msg_control k m' (t_control k)) (Returned (Err e))) []
  | PollTransform c' m' ctl :
      t_pc k = Locked -> outbound (t_rpc_error k) (sh_ctx sh, t_msg k) = ((c', m'), Ok tt) ->
      (payload_transform (sh_ctx sh) <> None -> ctl = None) ->
      poll_spec tid k sh (MkShared c' (sh_lock sh) (sh_chan sh))
        (set_pc (set_msg_control k default_gen ctl) (Transformed m')) [EvTransform (t_msg k) m']
  | PollSend taken pc chan' ok :
      t_pc k = Transformed taken -> mpsc_send (sending_of k taken) (sh_chan sh) = (chan', ok) ->
      holds (set_pc k pc) = false ->
      poll_spec tid k sh (MkShared (sh_ctx sh) None chan') (set_pc k pc)
        [EvEnqueue (sending_of k taken)].

Lemma poll_inv tid k ch sh sh' k' evs :
  enabled sh ch -> poll tid k ch sh = Some (sh', k', evs) -> poll_spec tid k sh sh' k' evs.
Proof.
  unfold poll. intros Hen E. destruct (t_pc k) eqn:Hpc, ch; try done.
  - apply bind_Some in E as (r & Er & E). simplify_eq. apply PollQuiet; unfold holds; rewrite ?Hpc; by destruct r.
  - apply bind_Some in E as ([u|e] & Er & E); simplify_eq.
    + destruct w; try done; [by destruct (task_deadline k)|]. apply PollLock; unfold holds; by rewrite ?Hpc.
    + apply PollQuiet; unfold holds; by rewrite ?Hpc.
  - destruct (outbound _ _) as [[c' m'] [[]|e]] eqn:Eo; simplify_eq.
    + apply PollTransform; [done..|]. intros ?. by destruct (payload_transform (sh_ctx sh)).
    + by apply PollRefused.
  - destruct (mpsc_send _ _) as [chan' ok] eqn:Es. simplify_eq.
    eapply PollSend; [done|done|]. unfold holds; simpl. by destruct (t_await_ack k).
  - simplify_eq. apply PollQuiet; unfold holds; by rewrite ?Hpc.
Qed.

(** ** Invariants *)

(** Task [tid] exists and is between taking the lock and releasing it. *)
Definition holder (ts : gmap nat Task) (tid : nat) : bool := from_option holds false (ts !! tid).

Lemma holder_insert ts tid k tid' :
  holder (<[tid := k]> ts) tid' = if decide (tid = tid') then holds k else holder ts tid'.
Proof.
  unfold holder. case_decide as Ht; [subst; by rewrite lookup_insert_eq|by rewrite lookup_insert_ne].
Qed.

Lemma holder_delete ts tid tid' :
  holder (delete tid ts) tid' = if decide (tid = tid') then false else holder ts tid'.
Proof.
  unfold holder. case_decide as Ht; [subst; by rewrite lookup_delete_eq|by rewrite lookup_delete_ne].
Qed.

Lemma holder_lookup ts tid k : ts !! tid = Some k -> holder ts tid = holds k.
Proof. unfold holder. by intros ->. Qed.

Definition inv_lock (sys : System) : Prop :=
  forall tid, sh_lock (shared sys) = Some tid <-> holder (tasks sys) tid = true.

Lemma inv_lock_step sys evs sys' : inv_lock sys -> step sys evs sys' -> inv_lock sys'.
Proof.
  unfold inv_lock. intros Hi Hs.
  destruct Hs as [sys tid k Hn Hpc Hm|sys tid k ch sh' k' evs Ht Hen Hp|sys tid k Ht Hd| | | ];
    cbn [shared tasks sh_lock]; try exact Hi; intros tid'; rewrite ?holder_insert, ?holder_delete.
  - case_decide as Hd; [subst tid'|apply Hi]. rewrite Hi. unfold holder, holds. by rewrite Hn, Hpc.
  - apply holder_lookup in Ht.
    apply poll_inv in Hp; [|done]. specialize (Hi tid) as Hi1. specialize (Hi tid') as Hi2.
    destruct Hp as [pc Hk Hk' _|Hk Hl|c' m' e Hpc Eo|c' m' ctl Hpc Eo _|taken pc chan' ok Hpc Es Hk'];
      cbn [sh_lock]; case_decide; subst; unfold holds in *; rewrite ?Hpc in *; cbn in *;
      split; intros; intuition congruence.
  - case_decide as He; [subst tid'|apply Hi]. rewrite Hi, (holder_lookup _ _ _ Ht).
    unfold droppable, holds in *. by destruct (t_pc k).
Qed.

(** Messages not yet transformed are as the runtime builds them. *)
Definition inv_sized (sys : System) : Prop :=
  forall tid k, tasks sys !! tid = Some k ->
    match t_pc k with AtReserve | AtLock | Locked => sized (t_msg k) | _ => True end.

Lemma inv_sized_step sys evs sys' : inv_sized sys -> step sys evs sys' -> inv_sized sys'.
Proof.
  unfold inv_sized. intros Hi Hs.
  destruct Hs as [sys tid k Hn Hpc Hm|sys tid k ch sh' k' evs Ht Hen Hp|sys tid k Ht Hd| | | ];
    cbn [shared tasks]; try exact Hi; intros tid' k1.
  - intros [[<- <-]|[Hne Hl]]%lookup_insert_Some; [by rewrite Hpc|exact (Hi _ _ Hl)].
  - intros [[<- <-]|[Hne Hl]]%lookup_insert_Some; [|exact (Hi _ _ Hl)].
    specialize (Hi _ _ Ht).
    unfold poll in Hp. destruct (t_pc k) eqn:Hpc, ch; try done.
    + apply bind_Some in Hp as ([[]|] & _ & ?); by simplify_eq/=.
    + apply bind_Some in Hp as ([[]|] & _ & ?); by simplify_eq/=.
    + repeat case_match; by simplify_eq/=.
    + destruct (mpsc_send _ _); simplify_eq/=. by destruct (t_await_ack k).
    + by simplify_eq/=.
  - intros [Hne Hl]%lookup_delete_Some. exact (Hi _ _ Hl).
Qed.

(** The frame that has gone through the transform and is not yet in the channel. *)
Definition pending (sys : System) : list GenMessage :=
  match sh_lock (shared sys) with
  | Some tid => match t_pc <$> tasks sys !! tid with Some (Transformed f) => [f] | _ => [] end
  | None => []
  end.

Lemma pending_insert_ne sh ts tid k :
  sh_lock sh <> Some tid -> pending (MkSystem sh (<[tid := k]> ts)) = pending (MkSystem sh ts).
Proof.
  unfold pending; cbn. intros Hl. destruct (sh_lock sh) as [tid'|]; [|done].
  rewrite lookup_insert_ne; [done|]. congruence.
Qed.

Lemma pending_delete_ne sh ts tid :
  sh_lock sh <> Some tid -> pending (MkSystem sh (delete tid ts)) = pending (MkSystem sh ts).
Proof.
  unfold pending; cbn. intros Hl. destruct (sh_lock sh) as [tid'|]; [|done].
  rewrite lookup_delete_ne; [done|]. congruence.
Qed.

Lemma pending_eq sh ts tid k :
  sh_lock sh = Some tid -> ts !! tid = Some k ->
  pending (MkSystem sh ts) = match t_pc k with Transformed f => [f] | _ => [] end.
Proof. unfold pending; cbn. by intros -> ->. Qed.

Lemma not_holder sys tid k :
  inv_lock sys -> tasks sys !! tid = Some k -> holds k = false -> sh_lock (shared sys) <> Some tid.
Proof. intros Hi Ht Hh Hl. apply Hi in Hl. rewrite (holder_lookup _ _ _ Ht) in Hl. congruence. Qed.

Lemma is_holder sys tid k :
  inv_lock sys -> tasks sys !! tid = Some k -> holds k = true -> sh_lock (shared sys) = Some tid.
Proof. intros Hi Ht Hh. apply Hi. by rewrite (holder_lookup _ _ _ Ht). Qed.

Lemma sending_of_msg k f : sm_msg (sending_of k f) = f.
Proof. unfold sending_of. destruct (t_await_ack k); [done|]. by destruct (t_control k). Qed.

(** Every transformed frame is in the channel, except the one of the holder of the lock. *)
Definition inv_queue (evs : list Event) (sys : System) : Prop :=
  (transformed evs).*2 = (sm_msg <$> enqueued evs) ++ pending sys.

Lemma inv_queue_step evs sys evs' sys' :
  inv_lock sys -> inv_queue evs sys -> step sys evs' sys' -> inv_queue (evs ++ evs') sys'.
Proof.
  unfold inv_queue, transformed, enqueued. intros Hlock Hi Hs.
  rewrite !omap_app, !fmap_app, Hi.
  destruct Hs as [[sh ts] tid k Hn Hpc Hm|[sh ts] tid k ch sh' k' evs' Ht Hen Hp|[sh ts] tid k Ht Hd| | | ];
    cbn in *; rewrite ?app_nil_r; try done.
  - rewrite pending_insert_ne; [done|]. intros Hl. apply Hlock in Hl. cbn in Hl.
    unfold holder in Hl. by rewrite Hn in Hl.
  - apply poll_inv in Hp; [|done].
    destruct Hp as [pc Hk Hk' _|Hk Hl|c' m' e Hpc Eo|c' m' ctl Hpc Eo _|taken pc chan' ok Hpc Es Hk'];
      cbn [omap list_omap fmap list_fmap]; rewrite ?app_nil_r.
    + rewrite pending_insert_ne; [done|]. by eapply (not_holder (MkSystem sh ts)).
    + unfold pending; cbn. by rewrite Hl, lookup_insert_eq.
    + erewrite pending_eq; [|eapply (is_holder (MkSystem sh ts)); try done; unfold holds; by rewrite Hpc|done].
      by rewrite Hpc, app_nil_r.
    + pose proof (is_holder (MkSystem sh ts) tid k Hlock Ht ltac:(unfold holds; by rewrite Hpc)) as Hl.
      cbn in Hl. rewrite (pending_eq _ _ _ _ Hl Ht), Hpc, app_nil_r. unfold pending; cbn in *.
      by rewrite Hl, lookup_insert_eq.
    + pose proof (is_holder (MkSystem sh ts) tid k Hlock Ht ltac:(unfold holds; by rewrite Hpc)) as Hl.
      cbn in Hl. rewrite (pending_eq _ _ _ _ Hl Ht), Hpc. unfold pending; cbn. by rewrite sending_of_msg.
  - rewrite pending_delete_ne; [done|]. eapply (not_holder (MkSystem sh ts)); [done|done|].
    unfold droppable, holds in *. by destruct (t_pc k).
Qed.

(** What the writer has taken out is what was put in, in that order. *)
Definition inv_received (evs : list Event) (sys : System) : Prop :=
  received evs ++ mpsc_items (sh_chan (shared sys)) `prefix_of` enqueued evs /\
  (mpsc_open (sh_chan (shared sys)) = true ->
     received evs ++ mpsc_items (sh_chan (shared sys)) = enqueued evs) /\
  (mpsc_open (sh_chan (shared sys)) = false -> mpsc_items (sh_chan (shared sys)) = []).

Lemma inv_received_step evs sys evs' sys' :
  inv_received evs sys -> step sys evs' sys' -> inv_received (evs ++ evs') sys'.
Proof.
  unfold inv_received, received, enqueued. intros (Hp1 & Ho & Hc) Hs. rewrite !omap_app.
  destruct Hs as [sys tid k Hn Hpc Hm|sys tid k ch sh' k' evs' Ht Hen Hp|sys tid k Ht Hd|
    |sys s chan' Hr|sys]; cbn in *; rewrite ?app_nil_r; try done.
  - apply poll_inv in Hp; [|done].
    destruct Hp as [pc Hk Hk' _|Hk Hl|c' m' e Hpc Eo|c' m' ctl Hpc Eo _|taken pc chan' ok Hpc Es Hk'];
      cbn; rewrite ?app_nil_r; try done.
    apply mpsc_send_spec in Es as (_ & -> & ->).
    destruct (mpsc_open (sh_chan (shared sys))) eqn:Eo.
    + by rewrite app_assoc, Ho.
    + rewrite Hc in * by done. rewrite app_nil_r in *.
      split_and!; [by apply prefix_app_r|done|done].
  - apply mpsc_recv_spec in Hr as (Hh & Ht & ->).
    destruct (mpsc_items (sh_chan (shared sys))) as [|s' l]; [done|]. cbn in *. simplify_eq.
    rewrite <- !app_assoc. cbn. split_and!; [done..|]. by intros ?%Hc.
  - destruct (mpsc_drop_spec _ (sh_chan (shared sys))) as [-> ->]. rewrite app_nil_r.
    split_and!; [|done|done]. etrans; [|exact Hp1]. by apply prefix_app_r.
Qed.

(** A peer whose context is in step decodes the transformed frames to the messages sent. *)
Definition inv_replay (in_step : T -> T -> Prop) (b : bool) (peer : ConnectionContext D T)
    (evs : list Event) (sys : System) : Prop :=
  exists peer', inbound_run b peer (transformed evs).*2 = (peer', Ok <$> (transformed evs).*1) /\
                ctx_in_step in_step (sh_ctx (shared sys)) peer'.

Lemma inv_replay_step in_step `{!PeerLaws T in_step} b peer evs sys evs' sys' :
  inv_sized sys -> inv_replay in_step b peer evs sys -> step sys evs' sys' ->
  inv_replay in_step b peer (evs ++ evs') sys'.
Proof.
  unfold inv_replay, transformed. intros Hsz (peer' & Er & Hst) Hs.
  rewrite !omap_app, !fmap_app.
  destruct Hs as [sys tid k Hn Hpc Hm|sys tid k ch sh' k' evs' Ht Hen Hp|sys tid k Ht Hd|
    sys b1 m m' c' r Ei|sys s chan' Hr|sys]; cbn in *; rewrite ?app_nil_r; eauto.
  - apply poll_inv in Hp; [|done]. specialize (Hsz _ _ Ht).
    destruct Hp as [pc Hk Hk' _|Hk Hl|c' m' e Hpc Eo|c' m' ctl Hpc Eo _|taken pc chan' ok Hpc Es Hk'];
      cbn; rewrite ?app_nil_r; eauto; rewrite Hpc in Hsz;
      pose proof (outbound_inbound in_step _ b _ _ _ _ _ _ Hst Hsz Eo) as Ho; cbn in Ho; [by eauto|].
    destruct Ho as (_ & _ & peer2 & E2 & Hst2). exists peer2. split; [|done].
    rewrite inbound_run_app, Er. cbn [inbound_run]. by rewrite E2.
  - exists peer'. split; [done|]. by eapply inbound_in_step.
Qed.

(** With a transform no frame can be discarded or cut short by the writer. *)
Definition inv_control (evs : list Event) (sys : System) : Prop :=
  payload_transform (sh_ctx (shared sys)) <> None /\
  (forall tid k f, tasks sys !! tid = Some k -> t_pc k = Transformed f -> t_control k = None) /\
  Forall (fun s => control s = None) (enqueued evs).

Lemma pipelines_keep_transform (c : ConnectionContext D T) b m s r :
  payload_transform c <> None ->
  (outbound b (c, m) = (s, r) \/ inbound b (c, m) = (s, r)) -> payload_transform s.1 <> None.
Proof.
  intros Hc. destruct (payload_transform c) as [x|] eqn:E; [|done].
  rewrite (outbound_transform _ _ _ _ E), (inbound_transform _ _ _ _ E).
  intros [Ho|Ho]; repeat case_match; by simplify_eq/=; rewrite ?E.
Qed.

Lemma inv_control_step evs sys evs' sys' :
  inv_control evs sys -> step sys evs' sys' -> inv_control (evs ++ evs') sys'.
Proof.
  unfold inv_control, enqueued. intros (Hx & Hk & Hf) Hs. rewrite omap_app, Forall_app.
  destruct Hs as [sys tid k Hn Hpc Hm|sys tid k ch sh' k' evs' Ht Hen Hp|sys tid k Ht Hd|
    sys b1 m m' c' r Ei|sys s chan' Hr|sys]; cbn in *.
  - split_and!; [done| |done|done].
    intros tid' k1 f [[<- <-]|[Hne Hl]]%lookup_insert_Some ?; [congruence|eauto].
  - apply poll_inv in Hp; [|done]. assert (forall k1, (forall f, t_pc k1 = Transformed f -> t_control k1 = None) ->
      forall tid' k2 f, <[tid := k1]> (tasks sys) !! tid' = Some k2 -> t_pc k2 = Transformed f -> t_control k2 = None) as Hins.
    { intros k1 Hk1 tid' k2 f [[<- <-]|[Hne Hl]]%lookup_insert_Some ?; eauto. }
    destruct Hp as [pc Hh Hh' _|Hh Hl|c' m' e Hpc Eo|c' m' ctl Hpc Eo Hctl|taken pc chan' ok Hpc Es Hh'];
      cbn; split_and!; try done; try (apply Hins; intros f; cbn; intros ?; simplify_eq; eauto);
      try (eapply (pipelines_keep_transform _ _ _ (_, _)); eauto; done).
    + constructor; [|done]. rewrite <- (Hk _ _ _ Ht Hpc).
      unfold sending_of. destruct (t_await_ack k); [done|]. by destruct (t_control k).
  - split_and!; [done| |done|done]. intros tid' k1 f [Hne Hl]%lookup_delete_Some. eauto.
  - split_and!; try done. eapply (pipelines_keep_transform _ _ _ (_, _)); eauto.
  - done.
  - done.
Qed.

Lemma pipeline_reachable_inv c evs sys :
  reachable c evs sys ->
  inv_lock sys /\ inv_sized sys /\ inv_queue evs sys /\ inv_received evs sys /\
  (payload_transform c <> None -> inv_control evs sys) /\
  (forall in_step `{!PeerLaws T in_step} b peer,
     ctx_in_step in_step c peer -> inv_replay in_step b peer evs sys).
Proof.
  induction 1 as [|evs sys evs' sys' _ (IH1 & IH2 & IH3 & IH4 & IH5 & IH6) Hs].
  - destruct (mpsc_channel_spec SendingMessage) as [Hi Ho]. split_and!.
    + intros tid. split; [done|]. unfold holder. cbn. by rewrite lookup_empty.
    + intros tid k Hl. cbn in Hl. by rewrite lookup_empty in Hl.
    + done.
    + unfold inv_received. cbn. by rewrite Hi, Ho.
    + intros Hc. split_and!; [done| |by constructor]. intros tid k f Hl. cbn in Hl. by rewrite lookup_empty in Hl.
    + intros in_step _ b peer Hp. by exists peer.
  - split_and!; eauto using inv_lock_step, inv_sized_step, inv_queue_step, inv_received_step,
      inv_control_step, inv_replay_step.
Qed.

(** ** Executable schedules *)

Inductive Action :=
  | DoSpawn (tid : nat) (k : Task)
  | DoPoll (tid : nat) (ch : Choice)
  | DoDrop (tid : nat)
  | DoWriter.

Definition enabledb (sh : Shared) (ch : Choice) : bool :=
  match ch with
  | OnReserve true _ | OnReserve _ (Ready true) => mpsc_open (sh_chan sh)
  | OnReserve _ (Ready false) => negb (mpsc_open (sh_chan sh))
  | OnLock (Ready _) => bool_decide (sh_lock sh = None)
  | _ => true
  end.

Lemma enabledb_sound sh ch : enabledb sh ch = true -> enabled sh ch.
Proof.
  destruct ch as [[] w|[]| |]; simpl; intros Hb; try done.
  - split; [intros [?|?]; by simplify_eq|intros _ ?; simplify_eq; by apply negb_true_iff].
  - by apply bool_decide_eq_true in Hb.
Qed.

Definition exec (a : Action) (sys : System) : option (System * list Event) :=
  match a with
  | DoSpawn tid k =>
      match tasks sys !! tid, t_pc k with
      | None, AtReserve =>
          if decide (h_length (header (t_msg k)) = len (payload (t_msg k)))
          then Some (MkSystem (shared sys) (<[tid := k]> (tasks sys)), []) else None
      | _, _ => None
      end
  | DoPoll tid ch =>
      k ← tasks sys !! tid;
      if enabledb (shared sys) ch then
        '(sh', k', evs) ← poll tid k ch (shared sys);
        Some (MkSystem sh' (<[tid := k']> (tasks sys)), evs)
      else None
  | DoDrop tid =>
      k ← tasks sys !! tid;
      if droppable k then Some (MkSystem (shared sys) (delete tid (tasks sys)), []) else None
  | DoWriter =>
      let '(chan', o) := mpsc_recv (sh_chan (shared sys)) in
      s ← o;
      Some (MkSystem (MkShared (sh_ctx (shared sys)) (sh_lock (shared sys)) chan') (tasks sys),
            [EvReceive s])
  end.

Lemma exec_sound a sys sys' evs : exec a sys = Some (sys', evs) -> step sys evs sys'.
Proof.
  destruct a; simpl; intros E.
  - destruct (tasks sys !! tid) eqn:Ht, (t_pc k) eqn:Hpc; try done. case_decide; simplify_eq.
    by apply StepSpawn.
  - apply bind_Some in E as (k & Ht & E). destruct (enabledb _ _) eqn:Hb; [|done].
    apply bind_Some in E as ([[sh' k'] evs'] & Hp & E). simplify_eq.
    eapply StepPoll; eauto using enabledb_sound.
  - apply bind_Some in E as (k & Ht & E). destruct (droppable k) eqn:Hb; simplify_eq.
    by eapply StepDrop.
  - destruct (mpsc_recv _) as [chan' o] eqn:Er. apply bind_Some in E as (s & -> & E). simplify_eq.
    by apply StepWriter.
Qed.

Fixpoint exec_all (acts : list Action) (evs : list Event) (sys : System)
  : option (list Event * System) :=
  match acts with
  | [] => Some (evs, sys)
  | a :: acts' => '(sys', evs') ← exec a sys; exec_all acts' (evs ++ evs') sys'
  end.

Lemma pipeline_exec_reachable c acts evs sys evs' sys' :
  reachable c evs sys -> exec_all acts evs sys = Some (evs', sys') -> reachable c evs' sys'.
Proof.
  revert evs sys. induction acts as [|a acts IH]; intros evs sys Hr E; simpl in E; [by simplify_eq|].
  apply bind_Some in E as ([sys1 evs1] & E1 & E). eapply IH; [|exact E].
  eapply ReachStep; [exact Hr|]. by eapply exec_sound.
Qed.

(** ** A call that meets no other caller

    The channel has room, the lock is free, and the writer answers [ack] ([None] when it drops the
    result channel). *)
Definition transform_send_alone (msg : GenMessage) (rpc_error await_ack : bool)
    (ctl : option MessageControl) (result_tx : chan_id) (ack : option (Result unit))
  : st (ConnectionContext D T * Q SendingMessage) Error unit := fun '(c, chan) =>
  if mpsc_open chan then
    match outbound rpc_error (c, msg) with
    | ((c', _), Err e) => ((c', chan), Err e)
    | ((c', taken), Ok _) =>
        let ctl := match payload_transform c with Some _ => None | None => ctl end in
        let s := sending_of (MkTask default_gen rpc_error await_ack ctl result_tx AtReserve) taken in
        ((c', (mpsc_send s chan).1),
         if await_ack
         then default (Err (Others "writer task dropped result channel")) ack
         else Ok tt)
    end
  else ((c, chan), Err (Others ("reserve channel capacity failed: " +:+ tokio_send_error))).

(** The polls of such a call. *)
Definition alone_choices (chan : Q SendingMessage) (ack : option (Result unit)) : list Choice :=
  [OnReserve false (Ready (mpsc_open chan)); OnLock (Ready tt); Run; Run; OnAck ack].

Fixpoint poll_all (tid : nat) (k : Task) (chs : list Choice) (sh : Shared) : Shared * Task :=
  match chs with
  | [] => (sh, k)
  | ch :: chs' =>
      match poll tid k ch sh with
      | Some (sh', k', _) => poll_all tid k' chs' sh'
      | None => (sh, k)
      end
  end.

(** [transform_send_alone] is what the polls compute. *)
Lemma transform_send_alone_polls tid msg rpc_error await_ack ctl rtx ack c chan c' chan' r :
  transform_send_alone msg rpc_error await_ack ctl rtx ack (c, chan) = ((c', chan'), r) ->
  exists k', poll_all tid (MkTask msg rpc_error await_ack ctl rtx AtReserve)
      (alone_choices chan ack) (MkShared c None chan) = (MkShared c' None chan', k') /\
    t_pc k' = Returned r.
Proof.
  unfold transform_send_alone, alone_choices. cbn [poll_all].
  unfold poll at 1. cbn [t_pc reserve_message_slot timeout_at mbind option_bind].
  destruct (mpsc_open chan) eqn:Ho; cbn [set_pc].
  2: { intros. simplify_eq. eexists. split; [reflexivity|done]. }
  unfold poll at 1. cbn [t_pc timeout_at mbind option_bind sh_ctx sh_chan set_pc t_msg t_rpc_error t_await_ack t_control t_result_tx].
  unfold poll at 1. cbn [t_pc sh_ctx sh_chan sh_lock set_pc t_msg t_rpc_error t_await_ack t_control t_result_tx].
  destruct (outbound rpc_error (c, msg)) as [[c1 m1] [[]|e]].
  2: { intros. simplify_eq. cbn. eexists. split; [reflexivity|done]. }
  unfold poll at 1. cbn [t_pc sh_ctx sh_chan sh_lock set_pc set_msg_control t_msg t_rpc_error t_await_ack t_control t_result_tx].
  unfold sending_of. cbn [t_await_ack t_control t_result_tx].
  destruct (mpsc_send _ chan) as [chan1 b]. intros. simplify_eq.
  destruct await_ack; cbn; eexists; (split; [reflexivity|]); [by destruct ack|done].
Qed.

(** [transform_send_inner] without the feature: the size is checked before a slot is reserved, and
    there is no lock. [None] while it waits for the slot; [ack] as above. *)
Definition noop_transform_send (msg : GenMessage) (rpc_error await_ack : bool) (ctl : option MessageControl)
    (result_tx : chan_id) (try_reserve : bool) (w : Awaited bool) (ack : option (Result unit))
    (s : ConnectionContext D T * Q SendingMessage)
  : option ((ConnectionContext D T * Q SendingMessage) * Result unit) :=
  let '(c, chan) := s in
  match noop_outbound rpc_error (c, msg) with
  | ((c, _), Err e) => Some ((c, chan), Err e)
  | ((c, taken), Ok _) =>
      r ← reserve_message_slot try_reserve (c ← ctl; deadline c) w;
      Some (match r with
            | Err e => ((c, chan), Err e)
            | Ok _ =>
                let s := sending_of (MkTask default_gen rpc_error await_ack ctl result_tx AtReserve) taken in
                ((c, (mpsc_send s chan).1),
                 if await_ack then default (Err (Others "writer task dropped result channel")) ack else Ok tt)
            end)
  end.

(** It does what a call without contention does on a connection without a transform, except that an
    oversized message is refused also where the channel is closed. *)
Lemma noop_transform_send_alone msg rpc_error await_ack ctl rtx ack c chan :
  payload_transform c = None ->
  noop_transform_send msg rpc_error await_ack ctl rtx false (Ready (mpsc_open chan)) ack (c, chan) =
    Some (match check_oversize (len (payload msg)) rpc_error with
          | Err e => ((c, chan), Err e)
          | Ok _ => transform_send_alone msg rpc_error await_ack ctl rtx ack (c, chan)
          end).
Proof.
  intros Hc. unfold noop_transform_send, transform_send_alone, noop_outbound, outbound. rewrite Hc. cbn [snd].
  destruct (check_oversize (len (payload msg)) rpc_error) as [[]|e]; [|done].
  cbn [reserve_message_slot timeout_at mbind option_bind]. by destruct (mpsc_open chan).
Qed.

(** C6: however the calls of [transform_send] interleave, are suspended, time out or are dropped,
    the frames enter the channel, and leave it for the writer, in the order in which the stateful
    transform produced them, and none is missing: once no call holds the outbound lock, every
    frame the transform produced has been enqueued. A peer whose transform is in step therefore
    decodes the enqueued frames, in order, to the messages that were sent. When the connection has
    a transform, no enqueued frame carries a deadline or a cancellation, so the writer cannot skip
    one. *)
Theorem transform_send_in_order (in_step : T -> T -> Prop) `{!PeerLaws T in_step} (b : bool)
    (c peer : ConnectionContext D T) (evs : list Event) (sys : System) :
  reachable c evs sys -> ctx_in_step in_step c peer ->
  received evs `prefix_of` enqueued evs /\
  (sm_msg <$> enqueued evs) `prefix_of` (transformed evs).*2 /\
  (sh_lock (shared sys) = None -> sm_msg <$> enqueued evs = (transformed evs).*2) /\
  (exists peer', inbound_run b peer (sm_msg <$> enqueued evs) =
     (peer', Ok <$> take (length (enqueued evs)) (transformed evs).*1)) /\
  (payload_transform c <> None -> Forall (fun s => control s = None) (enqueued evs)).
Proof.
  intros Hr Hp. destruct (pipeline_reachable_inv _ _ _ Hr) as (_ & _ & Hq & (Hrec & _) & Hctl & Hrep).
  unfold inv_queue in Hq. split_and!.
  - etrans; [|exact Hrec]. by apply prefix_app_r.
  - rewrite Hq. by apply prefix_app_r.
  - intros Hl. rewrite Hq. unfold pending. rewrite Hl. by rewrite app_nil_r.
  - destruct (Hrep in_step _ b peer Hp) as (peer' & E & _). rewrite Hq, inbound_run_app in E.
    destruct (inbound_run b peer (sm_msg <$> enqueued evs)) as [c1 r1] eqn:E1.
    destruct (inbound_run b c1 (pending sys)) as [c2 r2]. injection E as E2 Er.
    exists c1. f_equal. rewrite fmap_take, <- Er.
    pose proof (length_inbound_run b peer (sm_msg <$> enqueued evs)) as Hlen.
    rewrite E1, length_fmap in Hlen. by rewrite <- Hlen, take_app_length.
  - intros Hc. by apply Hctl.
Qed.
End TransformSend.

Section Witness.
Local Instance witness_texts : Texts :=
  {| status_debug := fun _ => ""; nix_display := pretty; nix_debug := pretty;
     tokio_send_error := "channel closed" |}.

Definition ex_ctx (n m : Z) : ConnectionContext unit NonceTransform := MkCtx tt (Some (MkNonce n m)).
Definition ex_task (b : byte) (ch : chan_id) : Task :=
  MkTask (gen_new_data 1 [b]) false true (Some (MkControl (Some 10) 7%nat)) ch AtReserve.

(** The first caller reserves first and transforms second; a third one gives up waiting. *)
Definition ex_schedule : list Action :=
  [DoSpawn 1 (ex_task Byte.x01 1); DoSpawn 2 (ex_task Byte.x02 2); DoSpawn 3 (ex_task Byte.x03 3);
   DoPoll 1 (OnReserve true Pending); DoPoll 2 (OnReserve false (Ready true));
   DoPoll 3 (OnReserve true Pending); DoPoll 2 (OnLock (Ready tt)); DoPoll 2 Run; DoPoll 2 Run;
   DoWriter; DoPoll 3 (OnLock Elapsed); DoPoll 1 (OnLock (Ready tt)); DoPoll 2 (OnAck (Some (Ok tt)));
   DoDrop 2; DoPoll 1 Run; DoPoll 1 Run].

Lemma transform_send_in_order_witness :
  exists evs sys peer',
    exec_all (Q := ListChan) ex_schedule [] (initial (ex_ctx 0 0)) = Some (evs, sys) /\
    (transformed evs).*1 = [gen_new_data 1 [Byte.x02]; gen_new_data 1 [Byte.x01]] /\
    inbound_run false (ex_ctx 100 0) (sm_msg <$> enqueued evs) =
      (peer', Ok <$> [gen_new_data 1 [Byte.x02]; gen_new_data 1 [Byte.x01]]).
Proof.
  destruct (exec_all (Q := ListChan) ex_schedule [] (initial (ex_ctx 0 0))) as [[evs sys]|] eqn:E.
  2: { exfalso. revert E. vm_compute. discriminate. }
  assert (reachable (ex_ctx 0 0) evs sys) as Hr
    by (eapply pipeline_exec_reachable; [apply ReachInit|exact E]).
  destruct (transform_send_in_order nonce_in_step false (ex_ctx 0 0) (ex_ctx 100 0) evs sys Hr)
    as (_ & _ & _ & (peer' & Hp) & _); [clear; by vm_compute|].
  exists evs, sys, peer'. split; [reflexivity|].
  vm_compute in E. injection E as <- <-. split; [vm_compute; reflexivity|].
  rewrite Hp. vm_compute. reflexivity.
Defined.
End Witness.
