(* ===== verification/Shutdown.v ===== *)
(** Cooperative shutdown (src/src/asynchronous/shutdown.rs): the notifier and its waiters as
    threads that interleave at every atomic operation and at every operation of [Notify]. Atomic
    operations are sequentially consistent in the model. *)
From S2P Require Import Prelude.

(** [tokio::sync::Notify] as used here. A [Notified] future is complete once [notify_waiters] has
    been called after its creation, polled or not. *)
Class Notify (N Tok : Type) := {
  notify_new : N;
  notified : N -> N * Tok;
  notify_waiters : N -> N;
  ready : N -> Tok -> bool }.
#[global] Hint Mode Notify ! - : typeclass_instances.

Class NotifyLaws (N Tok : Type) `{Notify N Tok} (issued : N -> Tok -> Prop) : Prop := {
  issued_notified : forall n n' t, notified n = (n', t) -> issued n' t;
  issued_mono_notified : forall n n' t t', notified n = (n', t') -> issued n t -> issued n' t;
  issued_mono_notify : forall n t, issued n t -> issued (notify_waiters n) t;
  ready_notified : forall n n' t t', notified n = (n', t') -> issued n t -> ready n' t = ready n t;
  ready_notify : forall n t, issued n t -> ready (notify_waiters n) t = true }.

(** Generation counting: a future remembers the number of notifications before it. *)
#[global] Instance generation_notify : Notify nat nat := {
  notify_new := O;
  notified := fun n => (n, n);
  notify_waiters := S;
  ready := fun n t => Nat.ltb t n }.

#[global] Instance generation_notify_laws : NotifyLaws nat nat (fun n t => (t <= n)%nat).
Proof. split; intros; simpl in *; simplify_eq; try done; try lia. apply Nat.ltb_lt. lia. Qed.

Section Shutdown.
Context {N Tok : Type} `{NotifyLaws N Tok issued}.

(** [Shared]. *)
Record Shared := MkShared {
  shutdown : bool;
  notify_shutdown : N;
  waiters : Z;
  notify_exit : N }.

(** [_with_timeout]: the shared state of a fresh notifier and its first waiter. *)
Definition new_shared : Shared := MkShared false notify_new 1 notify_new.

Definition set_shutdown (s : Shared) (b : bool) : Shared :=
  MkShared b (notify_shutdown s) (waiters s) (notify_exit s).
Definition set_notify_shutdown (s : Shared) (n : N) : Shared :=
  MkShared (shutdown s) n (waiters s) (notify_exit s).
Definition set_waiters (s : Shared) (w : Z) : Shared :=
  MkShared (shutdown s) (notify_shutdown s) w (notify_exit s).
Definition set_notify_exit (s : Shared) (n : N) : Shared :=
  MkShared (shutdown s) (notify_shutdown s) (waiters s) n.

(** The program points of [wait_shutdown], of [Notifier::wait] and of the second halves of
    [shutdown] and [Waiter::drop]. *)
Inductive Pc :=
  | WaitCheck | WaitCreate | WaitRecheck (t : Tok) | WaitAwait (t : Tok) | WaitReturned
  | ExitCheck | ExitCreate | ExitRecheck (t : Tok) | ExitAwait (t : Tok) | ExitReturned
  | ExitElapsed
  | ShutdownNotify | DropNotify | Finished.

(** One atomic step of a thread; [None]: it is suspended or has returned. *)
Definition poll (pc : Pc) (s : Shared) : option (Shared * Pc) :=
  match pc with
  | WaitCheck => Some (s, if shutdown s then WaitReturned else WaitCreate)
  | WaitCreate => let '(n, t) := notified (notify_shutdown s) in
                  Some (set_notify_shutdown s n, WaitRecheck t)
  | WaitRecheck t => Some (s, if shutdown s then WaitReturned else WaitAwait t)
  | WaitAwait t => if ready (notify_shutdown s) t then Some (s, WaitCheck) else None
  | ExitCheck => Some (s, if decide (waiters s > 0) then ExitCreate else ExitReturned)
  | ExitCreate => let '(n, t) := notified (notify_exit s) in
                  Some (set_notify_exit s n, ExitRecheck t)
  | ExitRecheck t => Some (s, if decide (waiters s = 0) then ExitReturned else ExitAwait t)
  | ExitAwait t => if ready (notify_exit s) t then Some (s, ExitCheck) else None
  | ShutdownNotify => Some (set_notify_shutdown s (notify_waiters (notify_shutdown s)), Finished)
  | DropNotify => Some (set_notify_exit s (notify_waiters (notify_exit s)), Finished)
  | WaitReturned | ExitReturned | ExitElapsed | Finished => None
  end.

(** The first half of [Notifier::shutdown]: swap the flag; what is left to run. *)
Definition shutdown_swap (s : Shared) : Shared * Pc :=
  (set_shutdown s true, if shutdown s then Finished else ShutdownNotify).

(** [Waiter::from_shared], which both [clone] and [subscribe] call. *)
Definition from_shared (s : Shared) : Shared := set_waiters s (waiters s + 1).

(** The first half of [Waiter::drop]. *)
Definition drop_sub (s : Shared) : Shared * Pc :=
  (set_waiters s (waiters s - 1), if decide (waiters s = 1) then DropNotify else Finished).

(** The shared state, the number of live [Waiter] handles, and the running calls. *)
Record System := MkSystem { shared : Shared; live : nat; threads : gmap nat Pc }.

Inductive step (wait_time : option Z) : System -> System -> Prop :=
  | StepWaitShutdown s n ts tid :  (* a call of [wait_shutdown] on a live waiter *)
      ts !! tid = None -> (0 < n)%nat ->
      step wait_time (MkSystem s n ts) (MkSystem s n (<[tid := WaitCheck]> ts))
  | StepWaitAllExit s n ts tid :
      ts !! tid = None ->
      step wait_time (MkSystem s n ts) (MkSystem s n (<[tid := ExitCheck]> ts))
  | StepPoll s n ts tid pc s' pc' :
      ts !! tid = Some pc -> poll pc s = Some (s', pc') ->
      step wait_time (MkSystem s n ts) (MkSystem s' n (<[tid := pc']> ts))
  | StepElapsed s n ts tid t :  (* [timeout(tm, self.wait())] *)
      wait_time <> None -> ts !! tid = Some (ExitAwait t) ->
      step wait_time (MkSystem s n ts) (MkSystem s n (<[tid := ExitElapsed]> ts))
  | StepShutdown s n ts tid s' pc :  (* [shutdown()], also run by the notifier's drop *)
      ts !! tid = None -> shutdown_swap s = (s', pc) ->
      step wait_time (MkSystem s n ts) (MkSystem s' n (<[tid := pc]> ts))
  | StepSubscribe s n ts :
      step wait_time (MkSystem s n ts) (MkSystem (from_shared s) (S n) ts)
  | StepDropWaiter s n ts tid s' pc :
      ts !! tid = None -> drop_sub s = (s', pc) ->
      step wait_time (MkSystem s (S n) ts) (MkSystem s' n (<[tid := pc]> ts))
  | StepCancel s n ts tid pc :  (* a waiting future is dropped *)
      ts !! tid = Some pc -> pc <> ShutdownNotify -> pc <> DropNotify ->
      step wait_time (MkSystem s n ts) (MkSystem s n (delete tid ts)).

Definition initial : System := MkSystem new_shared 1 ∅.
Definition reachable (wait_time : option Z) : System -> Prop := rtc (step wait_time) initial.

(** ** Invariants *)

(** A thread that has created its future either will find it completed or is still going to be
    notified. [pending] tells whether some thread is about to call [notify_waiters]. *)
Definition some_thread (sys : System) (pc : Pc) : Prop := exists tid, threads sys !! tid = Some pc.

Definition pc_ok (sys : System) (pc : Pc) : Prop :=
  let s := shared sys in
  match pc with
  | WaitRecheck t => issued (notify_shutdown s) t
  | WaitAwait t => issued (notify_shutdown s) t /\
      (shutdown s = true -> ready (notify_shutdown s) t = true \/ some_thread sys ShutdownNotify)
  | WaitReturned | ShutdownNotify => shutdown s = true
  | ExitRecheck t => issued (notify_exit s) t
  | ExitAwait t => issued (notify_exit s) t /\
      (waiters s = 0 -> ready (notify_exit s) t = true \/ some_thread sys DropNotify)
  | _ => True
  end.

Definition inv (sys : System) : Prop :=
  waiters (shared sys) = Z.of_nat (live sys) /\
  forall tid pc, threads sys !! tid = Some pc -> pc_ok sys pc.

(** What a step may do to the part of the system that [pc_ok] reads. *)
Record carries (sys sys' : System) : Prop := {
  carry_shutdown : shutdown (shared sys) = true -> shutdown (shared sys') = true;
  carry_issued t : issued (notify_shutdown (shared sys)) t -> issued (notify_shutdown (shared sys')) t;
  carry_issued_exit t : issued (notify_exit (shared sys)) t -> issued (notify_exit (shared sys')) t;
  carry_ready t : issued (notify_shutdown (shared sys)) t ->
    shutdown (shared sys') = true ->
    (shutdown (shared sys) = true ->
       ready (notify_shutdown (shared sys)) t = true \/ some_thread sys ShutdownNotify) ->
    ready (notify_shutdown (shared sys')) t = true \/ some_thread sys' ShutdownNotify;
  carry_ready_exit t : issued (notify_exit (shared sys)) t ->
    waiters (shared sys') = 0 ->
    (waiters (shared sys) = 0 ->
       ready (notify_exit (shared sys)) t = true \/ some_thread sys DropNotify) ->
    ready (notify_exit (shared sys')) t = true \/ some_thread sys' DropNotify }.

Lemma pc_ok_carries sys sys' pc : carries sys sys' -> pc_ok sys pc -> pc_ok sys' pc.
Proof. intros [Hs Hi Hie Hr Hre]. destruct pc; simpl; intuition eauto. Qed.

(** Pending notifications survive the steps of other threads. *)
Lemma some_thread_keep s n ts tid q s' n' pc :
  (forall pc0, ts !! tid = Some pc0 -> pc0 <> pc) ->
  some_thread (MkSystem s n ts) pc -> some_thread (MkSystem s' n' (<[tid := q]> ts)) pc.
Proof.
  intros Ht [tid' Hl]. exists tid'. simpl in *. rewrite lookup_insert_ne; [done|].
  intros <-. by apply Ht in Hl.
Qed.

Lemma some_thread_delete s n ts tid s' n' pc :
  (forall pc0, ts !! tid = Some pc0 -> pc0 <> pc) ->
  some_thread (MkSystem s n ts) pc -> some_thread (MkSystem s' n' (delete tid ts)) pc.
Proof.
  intros Ht [tid' Hl]. exists tid'. simpl in *. rewrite lookup_delete_ne; [done|].
  intros <-. by apply Ht in Hl.
Qed.

Lemma some_thread_new s n ts tid pc : some_thread (MkSystem s n (<[tid := pc]> ts)) pc.
Proof. exists tid. simpl. by rewrite lookup_insert_eq. Qed.

(** A step that changes no shared state and is not a pending notification. *)
Lemma carries_quiet s n n' ts ts' :
  (forall pc, pc = ShutdownNotify \/ pc = DropNotify ->
     some_thread (MkSystem s n ts) pc -> some_thread (MkSystem s n' ts') pc) ->
  carries (MkSystem s n ts) (MkSystem s n' ts').
Proof.
  intros Hk. split; simpl; try done.
  - intros t _ Hs [?|?]%(fun f => f Hs); auto.
  - intros t _ Hs [?|?]%(fun f => f Hs); auto.
Qed.

Lemma carries_quiet_poll s n ts tid pc pc' :
  ts !! tid = Some pc -> pc <> ShutdownNotify -> pc <> DropNotify ->
  carries (MkSystem s n ts) (MkSystem s n (<[tid := pc']> ts)).
Proof.
  intros Ht H1' H2'. apply carries_quiet. intros q Hq. apply some_thread_keep.
  intros pc0 ?. simplify_eq. by destruct Hq; subst.
Qed.

Lemma issued_created n n' t t' : notified n = (n', t') -> issued n t -> issued n' t.
Proof. apply (issued_mono_notified (issued := issued)). Qed.
Lemma issued_here n n' t : notified n = (n', t) -> issued n' t.
Proof. apply (issued_notified (issued := issued)). Qed.
Lemma issued_woken n t : issued n t -> issued (notify_waiters n) t.
Proof. apply (issued_mono_notify (issued := issued)). Qed.
Lemma ready_woken n t : issued n t -> ready (notify_waiters n) t = true.
Proof. apply (ready_notify (issued := issued)). Qed.
Lemma ready_created n n' t t' : notified n = (n', t') -> issued n t -> ready n t = true -> ready n' t = true.
Proof. intros E Hi. by rewrite (ready_notified (issued := issued) _ _ _ _ E Hi). Qed.

Lemma poll_carries s n ts tid pc s' pc' :
  ts !! tid = Some pc -> poll pc s = Some (s', pc') ->
  carries (MkSystem s n ts) (MkSystem s' n (<[tid := pc']> ts)).
Proof.
  intros Ht Hp.
  assert (forall q sh, pc <> q -> some_thread (MkSystem s n ts) q ->
    some_thread (MkSystem sh n (<[tid := pc']> ts)) q) as Hkeep.
  { intros q sh Hq. apply some_thread_keep. intros pc0 ?. by simplify_eq. }
  destruct pc; simpl in Hp; try done; repeat case_match; simplify_eq;
    try (eapply carries_quiet_poll; [exact Ht|done|done]); split; simpl; try done;
    eauto using issued_created, issued_woken, ready_woken.
  - intros t' Hi Hs [Hr|Hr]%(fun f => f Hs); [left|right; by apply Hkeep].
    by eapply ready_created.
  - intros t' Hi Hs [Hr|Hr]%(fun f => f Hs); [left; done|right; by apply Hkeep].
  - intros t' Hi Hs [Hr|Hr]%(fun f => f Hs); [left; done|right; by apply Hkeep].
  - intros t' Hi Hs [Hr|Hr]%(fun f => f Hs); [left|right; by apply Hkeep].
    by eapply ready_created.
  - intros t' Hi Hs [Hr|Hr]%(fun f => f Hs); [left; done|right; by apply Hkeep].
  - intros t' Hi Hs [Hr|Hr]%(fun f => f Hs); [left; done|right; by apply Hkeep].
Qed.

Lemma poll_waiters pc s s' pc' : poll pc s = Some (s', pc') -> waiters s' = waiters s.
Proof. destruct pc; simpl; intros; repeat case_match; by simplify_eq. Qed.

Lemma poll_ok s n ts tid pc s' pc' :
  pc_ok (MkSystem s n ts) pc -> poll pc s = Some (s', pc') ->
  pc_ok (MkSystem s' n (<[tid := pc']> ts)) pc'.
Proof.
  intros Hok Hp. destruct pc; simpl in Hp, Hok; try done; repeat case_match; simplify_eq; simpl;
    eauto using issued_here; try (split; [done|]; intros; congruence || lia).
Qed.

Lemma threads_insert_ok s n ts s' n' tid pc' :
  (forall tid0 pc0, ts !! tid0 = Some pc0 -> pc_ok (MkSystem s n ts) pc0) ->
  carries (MkSystem s n ts) (MkSystem s' n' (<[tid := pc']> ts)) ->
  pc_ok (MkSystem s' n' (<[tid := pc']> ts)) pc' ->
  forall tid0 pc0, <[tid := pc']> ts !! tid0 = Some pc0 ->
    pc_ok (MkSystem s' n' (<[tid := pc']> ts)) pc0.
Proof.
  intros Hpc Hc Hok tid0 pc0 [[<- <-]|[_ Hl]]%lookup_insert_Some; [done|].
  eapply pc_ok_carries; eauto.
Qed.

Lemma shutdown_inv_step wt sys sys' : inv sys -> step wt sys sys' -> inv sys'.
Proof.
  unfold inv. intros [Hw Hpc] Hs.
  destruct Hs as [s n ts tid Hn Hl|s n ts tid Hn|s n ts tid pc s' pc' Ht Hp|s n ts tid t Hwt Ht|
    s n ts tid s' pc Hn Hp|s n ts|s n ts tid s' pc Hn Hp|s n ts tid pc Ht Hq1 Hq2]; simpl in *.
  - split; [done|]. eapply (threads_insert_ok s n ts); [done| |done].
    apply carries_quiet. intros q _. apply some_thread_keep. congruence.
  - split; [done|]. eapply (threads_insert_ok s n ts); [done| |done].
    apply carries_quiet. intros q _. apply some_thread_keep. congruence.
  - split; [by rewrite (poll_waiters _ _ _ _ Hp)|]. eapply (threads_insert_ok s n ts); [done|by eapply poll_carries|].
    eapply poll_ok; [|done]. by eapply Hpc.
  - split; [done|]. eapply (threads_insert_ok s n ts); [done| |done]. by eapply carries_quiet_poll.
  - unfold shutdown_swap in Hp. simplify_eq. split; [done|].
    eapply (threads_insert_ok s n ts); [done| |by destruct (shutdown s)].
    assert (forall q, some_thread (MkSystem s n ts) q -> some_thread (MkSystem (set_shutdown s true) n
      (<[tid := if shutdown s then Finished else ShutdownNotify]> ts)) q) as Hk.
    { intros q. apply some_thread_keep. congruence. }
    split; simpl; try done.
    + intros t _ _ Hr. destruct (shutdown s); [|right; apply some_thread_new].
      destruct Hr; auto.
    + intros t _ Hw0 Hr. destruct (Hr Hw0); auto.
  - split; [lia|]. intros tid pc Hl. eapply pc_ok_carries; [|by eapply Hpc].
    split; simpl; try done; [|lia]. intros t _ Hs [?|?]%(fun f => f Hs); auto.
  - unfold drop_sub in Hp. simplify_eq. split; [simpl; lia|].
    eapply (threads_insert_ok s (S n) ts); [done| |by case_decide].
    assert (forall q, some_thread (MkSystem s (S n) ts) q -> some_thread (MkSystem (set_waiters s (waiters s - 1)) n
      (<[tid := if decide (waiters s = 1) then DropNotify else Finished]> ts)) q) as Hk.
    { intros q. apply some_thread_keep. congruence. }
    split; simpl; try done.
    + intros t _ Hs Hr. destruct (Hr Hs); auto.
    + intros t _ Hw0 _. right. rewrite decide_True by lia. apply some_thread_new.
  - split; [done|]. intros tid0 pc0 [_ Hl]%lookup_delete_Some.
    eapply pc_ok_carries; [|by eapply Hpc]. apply carries_quiet. intros q Hq.
    apply some_thread_delete. intros pc1 ?. simplify_eq. by destruct Hq; subst.
Qed.

Lemma shutdown_reachable_inv wt sys : reachable wt sys -> inv sys.
Proof.
  assert (forall x y, rtc (step wt) x y -> inv x -> inv y) as Hrtc
    by (induction 1; eauto using shutdown_inv_step).
  intros Hr. eapply Hrtc; [exact Hr|]. split; [done|].
  intros tid pc Hl. cbn in Hl. by rewrite lookup_empty in Hl.
Qed.

(** Running one thread alone. *)
Fixpoint run (fuel : nat) (pc : Pc) (s : Shared) : Shared * Pc :=
  match fuel with
  | O => (s, pc)
  | S fuel' => match poll pc s with Some (s', pc') => run fuel' pc' s' | None => (s, pc) end
  end.

(** A thread inside [wait_shutdown], or inside [Notifier::wait]. *)
Definition in_wait_shutdown (pc : Pc) : bool :=
  match pc with
  | WaitCheck | WaitCreate | WaitRecheck _ | WaitAwait _ | WaitReturned => true | _ => false end.
Definition in_wait_exit (pc : Pc) : bool :=
  match pc with
  | ExitCheck | ExitCreate | ExitRecheck _ | ExitAwait _ | ExitReturned => true | _ => false end.

(** C29: no shutdown notification is lost: once the flag is set and no [notify_waiters] call is still
    to come, every call of [wait_shutdown], wherever it is suspended, returns within three of its
    own steps. And a call only returns once shutdown has been requested, which is never undone. *)
Theorem wait_shutdown_wakes (wt : option Z) (sys : System) (tid : nat) (pc : Pc) :
  reachable wt sys -> threads sys !! tid = Some pc -> in_wait_shutdown pc = true ->
  (pc = WaitReturned -> shutdown (shared sys) = true) /\
  (shutdown (shared sys) = true -> ~ some_thread sys ShutdownNotify ->
   (run 3 pc (shared sys)).2 = WaitReturned).
Proof.
  intros Hr Ht Hw. apply shutdown_reachable_inv in Hr as [_ Hpc]. specialize (Hpc _ _ Ht).
  split; [by intros ->|]. intros Hs Hn.
  destruct pc; try done; simpl in *.
  - by rewrite Hs.
  - destruct (notified _) as [m t] eqn:En. simpl. by rewrite Hs.
  - by rewrite Hs.
  - destruct Hpc as [_ Hr]. destruct (Hr Hs) as [->|?]; [|done]. simpl. by rewrite Hs.
Qed.

(** A call of [wait_all_exit] only returns without live handles. *)
Lemma exit_returned_live (wt : option Z) (sys : System) (tid : nat) (pc : Pc) (s' : Shared) :
  reachable wt sys -> threads sys !! tid = Some pc -> in_wait_exit pc = true ->
  poll pc (shared sys) = Some (s', ExitReturned) -> live sys = 0%nat.
Proof.
  intros Hr Ht Hw Hp. apply shutdown_reachable_inv in Hr as [Hl Hpc]. specialize (Hpc _ _ Ht).
  destruct pc; simpl in *; try done; repeat case_match; simplify_eq; try case_decide; try done; lia.
Qed.

(** C30: [waiters] counts the live handles. [wait_all_exit] is never left waiting once the last
    handle is gone: if no handle is live and no [notify_waiters] call is still to come, a call
    returns within three of its own steps; and each step that makes it return is taken in a state
    without live handles, whatever was subscribed or dropped in between. *)
Theorem wait_all_exit_correct (wt : option Z) (sys : System) (tid : nat) (pc : Pc) :
  reachable wt sys -> threads sys !! tid = Some pc -> in_wait_exit pc = true ->
  waiters (shared sys) = Z.of_nat (live sys) /\
  (live sys = 0%nat -> ~ some_thread sys DropNotify ->
   (run 3 pc (shared sys)).2 = ExitReturned) /\
  (forall s', poll pc (shared sys) = Some (s', ExitReturned) -> live sys = 0%nat).
Proof.
  intros Hr Ht Hw. pose proof Hr as [Hl Hpc]%shutdown_reachable_inv. specialize (Hpc _ _ Ht).
  split_and!; [done| |].
  - intros Hs Hn. assert (waiters (shared sys) = 0) as H0' by lia.
    destruct pc; try done; simpl in *.
    + by rewrite decide_False by lia.
    + destruct (notified _) as [m t] eqn:En. simpl. by rewrite decide_True by lia.
    + by rewrite decide_True by lia.
    + destruct Hpc as [_ Hrd]. destruct (Hrd H0') as [->|?]; [|done]. simpl. by rewrite decide_False by lia.
  - intros s' Hp. by eapply exit_returned_live.
Qed.
End Shutdown.

Section Witness.
Local Abbreviation sys_ := (@System nat nat).

(** A waiter suspends, then shutdown is requested and notified. *)
Definition ex_waiting : sys_ :=
  MkSystem (MkShared true 1%nat 1 0%nat) 1
    (<[2%nat := Finished]> (<[1%nat := WaitAwait 0%nat]> ∅)).

Lemma ex_waiting_reachable : reachable None ex_waiting.
Proof.
  eapply rtc_l; [by apply (StepWaitShutdown _ _ _ _ 1%nat); [|lia]|].
  do 3 (eapply rtc_l; [by eapply (StepPoll _ _ _ _ 1%nat)|]).
  eapply rtc_l; [by eapply (StepShutdown _ _ _ _ 2%nat)|].
  eapply rtc_l; [by eapply (StepPoll _ _ _ _ 2%nat)|].
  match goal with |- rtc _ ?a ?b => replace a with b by reflexivity end. apply rtc_refl.
Qed.

Lemma wait_shutdown_wakes_witness :
  reachable None ex_waiting /\ (run 3 (WaitAwait 0%nat) (shared ex_waiting)).2 = WaitReturned.
Proof.
  split; [apply ex_waiting_reachable|].
  apply (wait_shutdown_wakes None ex_waiting 1 (WaitAwait 0%nat) ex_waiting_reachable);
    [by vm_compute|done|done|].
  intros [tid Hl]. unfold ex_waiting in Hl; cbn in Hl.
  repeat (apply lookup_insert_Some in Hl as [[_ ?]|[_ Hl]]; [done|]).
  by rewrite lookup_empty in Hl.
Defined.

(** [wait_all_exit] suspends, then the only waiter is dropped. *)
Definition ex_exiting : sys_ :=
  MkSystem (MkShared false 0%nat 0 1%nat) 0
    (<[2%nat := Finished]> (<[1%nat := ExitAwait 0%nat]> ∅)).

Lemma ex_exiting_reachable : reachable (Some 5) ex_exiting.
Proof.
  eapply rtc_l; [by apply (StepWaitAllExit _ _ _ _ 1%nat)|].
  do 3 (eapply rtc_l; [by eapply (StepPoll _ _ _ _ 1%nat)|]).
  eapply rtc_l; [by eapply (StepDropWaiter _ _ _ _ 2%nat)|].
  eapply rtc_l; [by eapply (StepPoll _ _ _ _ 2%nat)|].
  match goal with |- rtc _ ?a ?b => replace a with b by reflexivity end. apply rtc_refl.
Qed.

Lemma wait_all_exit_correct_witness :
  reachable (Some 5) ex_exiting /\ (run 3 (ExitAwait 0%nat) (shared ex_exiting)).2 = ExitReturned.
Proof.
  split; [apply ex_exiting_reachable|].
  apply (wait_all_exit_correct (Some 5) ex_exiting 1 (ExitAwait 0%nat) ex_exiting_reachable);
    [by vm_compute|done|done|].
  intros [tid Hl]. unfold ex_exiting in Hl; cbn in Hl.
  repeat (apply lookup_insert_Some in Hl as [[_ ?]|[_ Hl]]; [done|]).
  by rewrite lookup_empty in Hl.
Defined.
End Witness.
