(* ===== verification/Stream.v ===== *)
(** Streams (src/src/asynchronous/stream.rs): the sending and receiving halves of a stream and the
    typed wrappers that generated code uses. *)
From S2P Require Import Prelude Errors Wire Codec Frame Channel Extension TransformSend.

(** ** The send path as a stream sees it *)

(** [ConnectionContext::transform_send(msg, tx, rpc_error, await_ack)] and
    [max_raw_payload_len()] of the stream's connection. [emitted] is the messages that have entered the writer's channel, as they were before the
    transform; [steady] is an invariant of the path (specification only). *)
Class SendPath (X : Type) := {
  transform_send : GenMessage -> bool -> bool -> st X Error unit;
  raw_limit : X -> Z;
  emitted : X -> list GenMessage;
  steady : X -> Prop }.

Class SendPathLaws (X : Type) `{SendPath X} : Prop := {
  transform_send_ok : forall m b a x x', steady x -> transform_send m b a x = (x', Ok tt) ->
    emitted x' = emitted x ++ [m] /\ len (payload m) <= MESSAGE_LENGTH_MAX;
  transform_send_err : forall m b a x x' e, steady x -> transform_send m b a x = (x', Err e) ->
    emitted x' = emitted x \/ emitted x' = emitted x ++ [m];
  transform_send_steady : forall m b a x x' r, steady x -> transform_send m b a x = (x', r) ->
    steady x';
  raw_limit_max : forall x, raw_limit x <= MESSAGE_LENGTH_MAX }.

(** ** Stream halves *)

Inductive Kind := Client | Server.
#[global] Instance Kind_eq_dec : EqDecision Kind.
Proof. solve_decision. Defined.

(** [StreamSender], less the shared objects it refers to: its channel and context are the send
    path, and [local_closed] is a flag shared by its clones. *)
Record StreamSender := MkStreamSender { ss_stream_id : Z; sendable : bool; ss_kind : Kind }.

(** [StreamReceiver]; [rx] is a bounded or an unbounded channel according to the kind. *)
Record StreamReceiver (Q : Type -> Type) := MkStreamReceiver {
  rx : Q (Result GenMessage);
  sr_stream_id : Z;
  recveivable : bool;
  remote_closed : bool;
  sr_kind : Kind }.
Arguments MkStreamReceiver {Q} _ _ _ _ _.
Arguments rx {Q} _.
Arguments sr_stream_id {Q} _.
Arguments recveivable {Q} _.
Arguments remote_closed {Q} _.
Arguments sr_kind {Q} _.

Record StreamInner (Q : Type -> Type) :=
  MkStreamInner { sender : StreamSender; receiver : StreamReceiver Q }.
Arguments MkStreamInner {Q} _ _.
Arguments sender {Q} _.
Arguments receiver {Q} _.

Definition stream_inner_new {Q : Type -> Type} (stream_id : Z) (rx : Q (Result GenMessage))
    (sendable recveivable : bool) (kind : Kind) : StreamInner Q :=
  MkStreamInner (MkStreamSender stream_id sendable kind)
    (MkStreamReceiver rx stream_id recveivable false kind).
Definition stream_new_client {Q : Type -> Type} sid (rx : Q (Result GenMessage)) sendable recveivable :=
  stream_inner_new sid rx sendable recveivable Client.
Definition stream_new_server {Q : Type -> Type} sid (rx : Q (Result GenMessage)) sendable recveivable :=
  stream_inner_new sid rx sendable recveivable Server.
Definition stream_split {Q : Type -> Type} (s : StreamInner Q) : StreamSender * StreamReceiver Q :=
  (sender s, receiver s).

(** ** Sending *)

Section Sending.
Context {X : Type} `{SendPath X}.

(** Operations of the send path, the closed flag being left alone. *)
Definition on_path {A} (m : st X Error A) : st (X * bool) Error A := fun '(x, closed) =>
  let '(x', r) := m x in ((x', closed), r).

(** [StreamSender::send]; the state is the send path and the [local_closed] flag. *)
Definition stream_send (s : StreamSender) (buf : list byte) : st (X * bool) Error unit :=
  st ← st_get;
  if (st : X * bool).2 then st_fail LocalClosed
  else on_path (transform_send (gen_new_data (ss_stream_id s) buf) false true).

(** [StreamSender::close_send]. *)
Definition stream_close_send (s : StreamSender) : st (X * bool) Error unit :=
  st ← st_get;
  if (st : X * bool).2 then st_fail LocalClosed
  else
    _ ← on_path (transform_send (gen_new_close (ss_stream_id s)) false true);
    st_modify (fun st => (st.1, true)).

Section TypedSending.
Context {M : Type} `{Codec M}.

(** [CSSender::send], [SSSender::send], [ClientStreamSender::send] and
    [ServerStreamSender::send]. *)
Definition typed_send (s : StreamSender) (m : M) : st (X * bool) Error unit :=
  msg_buf ← st_lift (map_err (err_to_others_err "Encode message failed.") (codec_encode m));
  stream_send s msg_buf.

(** A run of sends, stopping at the first error. *)
Fixpoint typed_send_all (s : StreamSender) (ms : list M) : st (X * bool) Error unit :=
  match ms with
  | [] => mret tt
  | m :: ms' => _ ← typed_send s m; typed_send_all s ms'
  end.
End TypedSending.
End Sending.

(** ** Receiving *)

Section Receiving.
Context {Q : Type -> Type} `{Mpsc Q} `{Codec Response}.

(** One poll of [_recv(rx)]: the next result, or an error once the channel is empty and every
    sender is gone ([senders] tells whether one is left); [None]: suspended. *)
Definition recv_result (senders : bool) (q : Q (Result GenMessage))
  : Q (Result GenMessage) * option (Result GenMessage) :=
  match mpsc_recv q with
  | (q', Some r) => (q', Some r)
  | (q', None) => (q', if senders then None
                       else Some (Err (Others "Receive packet from Receiver error")))
  end.

Definition set_rx (r : StreamReceiver Q) (q : Q (Result GenMessage)) : StreamReceiver Q :=
  MkStreamReceiver q (sr_stream_id r) (recveivable r) (remote_closed r) (sr_kind r).
Definition close_remote (r : StreamReceiver Q) : StreamReceiver Q :=
  MkStreamReceiver (rx r) (sr_stream_id r) (recveivable r) true (sr_kind r).

(** The part of [StreamReceiver::recv] after the message has arrived. *)
Definition recv_msg (r : StreamReceiver Q) (msg : GenMessage)
  : StreamReceiver Q * Result (list byte) :=
  if decide (type_ (header msg) = MESSAGE_TYPE_RESPONSE) then
    (close_remote r,
     resp ← map_err (err_to_others_err "Decode message failed.") (codec_decode (payload msg));
     match status resp with
     | Some s => if decide (code s <> OK) then Err (RpcStatus s) else Ok (res_payload resp)
     | None => Ok (res_payload resp)
     end)
  else if decide (type_ (header msg) = MESSAGE_TYPE_DATA) then
    if negb (recveivable r) then
      (close_remote r, Err (Others "received data from non-streaming server."))
    else if has_flag (header msg) FLAG_REMOTE_CLOSED then
      (close_remote r,
       if has_flag (header msg) FLAG_NO_DATA then
         if decide (payload msg <> [])
         then Err (Others ("stream " +:+ pretty (sr_stream_id r) +:+
                           ": close message cannot include data"))
         else Err Eof
       else _ ← check_oversize (len (payload msg)) false; Ok (payload msg))
    else (r, _ ← check_oversize (len (payload msg)) false; Ok (payload msg))
  else (r, Err (Others "not support")).

(** One poll of [StreamReceiver::recv]; [None]: suspended. *)
Definition stream_recv (senders : bool) (r : StreamReceiver Q)
  : StreamReceiver Q * option (Result (list byte)) :=
  if remote_closed r then (r, Some (Err RemoteClosed))
  else match recv_result senders (rx r) with
       | (q, None) => (set_rx r q, None)
       | (q, Some (Err e)) => (set_rx r q, Some (Err e))
       | (q, Some (Ok msg)) => let '(r', res) := recv_msg (set_rx r q) msg in (r', Some res)
       end.

Section TypedReceiving.
Context {M : Type} `{Codec M}.

Definition decode_msg (b : list byte) : Result M :=
  map_err (err_to_others_err "Decode message failed.") (codec_decode b).

(** [CSReceiver::recv]. *)
Definition typed_recv (senders : bool) (r : StreamReceiver Q)
  : StreamReceiver Q * option (Result M) :=
  let '(r', o) := stream_recv senders r in (r', (fun res => msg_buf ← res; decode_msg msg_buf) <$> o).

(** [SSReceiver::recv], [ClientStreamReceiver::recv] and [ServerStreamReceiver::recv]: the end of
    the stream is [Ok(None)]. *)
Definition typed_recv_opt (senders : bool) (r : StreamReceiver Q)
  : StreamReceiver Q * option (Result (option M)) :=
  let '(r', o) := stream_recv senders r in
  (r', (fun res => match res with
                   | Err Eof => Ok None
                   | _ => msg_buf ← res; Some <$> decode_msg msg_buf
                   end) <$> o).

(** A consumer that receives [n] times. *)
Fixpoint typed_recv_n (n : nat) (senders : bool) (r : StreamReceiver Q)
  : StreamReceiver Q * list (option (Result (option M))) :=
  match n with
  | O => (r, [])
  | S n' => let '(r1, o) := typed_recv_opt senders r in
            let '(r2, os) := typed_recv_n n' senders r1 in (r2, o :: os)
  end.
End TypedReceiving.
End Receiving.

(** [ClientStreamSender::close_and_recv], the receiver being polled until it is ready. *)
Definition close_and_recv {X : Type} {Q : Type -> Type} {M : Type} `{SendPath X, Mpsc Q, Codec Response, Codec M}
    (senders : bool) (s : StreamInner Q) : st (X * bool) Error (StreamInner Q * option (Result M)) :=
  _ ← stream_close_send (sender s);
  let '(r', o) := stream_recv senders (receiver s) in
  mret (MkStreamInner (sender s) r', (fun res => msg_buf ← res; decode_msg msg_buf) <$> o).

(** ** A send path without a transform and with a writer that succeeds *)

Section AlonePath.
Context {D T : Type} {Q : Type -> Type} `{TransformLaws T, MpscLaws Q, Texts}.

#[local] Instance alone_path : SendPath (ConnectionContext D T * Q SendingMessage) := {
  transform_send := fun m rpc_error await_ack =>
    transform_send_alone m rpc_error await_ack None 0%nat (Some (Ok tt));
  raw_limit := fun x => max_raw_payload_len x.1;
  emitted := fun x => sm_msg <$> mpsc_items x.2;
  steady := fun x => payload_transform x.1 = None }.

#[local] Instance alone_path_laws : SendPathLaws (ConnectionContext D T * Q SendingMessage).
Proof.
  assert (forall m b a (x x' : ConnectionContext D T * Q SendingMessage) r,
    payload_transform x.1 = None -> transform_send m b a x = (x', r) ->
    x'.1 = x.1 /\
    ((exists e, r = Err e /\ x'.2 = x.2) \/
     (r = Ok tt /\ len (payload m) <= MESSAGE_LENGTH_MAX /\ exists s, sm_msg s = m /\ mpsc_open x.2 = true /\ x'.2 = (mpsc_send s x.2).1))) as Hsend.
  { intros m b a [c chan] [c' chan'] r Hc. simpl in Hc. unfold transform_send, alone_path, transform_send_alone.
    destruct (mpsc_open chan) eqn:Ho; [|intros; simplify_eq; eauto].
    rewrite (outbound_none b c m Hc).
    destruct (check_oversize (len (payload m)) b) as [[]|e] eqn:Hk; [|intros; simplify_eq; eauto].
    rewrite Hc. intros E. simplify_eq. split; [done|]. right. split; [by destruct a|].
    split; [by apply check_oversize_ok in Hk|]. eexists. split; [apply sending_of_msg|done]. }
  split; simpl.
  - intros m b a x x' Hc E. destruct (Hsend _ _ _ _ _ _ Hc E) as (_ & [(e & ? & _)|(_ & Hl & s & Hs & Ho & Ex)]); [done|].
    destruct (mpsc_send s x.2) as [q ok] eqn:Eq. apply mpsc_send_spec in Eq as (_ & _ & Eq).
    rewrite Ex. simpl. rewrite Eq, Ho, fmap_app, <- Hs. split; [done|by rewrite Hs].
  - intros m b a x x' e Hc E. destruct (Hsend _ _ _ _ _ _ Hc E) as (_ & [(e' & ? & ->)|(? & _)]); [by left|done].
  - intros m b a x x' r Hc E. by destruct (Hsend _ _ _ _ _ _ Hc E) as [-> _].
  - intros [c q]. cbn. unfold max_raw_payload_len, saturating_sub.
    destruct (payload_transform c) as [x|]; [|done]. pose proof (overhead_nonneg x).
    change MESSAGE_LENGTH_MAX with 4194304. lia.
Qed.
End AlonePath.

(** ** Lemmas *)

Section SendLemmas.
Context {X : Type} `{SendPathLaws X} {M : Type} `{CodecLaws M}.

Lemma stream_send_ok s b x x' c' :
  steady x -> stream_send s b (x, false) = ((x', c'), Ok tt) ->
  c' = false /\ steady x' /\ emitted x' = emitted x ++ [gen_new_data (ss_stream_id s) b] /\
  len b <= MESSAGE_LENGTH_MAX.
Proof.
  intros Hx. unfold stream_send, on_path. munfold. cbn [snd].
  destruct (transform_send _ _ _ x) as [x1 r] eqn:E. intros. simplify_eq.
  destruct (transform_send_ok _ _ _ _ _ Hx E) as [He Hl].
  split_and!; [done|by eapply transform_send_steady|done|done].
Qed.

(** A successful run of typed sends emits the encodings, in order. *)
Lemma typed_send_all_ok s (ms : list M) x x' c' :
  steady x -> typed_send_all s ms (x, false) = ((x', c'), Ok tt) ->
  c' = false /\ steady x' /\ exists bs,
    emitted x' = emitted x ++ (gen_new_data (ss_stream_id s) <$> bs) /\
    Forall2 (fun m b => codec_encode m = Ok b /\ len b <= MESSAGE_LENGTH_MAX) ms bs.
Proof.
  revert x. induction ms as [|m ms IH]; intros x Hx; cbn [typed_send_all].
  { munfold. intros. simplify_eq. split_and!; [done|done|]. exists []. by rewrite app_nil_r. }
  unfold typed_send. munfold. destruct (codec_encode m) as [b|e] eqn:Em; cbn; [|done].
  destruct (stream_send s b (x, false)) as [[x1 c1] [[]|e]] eqn:E1; [|done]. intros E.
  destruct (stream_send_ok _ _ _ _ _ Hx E1) as (-> & Hx1 & He & Hl).
  destruct (IH _ Hx1 E) as (-> & Hx' & bs & He' & Hf). split_and!; [done|done|].
  exists (b :: bs). split; [by rewrite He', He, <- app_assoc|by constructor].
Qed.

Lemma stream_close_send_ok s x x' c' :
  steady x -> stream_close_send s (x, false) = ((x', c'), Ok tt) ->
  c' = true /\ steady x' /\ emitted x' = emitted x ++ [gen_new_close (ss_stream_id s)].
Proof.
  intros Hx. unfold stream_close_send, on_path. munfold. cbn [snd].
  destruct (transform_send _ _ _ x) as [x1 [[]|e]] eqn:E; [|done]. intros. simplify_eq/=.
  destruct (transform_send_ok _ _ _ _ _ Hx E) as [He Hl].
  split_and!; [done|by eapply transform_send_steady|done].
Qed.
End SendLemmas.

Section RecvLemmas.
Context {Q : Type -> Type} `{MpscLaws Q} `{Codec Response}.

Lemma recv_result_cons senders (q : Q (Result GenMessage)) r l :
  mpsc_items q = r :: l ->
  exists q', recv_result senders q = (q', Some r) /\ mpsc_items q' = l.
Proof.
  intros Hq. unfold recv_result. destruct (mpsc_recv q) as [q' o] eqn:E.
  apply mpsc_recv_spec in E as (-> & Ht & _). rewrite Hq in *. by exists q'.
Qed.

Lemma recv_msg_data (r : StreamReceiver Q) sid b :
  recveivable r = true -> len b <= MESSAGE_LENGTH_MAX -> recv_msg r (gen_new_data sid b) = (r, Ok b).
Proof.
  intros Hr Hb. unfold recv_msg. cbn -[has_flag]. rewrite Hr. cbn -[has_flag].
  change (has_flag (header_new_data sid (len_u32 b)) FLAG_REMOTE_CLOSED) with false. cbn.
  apply (check_oversize_ok _ false) in Hb. by rewrite Hb.
Qed.

Lemma recv_msg_close (r : StreamReceiver Q) sid :
  recveivable r = true -> recv_msg r (gen_new_close sid) = (close_remote r, Err Eof).
Proof. intros Hr. unfold recv_msg. cbn. by rewrite Hr. Qed.

Lemma stream_recv_closed senders (r : StreamReceiver Q) :
  remote_closed r = true -> stream_recv senders r = (r, Some (Err RemoteClosed)).
Proof. intros Hr. unfold stream_recv. by rewrite Hr. Qed.

(** Receiving a DATA message from the front of the mailbox. *)
Lemma stream_recv_data senders (r : StreamReceiver Q) sid b l :
  remote_closed r = false -> recveivable r = true -> len b <= MESSAGE_LENGTH_MAX ->
  mpsc_items (rx r) = Ok (gen_new_data sid b) :: l ->
  exists q', stream_recv senders r = (set_rx r q', Some (Ok b)) /\ mpsc_items q' = l.
Proof.
  intros Hc Hr Hb Hq. unfold stream_recv. rewrite Hc.
  destruct (recv_result_cons senders _ _ _ Hq) as (q' & -> & Hl). exists q'.
  by rewrite recv_msg_data.
Qed.

Lemma stream_recv_close senders (r : StreamReceiver Q) sid l :
  remote_closed r = false -> recveivable r = true -> mpsc_items (rx r) = Ok (gen_new_close sid) :: l ->
  exists q', stream_recv senders r = (close_remote (set_rx r q'), Some (Err Eof)) /\
             mpsc_items q' = l.
Proof.
  intros Hc Hr Hq. unfold stream_recv. rewrite Hc.
  destruct (recv_result_cons senders _ _ _ Hq) as (q' & -> & Hl). exists q'.
  by rewrite recv_msg_close.
Qed.

Lemma typed_recv_stream {M} `{CodecLaws M} senders (r : StreamReceiver Q) sid (ms : list M) bs l :
  remote_closed r = false -> recveivable r = true ->
  mpsc_items (rx r) = ((Ok ∘ gen_new_data sid) <$> bs) ++ Ok (gen_new_close sid) :: l ->
  Forall2 (fun m b => codec_encode m = Ok b /\ len b <= MESSAGE_LENGTH_MAX) ms bs ->
  exists r', typed_recv_n (length ms + 2) senders r =
    (r', ((fun m => Some (Ok (Some m))) <$> ms) ++ [Some (Ok None); Some (Err RemoteClosed)]).
Proof.
  intros Hc Hr Hq Hf. revert r Hc Hr Hq. induction Hf as [|m b ms bs [Hm Hb] Hf IH]; intros r Hc Hr Hq.
  - cbn in Hq. destruct (stream_recv_close senders r sid l Hc Hr Hq) as (q' & E & _).
    cbn [length Nat.add typed_recv_n]. unfold typed_recv_opt. rewrite E.
    rewrite stream_recv_closed by done. by eexists.
  - cbn in Hq. destruct (stream_recv_data senders r sid b _ Hc Hr Hb Hq) as (q' & E & Hq').
    destruct (IH (set_rx r q') Hc Hr Hq') as (r' & E').
    exists r'. cbn [length Nat.add typed_recv_n]. unfold typed_recv_opt. rewrite E.
    fold (typed_recv_n (length ms + 2) senders (set_rx r q')). rewrite E'.
    cbn. unfold decode_msg. by rewrite (codec_decode_encode _ _ Hm).
Qed.
End RecvLemmas.

(** ** Properties *)

(** The messages that end the receiving half. *)
Definition terminal {Q : Type -> Type} (r : StreamReceiver Q) (m : GenMessage) : Prop :=
  type_ (header m) = MESSAGE_TYPE_RESPONSE \/
  (type_ (header m) = MESSAGE_TYPE_DATA /\
   (recveivable r = false \/ has_flag (header m) FLAG_REMOTE_CLOSED = true)).

Lemma recv_msg_terminal {Q : Type -> Type} `{Codec Response} (r r' : StreamReceiver Q) m res :
  remote_closed r = false -> recv_msg r m = (r', res) ->
  (remote_closed r' = true <-> terminal r m).
Proof.
  intros Hc E. unfold recv_msg, terminal in *.
  change MESSAGE_TYPE_RESPONSE with 2 in *. change MESSAGE_TYPE_DATA with 3 in *.
  destruct (decide (type_ (header m) = 2)) as [Ht2|Ht2]; [simplify_eq; simpl; tauto|].
  destruct (decide (type_ (header m) = 3)) as [Ht3|Ht3]; [|simplify_eq; intuition congruence].
  destruct (recveivable r) eqn:Hrr; cbn [negb] in E; [|simplify_eq; simpl; tauto].
  destruct (has_flag (header m) FLAG_REMOTE_CLOSED); simplify_eq; simpl; intuition congruence.
Qed.

Lemma recv_msg_rx {Q : Type -> Type} `{Codec Response} (r r' : StreamReceiver Q) m res :
  recv_msg r m = (r', res) -> rx r' = rx r.
Proof. unfold recv_msg. intros E. repeat case_match; by simplify_eq. Qed.

Section Properties.
Context {X : Type} `{SendPathLaws X} {Q : Type -> Type} `{MpscLaws Q} `{Codec Response}.

(** Typed messages sent on a stream and then closed are received by the other end in order and
    unchanged, followed by one end of stream, and by [RemoteClosed] from then on, if the receiver's
    mailbox is filled with them in the order in which they were handed to the writer: so it is on a
    client, whose reader delivers the frames itself; a server's tasks may overtake each other. *)
Theorem stream_roundtrip {M : Type} `{CodecLaws M} (s : StreamSender) (ms : list M) (x x1 x2 : X)
    (c1 c2 : bool) (r : StreamReceiver Q) (senders : bool) :
  steady x -> typed_send_all s ms (x, false) = ((x1, c1), Ok tt) ->
  stream_close_send s (x1, c1) = ((x2, c2), Ok tt) ->
  remote_closed r = false -> recveivable r = true ->
  Ok <$> emitted x2 = (Ok <$> emitted x) ++ mpsc_items (rx r) ->
  c2 = true /\
  exists r', typed_recv_n (length ms + 2) senders r =
    (r', ((fun m => Some (Ok (Some m))) <$> ms) ++ [Some (Ok None); Some (Err RemoteClosed)]).
Proof.
  intros Hx Hs Hcl Hrc Hrr Hq.
  destruct (typed_send_all_ok _ _ _ _ _ Hx Hs) as (-> & Hx1 & bs & He & Hf).
  destruct (stream_close_send_ok _ _ _ _ Hx1 Hcl) as (-> & _ & He2). split; [done|].
  rewrite He2, He, <- app_assoc, fmap_app in Hq. apply (app_inv_head (Ok <$> emitted x)) in Hq.
  eapply (typed_recv_stream senders r (ss_stream_id s) ms bs []); try done.
  by rewrite <- Hq, fmap_app, <- list_fmap_compose.
Qed.

(** C21: one receive on the half of a stream, whatever its mailbox holds: it takes the first message
    and no other; it closes the half exactly when this message is terminal, that is a response, a
    DATA message with the closing flag, or a DATA message on a half that must not receive any, and
    from then on every receive gives [RemoteClosed] and leaves the mailbox alone. A response yields
    its payload when its status is absent or OK, and its status as an error otherwise; a DATA message
    within the size limit yields its payload; and a closing message without data yields the end of
    the stream. *)
Theorem stream_recv_terminal (senders : bool) (r r' : StreamReceiver Q)
    (res : option (Result (list byte))) :
  remote_closed r = false -> stream_recv senders r = (r', res) ->
  mpsc_items (rx r') = drop 1 (mpsc_items (rx r)) /\
  (remote_closed r' = true <->
     exists m, head (mpsc_items (rx r)) = Some (Ok m) /\ terminal r m) /\
  (remote_closed r' = true -> forall senders', stream_recv senders' r' = (r', Some (Err RemoteClosed))) /\
  (forall m resp, head (mpsc_items (rx r)) = Some (Ok m) ->
     type_ (header m) = MESSAGE_TYPE_RESPONSE -> codec_decode (payload m) = Ok resp ->
     res = Some (match non_ok resp with Some s => Err (RpcStatus s) | None => Ok (res_payload resp) end)) /\
  (forall m, head (mpsc_items (rx r)) = Some (Ok m) ->
     type_ (header m) = MESSAGE_TYPE_DATA -> recveivable r = true ->
     (has_flag (header m) FLAG_REMOTE_CLOSED = false \/ has_flag (header m) FLAG_NO_DATA = false) ->
     len (payload m) <= MESSAGE_LENGTH_MAX -> res = Some (Ok (payload m))) /\
  (forall sid, head (mpsc_items (rx r)) = Some (Ok (gen_new_close sid)) -> recveivable r = true ->
     res = Some (Err Eof)).
Proof.
  intros Hc E. split_and!.
  3: { intros Hr' senders'. by apply stream_recv_closed. }
  all: unfold stream_recv, recv_result in E; rewrite Hc in E.
  all: destruct (mpsc_recv (rx r)) as [q o] eqn:Eq; apply mpsc_recv_spec in Eq as (Ho & Hq & _).
  - assert (mpsc_items q = drop 1 (mpsc_items (rx r))) as <- by (rewrite Hq; by destruct (mpsc_items (rx r))).
    destruct o as [[m|e]|]; [|by simplify_eq|by destruct senders; simplify_eq].
    destruct (recv_msg (set_rx r q) m) as [r1 res1] eqn:Em. simplify_eq. by rewrite (recv_msg_rx _ _ _ _ Em).
  - rewrite <- Ho. destruct o as [[m|e]|].
    + destruct (recv_msg (set_rx r q) m) as [r1 res1] eqn:Em. simplify_eq.
      rewrite (recv_msg_terminal (set_rx r q) r' m res1 Hc Em). split; [by eauto|].
      intros (m' & [= <-] & Ht). exact Ht.
    + simplify_eq/=. split; [congruence|]. by intros (? & ? & _).
    + destruct senders; simplify_eq/=; (split; [congruence|]; by intros (? & ? & _)).
  - intros m resp Hm Ht Hd. rewrite Hm in Ho. subst o. unfold recv_msg in E. rewrite decide_True in E by done.
    simplify_eq. rewrite Hd. munfold. unfold non_ok.
    destruct (status resp) as [s|]; cbn; [by case_decide|done].
  - intros m Hm Ht Hr Hf Hl. rewrite Hm in Ho. subst o. unfold recv_msg in E.
    rewrite decide_False in E by (by rewrite Ht). rewrite decide_True in E by done.
    apply (check_oversize_ok _ false) in Hl. cbn [recveivable set_rx] in E. rewrite Hr in E. cbn [negb] in E.
    destruct (has_flag (header m) FLAG_REMOTE_CLOSED); [destruct Hf as [?|Hf]; [done|]; rewrite Hf in E|];
      rewrite Hl in E; by simplify_eq.
  - intros sid Hm Hr. rewrite Hm in Ho. subst o. rewrite recv_msg_close in E by done. by simplify_eq.
Qed.
End Properties.

Section Witness.
Local Instance stream_texts : Texts :=
  {| status_debug := fun _ => ""; nix_display := pretty; nix_debug := pretty;
     tokio_send_error := "channel closed" |}.
Local Instance stream_response_codec : Codec Response := response_codec.

Abbreviation ex_state := (ConnectionContext unit NonceTransform * ListChan SendingMessage)%type.
Local Instance ex_send_path : SendPath ex_state := alone_path.
Local Instance ex_send_path_laws : SendPathLaws ex_state := alone_path_laws.

Definition ex_path : ex_state := (MkCtx tt None, mpsc_channel).
Definition ex_stream : StreamSender := MkStreamSender 3 true Client.
Definition ex_payloads : list (list byte) := [[Byte.x01]; []; [Byte.x02; Byte.x03]].

(** A server half whose mailbox holds what was sent. *)
Definition ex_receiver (x : ex_state) : StreamReceiver ListChan :=
  MkStreamReceiver (MkListChan (Ok <$> emitted x) true) 3 true false Server.

Lemma stream_roundtrip_witness :
  exists x1 x2 r',
    typed_send_all ex_stream ex_payloads (ex_path, false) = ((x1, false), Ok tt) /\
    stream_close_send ex_stream (x1, false) = ((x2, true), Ok tt) /\
    typed_recv_n (length ex_payloads + 2) false (ex_receiver x2) =
      (r', ((fun m => Some (Ok (Some m))) <$> ex_payloads) ++
           [Some (Ok None); Some (Err RemoteClosed)]).
Proof.
  destruct (typed_send_all ex_stream ex_payloads (ex_path, false)) as [[x1 c1] r1] eqn:E1.
  assert (r1 = Ok tt /\ c1 = false) as [-> ->]
    by (revert E1; vm_compute; intros; simplify_eq; done).
  destruct (stream_close_send ex_stream (x1, false)) as [[x2 c2] r2] eqn:E2.
  assert (r2 = Ok tt) as ->
    by (revert E2; vm_compute in E1; simplify_eq; vm_compute; intros; simplify_eq; done).
  destruct (stream_roundtrip ex_stream ex_payloads ex_path x1 x2 false c2 (ex_receiver x2) false)
    as [-> [r' Hr]]; [done|exact E1|exact E2|done|done|done|].
  by exists x1, x2, r'.
Defined.

Lemma stream_recv_terminal_witness :
  let resp := MkResponse (Some (get_status NOT_FOUND "gone")) [] in
  let m := gen_new_response 3 (countable_encode resp) in
  let r := MkStreamReceiver (MkListChan [Ok m; Err Eof] true) 3 true false Client in
  exists r', stream_recv true r = (r', Some (Err (RpcStatus (get_status NOT_FOUND "gone")))) /\
    stream_recv true r' = (r', Some (Err RemoteClosed)).
Proof.
  intros resp m r. destruct (stream_recv true r) as [r' res] eqn:E.
  destruct (stream_recv_terminal true r r' res) as (_ & Hc & Hcl & Hres & _); [done|exact E|].
  exists r'. split.
  - rewrite (Hres m resp); [done|done|done|].
    apply (codec_decode_encode (CodecLaws := response_codec_laws)). done.
  - apply Hcl, Hc. exists m. by split; [|left].
Defined.
End Witness.
