(* ===== verification/Connection.v ===== *)
(** One asynchronous connection (src/src/asynchronous/connection.rs): the writer task, which sends
    or discards the queued frames and answers their senders, and the reader loop, which hands
    incoming frames to its delegate until the writer, the shutdown signal or a read error ends
    it. *)
From S2P Require Import Prelude Errors Wire AsyncIO Frame Channel Extension.

(** ** The writer task *)

Inductive WriteOutcome :=
  | Complete (r : Result unit)
  | Discarded (e : Error)
  | Cancelled
  | DeadlineElapsed.

Section Writer.
Context {W : Type} `{AsyncWrite W}.

(** Which branch of the biased [select!] completes first. When the caller goes away or the deadline
    elapses during the write, the write future is dropped where it is, which leaves the writer and
    the prefix buffer in the given state. *)
Inductive Race :=
  | WriteFirst
  | CancelledFirst (cut : W * Vec)
  | DeadlineFirst (cut : W * Vec).

(** What the writer observes while it serves a message: whether the caller's mailbox is closed and
    the time when it looks, and the race. *)
Record Delivery := MkDelivery {
  d_msg : SendingMessage;
  d_closed : bool;
  d_now : Z;
  d_race : Race }.

(** [write_message]; without a deadline there is no timer in the race. *)
Definition write_message_controlled (d : Delivery) (s : W * Vec) : (W * Vec) * WriteOutcome :=
  let write (s : W * Vec) :=
    let '(s', r) := gen_write_to_buffered (sm_msg (d_msg d)) s in (s', Complete r) in
  match control (d_msg d) with
  | None => write s
  | Some control =>
      let expired := match deadline control with
                     | Some dl => bool_decide (dl <= d_now d)
                     | None => false
                     end in
      if is_cancelled (fun _ => d_closed d) control then (s, Discarded LocalClosed)
      else if expired then (s, Discarded request_timeout_error)
      else match d_race d, deadline control with
           | WriteFirst, _ => write s
           | CancelledFirst cut, _ => (cut, Cancelled)
           | DeadlineFirst cut, Some _ => (cut, DeadlineElapsed)
           | DeadlineFirst _, None => write s
           end
  end.

Definition cancelled_msg : string := "connection closed after a request was cancelled during write".
Definition elapsed_msg : string :=
  "connection closed after a request deadline elapsed during write".

(** What [run_writer] does with an outcome: the answer to the sender, and the error that ends the
    task, if any. *)
Definition writer_answer (o : WriteOutcome) : Result unit * option Error :=
  match o with
  | Complete (Ok _) => (Ok tt, None)
  | Discarded e => (Err e, None)
  | Complete (Err e) => (Err e, Some e)
  | Cancelled => (Err LocalClosed, Some (Socket cancelled_msg))
  | DeadlineElapsed => (Err request_timeout_error, Some (Socket elapsed_msg))
  end.

(** [run_writer] on the messages [recv()] yields until it yields [None]: the final state, the
    answers given on the result channels, the messages left in the queue, and the task's result. *)
Fixpoint run_writer (ds : list Delivery) (s : W * Vec)
  : (W * Vec) * list (chan_id * Result unit) * list Delivery * Result unit :=
  match ds with
  | [] => (s, [], [], Ok tt)
  | d :: ds' =>
      let '(s1, o) := write_message_controlled d s in
      let '(answer, failure) := writer_answer o in
      let '(_, answers1) := send_result (d_msg d) answer in
      match failure with
      | Some e => (s1, answers1, ds', Err e)
      | None => let '(s2, answers2, queue, r) := run_writer ds' s1 in
                (s2, answers1 ++ answers2, queue, r)
      end
  end.

(** The outcome of every message the task has served, in order (specification only). *)
Fixpoint writer_outcomes (ds : list Delivery) (s : W * Vec) : list (Delivery * WriteOutcome) :=
  match ds with
  | [] => []
  | d :: ds' =>
      let '(s1, o) := write_message_controlled d s in
      (d, o) :: match (writer_answer o).2 with Some _ => [] | None => writer_outcomes ds' s1 end
  end.

(** The frames written whole, and the answers owed to the senders. *)
Definition written (os : list (Delivery * WriteOutcome)) : list GenMessage :=
  omap (fun '(d, o) => match o with Complete (Ok _) => Some (sm_msg (d_msg d)) | _ => None end) os.
Definition owed (os : list (Delivery * WriteOutcome)) : list (chan_id * Result unit) :=
  omap (fun '(d, o) => (fun ch => (ch, (writer_answer o).1)) <$> result_chan (d_msg d)) os.

(** A dropped write has written a prefix of its frame. *)
Definition race_ok (s : W * Vec) (d : Delivery) : Prop :=
  match d_race d with
  | WriteFirst => True
  | CancelledFirst cut | DeadlineFirst cut =>
      exists p, p `prefix_of` frame_bytes (sm_msg (d_msg d)) /\ sent cut.1 = sent s.1 ++ p
  end.
Fixpoint races_ok (ds : list Delivery) (s : W * Vec) : Prop :=
  match ds with
  | [] => True
  | d :: ds' =>
      let '(s1, o) := write_message_controlled d s in
      race_ok s d /\ ((writer_answer o).2 = None -> races_ok ds' s1)
  end.
End Writer.
Arguments Race : clear implicits.
Arguments Delivery : clear implicits.

(** ** The reader loop *)

(** [trait ReaderDelegate]; [wait_shutdown] is the shutdown branch of the loop. *)
Class ReaderDelegate (R : Type) := {
  rd_disconnect : Error -> R -> R;
  rd_exit : R -> R;
  rd_handle_msg : GenMessage -> R -> R;
  rd_handle_err : MessageHeader -> Error -> R -> R }.

(** What is ready in an iteration of the loop: the join of the writer task (a result, or the text of
    a join error), the shutdown signal, a frame or a read error. *)
Record Turn := MkTurn {
  writer_done : option (res string (Result unit));
  shutdown_done : bool;
  read_done : option (res GenMessageError GenMessage) }.

(** The calls the loop makes. *)
Inductive LoopCall :=
  | HandleMsg (m : GenMessage)
  | HandleErr (h : MessageHeader) (e : Error)
  | AbortWriter
  | Disconnect (e : Error)
  | Exit.

(** One turn of the biased [select!]: the calls made, and whether the loop goes on. *)
Definition loop_turn (i : Turn) : list LoopCall * bool :=
  match writer_done i with
  | Some (Ok (Ok _)) => ([], false)
  | Some (Ok (Err e)) => ([Disconnect e], false)
  | Some (Err e) => ([Disconnect (Others ("Writer task failed: " +:+ e))], false)
  | None =>
      if shutdown_done i then ([], false)
      else match read_done i with
           | Some (Ok m) => ([HandleMsg m], true)
           | Some (Err (ReturnError h e)) => ([HandleErr h e], true)
           | Some (Err (InternalError e)) => ([AbortWriter; Disconnect e], false)
           | None => ([], true)
           end
  end.

(** [Connection::run]; [None] when the loop is still waiting after the given turns. *)
Fixpoint connection_run (is_ : list Turn) : list LoopCall * bool :=
  match is_ with
  | [] => ([], false)
  | i :: is' =>
      match loop_turn i with
      | (calls, true) => let '(rest, fin) := connection_run is' in (calls ++ rest, fin)
      | (calls, false) => (calls ++ [Exit], true)
      end
  end.

(** The delegate's state after the calls. *)
Definition apply_call {R} `{ReaderDelegate R} (r : R) (c : LoopCall) : R :=
  match c with
  | HandleMsg m => rd_handle_msg m r
  | HandleErr h e => rd_handle_err h e r
  | AbortWriter => r
  | Disconnect e => rd_disconnect e r
  | Exit => rd_exit r
  end.
Definition run_delegate {R} `{ReaderDelegate R} (is_ : list Turn) (r : R) : R :=
  foldl apply_call r (connection_run is_).1.

(** ** Lemmas *)

Section WriterLemmas.
Context {W : Type} `{AsyncWriteLaws W}.

(** One message: written whole, not at all, or cut, the last one ending the task. *)
Lemma write_message_sent (d : Delivery W) s s' o :
  write_message_controlled d s = (s', o) -> race_ok s d ->
  exists p, sent s'.1 = sent s.1 ++ p /\ p `prefix_of` frame_bytes (sm_msg (d_msg d)) /\
    (forall e, o = Discarded e -> p = []) /\
    (o = Complete (Ok tt) -> p = frame_bytes (sm_msg (d_msg d))) /\
    (control (d_msg d) = None -> exists r, o = Complete r).
Proof.
  intros E Hr. unfold write_message_controlled in E.
  assert (forall sb r, gen_write_to_buffered (sm_msg (d_msg d)) s = (sb, r) ->
    exists p, sent sb.1 = sent s.1 ++ p /\ p `prefix_of` frame_bytes (sm_msg (d_msg d)) /\
      (r = Ok tt -> p = frame_bytes (sm_msg (d_msg d)))) as Hw.
  { intros [wb vb] r Eb. destruct s as [w v]. apply write_message_buffered_sent in Eb as (_ & b & Hs & Hp & Hb).
    by exists b. }
  unfold race_ok in Hr. destruct (gen_write_to_buffered (sm_msg (d_msg d)) s) as [sb rb] eqn:Eb.
  destruct (Hw _ _ eq_refl) as (p & Hs & Hp & Hok).
  destruct (control (d_msg d)) as [ctl|] eqn:Hc.
  2: { simplify_eq. exists p. split_and!; [done|done|done| |by eauto]. intros [= ->]. auto. }
  destruct (is_cancelled _ ctl); [simplify_eq; exists []; split_and!; try done; [by rewrite app_nil_r|apply prefix_nil]|].
  destruct (match deadline ctl with Some dl => bool_decide (dl <= d_now d) | None => false end);
    [simplify_eq; exists []; split_and!; try done; [by rewrite app_nil_r|apply prefix_nil]|].
  destruct (d_race d) as [|cut|cut], (deadline ctl); simplify_eq;
    try (exists p; split_and!; [done|done|done| |done]; intros [= ->]; auto; fail);
    destruct Hr as (p' & Hp' & Hs'); by exists p'.
Qed.

Lemma run_writer_spec (ds : list (Delivery W)) s s' answers queue r :
  run_writer ds s = (s', answers, queue, r) -> races_ok ds s ->
  let os := writer_outcomes ds s in
  ds = os.*1 ++ queue /\ answers = owed os /\
  exists p, sent s'.1 = sent s.1 ++ concat (frame_bytes <$> written os) ++ p /\
    match r with
    | Ok _ => p = [] /\ queue = []
    | Err e => exists d o, last os = Some (d, o) /\ (writer_answer o).2 = Some e /\
                 p `prefix_of` frame_bytes (sm_msg (d_msg d))
    end.
Proof.
  revert s answers. induction ds as [|d ds IH]; intros s answers E Hr; cbn in *.
  { simplify_eq. split_and!; [done|done|]. exists []. by rewrite app_nil_r. }
  destruct (write_message_controlled d s) as [s1 o] eqn:E1. destruct Hr as [Hr Hrs].
  destruct (write_message_sent _ _ _ _ E1 Hr) as (p & Hs & Hp & Hd & Hok & _).
  destruct (writer_answer o) as [ans fl] eqn:Ea. cbn in *.
  destruct (send_result (d_msg d) ans) as [sm a1] eqn:Esr.
  assert (a1 = owed [(d, o)]) as ->.
  { unfold owed. cbn. rewrite Ea. unfold send_result in Esr.
    destruct (result_chan (d_msg d)); by simplify_eq/=. }
  destruct fl as [e|].
  - simplify_eq. split_and!; [done|done|]. exists p. split.
    + rewrite Hs. by destruct o as [[[]|]| | |].
    + exists d, o. by rewrite Ea.
  - destruct (run_writer ds s1) as [[[s2 a2] q2] r2] eqn:E2. simplify_eq.
    destruct (IH _ _ E2 (Hrs eq_refl)) as (Hds & Ha & p2 & Hs2 & Hr2).
    split_and!; [cbn; congruence| |].
    { rewrite Ha. unfold owed. cbn. by destruct (result_chan (d_msg d)). }
    exists p2. split.
    + rewrite Hs2, Hs. destruct o as [[[]|]|e| |]; try done.
      * cbn. rewrite (Hok eq_refl), <- !app_assoc. done.
      * cbn. rewrite (Hd e eq_refl), app_nil_r. done.
    + destruct r as [|e]; [done|]. destruct Hr2 as (d' & o' & Hl & ?). exists d', o'.
      split; [|done]. rewrite last_cons. by rewrite Hl.
Qed.

Lemma uncontrolled_complete (ds : list (Delivery W)) s :
  races_ok ds s ->
  Forall (fun '(d, o) => control (d_msg d) = None -> exists r, o = Complete r) (writer_outcomes ds s).
Proof.
  revert s. induction ds as [|d ds IH]; intros s Hr; cbn in *; [by constructor|].
  destruct (write_message_controlled d s) as [s1 o] eqn:E1. destruct Hr as [Hr Hrs].
  constructor; [by destruct (write_message_sent _ _ _ _ E1 Hr) as (p & _ & _ & _ & _ & ?)|].
  destruct (writer_answer o) as [ans [e|]]; [by constructor|]. by apply IH, Hrs.
Qed.
End WriterLemmas.

(** The calls that hand a frame to the delegate. *)
Definition loop_frame (i : Turn) : option LoopCall :=
  match read_done i with
  | Some (Ok m) => Some (HandleMsg m)
  | Some (Err (ReturnError h e)) => Some (HandleErr h e)
  | _ => None
  end.

(** How the loop ends: what is called before [exit]. *)
Definition loop_ending (i : Turn) : list LoopCall := (loop_turn i).1.

Lemma loop_turn_goes_on i calls :
  loop_turn i = (calls, true) ->
  writer_done i = None /\ shutdown_done i = false /\ calls = option_list (loop_frame i).
Proof. unfold loop_turn, loop_frame. intros E. repeat case_match; by simplify_eq. Qed.

Lemma connection_run_spec is_ calls fin :
  connection_run is_ = (calls, fin) ->
  exists pre post, is_ = pre ++ post /\
    Forall (fun i => writer_done i = None /\ shutdown_done i = false) pre /\
    match post with
    | [] => fin = false /\ calls = omap loop_frame pre
    | i :: _ => fin = true /\ (loop_turn i).2 = false /\
                calls = omap loop_frame pre ++ loop_ending i ++ [Exit]
    end.
Proof.
  revert calls fin. induction is_ as [|i is_ IH]; intros calls fin E; cbn in E.
  { simplify_eq. by exists [], []. }
  destruct (loop_turn i) as [cs []] eqn:Ei.
  - destruct (connection_run is_) as [rest fin'] eqn:Er. simplify_eq.
    destruct (loop_turn_goes_on _ _ Ei) as (Hw & Hs & ->).
    destruct (IH _ _ eq_refl) as (pre & post & -> & Hf & Hp). exists (i :: pre), post.
    split_and!; [done|by constructor|]. cbn.
    destruct post as [|j post]; destruct_and!; subst; (split_and!; try done);
      by destruct (loop_frame i).
  - simplify_eq. exists [], (i :: is_). split_and!; [done|by constructor|done| |];
      cbn; unfold loop_ending; by rewrite Ei.
Qed.

(** ** Properties *)

(** C20: the writer task sends frames whole and in the order they were queued, or ends the
    connection: what it has sent when it stops is the frames it completed, in order, followed by
    at most a part of one last frame, and only if it stopped with an error for that frame, so that
    a frame cut short by a cancellation or a deadline is never followed by another one. A message
    it discarded has put no byte on the wire, and a message without delivery control is never
    discarded or cut short. Every message served is answered exactly once on its result channel,
    in order, with Ok only if it was written. *)
Theorem writer_stream {W : Type} `{AsyncWriteLaws W} (ds : list (Delivery W)) (s s' : W * Vec)
    (answers : list (chan_id * Result unit)) (queue : list (Delivery W)) (r : Result unit) :
  races_ok ds s -> run_writer ds s = (s', answers, queue, r) ->
  let os := writer_outcomes ds s in
  ds = os.*1 ++ queue /\
  answers = omap (fun '(d, o) => (fun ch => (ch, (writer_answer o).1)) <$> result_chan (d_msg d)) os /\
  (exists p, sent s'.1 = sent s.1 ++ concat (frame_bytes <$> written os) ++ p /\
    match r with
    | Ok _ => p = [] /\ queue = []
    | Err e => exists d o, last os = Some (d, o) /\ (writer_answer o).2 = Some e /\
                 p `prefix_of` frame_bytes (sm_msg (d_msg d))
    end) /\
  Forall (fun '(d, o) => control (d_msg d) = None -> exists r, o = Complete r) os.
Proof.
  intros Hr E os. destruct (run_writer_spec _ _ _ _ _ _ E Hr) as (Hds & Ha & Hs).
  split_and!; [exact Hds|exact Ha|exact Hs|by apply uncontrolled_complete].
Qed.

(** The reader loop hands every frame and every recoverable read error to the delegate, in the
    order read, as long as the writer is running and no shutdown was requested; the turn in which
    it stops hands over nothing more. It calls [exit] exactly once, last, and [disconnect] at most
    once, just before: exactly when the writer task failed or the stream could not be read. A
    writer that ended without error, and a shutdown, end the loop without a [disconnect]. *)
Theorem connection_run_calls (is_ : list Turn) (calls : list LoopCall) (fin : bool) :
  connection_run is_ = (calls, fin) ->
  exists pre post, is_ = pre ++ post /\
    Forall (fun i => writer_done i = None /\ shutdown_done i = false) pre /\
    match post with
    | [] => fin = false /\ calls = omap loop_frame pre
    | i :: _ => fin = true /\ exists before, calls = omap loop_frame pre ++ before ++ [Exit] /\
        match writer_done i, shutdown_done i, read_done i with
        | Some (Ok (Ok _)), _, _ => before = []
        | Some (Ok (Err e)), _, _ => before = [Disconnect e]
        | Some (Err e), _, _ => before = [Disconnect (Others ("Writer task failed: " +:+ e))]
        | None, true, _ => before = []
        | None, false, Some (Err (InternalError e)) => before = [AbortWriter; Disconnect e]
        | None, false, _ => False
        end
    end.
Proof.
  intros E. destruct (connection_run_spec _ _ _ E) as (pre & post & Hi & Hf & Hp).
  exists pre, post. split_and!; [done|done|]. destruct post as [|i post]; [done|].
  destruct Hp as (-> & Ht & ->). split; [done|]. exists (loop_ending i). split; [done|].
  unfold loop_ending, loop_turn in *. repeat case_match; done.
Qed.

Section Witness.
Definition ex_delivery (m : GenMessage) (ch : chan_id) (closed : bool) (race : Race MemWriter) :=
  MkDelivery (MkSending m (Some ch) (Some (MkControl (Some 10) 9%nat))) closed 5 race.

(** The second caller has gone away, the third one goes away during its write. *)
Definition ex_deliveries : list (Delivery MemWriter) :=
  [ex_delivery ex_frame 1 false WriteFirst; ex_delivery ex_frame 2 true WriteFirst;
   ex_delivery (gen_new_close 3) 3 false
     (CancelledFirst (MkMemWriter (frame_bytes ex_frame ++ [Byte.x00]) 0, Vec_new));
   ex_delivery ex_frame 4 false WriteFirst].

Lemma writer_stream_witness :
  exists s' answers queue r,
    run_writer ex_deliveries (MkMemWriter [] 0, Vec_new) = (s', answers, queue, r) /\
    answers = [(1%nat, Ok tt); (2%nat, Err LocalClosed); (3%nat, Err LocalClosed)] /\
    is_err r = true /\ length queue = 1%nat.
Proof.
  destruct (run_writer ex_deliveries (MkMemWriter [] 0, Vec_new)) as [[[s' answers] queue] r] eqn:E.
  assert (races_ok ex_deliveries (MkMemWriter [] 0, Vec_new)) as Hr.
  { split_and!; try done. intros _. split; [done|]. intros _. split; [|done].
    exists [Byte.x00]. split; [|done]. by exists (tail (frame_bytes (gen_new_close 3))). }
  destruct (writer_stream _ _ _ _ _ _ Hr E) as (Hq & Ha & _ & _).
  exists s', answers, queue, r. split; [done|]. split; [rewrite Ha; by vm_compute|].
  split; [vm_compute in E; by simplify_eq|].
  apply (f_equal length) in Hq. rewrite length_app in Hq.
  assert (length (writer_outcomes ex_deliveries (MkMemWriter [] 0, Vec_new)).*1 = 3%nat) as Hl by (by vm_compute).
  cbn [ex_deliveries length] in Hq. lia.
Defined.

Lemma connection_run_calls_witness :
  let i := MkTurn None false (Some (Ok ex_frame)) in
  let j := MkTurn (Some (Ok (Err Eof))) true (Some (Ok ex_frame)) in
  connection_run [i; j; i] = ([HandleMsg ex_frame; Disconnect Eof; Exit], true) /\
  exists pre post, [i; j; i] = pre ++ post /\
    Forall (fun i => writer_done i = None /\ shutdown_done i = false) pre.
Proof.
  intros i j. split; [done|].
  destruct (connection_run_calls [i; j; i] _ _ eq_refl) as (pre & post & H1 & H2 & _).
  by exists pre, post.
Defined.
End Witness.
