(* ===== verification/SecureWire.v ===== *)
(** One direction of a connection with a payload transform, from the calls of [transform_send] to
    the peer's transform: the concurrent send path (TransformSend), the writer task (Connection), the
    bytes on the socket, the frame reader (Frame) and the peer's [inbound] (Extension). *)
From S2P Require Import Prelude Errors Wire AsyncIO Frame Channel Extension Connection TransformSend.

Section SecureWire.
Context {D T : Type} {Q : Type -> Type} `{TransformLaws T, MpscLaws Q, Texts}.
Context {W R : Type} `{AsyncWriteLaws W, AsyncReadLaws R, !ReliableRead R}.
Context (in_step : T -> T -> Prop) `{!PeerLaws T in_step}.

(** The frame that the transform made of a message: the same routing fields, the length of the new
    payload, and a size within the limit. *)
Definition becomes (m f : GenMessage) : Prop :=
  stream_id (header f) = stream_id (header m) /\ type_ (header f) = type_ (header m) /\
  flags (header f) = flags (header m) /\ sized f /\ len (payload f) <= MESSAGE_LENGTH_MAX.

Lemma becomes_wf m f : becomes m f -> wf_header (header m) -> wf_frame f.
Proof.
  intros (Hs & Ht & Hf & Hz & Hl) (_ & Ws & Wt & Wf). unfold wf_frame, wf_header, sized in *.
  rewrite Hs, Ht, Hf, Hz. split_and!; try done. split; [apply len_nonneg|].
  eapply Z.le_lt_trans; [exact Hl|done].
Qed.

(** What goes through the transform. *)
Lemma transformed_becomes (c peer : ConnectionContext D T) evs (sys : System (Q := Q)) :
  reachable c evs sys -> ctx_in_step in_step c peer -> Forall (fun mf => becomes mf.1 mf.2) (transformed evs).
Proof.
  intros Hr Hp. induction Hr as [|evs sys evs' sys' Hr IH Hs]; [constructor|].
  destruct (pipeline_reachable_inv _ _ _ Hr) as (_ & Hsz & _ & _ & _ & Hrep).
  destruct (Hrep in_step _ false peer Hp) as (peer' & _ & Hst). unfold transformed. rewrite omap_app. apply Forall_app. split; [done|].
  destruct Hs as [sys tid k Hn Hpc Hm|sys tid k ch sh' k' evs' Ht Hen Hpl|sys tid k Ht Hd|sys b1 m m' c' r Ei|sys s chan' Hrc|sys];
    try constructor.
  apply poll_inv in Hpl; [|done]. specialize (Hsz _ _ Ht).
  destruct Hpl as [pc Hk Hk' _|Hk Hl|c' m' e Hpc Eo|c' m' ctl Hpc Eo _|taken pc chan' ok Hpc Es Hk']; cbn; try constructor; [|constructor].
  rewrite Hpc in Hsz. pose proof (outbound_inbound in_step _ false _ _ _ _ _ _ Hst Hsz Eo) as Ho. cbn in Ho.
  destruct Ho as (Hz & Hl & c2 & Ei & _). destruct (inbound_routing _ _ _ _ _ _ Ei) as (? & ? & ?).
  cbn. unfold becomes. split_and!; congruence.
Qed.

(** The writer on messages without delivery control: it writes the first of them whole, all of them
    unless it fails, and then at most a part of the next. *)
Lemma run_writer_uncontrolled (ds : list (Delivery W)) s s' answers queue r :
  run_writer ds s = (s', answers, queue, r) -> Forall (fun d => control (d_msg d) = None) ds ->
  exists n p, sent s'.1 = sent s.1 ++ concat (frame_bytes <$> take n ((sm_msg ∘ d_msg) <$> ds)) ++ p /\
    match r with
    | Ok _ => n = length ds /\ p = []
    | Err _ => exists d, ds !! n = Some d /\ p `prefix_of` frame_bytes (sm_msg (d_msg d))
    end.
Proof.
  intros E Hc. revert s answers E. induction Hc as [|d ds Hd Hc IH]; intros s answers E; cbn in E.
  { simplify_eq. exists O, []. by rewrite app_nil_r. }
  unfold write_message_controlled in E. rewrite Hd in E.
  destruct (gen_write_to_buffered (sm_msg (d_msg d)) s) as [[w v] rw] eqn:Ew. destruct s as [w0 v0].
  apply write_message_buffered_sent in Ew as (_ & b & Hs & Hp & Hb). destruct rw as [[]|e]; cbn in E.
  - destruct (send_result (d_msg d) (Ok tt)) as [sm a1]. destruct (run_writer ds (w, v)) as [[[s2 a2] q2] r2] eqn:E2. simplify_eq.
    destruct (IH _ _ E2) as (n & p & Hs2 & Hr). exists (S n), p. split.
    + rewrite Hs2. cbn. rewrite Hs, (Hb eq_refl), <- !app_assoc. done.
    + destruct r; [|done]. destruct Hr as [-> ->]. done.
  - destruct (send_result (d_msg d) (Err e)) as [sm a1]. simplify_eq. exists O, b. split; [done|]. by exists d.
Qed.

(** Decoding the first of the frames. *)
Lemma inbound_run_take b (peer peer' : ConnectionContext D T) fs rs n :
  inbound_run b peer fs = (peer', rs) -> exists peer1, inbound_run b peer (take n fs) = (peer1, take n rs).
Proof.
  intros E. destruct (decide (n <= length fs)%nat) as [Hn|Hn].
  - rewrite <- (take_drop n fs), inbound_run_app in E.
    pose proof (length_inbound_run b peer (take n fs)) as Hl. destruct (inbound_run b peer (take n fs)) as [c1 r1].
    destruct (inbound_run b c1 (drop n fs)) as [c2 r2]. exists c1. injection E as _ <-. cbn in Hl.
    rewrite length_take_le in Hl by done. by rewrite <- Hl, take_app_length.
  - pose proof (length_inbound_run b peer fs) as Hl. rewrite E in Hl. cbn in Hl.
    rewrite (take_ge fs), (take_ge rs) by lia. eauto.
Qed.

(** What a prefix of a list of frames holds is a prefix of what the list holds. *)
Lemma take_prefix_of {A} n (l k : list A) : l `prefix_of` k -> (n <= length l)%nat -> take n l = take n k.
Proof. intros [x ->] Hn. by rewrite take_app_le. Qed.

(** The frames that the writer takes out are the first of those the transform made, and none of
    them can be discarded or cut short. *)
Lemma received_transformed (c : ConnectionContext D T) evs (sys : System (Q := Q)) :
  reachable c evs sys -> payload_transform c <> None ->
  (sm_msg <$> received evs) `prefix_of` (transformed evs).*2 /\ Forall (fun s => control s = None) (received evs).
Proof.
  intros Hr Hc. destruct (pipeline_reachable_inv _ _ _ Hr) as (_ & _ & Hq & (Hrec & _) & Hctl & _).
  apply prefix_app_l in Hrec as [rest He]. split.
  - unfold inv_queue in Hq. rewrite Hq, He, fmap_app, <- app_assoc. by apply prefix_app_r.
  - destruct (Hctl Hc) as (_ & _ & Hf). rewrite He in Hf. by apply Forall_app in Hf as [? _].
Qed.

(** C7: on a connection with a payload transform, whatever the calls of [transform_send] do, the
    bytes that the writer task puts on the socket are read and decoded by a peer in step to exactly
    the messages that went through the transform, in that order and each as it was sent, as many as
    the writer wrote whole. A writer that has not failed has written every frame it took from the
    channel and leaves no byte over; one that has failed leaves, after those, at most the bytes of
    the next frame of the channel. *)
Theorem secure_wire (b : bool) (c peer : ConnectionContext D T) (evs : list Event) (sys : System (Q := Q))
    (ds queue : list (Delivery W)) (s s' : W * Vec) (answers : list (chan_id * Result unit))
    (r : Result unit) (rd : R) :
  reachable c evs sys -> ctx_in_step in_step c peer -> payload_transform c <> None ->
  Forall (fun m => wf_header (header m)) (transformed evs).*1 ->
  d_msg <$> ds = received evs -> run_writer ds s = (s', answers, queue, r) ->
  sent s'.1 = sent s.1 ++ source rd ->
  exists (k : nat) (rd' : R) (peer' : ConnectionContext D T) (fs : list GenMessage),
    read_frames k rd = (rd', Ok fs) /\
    inbound_run b peer fs = (peer', Ok <$> take k (transformed evs).*1) /\
    match r with
    | Ok _ => k = length (received evs) /\ source rd' = []
    | Err _ => exists d, ds !! k = Some d /\ source rd' `prefix_of` frame_bytes (sm_msg (d_msg d))
    end.
Proof.
  intros Hr Hp Hc Hwf Hds Hw Hsrc.
  destruct (received_transformed _ _ _ Hr Hc) as [Hpre Hctl].
  destruct (pipeline_reachable_inv _ _ _ Hr) as (_ & _ & _ & _ & _ & Hrep).
  destruct (Hrep in_step _ b peer Hp) as (peer1 & Hin & _).
  rewrite <- Hds, Forall_fmap in Hctl. apply run_writer_uncontrolled in Hw as (k & p & Hs & Hres); [|done].
  rewrite Hs in Hsrc. apply app_inv_head in Hsrc. symmetry in Hsrc.
  rewrite list_fmap_compose, Hds in Hsrc.
  assert (k <= length (sm_msg <$> received evs))%nat as Hk.
  { rewrite length_fmap, <- Hds, length_fmap. destruct r as [u|e]; [by destruct Hres as [-> _]|].
    destruct Hres as (d & Hd%lookup_lt_Some & _). lia. }
  rewrite (take_prefix_of _ _ _ Hpre Hk) in Hsrc.
  assert (Forall wf_frame (take k (transformed evs).*2)) as Hfs.
  { apply Forall_take, Forall_fmap. pose proof (transformed_becomes _ _ _ _ Hr Hp) as Hb.
    rewrite Forall_fmap in Hwf. apply (Forall_impl _ _ _ (proj2 (Forall_and _ _) (conj Hb Hwf))).
    intros [m f] [Hm Hh]. by eapply becomes_wf. }
  destruct (read_frames_exact _ rd p Hfs Hsrc) as (rd' & Erd & Hrest).
  destruct (inbound_run_take b peer peer1 _ _ k Hin) as (peer' & Epeer).
  rewrite length_take_le in Erd by (etrans; [exact Hk|by apply prefix_length]).
  exists k, rd', peer', (take k (transformed evs).*2). rewrite fmap_take. split_and!; [done|done|].
  rewrite Hrest. destruct r as [u|e]; [|exact Hres]. destruct Hres as [-> ->]. by rewrite <- Hds, length_fmap.
Qed.
End SecureWire.

Section Witness.
Local Instance wire_texts : Texts :=
  {| status_debug := fun _ => ""; nix_display := pretty; nix_debug := pretty;
     tokio_send_error := "channel closed" |}.

(** Two callers, the second of which transforms first; the writer then takes out both frames. *)
Definition wire_schedule : list Action := ex_schedule ++ [DoWriter].

Definition wire_start : MemWriter * Vec := (MkMemWriter [] 0, Vec_new).
Definition wire_deliveries (evs : list Event) : list (Delivery MemWriter) :=
  (fun s => MkDelivery s true 0 WriteFirst) <$> received evs.

Lemma secure_wire_witness :
  exists evs sys s' answers rd' peer' fs,
    exec_all (Q := ListChan) wire_schedule [] (initial (ex_ctx 0 0)) = Some (evs, sys) /\
    run_writer (wire_deliveries evs) wire_start = (s', answers, [], Ok tt) /\
    read_frames 2 (MkMemReader (sent s'.1)) = (rd', Ok fs) /\
    inbound_run false (ex_ctx 100 0) fs =
      (peer', Ok <$> [gen_new_data 1 [Byte.x02]; gen_new_data 1 [Byte.x01]]).
Proof.
  destruct (exec_all (Q := ListChan) wire_schedule [] (initial (ex_ctx 0 0))) as [[evs sys]|] eqn:E.
  2: { exfalso. revert E. vm_compute. discriminate. }
  assert (reachable (ex_ctx 0 0) evs sys) as Hr by (eapply pipeline_exec_reachable; [apply ReachInit|exact E]).
  assert ((transformed evs).*1 = [gen_new_data 1 [Byte.x02]; gen_new_data 1 [Byte.x01]] /\
    length (received evs) = 2%nat /\
    (run_writer (wire_deliveries evs) wire_start).1.2 = [] /\
    (run_writer (wire_deliveries evs) wire_start).2 = Ok tt) as (Ht & Hl & Hq & Ho).
  { clear Hr. vm_compute in E. injection E as <- <-. by vm_compute. }
  destruct (run_writer (wire_deliveries evs) wire_start) as [[[s' answers] queue] r] eqn:Ew. cbn in Hq, Ho. subst queue r.
  destruct (secure_wire nonce_in_step false (ex_ctx 0 0) (ex_ctx 100 0) evs sys (wire_deliveries evs) []
    wire_start s' answers (Ok tt) (MkMemReader (sent s'.1)) Hr) as (k & rd' & peer' & fs & Erd & Ei & -> & _);
    [clear; by vm_compute|done|rewrite Ht; by repeat constructor| |exact Ew|done|].
  { unfold wire_deliveries. rewrite <- list_fmap_compose. by apply list_fmap_id. }
  rewrite Hl in Erd, Ei. rewrite Ht in Ei. exists evs, sys, s', answers, rd', peer', fs.
  split_and!; [reflexivity|exact Ew|exact Erd|exact Ei].
Defined.
End Witness.
