(* ===== verification/AsyncClient.v ===== *)
(** The asynchronous client (src/src/asynchronous/client.rs): unary and streaming calls, the
    registry of pending streams with its guard, and the reader that routes incoming frames. *)
From S2P Require Import Prelude Errors Wire Codec Frame Channel Extension Stream Connection.

Section AsyncClient.
Context {D T : Type} {Q : Type -> Type} `{PayloadTransform T, Mpsc Q, Texts}.
Context `{Codec Request} `{Codec Response}.

(** What the clones of a [Client] and its reader share: the id counter, the registry
    ([ClientStreams]), and the mailboxes that registry entries and callers refer to. *)
Record Conn := MkConn {
  next_stream_id : Z;
  streams : gmap Z chan_id;
  boxes : gmap chan_id (Q (Result GenMessage));
  next_chan : chan_id;
  conn_ctx : ConnectionContext D T }.

Definition set_streams (c : Conn) (s : gmap Z chan_id) : Conn :=
  MkConn (next_stream_id c) s (boxes c) (next_chan c) (conn_ctx c).
Definition set_boxes (c : Conn) (b : gmap chan_id (Q (Result GenMessage))) : Conn :=
  MkConn (next_stream_id c) (streams c) b (next_chan c) (conn_ctx c).
Definition set_ctx (c : Conn) (x : ConnectionContext D T) : Conn :=
  MkConn (next_stream_id c) (streams c) (boxes c) (next_chan c) x.

(** The state [new_inner] builds. *)
Definition new_conn (x : ConnectionContext D T) : Conn := MkConn 1 ∅ ∅ 0 x.

(** [new_inner]: the connect hook, by the descriptor it is given. *)
Definition new_inner (data_default : D) (raw_fd : option Z) (hook : option (Hook D T))
  : Result Conn :=
  match hook with
  | Some h =>
      match raw_fd with
      | Some fd =>
          match h fd with
          | Ok output => Ok (new_conn (context_new data_default (Some output)))
          | Err e => Err (Others ("client connect hook failed (fd=" +:+ pretty fd +:+ "): " +:+
                                  hook_error_display e))
          end
      | None => Err (Others "client connect hook configured but socket has no raw fd; construct the Socket via Socket::connect or Socket::from(<platform stream>)")
      end
  | None => Ok (new_conn (context_new data_default None))
  end.

(** ** The registry and the mailboxes *)

(** [next_stream_id.fetch_add(2)]. *)
Definition fetch_add_2 : st Conn Error Z := fun c =>
  (MkConn (as_u32 (next_stream_id c + 2)) (streams c) (boxes c) (next_chan c) (conn_ctx c),
   Ok (next_stream_id c)).

(** [mpsc::unbounded_channel()]. *)
Definition unbounded_channel : st Conn Error chan_id := fun c =>
  (MkConn (next_stream_id c) (streams c) (<[next_chan c := mpsc_channel]> (boxes c))
          (S (next_chan c)) (conn_ctx c), Ok (next_chan c)).

Definition register (id : Z) (ch : chan_id) : st Conn Error unit :=
  st_modify (fun c => set_streams c (<[id := ch]> (streams c))).
(** [streams.remove(&id)], also the effect of dropping an active [StreamRegistrationGuard] and of
    dropping a [StreamReceiver]. *)
Definition unregister (id : Z) (c : Conn) : Conn := set_streams c (delete id (streams c)).

(** Sending to, polling, and dropping the receiver of a mailbox. *)
Definition box_send (ch : chan_id) (v : Result GenMessage) (c : Conn) : Conn * bool :=
  match boxes c !! ch with
  | Some q => let '(q', ok) := mpsc_send v q in (set_boxes c (<[ch := q']> (boxes c)), ok)
  | None => (c, false)
  end.
Definition box_recv (ch : chan_id) (c : Conn) : Conn * option (Result GenMessage) :=
  match boxes c !! ch with
  | Some q => let '(q', o) := mpsc_recv q in (set_boxes c (<[ch := q']> (boxes c)), o)
  | None => (c, None)
  end.
Definition box_drop (ch : chan_id) (c : Conn) : Conn :=
  set_boxes c (alter mpsc_drop_rx ch (boxes c)).

(** ** Calls *)

(** A call that has been registered. *)
Record Call := MkCall {
  c_id : Z;
  c_chan : chan_id;
  c_msg : GenMessage;
  c_control : option MessageControl }.

(** [timeout_nano as u64] added to the current instant. *)
Definition request_deadline (now timeout_nano : Z) : option Z :=
  if decide (timeout_nano = 0) then None else Some (now + as_u64 timeout_nano).

(** The frame of a request: [Message::new_request], its encoding, and the size check. *)
Definition request_frame (id : Z) (req : Request) : Result GenMessage :=
  m ← message_new_request id req;
  g ← map_err Others (gen_try_from m);
  _ ← check_oversize (len (payload g)) false;
  mret g.

(** [Client::request] up to its first await: the id is taken, the frame built, the mailbox
    registered. *)
Definition request_begin (now : Z) (req : Request) : st Conn Error Call :=
  let deadline := request_deadline now (timeout_nano req) in
  id ← fetch_add_2;
  msg ← st_lift (request_frame id req);
  ch ← unbounded_channel;
  _ ← register id ch;
  mret (MkCall id ch msg (Some (MkControl deadline ch))).

(** [Client::new_stream] up to its first await. *)
Definition new_stream_begin (req : Request) (streaming_client : bool) : st Conn Error Call :=
  id ← fetch_add_2;
  let is_req_payload_empty := bool_decide (req_payload req = []) in
  msg ← st_lift (request_frame id req);
  msg ← st_lift
    (if streaming_client then
       if negb is_req_payload_empty then
         Err (get_rpc_status INVALID_ARGUMENT "Creating a ClientStream and sending payload at the same time is not allowed")
       else Ok (MkGen (add_flags (header msg) (Z.lor FLAG_REMOTE_OPEN FLAG_NO_DATA)) (payload msg))
     else Ok (MkGen (add_flags (header msg) FLAG_REMOTE_CLOSED) (payload msg)));
  ch ← unbounded_channel;
  _ ← register id ch;
  mret (MkCall id ch msg None).

(** The call is abandoned while its guard is active: the send failed, the deadline elapsed, the
    mailbox closed, or the future was dropped. *)
Definition abandon (k : Call) (c : Conn) : Conn := box_drop (c_chan k) (unregister (c_id k) c).

(** The end of [Client::request] after a result has arrived: the guard is disarmed. *)
Definition request_result (result : Result GenMessage) : Result Response :=
  msg ← result;
  res ← map_err (err_to_others_err "Unpack response error ") (codec_decode (payload msg));
  match non_ok res with
  | Some status => Err (RpcStatus status)
  | None => Ok res
  end.

(** The wait of [Client::request]: what [rx.recv()] under the deadline has come to. *)
Definition request_finish (k : Call) (w : Awaited (option (Result GenMessage))) (c : Conn)
  : option (Conn * Result Response) :=
  r ← timeout_at (c_control k ≫= deadline) w;
  Some (match r with
        | Err e => (abandon k c, Err e)
        | Ok None => (abandon k c, Err RemoteClosed)
        | Ok (Some result) => (box_drop (c_chan k) c, request_result result)
        end).

(** The stream handed out by [new_stream]; its mailbox is the call's. *)
Definition new_stream_finish (k : Call) (streaming_client streaming_server : bool) (c : Conn)
  : option (StreamInner Q) :=
  q ← boxes c !! c_chan k;
  Some (stream_new_client (c_id k) q streaming_client streaming_server).

(** ** The reader *)

Definition send_result (id : Z) (ch : chan_id) (result : Result GenMessage) (c : Conn) : Conn :=
  match box_send ch result c with
  | (c', true) => c'
  | (c', false) => unregister id c'
  end.

Definition fail_stream (id : Z) (e : Error) (c : Conn) : Conn :=
  match streams c !! id with
  | Some ch => send_result id ch (Err e) (unregister id c)
  | None => c
  end.

Definition get_resp_tx (h : MessageHeader) (c : Conn) : Conn * option chan_id :=
  if decide (type_ h = MESSAGE_TYPE_RESPONSE) then
    (unregister (stream_id h) c, streams c !! stream_id h)
  else if decide (type_ h = MESSAGE_TYPE_DATA) then
    if has_flag h FLAG_REMOTE_CLOSED then (unregister (stream_id h) c, streams c !! stream_id h)
    else (c, streams c !! stream_id h)
  else (fail_stream (stream_id h)
          (Others ("Receiver got malformed packet " +:+ header_debug h)) c, None).

(** [ReaderDelegate::handle_msg]: the inbound transform, then the routing. *)
Definition handle_msg (msg : GenMessage) (c : Conn) : Conn :=
  let id := stream_id (header msg) in
  let '((x', msg), r) := inbound false (conn_ctx c, msg) in
  let c := set_ctx c x' in
  match r with
  | Err e => fail_stream id e c
  | Ok _ =>
      match get_resp_tx (header msg) c with
      | (c, Some ch) => send_result id ch (Ok msg) c
      | (c, None) => c
      end
  end.

Definition handle_err (h : MessageHeader) (e : Error) (c : Conn) : Conn :=
  fail_stream (stream_id h) e c.

(** [disconnect]: the registry is taken, and every mailbox in it is sent the error; [order] is the
    order in which the drained map yields its entries. *)
Definition disconnect (order : list (Z * chan_id)) (e : Error) (c : Conn) : Conn :=
  foldl (fun c '(_, ch) => (box_send ch (Err e) c).1) (set_streams c ∅) order.

(** [impl ReaderDelegate for ClientReader]. *)
#[global] Instance client_reader : ReaderDelegate Conn := {
  rd_disconnect := fun e c => disconnect (map_to_list (streams c)) e c;
  rd_exit := fun c => c;
  rd_handle_msg := handle_msg;
  rd_handle_err := handle_err }.

(** ** Interleavings

    Calls by their mailboxes, at the awaits of [request] and [new_stream]: in [transform_send],
    waiting for the answer, or owning the stream that was returned. *)
Inductive CallKind := Unary | Streaming.
Inductive CallState := Sending | Waiting.

Record System := MkSystem {
  conn : Conn;
  calls : gmap chan_id (Call * CallKind * CallState) }.

(** Observations: a stream id was taken, a call was registered, a result was taken out of a
    mailbox. *)
Inductive Event :=
  | EvTake (id : Z)
  | EvOpen (ch : chan_id) (id : Z)
  | EvAnswer (ch : chan_id) (v : Result GenMessage).

Inductive step : System -> list Event -> System -> Prop :=
  | StepRequest s now req c' k :
      request_begin now req (conn s) = (c', Ok k) ->
      step s [EvTake (c_id k); EvOpen (c_chan k) (c_id k)]
        (MkSystem c' (<[c_chan k := (k, Unary, Sending)]> (calls s)))
  | StepNewStream s req sc c' k :
      new_stream_begin req sc (conn s) = (c', Ok k) ->
      step s [EvTake (c_id k); EvOpen (c_chan k) (c_id k)]
        (MkSystem c' (<[c_chan k := (k, Streaming, Sending)]> (calls s)))
  | StepBeginError s now req sc c' e :
      request_begin now req (conn s) = (c', Err e) \/ new_stream_begin req sc (conn s) = (c', Err e) ->
      step s [EvTake (next_stream_id (conn s))] (MkSystem c' (calls s))
  | StepSent s ch k kd :  (* [transform_send] returned Ok *)
      calls s !! ch = Some (k, kd, Sending) ->
      step s [] (MkSystem (conn s) (<[ch := (k, kd, Waiting)]> (calls s)))
  | StepAbandon s ch k kd st :
      (* the send failed, the deadline elapsed, the mailbox closed, the future was dropped, or the
         stream was dropped *)
      calls s !! ch = Some (k, kd, st) ->
      step s [] (MkSystem (abandon k (conn s)) (delete ch (calls s)))
  | StepAnswered s ch k c1 v c2 r :  (* a unary call takes its result and returns *)
      calls s !! ch = Some (k, Unary, Waiting) -> box_recv ch (conn s) = (c1, Some v) ->
      request_finish k (Ready (Some v)) c1 = Some (c2, r) ->
      step s [EvAnswer ch v] (MkSystem c2 (delete ch (calls s)))
  | StepStreamRecv s ch k c1 v :
      calls s !! ch = Some (k, Streaming, Waiting) -> box_recv ch (conn s) = (c1, Some v) ->
      step s [EvAnswer ch v] (MkSystem c1 (calls s))
  | StepFrame s msg :
      step s [] (MkSystem (handle_msg msg (conn s)) (calls s))
  | StepFrameError s h e :
      step s [] (MkSystem (handle_err h e (conn s)) (calls s))
  | StepDisconnect s order e :
      order ≡ₚ map_to_list (streams (conn s)) ->
      step s [] (MkSystem (disconnect order e (conn s)) (calls s)).

Inductive reachable (x : ConnectionContext D T) : list Event -> System -> Prop :=
  | ReachInit : reachable x [] (MkSystem (new_conn x) ∅)
  | ReachStep evs s evs' s' :
      reachable x evs s -> step s evs' s' -> reachable x (evs ++ evs') s'.

(** ** What the reader does, in one operation *)

(** Results that leave the stream registered: DATA messages without the closing flag. *)
Definition keeps (v : Result GenMessage) : bool :=
  match v with
  | Ok m => bool_decide (type_ (header m) = MESSAGE_TYPE_DATA) && negb (has_flag (header m) FLAG_REMOTE_CLOSED)
  | Err _ => false
  end.

(** Delivers a result to the stream [id], unregistering it when the result is terminal. *)
Definition route (id : Z) (v : Result GenMessage) (c : Conn) : Conn :=
  match streams c !! id with
  | Some ch => send_result id ch v (if keeps v then c else unregister id c)
  | None => c
  end.

Lemma unregister_absent id c : streams c !! id = None -> unregister id c = c.
Proof. intros Hid. unfold unregister, set_streams. rewrite delete_id by done. by destruct c. Qed.

Lemma fail_stream_route id e c : fail_stream id e c = route id (Err e) c.
Proof. done. Qed.

(** A frame is delivered, as the inbound pipeline leaves it, or an error in its place, to its own
    stream. *)
Lemma handle_msg_route_inbound msg c :
  exists x' m' v, (inbound false (conn_ctx c, msg)).1 = (x', m') /\
    handle_msg msg c = route (stream_id (header msg)) v (set_ctx c x') /\
    forall m, v = Ok m -> m = m' /\ stream_id (header m) = stream_id (header msg).
Proof.
  unfold handle_msg. destruct (inbound false (conn_ctx c, msg)) as [[x' m] r] eqn:Ei.
  destruct (inbound_routing _ _ _ _ _ _ Ei) as (Hid & Hty & Hfl). exists x', m.
  destruct r as [[]|e]; [|by exists (Err e)].
  unfold get_resp_tx. change MESSAGE_TYPE_RESPONSE with 2. change MESSAGE_TYPE_DATA with 3. rewrite Hid.
  destruct (decide (type_ (header m) = 2)) as [Ht2|Ht2].
  { exists (Ok m). split_and!; [done| |by intros ? [= <-]]. unfold route, keeps.
    change MESSAGE_TYPE_DATA with 3. rewrite bool_decide_eq_false_2 by lia. cbn [andb].
    destruct (streams (set_ctx c x') !! stream_id (header msg)) eqn:Es; [done|].
    by apply unregister_absent. }
  destruct (decide (type_ (header m) = 3)) as [Ht3|Ht3].
  2: { eexists. split_and!; [done|by rewrite <- fail_stream_route|done]. }
  exists (Ok m). split_and!; [done| |by intros ? [= <-]]. unfold route, keeps.
  change MESSAGE_TYPE_DATA with 3. rewrite bool_decide_eq_true_2 by lia. cbn [andb].
  destruct (has_flag (header m) FLAG_REMOTE_CLOSED); cbn [negb];
    destruct (streams (set_ctx c x') !! stream_id (header msg)) eqn:Es; try done.
  by apply unregister_absent.
Qed.

(** A frame changes the context and delivers at most one result, to its own stream. *)
Lemma handle_msg_route msg c :
  exists x' v, handle_msg msg c = route (stream_id (header msg)) v (set_ctx c x') /\
    forall m, v = Ok m -> stream_id (header m) = stream_id (header msg).
Proof.
  destruct (handle_msg_route_inbound msg c) as (x & m' & v & _ & E & Hv). exists x, v.
  split; [done|]. intros m Em. by apply Hv.
Qed.

(** ** The invariant *)

Definition taken (evs : list Event) : nat :=
  length (omap (fun e => match e with EvTake id => Some id | _ => None end) evs).
Definition opened (evs : list Event) (ch : chan_id) (id : Z) : Prop := EvOpen ch id ∈ evs.

(** So few ids taken that the counter has not wrapped. *)
Definition unwrapped (evs : list Event) : Prop := Z.of_nat (taken evs) <= U32 / 2.

(** The call of mailbox [ch] has been sent a terminal result. *)
Definition answered (evs : list Event) (ch : chan_id) (c : Conn) : Prop :=
  (exists q v, boxes c !! ch = Some q /\ v ∈ mpsc_items q /\ keeps v = false) \/
  (exists v, EvAnswer ch v ∈ evs /\ keeps v = false).

Record inv (evs : list Event) (cs : gmap chan_id (Call * CallKind * CallState)) (c : Conn) : Prop := {
  inv_next : next_stream_id c = nth_id (taken evs);
  inv_opened ch id : opened evs ch id ->
    (ch < next_chan c)%nat /\ exists i, (i < taken evs)%nat /\ id = nth_id i;
  inv_fun ch id id' : opened evs ch id -> opened evs ch id' -> id = id';
  inv_inj ch ch' id : unwrapped evs -> opened evs ch id -> opened evs ch' id -> ch = ch';
  inv_streams id ch : streams c !! id = Some ch -> opened evs ch id;
  inv_box ch q m : boxes c !! ch = Some q -> Ok m ∈ mpsc_items q -> opened evs ch (stream_id (header m));
  inv_terminal ch q v id : boxes c !! ch = Some q -> v ∈ mpsc_items q -> keeps v = false ->
    streams c !! id <> Some ch;
  inv_call ch k kd st : cs !! ch = Some (k, kd, st) ->
    c_chan k = ch /\ opened evs ch (c_id k) /\ exists q, boxes c !! ch = Some q /\ mpsc_open q = true;
  inv_leak id ch : streams c !! id = Some ch ->
    is_Some (cs !! ch) \/ exists m, EvAnswer ch (Ok m) ∈ evs /\ keeps (Ok m) = true;
  inv_pending ch k kd st : unwrapped evs -> cs !! ch = Some (k, kd, st) ->
    streams c !! c_id k = Some ch \/ answered evs ch c }.

Lemma inv_set_ctx evs cs c x : inv evs cs c -> inv evs cs (set_ctx c x).
Proof. by intros []. Qed.

Context `{!MpscLaws Q}.

Lemma box_send_spec (ch : chan_id) v (c : Conn) q :
  boxes c !! ch = Some q ->
  exists q', box_send ch v c = (set_boxes c (<[ch := q']> (boxes c)), mpsc_open q) /\
    mpsc_open q' = mpsc_open q /\
    mpsc_items q' = if mpsc_open q then mpsc_items q ++ [v] else mpsc_items q.
Proof.
  intros Hq. unfold box_send. rewrite Hq. destruct (mpsc_send v q) as [q' ok] eqn:E.
  apply mpsc_send_spec in E as (-> & Ho & Hi). by exists q'.
Qed.

(** Delivery, by cases: to an open mailbox, or to one that is gone. *)
Lemma route_spec id v c ch :
  streams c !! id = Some ch ->
  (exists q q', boxes c !! ch = Some q /\ mpsc_open q = true /\ mpsc_open q' = true /\
     mpsc_items q' = mpsc_items q ++ [v] /\
     route id v c = MkConn (next_stream_id c) (if keeps v then streams c else delete id (streams c))
                      (<[ch := q']> (boxes c)) (next_chan c) (conn_ctx c)) \/
  (exists b, (forall q, boxes c !! ch = Some q -> mpsc_open q = false) /\
     (forall ch' q', b !! ch' = Some q' -> exists q, boxes c !! ch' = Some q /\
        mpsc_items q' = mpsc_items q /\ mpsc_open q' = mpsc_open q) /\
     (forall ch' q, boxes c !! ch' = Some q -> exists q', b !! ch' = Some q' /\
        mpsc_items q' = mpsc_items q /\ mpsc_open q' = mpsc_open q) /\
     route id v c = MkConn (next_stream_id c) (delete id (streams c)) b (next_chan c) (conn_ctx c)).
Proof.
  intros Hs. unfold route, send_result. rewrite Hs.
  assert (boxes (if keeps v then c else unregister id c) = boxes c) as Hb by (by destruct (keeps v)).
  destruct (boxes c !! ch) as [q|] eqn:Hq.
  - destruct (box_send_spec ch v (if keeps v then c else unregister id c) q) as (q' & -> & Ho & Hi).
    { by rewrite Hb. }
    rewrite Hb. destruct (mpsc_open q) eqn:Eo.
    + left. exists q, q'. split_and!; try done. by destruct (keeps v).
    + right. exists (<[ch := q']> (boxes c)). split_and!.
      * by intros ? [= <-].
      * intros ch' q1 [[<- <-]|[_ Hl]]%lookup_insert_Some; [|by eauto].
        exists q. split_and!; [done|done|congruence].
      * intros ch' q1 Hl. destruct (decide (ch = ch')) as [<-|Hne].
        -- exists q'. rewrite lookup_insert_eq. assert (q1 = q) as -> by congruence.
           split_and!; [done|done|congruence].
        -- exists q1. by rewrite lookup_insert_ne.
      * destruct (keeps v); unfold unregister, set_streams, set_boxes; cbn; [done|].
        by rewrite delete_delete_eq.
  - right. unfold box_send. rewrite Hb, Hq. exists (boxes c). split_and!; [done|by eauto|by eauto|].
    destruct (keeps v); unfold unregister, set_streams; cbn; [by destruct c|].
    by rewrite delete_delete_eq.
Qed.

Lemma route_none id v c : streams c !! id = None -> route id v c = c.
Proof. unfold route. by intros ->. Qed.

(** A result that reaches an open mailbox. *)
Lemma inv_push evs cs c id v ch q q' :
  inv evs cs c -> (forall m, v = Ok m -> stream_id (header m) = id) ->
  streams c !! id = Some ch -> boxes c !! ch = Some q -> mpsc_open q' = true ->
  mpsc_items q' = mpsc_items q ++ [v] ->
  inv evs cs (MkConn (next_stream_id c) (if keeps v then streams c else delete id (streams c))
                (<[ch := q']> (boxes c)) (next_chan c) (conn_ctx c)).
Proof.
  intros [I1 I2 I3 I4 I5 I6 I7 I8 I9 I10] Hv Hs Hq Ho' Hit.
  assert (opened evs ch id) as Hop by (by apply I5).
  assert (forall id', streams c !! id' = Some ch -> id' = id) as Huniq by (intros; eapply I3; eauto).
  split; cbn; try done.
  - intros id' ch'. destruct (keeps v); [apply I5|]. intros [_ Hl]%lookup_delete_Some. by apply I5.
  - intros ch' q1 m [[<- <-]|[_ Hl]]%lookup_insert_Some Hm; [|by eauto].
    rewrite Hit in Hm. apply elem_of_app in Hm as [Hm|Hm]; [by eauto|].
    apply list_elem_of_singleton in Hm. by rewrite (Hv m).
  - intros ch' q1 v1 id' [[<- <-]|[_ Hl]]%lookup_insert_Some Hm Hk Hst.
    + assert (streams c !! id' = Some ch) as Hst'.
      { destruct (keeps v); [done|]. by apply lookup_delete_Some in Hst as [_ ?]. }
      rewrite Hit in Hm. apply elem_of_app in Hm as [Hm|Hm]; [by eapply I7|].
      apply list_elem_of_singleton in Hm. subst v1. rewrite Hk in Hst.
      apply lookup_delete_Some in Hst as [Hne _]. by apply Hne, eq_sym, Huniq.
    + eapply (I7 ch' q1 v1 id'); [done..|]. destruct (keeps v); [done|].
      by apply lookup_delete_Some in Hst as [_ ?].
  - intros ch' k kd st Hc. destruct (I8 _ _ _ _ Hc) as (? & ? & q0 & Hq0 & Ho0).
    split_and!; [done|done|]. destruct (decide (ch = ch')) as [<-|Hne].
    + exists q'. by rewrite lookup_insert_eq.
    + exists q0. by rewrite lookup_insert_ne.
  - intros id' ch' Hst. apply (I9 id'). destruct (keeps v); [done|]. by apply lookup_delete_Some in Hst as [_ ?].
  - intros ch' k kd st Hun Hc. unfold answered; cbn.
    assert (answered evs ch' c -> (exists q0 v0, <[ch:=q']> (boxes c) !! ch' = Some q0 /\
      v0 ∈ mpsc_items q0 /\ keeps v0 = false) \/ (exists v0, EvAnswer ch' v0 ∈ evs /\ keeps v0 = false)) as Hans.
    { intros [(q0 & v0 & Hq0 & Hin & Hk)|?]; [left|by right].
      destruct (decide (ch = ch')) as [<-|Hne].
      - exists q', v0. rewrite lookup_insert_eq, Hit. assert (q0 = q) as -> by congruence.
        split_and!; [done|apply elem_of_app; by left|done].
      - exists q0, v0. by rewrite lookup_insert_ne. }
    destruct (I10 _ _ _ _ Hun Hc) as [Hr|Ha]; [|right; by apply Hans].
    destruct (keeps v) eqn:Hk; [by left|].
    destruct (decide (c_id k = id)) as [Hid|Hid].
    + right. left. assert (ch' = ch) as -> by congruence. exists q', v.
      rewrite lookup_insert_eq, Hit. split_and!; [done|apply elem_of_app; right; by constructor|done].
    + left. by rewrite lookup_delete_ne.
Qed.

(** A stream that is dropped from the registry because its mailbox is gone. *)
Lemma inv_forget evs cs c id ch b :
  inv evs cs c -> streams c !! id = Some ch ->
  (forall q, boxes c !! ch = Some q -> mpsc_open q = false) ->
  (forall ch' q', b !! ch' = Some q' -> exists q, boxes c !! ch' = Some q /\
     mpsc_items q' = mpsc_items q /\ mpsc_open q' = mpsc_open q) ->
  (forall ch' q, boxes c !! ch' = Some q -> exists q', b !! ch' = Some q' /\
     mpsc_items q' = mpsc_items q /\ mpsc_open q' = mpsc_open q) ->
  inv evs cs (MkConn (next_stream_id c) (delete id (streams c)) b (next_chan c) (conn_ctx c)).
Proof.
  intros [I1 I2 I3 I4 I5 I6 I7 I8 I9 I10] Hs Hcl Hb1 Hb2. split; cbn; try done.
  - intros id' ch' [_ Hl]%lookup_delete_Some. by apply I5.
  - intros ch' q1 m Hl Hm. destruct (Hb1 _ _ Hl) as (q0 & Hq0 & Hi0 & _). rewrite Hi0 in Hm. by eauto.
  - intros ch' q1 v1 id' Hl Hm Hk [_ Hst]%lookup_delete_Some.
    destruct (Hb1 _ _ Hl) as (q0 & Hq0 & Hi0 & _). rewrite Hi0 in Hm. by eapply I7.
  - intros ch' k kd st Hc. destruct (I8 _ _ _ _ Hc) as (? & ? & q0 & Hq0 & Ho0).
    split_and!; [done|done|]. destruct (Hb2 _ _ Hq0) as (q1 & ? & _ & Ho1). exists q1. by rewrite Ho1.
  - intros id' ch' [_ Hst]%lookup_delete_Some. by apply (I9 id').
  - intros ch' k kd st Hun Hc. unfold answered; cbn.
    destruct (I10 _ _ _ _ Hun Hc) as [Hr|[(q0 & v0 & Hq0 & Hin & Hk)|?]].
    + destruct (decide (c_id k = id)) as [Hid|Hid]; [|left; by rewrite lookup_delete_ne].
      destruct (I8 _ _ _ _ Hc) as (_ & _ & q0 & Hq0 & Ho0).
      assert (ch' = ch) as -> by congruence. rewrite (Hcl _ Hq0) in Ho0. done.
    + right; left. destruct (Hb2 _ _ Hq0) as (q1 & ? & Hi1 & _). exists q1, v0. by rewrite Hi1.
    + by right; right.
Qed.

Lemma route_inv evs cs c id v :
  inv evs cs c -> (forall m, v = Ok m -> stream_id (header m) = id) -> inv evs cs (route id v c).
Proof.
  intros Hi Hv. destruct (streams c !! id) as [ch|] eqn:Hs; [|by rewrite route_none].
  destruct (route_spec id v c ch Hs) as [(q & q' & Hq & Ho & Ho' & Hit & ->)|(b & Hcl & Hb1 & Hb2 & ->)].
  - by eapply inv_push.
  - by eapply inv_forget.
Qed.

(** ** The remaining operations *)

Lemma opened_app evs evs' ch id : opened (evs ++ evs') ch id <-> opened evs ch id \/ EvOpen ch id ∈ evs'.
Proof. unfold opened. by rewrite elem_of_app. Qed.

Lemma opened_other evs e ch id :
  (forall ch id, e <> EvOpen ch id) -> opened (evs ++ [e]) ch id <-> opened evs ch id.
Proof.
  intros He. rewrite opened_app, list_elem_of_singleton. split; [intros [?|E]|by left]; [done|].
  by destruct (He ch id).
Qed.

Lemma taken_app evs evs' : taken (evs ++ evs') = (taken evs + taken evs')%nat.
Proof. unfold taken. by rewrite omap_app, length_app. Qed.

Lemma answered_mono evs evs' ch c c' :
  (forall q v, boxes c !! ch = Some q -> v ∈ mpsc_items q ->
     exists q', boxes c' !! ch = Some q' /\ v ∈ mpsc_items q') ->
  answered evs ch c -> answered (evs ++ evs') ch c'.
Proof.
  intros Hb [(q & v & Hq & Hv & Hk)|(v & Hv & Hk)]; [left|right].
  - destruct (Hb _ _ Hq Hv) as (q' & Hq' & Hv'). by exists q', v.
  - exists v. split; [apply elem_of_app; by left|done].
Qed.

(** The state after a call has been registered. *)
Definition conn_opened (c : Conn) : Conn :=
  MkConn (as_u32 (next_stream_id c + 2)) (<[next_stream_id c := next_chan c]> (streams c))
    (<[next_chan c := mpsc_channel]> (boxes c)) (S (next_chan c)) (conn_ctx c).

Lemma request_begin_spec now req c c' r :
  request_begin now req c = (c', r) ->
  match r with
  | Ok k => c' = conn_opened c /\ c_id k = next_stream_id c /\ c_chan k = next_chan c /\
            request_frame (next_stream_id c) req = Ok (c_msg k)
  | Err e => c' = (fetch_add_2 c).1
  end.
Proof.
  unfold request_begin, fetch_add_2, unbounded_channel, register. munfold. cbn.
  destruct (request_frame (next_stream_id c) req) as [g|e] eqn:E; intros; by simplify_eq/=.
Qed.

Lemma new_stream_begin_spec req sc c c' r :
  new_stream_begin req sc c = (c', r) ->
  match r with
  | Ok k => c' = conn_opened c /\ c_id k = next_stream_id c /\ c_chan k = next_chan c
  | Err e => c' = (fetch_add_2 c).1
  end.
Proof.
  unfold new_stream_begin, fetch_add_2, unbounded_channel, register. munfold. cbn.
  destruct (request_frame (next_stream_id c) req) as [g|e] eqn:E; [|intros; by simplify_eq/=].
  destruct sc; [|intros; by simplify_eq/=].
  destruct (bool_decide _); intros; by simplify_eq/=.
Qed.

Lemma inv_take evs cs c id :
  inv evs cs c -> inv (evs ++ [EvTake id]) cs (fetch_add_2 c).1.
Proof.
  intros [I1 I2 I3 I4 I5 I6 I7 I8 I9 I10].
  assert (forall ch id', opened (evs ++ [EvTake id]) ch id' <-> opened evs ch id') as Hop.
  { intros ch id'. by apply opened_other. }
  assert (taken (evs ++ [EvTake id]) = S (taken evs)) as Ht by (rewrite taken_app; cbn; lia).
  assert (unwrapped (evs ++ [EvTake id]) -> unwrapped evs) as Hun by (unfold unwrapped; rewrite Ht; lia).
  split; cbn.
  - by rewrite Ht, nth_id_S, I1.
  - intros ch id' Ho%Hop. destruct (I2 _ _ Ho) as (? & i & ? & ?). split; [done|]. exists i. split; [lia|done].
  - intros ch id1 id2. rewrite !Hop. apply I3.
  - intros ch ch' id'. rewrite !Hop. eauto.
  - intros id' ch Hs. apply Hop. eauto.
  - intros ch q m Hq Hm. apply Hop. eauto.
  - done.
  - intros ch k kd st Hc. destruct (I8 _ _ _ _ Hc) as (? & ? & ?). rewrite Hop. done.
  - intros id' ch Hs. destruct (I9 _ _ Hs) as [?|(m & Hm & Hk)]; [by left|right].
    exists m. split; [|done]. apply elem_of_app; by left.
  - intros ch k kd st Hu Hc. destruct (I10 _ _ _ _ (Hun Hu) Hc) as [?|Ha]; [by left|right].
    eapply answered_mono; [|exact Ha]. eauto.
Qed.

(** Taking a result out of a mailbox. *)
Lemma inv_pop evs cs c ch q q' v :
  inv evs cs c -> boxes c !! ch = Some q -> mpsc_items q = v :: mpsc_items q' ->
  mpsc_open q' = mpsc_open q ->
  inv (evs ++ [EvAnswer ch v]) cs (set_boxes c (<[ch := q']> (boxes c))).
Proof.
  intros [I1 I2 I3 I4 I5 I6 I7 I8 I9 I10] Hq Hit Ho.
  assert (forall ch0 id', opened (evs ++ [EvAnswer ch v]) ch0 id' <-> opened evs ch0 id') as Hop.
  { intros ch0 id'. by apply opened_other. }
  assert (taken (evs ++ [EvAnswer ch v]) = taken evs) as Ht by (rewrite taken_app; cbn; lia).
  assert (forall x, x ∈ mpsc_items q' -> x ∈ mpsc_items q) as Hsub by (rewrite Hit; by right).
  assert (unwrapped (evs ++ [EvAnswer ch v]) -> unwrapped evs) as Hun by (unfold unwrapped; by rewrite Ht).
  split; cbn.
  - by rewrite Ht.
  - intros ch0 id'. rewrite Hop, Ht. apply I2.
  - intros ch0 id1 id2. rewrite !Hop. apply I3.
  - intros ch0 ch' id' Hu%Hun. rewrite !Hop. by apply I4.
  - intros id' ch0 Hs. apply Hop. eauto.
  - intros ch0 q0 m [[<- <-]|[_ Hl]]%lookup_insert_Some Hm; apply Hop; eauto.
  - intros ch0 q0 v0 id' [[<- <-]|[_ Hl]]%lookup_insert_Some Hm; eauto.
  - intros ch0 k kd st Hc. destruct (I8 _ _ _ _ Hc) as (? & ? & q0 & Hq0 & Ho0). rewrite Hop.
    split_and!; [done|done|]. destruct (decide (ch = ch0)) as [<-|Hne].
    + exists q'. rewrite lookup_insert_eq. split; [done|]. congruence.
    + exists q0. by rewrite lookup_insert_ne.
  - intros id' ch0 Hs. destruct (I9 _ _ Hs) as [?|(m & Hm & Hk)]; [by left|right].
    exists m. split; [|done]. apply elem_of_app; by left.
  - intros ch0 k kd st Hu Hc. destruct (I10 _ _ _ _ (Hun Hu) Hc) as [?|[(q0 & v0 & Hq0 & Hv0 & Hk0)|(v0 & Hv0 & Hk0)]];
      [by left| |right; right; exists v0; split; [apply elem_of_app; by left|done]].
    right. destruct (decide (ch = ch0)) as [<-|Hne].
    + assert (q0 = q) as -> by congruence. rewrite Hit in Hv0. apply elem_of_cons in Hv0 as [->|Hv0].
      * right. exists v. split; [apply elem_of_app; right; by constructor|done].
      * left. exists q', v0. cbn. by rewrite lookup_insert_eq.
    + left. exists q0, v0. cbn. by rewrite lookup_insert_ne.
Qed.

(** Registering a call. *)
Lemma inv_open evs cs c k kd :
  inv evs cs c -> c_id k = next_stream_id c -> c_chan k = next_chan c ->
  inv (evs ++ [EvTake (c_id k); EvOpen (c_chan k) (c_id k)])
    (<[c_chan k := (k, kd, Sending)]> cs) (conn_opened c).
Proof.
  intros Hinv Hid Hch. set (evs' := evs ++ _).
  assert (forall ch id, opened evs' ch id <-> opened evs ch id \/ (ch = next_chan c /\ id = next_stream_id c)) as Hop.
  { intros ch id. unfold evs'. rewrite opened_app, Hid, Hch, !elem_of_cons, elem_of_nil.
    split; [intros [?|[?|[[= -> ->]|[]]]]; by auto|intros [?|[-> ->]]; auto]. }
  assert (taken evs' = S (taken evs)) as Ht by (unfold evs'; rewrite taken_app; cbn; lia).
  assert (forall id, ~ opened evs (next_chan c) id) as Hfresh.
  { intros id (Hlt & _)%(inv_opened _ _ _ Hinv). lia. }
  assert (unwrapped evs' -> forall ch, ~ opened evs ch (next_stream_id c)) as Hnew.
  { unfold unwrapped. rewrite Ht. change (U32 / 2) with 2147483648. intros Hu ch (_ & i & Hi & E)%(inv_opened _ _ _ Hinv).
    rewrite (inv_next _ _ _ Hinv) in E. apply nth_id_inj in E; change (U32 / 2) with 2147483648; lia. }
  assert (unwrapped evs' -> unwrapped evs) as Hun by (unfold unwrapped; rewrite Ht; lia).
  destruct (mpsc_channel_spec (Result GenMessage)) as [Hci Hco].
  destruct Hinv as [I1 I2 I3 I4 I5 I6 I7 I8 I9 I10]. rewrite Hch. split; cbn.
  - by rewrite Ht, nth_id_S, I1.
  - intros ch id [Ho|[-> ->]]%Hop.
    + destruct (I2 _ _ Ho) as (? & i & ? & ?). split; [lia|]. exists i. split; [lia|done].
    + split; [lia|]. exists (taken evs). split; [lia|done].
  - intros ch id id' [Ho|[-> ->]]%Hop [Ho'|[? ->]]%Hop; subst; eauto; by edestruct Hfresh.
  - intros ch ch' id Hu [Ho|[-> E]]%Hop [Ho'|[-> E']]%Hop; subst; eauto; by edestruct Hnew.
  - intros id ch [[<- <-]|[_ Hl]]%lookup_insert_Some; apply Hop; eauto.
  - intros ch q m [[<- <-]|[_ Hl]]%lookup_insert_Some Hm; [by rewrite Hci in Hm; apply elem_of_nil in Hm|].
    apply Hop; eauto.
  - intros ch q v id [[<- <-]|[Hne Hl]]%lookup_insert_Some Hv Hk; [by rewrite Hci in Hv; apply elem_of_nil in Hv|].
    intros [[_ ?]|[_ Hs]]%lookup_insert_Some; [done|]. by eapply I7.
  - intros ch k0 kd0 st [[<- E]|[Hne Hl]]%lookup_insert_Some.
    + simplify_eq. split_and!; [done|apply Hop; rewrite Hid; by right|].
      eexists. by rewrite lookup_insert_eq.
    + destruct (I8 _ _ _ _ Hl) as (? & ? & q & Hq & Ho). split_and!; [done|apply Hop; by left|].
      exists q. by rewrite lookup_insert_ne.
  - intros id ch [[<- <-]|[Hne Hl]]%lookup_insert_Some; [left; by rewrite lookup_insert_eq|].
    destruct (I9 _ _ Hl) as [[x Hx]|(m & Hm & Hk)].
    + left. destruct (decide (next_chan c = ch)) as [<-|?]; [by rewrite lookup_insert_eq|].
      by rewrite lookup_insert_ne.
    + right. exists m. split; [|done]. apply elem_of_app; by left.
  - intros ch k0 kd0 st Hu [[<- E]|[Hne Hl]]%lookup_insert_Some.
    + simplify_eq. left. by rewrite Hid, lookup_insert_eq.
    + destruct (I8 _ _ _ _ Hl) as (_ & Ho & _).
      destruct (I10 _ _ _ _ (Hun Hu) Hl) as [Hs|Ha].
      * left. rewrite lookup_insert_ne; [done|]. intros E. by apply (Hnew Hu ch); rewrite E.
      * right. eapply answered_mono; [|exact Ha]. intros q v Hq Hv. exists q. cbn.
        split; [|done]. rewrite lookup_insert_ne; [done|].
        intros <-. by apply (Hfresh (c_id k0)).
Qed.

(** A call that ends: its mailbox is dropped, and it is unregistered unless it has been
    answered. *)
Lemma inv_end evs cs c ch k kd st s' :
  inv evs cs c -> cs !! ch = Some (k, kd, st) ->
  (s' = streams c /\ forall id, streams c !! id = Some ch ->
     exists m, EvAnswer ch (Ok m) ∈ evs /\ keeps (Ok m) = true) \/ s' = delete (c_id k) (streams c) ->
  inv evs (delete ch cs) (set_boxes (set_streams c s') (alter mpsc_drop_rx ch (boxes c))).
Proof.
  intros Hi Hc Hs'. destruct Hi as [I1 I2 I3 I4 I5 I6 I7 I8 I9 I10].
  destruct (I8 _ _ _ _ Hc) as (Hch & Hop & q & Hq & Ho).
  destruct (mpsc_drop_spec _ q) as [Hdo Hdi].
  assert (forall id ch', s' !! id = Some ch' -> streams c !! id = Some ch') as Hsub.
  { intros id ch' Hl. destruct Hs' as [[-> _]| ->]; [done|]. by apply lookup_delete_Some in Hl as [_ ?]. }
  assert (forall ch' q', alter mpsc_drop_rx ch (boxes c) !! ch' = Some q' ->
    mpsc_items q' = [] \/ (ch <> ch' /\ boxes c !! ch' = Some q')) as Hb.
  { intros ch' q' [(<- & q0 & Hq0 & ->)|[? ?]]%lookup_alter_Some; [left|by right].
    assert (q0 = q) as -> by congruence. done. }
  split; cbn; try done; eauto.
  - intros ch' q' m Hl Hm. destruct (Hb _ _ Hl) as [E|[_ Hl']]; [|by eauto].
    rewrite E in Hm. by apply elem_of_nil in Hm.
  - intros ch' q' v id Hl Hv Hk Hs. destruct (Hb _ _ Hl) as [E|[_ Hl']]; [|by eapply I7; eauto].
    rewrite E in Hv. by apply elem_of_nil in Hv.
  - intros ch' k' kd' st' [Hne Hl]%lookup_delete_Some.
    destruct (I8 _ _ _ _ Hl) as (? & ? & q' & ? & ?). split_and!; [done|done|].
    exists q'. by rewrite lookup_alter_ne.
  - intros id ch' Hl. destruct (decide (ch = ch')) as [<-|Hne].
    + right. destruct Hs' as [[-> Hkeep]| ->]; [by eapply Hkeep|]. exfalso.
      apply lookup_delete_Some in Hl as [Hne Hl]. apply Hne. eapply I3; [exact Hop|by apply I5].
    + rewrite lookup_delete_ne by done. eauto.
  - intros ch' k' kd' st' Hu [Hne Hl]%lookup_delete_Some.
    destruct (I8 _ _ _ _ Hl) as (_ & Hop' & _).
    destruct (I10 _ _ _ _ Hu Hl) as [Hs|[(q' & v & Hq' & Hv & Hk)|?]]; [left| |by right; right].
    + destruct Hs' as [[-> _]| ->]; [done|]. rewrite lookup_delete_ne; [done|].
      intros E. apply Hne. eapply I4; [done|exact Hop|]. by rewrite E.
    + right; left. exists q', v. cbn. by rewrite lookup_alter_ne.
Qed.

Lemma inv_sent evs cs c ch k kd st st' :
  inv evs cs c -> cs !! ch = Some (k, kd, st) -> inv evs (<[ch := (k, kd, st')]> cs) c.
Proof.
  intros [I1 I2 I3 I4 I5 I6 I7 I8 I9 I10] Hc. split; try done.
  - intros ch' k' kd' st0 [[<- E]|[_ Hl]]%lookup_insert_Some; [simplify_eq|]; eauto.
  - intros id ch' Hl. destruct (I9 _ _ Hl) as [Hx|?]; [left|by right].
    destruct (decide (ch = ch')) as [<-|?]; [by rewrite lookup_insert_eq|by rewrite lookup_insert_ne].
  - intros ch' k' kd' st0 Hu [[<- E]|[_ Hl]]%lookup_insert_Some; [simplify_eq|]; eauto.
Qed.

(** Draining the registry is delivering the error to every entry in turn. *)
Definition drain (order : list (Z * chan_id)) (e : Error) (c : Conn) : Conn :=
  foldl (fun c '(id, _) => route id (Err e) c) c order.

Lemma disconnect_drain order e c s :
  NoDup order.*1 -> (forall id ch, (id, ch) ∈ order -> streams c !! id = Some ch) ->
  (forall id, id ∉ order.*1 -> streams c !! id = s !! id) ->
  (forall id, id ∈ order.*1 -> s !! id = None) ->
  foldl (fun c '(_, ch) => (box_send ch (Err e) c).1) (set_streams c s) order = drain order e c.
Proof.
  revert c. induction order as [|[id ch] order IH]; intros c Hnd Hin Hout Hnone; cbn.
  { unfold set_streams. assert (streams c = s) as <- by (apply map_eq; intros; apply Hout; set_solver).
    by destruct c. }
  cbn in Hnd. apply NoDup_cons in Hnd as [Hid Hnd].
  assert (streams c !! id = Some ch) as Hs by (apply Hin; by left).
  assert (exists b, (box_send ch (Err e) (set_streams c s)).1 = set_streams (set_boxes c b) s /\
    route id (Err e) c = set_streams (set_boxes c b) (delete id (streams c))) as (b & -> & ->).
  { unfold route, send_result, box_send. rewrite Hs. cbn.
    destruct (boxes c !! ch) as [q|] eqn:Hq.
    - destruct (mpsc_send (Err e) q) as [q' []]; exists (<[ch := q']> (boxes c)); split; try done.
      unfold unregister, set_streams, set_boxes; cbn. by rewrite delete_delete_eq.
    - exists (boxes c). split; [done|]. unfold unregister, set_streams, set_boxes; cbn.
      by rewrite delete_delete_eq. }
  apply (IH (set_streams (set_boxes c b) (delete id (streams c)))); cbn.
  - done.
  - intros id' ch' Hi. rewrite lookup_delete_ne; [apply Hin; by right|].
    intros <-. apply Hid. by apply (list_elem_of_fmap_2 fst) in Hi.
  - intros id' Hi. destruct (decide (id = id')) as [<-|Hne].
    + rewrite lookup_delete_eq, Hnone; [done|]. cbn. by left.
    + rewrite lookup_delete_ne by done. apply Hout. cbn. rewrite elem_of_cons. by intros [?|?].
  - intros id' Hi. apply Hnone. cbn. by right.
Qed.

Lemma disconnect_spec order e c :
  order ≡ₚ map_to_list (streams c) -> disconnect order e c = drain order e c.
Proof.
  intros Hp. unfold disconnect. apply disconnect_drain.
  - rewrite Hp. apply NoDup_fst_map_to_list.
  - intros id ch Hin. rewrite Hp in Hin. by apply elem_of_map_to_list.
  - intros id Hid. rewrite lookup_empty. destruct (streams c !! id) as [ch|] eqn:E; [|done].
    exfalso. apply Hid. rewrite Hp. apply list_elem_of_fmap. exists (id, ch).
    by rewrite elem_of_map_to_list.
  - intros id _. apply lookup_empty.
Qed.

Lemma drain_inv evs cs order e c : inv evs cs c -> inv evs cs (drain order e c).
Proof.
  revert c. induction order as [|[id ch] order IH]; intros c Hi; [done|].
  apply IH. by apply route_inv.
Qed.

Lemma box_recv_spec ch c c1 v :
  box_recv ch c = (c1, Some v) ->
  exists q q', boxes c !! ch = Some q /\ mpsc_items q = v :: mpsc_items q' /\
    mpsc_open q' = mpsc_open q /\ c1 = set_boxes c (<[ch := q']> (boxes c)).
Proof.
  unfold box_recv. destruct (boxes c !! ch) as [q|]; [|done].
  destruct (mpsc_recv q) as [q' o] eqn:E. intros [= <- ->].
  apply mpsc_recv_spec in E as (Hh & Ht & Ho). exists q, q'. split_and!; try done.
  destruct (mpsc_items q); [done|]. simpl in *. congruence.
Qed.

Lemma client_inv_step evs s evs' s' :
  inv evs (calls s) (conn s) -> step s evs' s' -> inv (evs ++ evs') (calls s') (conn s').
Proof.
  intros Hi Hs.
  destruct Hs as [s now req c' k Hb|s req sc c' k Hb|s now req sc c' e Hb|s ch k kd Hc|s ch k kd st Hc|
    s ch k c1 v c2 r Hc Hr Hf|s ch k c1 v Hc Hr|s msg|s h e|s order e Hp]; cbn; rewrite ?app_nil_r.
  - apply request_begin_spec in Hb as (-> & Hid & Hch & _). by apply inv_open.
  - apply new_stream_begin_spec in Hb as (-> & Hid & Hch). by apply inv_open.
  - assert (c' = (fetch_add_2 (conn s)).1) as ->
      by (destruct Hb as [Hb|Hb]; [apply request_begin_spec in Hb|apply new_stream_begin_spec in Hb]; done).
    by apply inv_take.
  - by eapply inv_sent.
  - unfold abandon. destruct (inv_call _ _ _ Hi _ _ _ _ Hc) as [-> _].
    apply (inv_end _ _ _ ch k kd st (delete (c_id k) (streams (conn s))) Hi Hc). by right.
  - destruct (inv_call _ _ _ Hi _ _ _ _ Hc) as [Hch _].
    destruct (box_recv_spec _ _ _ _ Hr) as (q & q' & Hq & Hit & Ho & ->).
    apply bind_Some in Hf as (w & Hw & Hf). cbn in Hw. simplify_eq.
    set (c1 := set_boxes _ _). set (evs1 := evs ++ _).
    apply (inv_end evs1 (calls s) c1 (c_chan k) k Unary Waiting (streams c1)); [by eapply inv_pop|exact Hc|].
    left. split; [done|]. intros id Hs. destruct (keeps v) eqn:Hk.
    + destruct v as [m|]; [|done]. exists m. split; [|done]. apply elem_of_app; right; by constructor.
    + exfalso. eapply inv_terminal; [exact Hi|exact Hq| |exact Hk|exact Hs]. rewrite Hit. by left.
  - destruct (box_recv_spec _ _ _ _ Hr) as (q & q' & Hq & Hit & Ho & ->). by eapply inv_pop.
  - destruct (handle_msg_route msg (conn s)) as (x & v & -> & Hv).
    apply route_inv; [by apply inv_set_ctx|done].
  - by apply route_inv.
  - rewrite (disconnect_spec _ _ _ Hp). by apply drain_inv.
Qed.

Lemma inv_init x : inv [] ∅ (new_conn x).
Proof.
  split; cbn; unfold opened; try done; intros *; rewrite ?lookup_empty, ?elem_of_nil; try done.
Qed.

Lemma client_reachable_inv x evs s : reachable x evs s -> inv evs (calls s) (conn s).
Proof. induction 1; [apply inv_init|by eapply client_inv_step]. Qed.

Lemma step_answer s evs' s' ch v :
  step s evs' s' -> EvAnswer ch v ∈ evs' ->
  exists q, boxes (conn s) !! ch = Some q /\ v ∈ mpsc_items q.
Proof.
  intros Hs Hin.
  destruct Hs as [| | | | |s ch0 k c1 v0 c2 r Hc Hb Hf|s ch0 k c1 v0 Hc Hb| | |];
    repeat (apply elem_of_cons in Hin as [Hin|Hin]; try discriminate Hin);
    try (by apply elem_of_nil in Hin); injection Hin as -> ->;
    destruct (box_recv_spec _ _ _ _ Hb) as (q & q' & Hq & Hit & _); exists q;
    (split; [done|rewrite Hit; by left]).
Qed.

Lemma answers_own_stream x evs s ch m :
  reachable x evs s -> EvAnswer ch (Ok m) ∈ evs -> opened evs ch (stream_id (header m)).
Proof.
  induction 1 as [|evs s evs' s' Hr IH Hs]; [by rewrite elem_of_nil|].
  rewrite opened_app, elem_of_app. intros [?|Hin]; left; [by apply IH|].
  destruct (step_answer _ _ _ _ _ Hs Hin) as (q & Hq & Hm).
  apply client_reachable_inv in Hr. by eapply inv_box.
Qed.

Lemma drain_streams order e c id : streams (drain order e c) !! id =
  if decide (id ∈ order.*1) then None else streams c !! id.
Proof.
  revert c. induction order as [|[id0 ch] order IH]; intros c; cbn [drain foldl fmap list_fmap].
  { rewrite decide_False; [done|]. intros Hin. by apply elem_of_nil in Hin. }
  fold (drain order e (route id0 (Err e) c)). rewrite IH.
  assert (streams (route id0 (Err e) c) !! id = if decide (id = id0) then None else streams c !! id) as ->.
  { destruct (streams c !! id0) as [ch0|] eqn:Es.
    - destruct (route_spec id0 (Err e) c ch0 Es) as [(q & q' & _ & _ & _ & _ & ->)|(b & _ & _ & _ & ->)];
        cbn [streams keeps]; destruct (decide (id = id0)) as [->|?]; by rewrite ?lookup_delete_eq, ?lookup_delete_ne by done.
    - rewrite route_none by done. by destruct (decide (id = id0)) as [->|?]. }
  repeat case_decide; try done; exfalso; rewrite elem_of_cons in *; tauto.
Qed.

Lemma disconnect_answers evs cs c order e :
  inv evs cs c -> unwrapped evs -> order ≡ₚ map_to_list (streams c) ->
  streams (disconnect order e c) = ∅ /\
  forall ch k kd st, cs !! ch = Some (k, kd, st) -> answered evs ch (disconnect order e c).
Proof.
  intros Hr Hu Hp. rewrite (disconnect_spec _ _ _ Hp).
  assert (streams (drain order e c) = ∅) as Hempty.
  { apply map_eq. intros id. rewrite drain_streams, lookup_empty. case_decide as Hin; [done|].
    destruct (streams c !! id) as [ch|] eqn:E; [|done]. exfalso. apply Hin.
    rewrite Hp. apply list_elem_of_fmap. exists (id, ch). by rewrite elem_of_map_to_list. }
  split; [done|]. intros ch k kd st Hc. apply (drain_inv _ _ order e) in Hr.
  destruct (inv_pending _ _ _ Hr _ _ _ _ Hu Hc) as [Hs|?]; [|done].
  by rewrite Hempty, lookup_empty in Hs.
Qed.

(** The reader's calls keep the invariant. *)
Lemma apply_calls_inv evs cs calls c : inv evs cs c -> inv evs cs (foldl apply_call c calls).
Proof.
  revert c. induction calls as [|k calls IH]; intros c Hi; [done|]. apply IH.
  destruct k as [m|h e| |e|]; cbn; [| |done| |done].
  - destruct (handle_msg_route m c) as (x & v & -> & Hv).
    apply route_inv; [by apply inv_set_ctx|done].
  - by apply route_inv.
  - rewrite disconnect_spec by done. by apply drain_inv.
Qed.

(** A writer task that ends without error leaves the pending calls as they are: their mailboxes
    get no result. *)
Lemma clean_writer_exit_keeps_calls (c : Conn) (i : Turn) :
  writer_done i = Some (Ok (Ok tt)) ->
  connection_run [i] = ([Exit], true) /\ run_delegate [i] c = c.
Proof. intros Hi. unfold run_delegate. cbn. unfold loop_turn. by rewrite Hi. Qed.

Lemma frame_of_request `{!CodecLaws Request} (id : Z) (req : Request) (g : GenMessage) :
  is_u32 id -> request_frame id req = Ok g ->
  wf_frame g /\ stream_id (header g) = id /\ type_ (header g) = MESSAGE_TYPE_REQUEST /\
  flags (header g) = 0 /\ message_try_from g = Ok (MkMessage (header g) req).
Proof.
  intros Hid E.
  unfold request_frame in E. munfold.
  destruct (message_new_request id req) as [m|] eqn:Em; [|done].
  destruct (gen_try_from m) as [g'|] eqn:Eg; [|done].
  destruct (check_oversize (len (payload g')) false) as [[]|] eqn:Ek; [|done]. simplify_eq.
  pose proof (gen_roundtrip _ _ Eg) as Hrt. apply check_oversize_ok in Ek.
  destruct (new_request_frame _ _ _ _ Em Eg) as [Hh _].
  assert (len (payload g) < U32) as Hlt by (eapply Z.le_lt_trans; [exact Ek|done]).
  rewrite len_u32_small in Hh by done. pose proof (len_nonneg (payload g)).
  assert (m = MkMessage (header g) req) as ->.
  { unfold message_new_request in Em. unfold gen_try_from in Eg. munfold.
    destruct (check_oversize _ _) as [[]|]; simplify_eq.
    destruct (codec_encode _); by simplify_eq/=. }
  rewrite Hh in *. unfold wf_frame. rewrite Hh. by split_and!.
Qed.

(** ** Properties *)

(** Stream ids are odd 32-bit numbers taken in sequence 1, 3, 5, ..., whatever the calls do;
    the first 2^31 of them are pairwise distinct and the counter is back at 1 after them. *)
Theorem stream_ids (x : ConnectionContext D T) (evs : list Event) (s : System) :
  reachable x evs s ->
  next_stream_id (conn s) = as_u32 (1 + 2 * Z.of_nat (taken evs)) /\
  is_u32 (next_stream_id (conn s)) /\ next_stream_id (conn s) mod 2 = 1 /\
  (forall ch id, opened evs ch id -> is_u32 id /\ id mod 2 = 1) /\
  (forall ch ch' id, unwrapped evs -> opened evs ch id -> opened evs ch' id -> ch = ch') /\
  (Z.of_nat (taken evs) = U32 / 2 -> next_stream_id (conn s) = 1).
Proof.
  intros Hr%client_reachable_inv.
  pose proof nth_id_odd as Hn.
  rewrite (inv_next _ _ _ Hr). split_and!; [done|apply Hn|apply Hn| | |].
  - intros ch id (_ & i & _ & ->)%(inv_opened _ _ _ Hr). apply Hn.
  - intros ch ch' id. apply (inv_inj _ _ _ Hr).
  - intros E. unfold nth_id. rewrite E. done.
Qed.

(** The frame a request is sent in is well formed and within the frame limit, carries the
    stream id it was given and the request type, and decodes to that very request; a request whose
    encoding is above the limit is refused without being registered. *)
Theorem request_frame_decodes `{!CodecLaws Request} (id : Z) (req : Request) (r : Result GenMessage) :
  is_u32 id -> request_frame id req = r ->
  match r with
  | Ok g => wf_frame g /\ stream_id (header g) = id /\ type_ (header g) = MESSAGE_TYPE_REQUEST /\
            flags (header g) = 0 /\ message_try_from g = Ok (MkMessage (header g) req)
  | Err e => (forall b, codec_encode req = Ok b -> len b > MESSAGE_LENGTH_MAX \/ len b >= U32) /\
             forall now c, timeout_nano req = 0 -> next_stream_id c = id ->
               request_begin now req c = ((fetch_add_2 c).1, Err e)
  end.
Proof.
  intros Hid E. destruct r as [g|e].
  - by apply frame_of_request.
  - split.
    + intros b Hb. unfold request_frame, message_new_request, gen_try_from in E. munfold.
      rewrite (codec_size_encode _ _ Hb) in E.
      destruct (decide (len b < U32)); [left|right; lia]. rewrite len_u32_small in E by done.
      destruct (decide (len b <= MESSAGE_LENGTH_MAX)) as [Hl|Hl]; [|lia].
      apply (check_oversize_ok _ false) in Hl as Hk. rewrite Hk in E. cbn in E. rewrite Hb in E.
      cbn in E. by rewrite Hk in E.
    + intros now c Ht Hn. unfold request_begin, fetch_add_2. munfold. cbn. by rewrite Hn, E.
Qed.

(** C8: a result reaches only the call it is meant for: in every reachable state in which the id
    counter has not wrapped, the frames waiting in a call's mailbox, and those it has already been
    given, carry the stream id of that very call, and no two calls share one. *)
Theorem response_routing (x : ConnectionContext D T) (evs : list Event) (s : System)
    (ch : chan_id) (m : GenMessage) :
  reachable x evs s ->
  (exists q, boxes (conn s) !! ch = Some q /\ Ok m ∈ mpsc_items q) \/ EvAnswer ch (Ok m) ∈ evs ->
  opened evs ch (stream_id (header m)) /\
  (forall id, opened evs ch id -> id = stream_id (header m)) /\
  (unwrapped evs -> forall ch', opened evs ch' (stream_id (header m)) -> ch' = ch).
Proof.
  intros Hr Hm. assert (opened evs ch (stream_id (header m))) as Ho.
  { destruct Hm as [(q & Hq & Hin)|Hin]; [|by eapply answers_own_stream].
    apply client_reachable_inv in Hr. by eapply inv_box. }
  apply client_reachable_inv in Hr. split_and!; [done| |].
  - intros id Hid. by eapply inv_fun.
  - intros Hu ch' Ho'. by eapply inv_inj.
Qed.

(** C17: no request leaves its registration behind: in every reachable state, an entry of the
    registry belongs to a call that is still active, or to one whose answer was a DATA frame
    without the closing flag. In particular a call that failed to send, timed out, was cancelled,
    or was answered by a response is not in the registry. *)
Theorem registry_hygiene (x : ConnectionContext D T) (evs : list Event) (s : System)
    (id : Z) (ch : chan_id) :
  reachable x evs s -> streams (conn s) !! id = Some ch ->
  opened evs ch id /\
  (is_Some (calls s !! ch) \/
   exists m, EvAnswer ch (Ok m) ∈ evs /\ type_ (header m) = MESSAGE_TYPE_DATA /\
             has_flag (header m) FLAG_REMOTE_CLOSED = false).
Proof.
  intros Hr%client_reachable_inv Hs. split; [by eapply inv_streams|].
  destruct (inv_leak _ _ _ Hr _ _ Hs) as [?|(m & Hm & Hk)]; [by left|right].
  exists m. split; [done|]. apply andb_true_iff in Hk as [Hk1 Hk2].
  apply bool_decide_eq_true in Hk1. by apply negb_true_iff in Hk2.
Qed.

(** C18: when the connection is lost every active call learns it: if the reader loop ends because the
    writer failed or the stream could not be read, then, whatever frames it handled before, the
    registry ends up empty and every active call, wherever it is suspended, has a terminal result
    in its mailbox or has been given one already. *)
Theorem connection_loss_reaches_all (x : ConnectionContext D T) (evs : list Event) (s : System)
    (turns : list Turn) (before : list LoopCall) (e : Error) :
  reachable x evs s -> unwrapped evs ->
  connection_run turns = (before ++ [Disconnect e; Exit], true) ->
  streams (run_delegate turns (conn s)) = ∅ /\
  forall ch k kd st, calls s !! ch = Some (k, kd, st) ->
    answered evs ch (run_delegate turns (conn s)).
Proof.
  intros Hr%client_reachable_inv Hu E. unfold run_delegate. rewrite E. cbn [fst]. rewrite foldl_app.
  cbn [foldl apply_call rd_exit rd_disconnect client_reader].
  pose proof (apply_calls_inv _ _ before _ Hr) as Hi.
  by apply disconnect_answers.
Qed.

(** A frame, or a frame error, concerns its own stream only: the registry entries of the other
    streams and the mailboxes they refer to are left as they were. A malformed frame, a failed
    inbound transform, and a read error terminate just that stream. *)
Theorem frames_are_local (c : Conn) (msg : GenMessage) (e : Error) (c' : Conn) :
  c' = handle_msg msg c \/ c' = handle_err (header msg) e c ->
  (forall id, id <> stream_id (header msg) -> streams c' !! id = streams c !! id) /\
  (forall ch, streams c !! stream_id (header msg) <> Some ch -> boxes c' !! ch = boxes c !! ch) /\
  (c' = handle_err (header msg) e c -> streams c' !! stream_id (header msg) = None).
Proof.
  assert (forall id v (c0 : Conn),
    (forall id', id' <> id -> streams (route id v c0) !! id' = streams c0 !! id') /\
    (forall ch, streams c0 !! id <> Some ch -> boxes (route id v c0) !! ch = boxes c0 !! ch) /\
    (keeps v = false -> streams (route id v c0) !! id = None)) as Hroute.
  { intros id v c0. unfold route, send_result, box_send. destruct (streams c0 !! id) as [ch0|] eqn:Es; [|done].
    destruct (keeps v); cbn; (destruct (boxes c0 !! ch0) as [q|] eqn:Hq; [destruct (mpsc_send v q) as [q' []]|]);
      cbn; split_and!; intros; rewrite ?lookup_delete_eq, ?lookup_delete_ne by done; try done;
      apply lookup_insert_ne; congruence. }
  intros Hc. split; [|split].
  - intros id Hid. destruct Hc as [-> | ->].
    + destruct (handle_msg_route msg c) as (x & v & -> & _). by apply (Hroute _ v (set_ctx c x)).
    + by apply (Hroute _ (Err e) c).
  - intros ch Hch. destruct Hc as [-> | ->].
    + destruct (handle_msg_route msg c) as (x & v & -> & _). by apply (Hroute _ v (set_ctx c x)).
    + by apply (Hroute _ (Err e) c).
  - intros ->. by apply (Hroute _ (Err e) c).
Qed.
End AsyncClient.

Section Witness.
Local Instance client_texts : Texts :=
  {| status_debug := fun _ => ""; nix_display := pretty; nix_debug := pretty;
     tokio_send_error := "channel closed" |}.
Local Instance client_request_codec : Codec Request := request_codec.
Local Instance client_request_laws : CodecLaws Request := request_codec_laws.
Local Instance client_response_codec : Codec Response := response_codec.

Abbreviation ex_conn := (@Conn unit NonceTransform ListChan).
Abbreviation ex_system := (@System unit NonceTransform ListChan).

Definition ex_client_ctx : ConnectionContext unit NonceTransform := MkCtx tt None.
Definition ex_request : Request := MkRequest "svc" "Get" [Byte.x01] 0 [].
Definition ex_call : Call :=
  MkCall 1 0%nat (default default_gen (match request_frame 1 ex_request with Ok g => Some g | _ => None end))
    (Some (MkControl None 0%nat)).
Definition ex_evs : list Event := [EvTake 1; EvOpen 0%nat 1].

(** One unary call in flight. *)
Definition ex_pending : ex_system :=
  MkSystem (conn_opened (new_conn ex_client_ctx)) {[0%nat := (ex_call, Unary, Waiting)]}.

Lemma ex_pending_reachable : reachable ex_client_ctx ex_evs ex_pending.
Proof.
  change ex_evs with (ex_evs ++ []).
  apply (ReachStep _ _ (MkSystem (conn_opened (new_conn ex_client_ctx)) {[0%nat := (ex_call, Unary, Sending)]})).
  - apply (ReachStep _ [] (MkSystem (new_conn ex_client_ctx) ∅) ex_evs); [apply ReachInit|].
    refine (StepRequest _ 0 ex_request (conn_opened (new_conn ex_client_ctx)) ex_call _).
    vm_compute. reflexivity.
  - refine (StepSent (MkSystem (conn_opened (new_conn ex_client_ctx)) {[0%nat := (ex_call, Unary, Sending)]})
      0%nat ex_call Unary _). reflexivity.
Qed.

Definition ex_response : GenMessage := gen_new_response 1 (countable_encode Response_new).
Definition ex_answered : ex_system :=
  MkSystem (handle_msg ex_response (conn ex_pending)) (calls ex_pending).

Lemma ex_answered_reachable : reachable ex_client_ctx ex_evs ex_answered.
Proof.
  change ex_evs with (ex_evs ++ []). eapply ReachStep; [apply ex_pending_reachable|]. apply StepFrame.
Qed.

Lemma stream_ids_witness :
  next_stream_id (conn ex_pending) = 3 /\ next_stream_id (conn ex_pending) mod 2 = 1.
Proof.
  destruct (stream_ids ex_client_ctx ex_evs ex_pending ex_pending_reachable) as (-> & _ & _).
  by vm_compute.
Defined.

Lemma request_frame_decodes_witness :
  match request_frame 7 ex_request with
  | Ok g => stream_id (header g) = 7 /\ message_try_from g = Ok (MkMessage (header g) ex_request)
  | Err _ => False
  end.
Proof.
  destruct (request_frame 7 ex_request) as [g|e] eqn:E; [|by vm_compute in E].
  destruct (request_frame_decodes (D := unit) (T := NonceTransform) (Q := ListChan) 7 ex_request (Ok g)) as (_ & Hid & _ & _ & Hd);
    [done|exact E|]. by split.
Defined.

Lemma response_routing_witness :
  exists q, boxes (conn ex_answered) !! 0%nat = Some q /\ mpsc_items q = [Ok ex_response] /\
    opened ex_evs 0%nat (stream_id (header ex_response)).
Proof.
  destruct (boxes (conn ex_answered) !! 0%nat) as [q|] eqn:Hq; [|by vm_compute in Hq].
  exists q. assert (mpsc_items q = [Ok ex_response]) as Hi by (vm_compute in Hq; simplify_eq; by vm_compute).
  split_and!; [done|done|].
  apply (response_routing ex_client_ctx ex_evs ex_answered 0%nat ex_response ex_answered_reachable).
  left. exists q. split; [done|]. rewrite Hi. by left.
Defined.

Lemma registry_hygiene_witness :
  streams (conn ex_pending) !! 1 = Some 0%nat /\ opened ex_evs 0%nat 1 /\
  streams (conn ex_answered) !! 1 = None.
Proof.
  assert (streams (conn ex_pending) !! 1 = Some 0%nat) as Hs by (by vm_compute).
  split_and!; [done| |by vm_compute].
  apply (registry_hygiene ex_client_ctx ex_evs ex_pending 1 0%nat ex_pending_reachable Hs).
Defined.

Lemma connection_loss_reaches_all_witness :
  let turns := [MkTurn None false (Some (Ok ex_frame)); MkTurn (Some (Ok (Err Eof))) false None] in
  answered ex_evs 0%nat (run_delegate turns (conn ex_pending)).
Proof.
  intros turns. apply (connection_loss_reaches_all ex_client_ctx ex_evs ex_pending turns
    [HandleMsg ex_frame] Eof ex_pending_reachable) with (k := ex_call) (kd := Unary) (st := Waiting);
    [by vm_compute|done|done].
Defined.

Lemma frames_are_local_witness :
  let c := set_streams (conn ex_pending) {[1 := 0%nat; 5 := 1%nat]} in
  streams (handle_msg ex_response c) !! 5 = Some 1%nat /\
  streams (handle_msg ex_response c) !! 1 = None.
Proof.
  intros c. destruct (frames_are_local c ex_response Eof (handle_msg ex_response c)) as (Hs & _ & _);
    [by left|]. rewrite (Hs 5) by done. by split; vm_compute.
Defined.

(** A unary call answered by a DATA frame without the closing flag returns, but stays in the
    registry. *)
Lemma unary_data_answer_leaks :
  exists evs (s : ex_system), reachable ex_client_ctx evs s /\ calls s = ∅ /\
    streams (conn s) !! 1 = Some 0%nat.
Proof.
  set (m := gen_new_data 1 (countable_encode Response_new)).
  set (s1 := MkSystem (handle_msg m (conn ex_pending)) (calls ex_pending) : ex_system).
  destruct (box_recv 0%nat (conn s1)) as [c1 o] eqn:Eb.
  assert (o = Some (Ok m)) as -> by (vm_compute in Eb; simplify_eq; by vm_compute).
  destruct (request_finish ex_call (Ready (Some (Ok m))) c1) as [[c2 r]|] eqn:Ef; [|done].
  exists ((ex_evs ++ []) ++ [EvAnswer 0%nat (Ok m)]), (MkSystem c2 (delete 0%nat (calls s1))).
  split_and!.
  - eapply ReachStep; [eapply ReachStep; [apply ex_pending_reachable|apply (StepFrame _ m)]|].
    by eapply (StepAnswered s1 0%nat ex_call).
  - by vm_compute.
  - vm_compute in Eb. simplify_eq. vm_compute in Ef. simplify_eq. by vm_compute.
Qed.
End Witness.
