(* ===== verification/AsyncServer.v ===== *)
(** The asynchronous server (src/src/asynchronous/server.rs and the dispatch traits of
    src/src/asynchronous/utils.rs): the service table, the handler of one frame, the responses, and
    the order in which the connection reader and the handler tasks run. *)
From S2P Require Import Prelude Errors Wire Codec Frame Channel Extension Context Stream AsyncClient.

(** [get_path]. *)
Definition get_path (service method : string) : string := "/" +:+ service +:+ "/" +:+ method.

Section AsyncServer.
Context {X : Type} `{SendPath X} {Q : Type -> Type} `{Mpsc Q, Texts}.
Context `{Codec Request} `{Codec Response}.
(** The connection data of the accept hook, and the name of a stream handler. *)
Context {D : Type} {StreamName : Type}.

(** [TtrpcContext]. *)
Record TtrpcContext := MkTtrpcContext {
  mh : MessageHeader;
  tc_metadata : Metadata;
  tc_timeout_nano : Z;
  connection_data : D }.

(** [MethodHandler::handler]: generated code and the application, by its result. A
    [StreamHandler] runs concurrently with the connection and is known by its name only. *)
Definition MethodHandler : Type := TtrpcContext -> Request -> Result Response.

(** [Service]. *)
Record Service := MkService {
  methods : gmap string MethodHandler;
  service_streams : gmap string StreamName }.

Definition get_method (s : Service) (name : string) : option MethodHandler := methods s !! name.
Definition get_stream (s : Service) (name : string) : option StreamName := service_streams s !! name.

Definition Services : Type := gmap string Service.

(** What the handler tasks of a connection share: the stream registry, the mailboxes it refers to,
    and the path to the writer. *)
Record HandlerState := MkHandlerState {
  h_streams : gmap Z chan_id;
  h_boxes : gmap chan_id (Q (Result GenMessage));
  h_next : chan_id;
  h_path : X }.

Definition set_path (s : HandlerState) (x : X) : HandlerState :=
  MkHandlerState (h_streams s) (h_boxes s) (h_next s) x.
Definition set_box (s : HandlerState) (ch : chan_id) (q : Q (Result GenMessage)) : HandlerState :=
  MkHandlerState (h_streams s) (<[ch := q]> (h_boxes s)) (h_next s) (h_path s).

(** ** Responses *)

Definition oversize_response_msg (n max_len : Z) : string :=
  "response payload " +:+ pretty n +:+ " bytes exceeds safe limit " +:+ pretty max_len +:+
  " bytes (after transform overhead)".

(** The payload [respond] sends: the encoded response, or an encoded error in its place. *)
Definition respond_payload (max_len : Z) (resp : Response) : Result (list byte) :=
  payload ← map_err (err_to_others_err "Encode Response failed.") (codec_encode resp);
  if decide (len payload > max_len) then
    map_err (err_to_others_err "Encode error Response failed.")
      (codec_encode (error_into_response
        (RpcStatus (get_status INVALID_ARGUMENT (oversize_response_msg (len payload) max_len)))))
  else mret payload.

(** [HandlerContext::respond]. *)
Definition respond (sid : Z) (resp : Response) : st X Error unit :=
  x ← st_get;
  payload ← st_lift (respond_payload (raw_limit x) resp);
  transform_send (gen_new_response sid payload) true false.

(** [respond_with_status]: a failure is logged. *)
Definition respond_with_status (sid : Z) (status : Status) (x : X) : X :=
  (respond sid (init_status status) x).1.

(** [HandlerContext::handle_err]. *)
Definition server_handle_err (h : MessageHeader) (e : Error) (x : X) : X :=
  (respond (stream_id h) (error_into_response e) x).1.

(** ** Requests *)

(** Where a request goes. *)
Inductive Target :=
  | ToMethod (m : MethodHandler)
  | ToStream (n : StreamName).

(** [handle_request] up to the call of the handler. *)
Definition dispatch (services : Services) (msg : GenMessage)
  : res Status (Target * Message Request) :=
  req_msg ← map_err (get_status INVALID_ARGUMENT) (message_try_from msg);
  let req := msg_payload req_msg in
  srv ← ok_or (services !! service req)
          (get_status INVALID_ARGUMENT (service req +:+ " service does not exist"));
  match get_method srv (method req) with
  | Some m => Ok (ToMethod m, req_msg)
  | None =>
      match get_stream srv (method req) with
      | Some n => Ok (ToStream n, req_msg)
      | None => Err (get_status UNIMPLEMENTED (method req +:+ " method"))
      end
  end.

Definition ttrpc_context (data : D) (req_msg : Message Request) : TtrpcContext :=
  MkTtrpcContext (msg_header req_msg) (from_pb (metadata (msg_payload req_msg)))
    (timeout_nano (msg_payload req_msg)) data.

(** [handle_method]; [elapsed]: the timer, set when the request has a timeout, fires before the
    handler has finished. *)
Definition handle_method (data : D) (elapsed : bool) (m : MethodHandler) (req_msg : Message Request)
  : res Status (option Response) :=
  let req := msg_payload req_msg in
  let handled := map_err (fun e => get_status UNKNOWN (error_display e))
                   (m (ttrpc_context data req_msg) req) in
  if decide (timeout_nano req = 0) then Some <$> handled
  else if elapsed then Err (get_status DEADLINE_EXCEEDED "timeout")
  else Some <$> handled.

(** [handle_stream] until the handler runs: the mailbox is registered and, unless the request says
    that it has no data, its payload becomes the first DATA message. The second component is the
    status it fails with when the handler has dropped its receiver already; [accepts] tells whether
    the mailbox still accepts. *)
Definition stream_open (req_msg : Message Request) (s : HandlerState) : HandlerState * chan_id :=
  (MkHandlerState (<[stream_id (msg_header req_msg) := h_next s]> (h_streams s))
     (<[h_next s := mpsc_channel]> (h_boxes s)) (S (h_next s)) (h_path s), h_next s).

Definition box_put (ch : chan_id) (v : Result GenMessage) (s : HandlerState) : HandlerState * bool :=
  match h_boxes s !! ch with
  | Some q => let '(q', ok) := mpsc_send v q in (set_box s ch q', ok)
  | None => (s, false)
  end.

Definition stream_first_data (ch : chan_id) (req_msg : Message Request) (s : HandlerState)
  : HandlerState * res Status unit :=
  if has_flag (msg_header req_msg) FLAG_NO_DATA then (s, Ok tt)
  else
    let req := msg_payload req_msg in
    match box_put ch (Ok (gen_new_data (stream_id (msg_header req_msg)) (req_payload req))) s with
    | (s', true) => (s', Ok tt)
    | (s', false) => (s', Err (get_status UNKNOWN tokio_send_error))
    end.

(** The end of [handle_stream]: what joining the handler's task gave, a join error by its
    [Debug] text. *)
Definition stream_result (req : Request) (join : res string (Result (option Response)))
  : res Status (option Response) :=
  map_err (fun e => get_status UNKNOWN (error_display e))
    (match join with
     | Ok r => r
     | Err e => Err (Others ("stream " +:+ get_path (service req) (method req) +:+
                             " task got error " +:+ e))
     end).

(** ** One frame *)

(** [handle_msg] after [handle_request]. *)
Definition finish_request (sid : Z) (r : res Status (option Response)) (x : X) : X :=
  match r with
  | Ok (Some resp) =>
      let resp := match check_oversize (codec_size resp) true with
                  | Err e => error_into_response e
                  | Ok _ => resp
                  end in
      (respond sid resp x).1
  | Ok None => (transform_send (gen_new_close sid) false false x).1
  | Err status => respond_with_status sid status x
  end.

(** What a handler task meets: the timer of the method, whether its stream handler still listens,
    and how the stream handler ended. *)
Record HandlerEnv := MkHandlerEnv {
  env_elapsed : bool;
  env_join : res string (Result (option Response)) }.

Definition data_error_msg (sid : Z) : string :=
  "Stream id " +:+ pretty sid +:+ ": handling data error: " +:+ tokio_send_error.

(** The DATA branch of [handle_msg]: the mailbox is looked up, then sent to. *)
Definition handle_data (msg : GenMessage) (s : HandlerState) : HandlerState :=
  let sid := stream_id (header msg) in
  match h_streams s !! sid with
  | Some ch =>
      match box_put ch (Ok msg) s with
      | (s', true) => s'
      | (s', false) => set_path s' (respond_with_status sid
                                      (get_status INVALID_ARGUMENT (data_error_msg sid)) (h_path s'))
      end
  | None => set_path s (respond_with_status sid
                          (get_status INVALID_ARGUMENT "Stream is no longer active") (h_path s))
  end.

(** [HandlerContext::handle_request]. *)
Definition handle_request (services : Services) (data : D) (env : HandlerEnv) (msg : GenMessage)
    (s : HandlerState) : HandlerState * res Status (option Response) :=
  match dispatch services msg with
  | Err status => (s, Err status)
  | Ok (ToMethod m, req_msg) => (s, handle_method data (env_elapsed env) m req_msg)
  | Ok (ToStream n, req_msg) =>
      let '(s, ch) := stream_open req_msg s in
      match stream_first_data ch req_msg s with
      | (s, Err status) => (s, Err status)
      | (s, Ok _) => (s, stream_result (msg_payload req_msg) (env_join env))
      end
  end.

Definition odd_id_msg : string := "stream id must be odd".

(** [HandlerContext::handle_msg], run without other tasks in between. *)
Definition server_handle_msg (services : Services) (data : D) (env : HandlerEnv) (msg : GenMessage)
    (s : HandlerState) : HandlerState :=
  let sid := stream_id (header msg) in
  if decide (sid mod 2 <> 1) then
    set_path s (respond_with_status sid (get_status INVALID_ARGUMENT odd_id_msg) (h_path s))
  else if decide (type_ (header msg) = MESSAGE_TYPE_REQUEST) then
    let '(s, r) := handle_request services data env msg s in
    set_path s (finish_request sid r (h_path s))
  else if decide (type_ (header msg) = MESSAGE_TYPE_DATA) then handle_data msg s
  else s.

(** ** Reader and handler tasks interleaved

    [ServerReader::handle_msg] spawns a task for a frame and waits until the task has dropped its
    [wait_tx]; then the next frame is taken. *)
Inductive TaskPc :=
  | Start (msg : GenMessage)
  | OddRespond (sid : Z)                       (* before the answer to an even stream id *)
  | Method (m : MethodHandler) (r : Message Request)
  | StreamRegister (r : Message Request)        (* before the insertion into the registry *)
  | StreamRegistered (ch : chan_id) (r : Message Request)  (* before [drop(wait_tx)] *)
  | StreamFirst (ch : chan_id) (r : Message Request)
  | StreamJoin (r : Message Request)
  | Finish (sid : Z) (r : res Status (option Response))
  | DataLookup (msg : GenMessage)
  | DataSend (ch : chan_id) (msg : GenMessage)
  | Done.

(** The task still holds [wait_tx]. *)
Definition holding (pc : TaskPc) : bool :=
  match pc with
  | Start _ | OddRespond _ | StreamRegister _ | StreamRegistered _ _ => true
  | _ => false
  end.

Inductive Event :=
  | EvFrame (tid : nat) (msg : GenMessage)
  | EvRegister (tid : nat) (sid : Z)
  | EvDeliver (tid : nat) (ch : chan_id) (msg : GenMessage)
  | EvCancel (tid : nat).

(** The next piece of [handle_msg] that runs without waiting for another task. *)
Definition task_step (services : Services) (data : D) (env : HandlerEnv) (tid : nat) (pc : TaskPc)
    (s : HandlerState) : option (TaskPc * HandlerState * list Event) :=
  match pc with
  | Start msg =>
      let sid := stream_id (header msg) in
      if decide (sid mod 2 <> 1) then Some (OddRespond sid, s, [])
      else if decide (type_ (header msg) = MESSAGE_TYPE_REQUEST) then
        match dispatch services msg with
        | Err status => Some (Finish sid (Err status), s, [])
        | Ok (ToMethod m, r) => Some (Method m r, s, [])
        | Ok (ToStream _, r) => Some (StreamRegister r, s, [])
        end
      else if decide (type_ (header msg) = MESSAGE_TYPE_DATA) then Some (DataLookup msg, s, [])
      else Some (Done, s, [])
  | OddRespond sid =>
      Some (Done, set_path s (respond_with_status sid (get_status INVALID_ARGUMENT odd_id_msg)
                                (h_path s)), [])
  | Method m r =>
      Some (Finish (stream_id (msg_header r)) (handle_method data (env_elapsed env) m r), s, [])
  | StreamRegister r =>
      let '(s', ch) := stream_open r s in
      Some (StreamRegistered ch r, s', [EvRegister tid (stream_id (msg_header r))])
  | StreamRegistered ch r => Some (StreamFirst ch r, s, [])
  | StreamFirst ch r =>
      match stream_first_data ch r s with
      | (s', Err status) => Some (Finish (stream_id (msg_header r)) (Err status), s', [])
      | (s', Ok _) => Some (StreamJoin r, s', [])
      end
  | StreamJoin r =>
      Some (Finish (stream_id (msg_header r)) (stream_result (msg_payload r) (env_join env)), s, [])
  | Finish sid r => Some (Done, set_path s (finish_request sid r (h_path s)), [])
  | DataLookup msg =>
      match h_streams s !! stream_id (header msg) with
      | Some ch => Some (DataSend ch msg, s, [])
      | None => Some (Done, handle_data msg s, [])
      end
  | DataSend ch msg =>
      match box_put ch (Ok msg) s with
      | (s', true) => Some (Done, s', [EvDeliver tid ch msg])
      | (s', false) =>
          Some (Done, set_path s' (respond_with_status (stream_id (header msg))
                        (get_status INVALID_ARGUMENT (data_error_msg (stream_id (header msg))))
                        (h_path s')), [])
      end
  | Done => None
  end.

Record System := MkSystem {
  hstate : HandlerState;
  reader : option nat;
  tasks : gmap nat TaskPc }.

Inductive step (services : Services) (data : D) : System -> list Event -> System -> Prop :=
  | StepFrame s ts tid msg :
      ts !! tid = None ->
      step services data (MkSystem s None ts) [EvFrame tid msg]
        (MkSystem s (Some tid) (<[tid := Start msg]> ts))
  | StepResume s ts tid :  (* [wait_rx.await] completes *)
      (forall pc, ts !! tid = Some pc -> holding pc = false) ->
      step services data (MkSystem s (Some tid) ts) [] (MkSystem s None ts)
  | StepTask s rd ts tid pc env pc' s' evs :
      ts !! tid = Some pc -> task_step services data env tid pc s = Some (pc', s', evs) ->
      step services data (MkSystem s rd ts) evs (MkSystem s' rd (<[tid := pc']> ts))
  | StepCancel s rd ts tid pc :  (* the connection's handlers are shut down *)
      ts !! tid = Some pc ->
      step services data (MkSystem s rd ts) [EvCancel tid] (MkSystem s rd (<[tid := Done]> ts)).

Inductive reachable (services : Services) (data : D) (s0 : HandlerState)
  : list Event -> System -> Prop :=
  | ReachInit : reachable services data s0 [] (MkSystem s0 None ∅)
  | ReachStep evs s evs' s' :
      reachable services data s0 evs s -> step services data s evs' s' ->
      reachable services data s0 (evs ++ evs') s'.

(** The frame opens a stream. *)
Definition opens_stream (services : Services) (msg : GenMessage) : Prop :=
  stream_id (header msg) mod 2 = 1 /\ type_ (header msg) = MESSAGE_TYPE_REQUEST /\
  exists n r, dispatch services msg = Ok (ToStream n, r).

Definition reg_ok (services : Services) (evs : list Event) (tid : nat) (msg : GenMessage)
    (pc : TaskPc) : Prop :=
  opens_stream services msg ->
  pc = Start msg \/ (exists r, pc = StreamRegister r /\ stream_id (msg_header r) = stream_id (header msg)) \/
  EvRegister tid (stream_id (header msg)) ∈ evs \/ EvCancel tid ∈ evs.

(** ** Lemmas *)

Lemma dispatch_header services msg t r :
  dispatch services msg = Ok (t, r) -> msg_header r = header msg.
Proof.
  unfold dispatch, message_try_from. munfold. intros E.
  destruct (codec_decode (payload msg)); cbn in E; [|done].
  repeat case_match; by simplify_eq/=.
Qed.

Definition inv (services : Services) (evs : list Event) (sys : System) : Prop :=
  (forall tid pc, tasks sys !! tid = Some pc -> holding pc = true -> reader sys = Some tid) /\
  (forall tid msg, EvFrame tid msg ∈ evs ->
     exists pc, tasks sys !! tid = Some pc /\ reg_ok services evs tid msg pc).

Lemma reg_ok_mono services evs evs' tid msg pc :
  reg_ok services evs tid msg pc -> reg_ok services (evs ++ evs') tid msg pc.
Proof.
  intros H1' Ho. destruct (H1' Ho) as [?|[?|[?|?]]]; [by left|by right; left| |];
    right; right; [left|right]; by apply elem_of_app; left.
Qed.

Lemma task_step_reg services data env tid pc s pc' s' evs evs0 msg :
  task_step services data env tid pc s = Some (pc', s', evs) ->
  reg_ok services evs0 tid msg pc -> reg_ok services (evs0 ++ evs) tid msg pc'.
Proof.
  intros E Hok Ho. destruct (Hok Ho) as [->|[(r & -> & Hr)|[?|?]]].
  - destruct Ho as (Hodd & Hty & n & r & Hd). cbn in E.
    rewrite decide_False, decide_True, Hd in E by naive_solver. simplify_eq.
    right; left. exists r. by rewrite (dispatch_header _ _ _ _ Hd).
  - cbn in E. simplify_eq. right; right; left. rewrite Hr. apply elem_of_app. right. by left.
  - right; right; left. by apply elem_of_app; left.
  - right; right; right. by apply elem_of_app; left.
Qed.

Lemma task_step_holding services data env tid pc s pc' s' evs :
  task_step services data env tid pc s = Some (pc', s', evs) -> holding pc' = true -> holding pc = true.
Proof. destruct pc; cbn; intros; repeat case_match; by simplify_eq/=. Qed.

Lemma task_step_frames services data env tid pc s pc' s' evs tid' msg :
  task_step services data env tid pc s = Some (pc', s', evs) -> EvFrame tid' msg ∉ evs.
Proof.
  destruct pc; cbn; intros; repeat case_match; simplify_eq/=;
    rewrite ?elem_of_cons, ?elem_of_nil; by intros [|[]] || by intros [].
Qed.

Lemma server_inv_step services data evs sys evs' sys' :
  inv services evs sys -> step services data sys evs' sys' -> inv services (evs ++ evs') sys'.
Proof.
  unfold inv. intros [I1 I2] Hs.
  destruct Hs as [s ts tid msg Hn|s ts tid Hh|s rd ts tid pc env pc' s' evs' Ht He|s rd ts tid pc Ht];
    cbn in *; split.
  - intros tid' pc' [[<- <-]|[_ Hl]]%lookup_insert_Some Hh; [done|]. by specialize (I1 _ _ Hl Hh).
  - intros tid' msg' [Hin|Hin]%elem_of_app.
    + destruct (I2 _ _ Hin) as (pc & Hl & Hok). exists pc.
      rewrite lookup_insert_ne by congruence. split; [done|]. by apply reg_ok_mono.
    + apply list_elem_of_singleton in Hin as [= -> ->]. exists (Start msg).
      rewrite lookup_insert_eq. split; [done|]. by left.
  - intros tid' pc' Hl Hp. specialize (I1 _ _ Hl Hp). injection I1 as <-.
    rewrite (Hh _ Hl) in Hp. done.
  - rewrite app_nil_r. done.
  - intros tid' pc1 [[<- <-]|[_ Hl]]%lookup_insert_Some Hp; [|by eapply I1].
    eapply I1; [exact Ht|]. by eapply task_step_holding.
  - intros tid' msg' [Hin|Hin]%elem_of_app.
    2: { by apply (task_step_frames _ _ _ _ _ _ _ _ _ _ _ He) in Hin. }
    destruct (I2 _ _ Hin) as (pc1 & Hl & Hok). destruct (decide (tid = tid')) as [<-|Hne].
    + exists pc'. rewrite lookup_insert_eq. split; [done|].
      assert (pc1 = pc) as -> by congruence. by eapply task_step_reg.
    + exists pc1. rewrite lookup_insert_ne by done. split; [done|]. by apply reg_ok_mono.
  - intros tid' pc1 [[<- <-]|[_ Hl]]%lookup_insert_Some Hp; [done|by eapply I1].
  - intros tid' msg' [Hin|Hin]%elem_of_app.
    2: { by apply list_elem_of_singleton in Hin. }
    destruct (I2 _ _ Hin) as (pc1 & Hl & Hok). destruct (decide (tid = tid')) as [<-|Hne].
    + exists Done. rewrite lookup_insert_eq. split; [done|]. intros _. right; right; right.
      apply elem_of_app. right. by left.
    + exists pc1. rewrite lookup_insert_ne by done. split; [done|]. by apply reg_ok_mono.
Qed.

Lemma server_reachable_inv services data s0 evs sys :
  reachable services data s0 evs sys -> inv services evs sys.
Proof.
  induction 1 as [|evs sys evs' sys' _ IH Hs]; [|by eapply server_inv_step].
  split; cbn.
  - intros tid pc Hl. by rewrite lookup_empty in Hl.
  - intros tid msg Hin. by apply elem_of_nil in Hin.
Qed.

Section Responses.
Context `{!SendPathLaws X}.

(** What [respond] emits, if anything. *)
Lemma respond_emits sid resp x x' r :
  steady x -> respond sid resp x = (x', r) ->
  steady x' /\
  (emitted x' = emitted x \/
   exists p, respond_payload (raw_limit x) resp = Ok p /\
             emitted x' = emitted x ++ [gen_new_response sid p]).
Proof.
  intros Hx E. unfold respond in E. munfold.
  destruct (respond_payload (raw_limit x) resp) as [p|e] eqn:Ep; [|simplify_eq; by eauto].
  split; [by eapply transform_send_steady|]. destruct r as [[]|e].
  - right. exists p. split; [done|]. by eapply transform_send_ok.
  - destruct (transform_send_err _ _ _ _ _ _ Hx E); [by left|right; eauto].
Qed.

Lemma respond_payload_fits `{!CodecLaws Response} max_len resp b :
  codec_encode resp = Ok b -> len b <= max_len -> respond_payload max_len resp = Ok b.
Proof. intros Hb Hl. unfold respond_payload. munfold. rewrite Hb. cbn. by rewrite decide_False by lia. Qed.

Lemma response_size `{!CodecLaws Response} x resp b :
  codec_encode resp = Ok b -> len b <= raw_limit x -> check_oversize (codec_size resp) true = Ok tt.
Proof.
  intros Hb Hl. pose proof (raw_limit_max x). rewrite (codec_size_encode _ _ Hb).
  rewrite len_u32_small; [apply check_oversize_ok; lia|]. change MESSAGE_LENGTH_MAX with 4194304 in *. unfold U32. lia.
Qed.

(** The response that carries the outcome of a request. *)
Definition outcome_response (r : res Status Response) : Response :=
  match r with Ok resp => resp | Err status => init_status status end.

(** The message is handed to the connection, as an error report or not, and nothing else is: it has
    entered the writer's channel where [transform_send] succeeds, and otherwise at most this one has. *)
Definition hands_over (m : GenMessage) (rpc_error : bool) (x x' : X) : Prop :=
  x' = (transform_send m rpc_error false x).1 /\
  match (transform_send m rpc_error false x).2 with
  | Ok _ => emitted x' = emitted x ++ [m]
  | Err _ => emitted x' = emitted x \/ emitted x' = emitted x ++ [m]
  end.

Lemma sent_hands_over m b x : steady x -> hands_over m b x (transform_send m b false x).1.
Proof.
  intros Hx. split; [done|]. destruct (transform_send m b false x) as [x' [[]|e]] eqn:E; cbn.
  - by eapply transform_send_ok.
  - by eapply transform_send_err.
Qed.

Lemma hands_over_emits m b x x' : hands_over m b x x' -> emitted x' = emitted x \/ emitted x' = emitted x ++ [m].
Proof. intros [_ He]. destruct (transform_send m b false x).2; [by right|done]. Qed.

(** A response that fits is sent as it is. *)
Lemma respond_fits `{!CodecLaws Response} sid resp x b :
  codec_encode resp = Ok b -> len b <= raw_limit x ->
  respond sid resp x = transform_send (gen_new_response sid b) true false x.
Proof. intros Hb Hl. unfold respond. munfold. by rewrite (respond_payload_fits _ _ _ Hb Hl). Qed.

Lemma finish_request_sends `{!CodecLaws Response} sid (r : res Status Response) x b :
  codec_encode (outcome_response r) = Ok b -> len b <= raw_limit x ->
  finish_request sid (Some <$> r) x = (transform_send (gen_new_response sid b) true false x).1.
Proof.
  intros Hb Hl. destruct r as [resp|status]; cbn in *.
  - by rewrite (response_size x resp b Hb Hl), (respond_fits _ _ _ _ Hb Hl).
  - unfold respond_with_status. by rewrite (respond_fits _ _ _ _ Hb Hl).
Qed.

Lemma finish_request_emits `{!CodecLaws Response} sid (r : res Status Response) x b :
  steady x -> codec_encode (outcome_response r) = Ok b -> len b <= raw_limit x ->
  let x' := finish_request sid (Some <$> r) x in
  emitted x' = emitted x \/ emitted x' = emitted x ++ [gen_new_response sid b].
Proof.
  intros Hx Hb Hl x'. unfold x'. rewrite (finish_request_sends _ _ _ _ Hb Hl).
  by eapply hands_over_emits, sent_hands_over.
Qed.
End Responses.

(** ** Properties *)

(** What a unary call is specified to give: the handler's result on the decoded request, or the
    status that explains why it was not run. *)
Definition unary_spec (services : Services) (data : D) (elapsed : bool) (h : MessageHeader)
    (req : Request) : res Status Response :=
  match services !! service req with
  | None => Err (get_status INVALID_ARGUMENT (service req +:+ " service does not exist"))
  | Some srv =>
      match methods srv !! method req with
      | None => Err (get_status UNIMPLEMENTED (method req +:+ " method"))
      | Some m =>
          if decide (timeout_nano req <> 0 /\ elapsed = true)
          then Err (get_status DEADLINE_EXCEEDED "timeout")
          else map_err (fun e => get_status UNKNOWN (error_display e))
                 (m (MkTtrpcContext h (from_pb (metadata req)) (timeout_nano req) data) req)
      end
  end.

(** How the caller sees it: a status that is not OK is an error. *)
Definition caller_sees (r : res Status Response) : Result Response :=
  match r with
  | Err status => Err (RpcStatus status)
  | Ok resp => match non_ok resp with Some status => Err (RpcStatus status) | None => Ok resp end
  end.

Section Properties.
Context `{!SendPathLaws X, !CodecLaws Request, !CodecLaws Response}.

Lemma handle_request_unary services data env msg req s :
  message_try_from msg = Ok (MkMessage (header msg) req) ->
  (forall srv, services !! service req = Some srv -> service_streams srv !! method req = None) ->
  handle_request services data env msg s =
    (s, Some <$> unary_spec services data (env_elapsed env) (header msg) req).
Proof.
  intros Hd Hns. unfold handle_request, dispatch, unary_spec. rewrite Hd. munfold. cbn.
  destruct (services !! service req) as [srv|] eqn:Es; cbn; [|done].
  unfold get_method, get_stream. destruct (methods srv !! method req) as [m|]; cbn.
  - unfold handle_method. cbn. munfold.
    destruct (decide (timeout_nano req = 0)) as [Ht|Ht].
    { rewrite decide_False by tauto. done. }
    destruct (env_elapsed env); [by rewrite decide_True by tauto|].
    rewrite decide_False by (intros [_ ?]; done). done.
  - by rewrite (Hns srv).
Qed.

Lemma unary_spec_status services data elapsed h req status :
  unary_spec services data elapsed h req = Err status -> code status <> OK.
Proof.
  unfold unary_spec. intros E. repeat case_match; simplify_eq/=; try done.
  match goal with E : map_err _ ?r = Err _ |- _ => destruct r; by simplify_eq/= end.
Qed.

(** The frame of a unary request makes the server send the response to it, and nothing else. *)
Lemma server_unary_sends services data env id req g s b :
  is_u32 id -> id mod 2 = 1 -> request_frame id req = Ok g -> steady (h_path s) ->
  (forall srv, services !! service req = Some srv -> service_streams srv !! method req = None) ->
  let outcome := unary_spec services data (env_elapsed env) (header g) req in
  codec_encode (outcome_response outcome) = Ok b -> len b <= raw_limit (h_path s) ->
  let s' := server_handle_msg services data env g s in
  h_streams s' = h_streams s /\ h_boxes s' = h_boxes s /\
  hands_over (gen_new_response id b) true (h_path s) (h_path s').
Proof.
  intros Hid Hodd Hg Hst Hns outcome Hb Hl s'.
  destruct (frame_of_request id req g Hid Hg) as (_ & Hsid & Hty & _ & Hdec).
  unfold s', server_handle_msg. rewrite Hsid.
  rewrite decide_False by naive_solver. rewrite decide_True by done.
  rewrite (handle_request_unary _ _ _ _ _ _ Hdec Hns). fold outcome. cbn.
  split_and!; [done|done|]. rewrite (finish_request_sends _ _ _ _ Hb Hl). by apply sent_hands_over.
Qed.

(** The caller reads the response back as the outcome of the request. *)
Lemma response_read_back services data elapsed h req id b :
  let outcome := unary_spec services data elapsed h req in
  codec_encode (outcome_response outcome) = Ok b ->
  request_result (Ok (gen_new_response id b)) = caller_sees outcome.
Proof.
  intros outcome Hb. unfold request_result. munfold. cbn [payload gen_new_response].
  rewrite (codec_decode_encode _ _ Hb). cbn.
  unfold caller_sees, outcome_response. destruct outcome as [resp|status] eqn:Eo; [done|].
  unfold non_ok. cbn. rewrite decide_True; [done|]. by eapply unary_spec_status.
Qed.

(** C5: a unary call computes what it is specified to, end to end: for the frame of a request that the
    client has built, the server hands the connection exactly one message, which enters the channel
    to the writer unless the send itself reports an error. The message is a response on the
    request's own stream, and the client turns it into the result of the handler on the very
    request that was sent, or into the status that explains the failure: no such service, no such
    method, deadline exceeded, or a handler error. The response is assumed to fit the frame limit
    of the connection. *)
Theorem unary_call_end_to_end (services : Services) (data : D) (env : HandlerEnv) (id : Z)
    (req : Request) (g : GenMessage) (s : HandlerState) (b : list byte) :
  is_u32 id -> id mod 2 = 1 -> request_frame id req = Ok g -> steady (h_path s) ->
  (forall srv, services !! service req = Some srv -> service_streams srv !! method req = None) ->
  let outcome := unary_spec services data (env_elapsed env) (header g) req in
  codec_encode (outcome_response outcome) = Ok b -> len b <= raw_limit (h_path s) ->
  let s' := server_handle_msg services data env g s in
  h_streams s' = h_streams s /\ h_boxes s' = h_boxes s /\
  exists m, hands_over m true (h_path s) (h_path s') /\
    stream_id (header m) = id /\ type_ (header m) = MESSAGE_TYPE_RESPONSE /\
    request_result (Ok m) = caller_sees outcome.
Proof.
  intros Hid Hodd Hg Hst Hns outcome Hb Hl s'.
  destruct (server_unary_sends _ data env _ _ _ s _ Hid Hodd Hg Hst Hns Hb Hl) as (? & ? & He).
  split_and!; [done|done|]. exists (gen_new_response id b).
  split_and!; [exact He|done|done|]. by apply response_read_back.
Qed.

(** Whatever a handler returns, the payload handed to the outbound transform is within its safe
    limit: a response above the limit is replaced, before the transform runs, by an
    [INVALID_ARGUMENT] error response on the same stream. The encoding of that error is assumed to
    be within the limit itself. *)
Theorem respond_within_limit (sid : Z) (resp : Response) (x x' : X) (r : Result unit)
    (b eb : list byte) :
  steady x -> codec_encode resp = Ok b ->
  let small := error_into_response (RpcStatus (get_status INVALID_ARGUMENT
                 (oversize_response_msg (len b) (raw_limit x)))) in
  codec_encode small = Ok eb -> len eb <= raw_limit x ->
  respond sid resp x = (x', r) ->
  emitted x' = emitted x \/
  exists p, emitted x' = emitted x ++ [gen_new_response sid p] /\ len p <= raw_limit x /\
    codec_decode p = Ok (if decide (len b > raw_limit x) then small else resp).
Proof.
  intros Hst Hb small Heb Hle E.
  destruct (respond_emits _ _ _ _ _ Hst E) as [_ [?|(p & Hp & He)]]; [by left|right].
  exists p. split; [done|]. unfold respond_payload in Hp. munfold. rewrite Hb in Hp. cbn in Hp.
  case_decide as Hd.
  - fold small in Hp. rewrite Heb in Hp. simplify_eq/=. split; [done|].
    by rewrite (codec_decode_encode _ _ Heb).
  - simplify_eq/=. split; [lia|]. by rewrite (codec_decode_encode _ _ Hb).
Qed.

(** C33: protocol violations do not touch the connection's streams: a frame with an even stream id is
    answered with [INVALID_ARGUMENT] and a DATA frame for a stream that is not registered as well,
    without running a handler or changing the registry or a mailbox; a frame of an unknown type is
    ignored altogether. At most one message is emitted, on the stream the frame named. *)
Theorem violations_are_contained (services : Services) (data : D) (env : HandlerEnv)
    (msg : GenMessage) (s : HandlerState) :
  let sid := stream_id (header msg) in
  let s' := server_handle_msg services data env msg s in
  steady (h_path s) ->
  sid mod 2 <> 1 \/
  (type_ (header msg) = MESSAGE_TYPE_DATA /\ h_streams s !! sid = None) \/
  (type_ (header msg) <> MESSAGE_TYPE_DATA /\ type_ (header msg) <> MESSAGE_TYPE_REQUEST) ->
  h_streams s' = h_streams s /\ h_boxes s' = h_boxes s /\
  (emitted (h_path s') = emitted (h_path s) \/
   (exists txt p, emitted (h_path s') = emitted (h_path s) ++ [gen_new_response sid p] /\
      respond_payload (raw_limit (h_path s)) (init_status (get_status INVALID_ARGUMENT txt)) = Ok p)).
Proof.
  intros sid s' Hst Hv. unfold s', server_handle_msg. fold sid.
  assert (forall txt, let x' := respond_with_status sid (get_status INVALID_ARGUMENT txt) (h_path s) in
    emitted x' = emitted (h_path s) \/
    exists txt0 p, emitted x' = emitted (h_path s) ++ [gen_new_response sid p] /\
      respond_payload (raw_limit (h_path s)) (init_status (get_status INVALID_ARGUMENT txt0)) = Ok p) as Hresp.
  { intros txt. unfold respond_with_status. destruct (respond _ _ _) as [x' r] eqn:E.
    destruct (respond_emits _ _ _ _ _ Hst E) as [_ [?|(p & Hp & He)]]; [by left|right]. by exists txt, p. }
  case_decide as Hodd; [split_and!; [done|done|apply Hresp]|].
  destruct Hv as [?|[[Hty Hs]|[Hty1 Hty2]]]; [done| |].
  - rewrite decide_False by (rewrite Hty; done). rewrite decide_True by done.
    unfold handle_data. fold sid. rewrite Hs. split_and!; [done|done|apply Hresp].
  - rewrite !decide_False by done. split_and!; [done|done|by left].
Qed.
End Properties.

(** C28: a stream is registered before the frames that follow its opening are looked at: whenever the
    reader is ready for the next frame, every frame taken so far that opens a stream has been
    entered into the registry, unless its handler task was shut down. A DATA frame that a client
    sends right behind the opening request therefore finds its stream. *)
Theorem registered_before_next_frame (services : Services) (data : D) (s0 : HandlerState)
    (evs : list Event) (sys : System) (tid : nat) (msg : GenMessage) :
  reachable services data s0 evs sys -> reader sys = None ->
  EvFrame tid msg ∈ evs -> opens_stream services msg ->
  EvRegister tid (stream_id (header msg)) ∈ evs \/ EvCancel tid ∈ evs.
Proof.
  intros [I1 I2]%server_reachable_inv Hr Hin Ho. destruct (I2 _ _ Hin) as (pc & Hl & Hok).
  destruct (Hok Ho) as [->|[(r & -> & _)|?]]; [| |done];
    (assert (reader sys = Some tid) by (by eapply I1)); congruence.
Qed.
End AsyncServer.

Section Witness.
Local Instance server_texts : Texts :=
  {| status_debug := fun _ => ""; nix_display := pretty; nix_debug := pretty;
     tokio_send_error := "channel closed" |}.
Local Instance server_request_codec : Codec Request := request_codec.
Local Instance server_response_codec : Codec Response := response_codec.
Local Instance server_request_laws : CodecLaws Request := request_codec_laws.
Local Instance server_response_laws : CodecLaws Response := response_codec_laws.
Abbreviation ex_path_state := (ConnectionContext unit NonceTransform * ListChan SendingMessage)%type.
Local Instance server_send_path : SendPath ex_path_state := alone_path.
Local Instance server_send_path_laws : SendPathLaws ex_path_state := alone_path_laws.

Abbreviation ex_services_type := (@Services unit string).
Abbreviation ex_hstate := (@HandlerState ex_path_state ListChan).

(** One unary method that echoes its payload and one streaming method. *)
Definition ex_service : @Service unit string :=
  MkService {["Echo" := fun _ req => Ok (MkResponse None (req_payload req))]} {["Chat" := "chat"]}.
Definition ex_services : ex_services_type := {["svc" := ex_service]}.
Definition ex_hs : ex_hstate := MkHandlerState ∅ ∅ 0 (MkCtx tt None, mpsc_channel).
Definition ex_env : HandlerEnv := MkHandlerEnv false (Ok (Ok None)).

Definition ex_unary : Request := MkRequest "svc" "Echo" [Byte.x07] 0 [].
Definition ex_outcome : Response := MkResponse None [Byte.x07].

Lemma unary_call_end_to_end_witness :
  exists g m s', request_frame 5 ex_unary = Ok g /\
    server_handle_msg ex_services tt ex_env g ex_hs = s' /\
    emitted (h_path s') = [m] /\ request_result (Ok m) = Ok ex_outcome.
Proof.
  destruct (request_frame 5 ex_unary) as [g|] eqn:Eg; [|by vm_compute in Eg].
  destruct (unary_call_end_to_end ex_services tt ex_env 5 ex_unary g ex_hs (countable_encode ex_outcome))
    as (_ & _ & m & [Hx He] & _ & _ & Hr).
  - done.
  - done.
  - exact Eg.
  - done.
  - intros srv Hs. vm_compute in Hs. injection Hs as <-. by vm_compute.
  - vm_compute in Eg. injection Eg as <-. by vm_compute.
  - by vm_compute.
  - exists g, m, (server_handle_msg ex_services tt ex_env g ex_hs). split_and!; [done|done| |].
    + destruct (transform_send m true false (h_path ex_hs)).2; [exact He|].
      destruct He as [He|He]; [|exact He]. exfalso. vm_compute in Eg. injection Eg as <-. by vm_compute in He.
    + rewrite Hr. vm_compute in Eg. injection Eg as <-. by vm_compute.
Defined.

(** The echo's response fits. *)
Lemma respond_within_limit_witness :
  exists x' r, respond 3 ex_outcome (h_path ex_hs) = (x', r) /\
    (emitted x' = [] \/ exists p, emitted x' = [gen_new_response 3 p] /\ codec_decode p = Ok ex_outcome).
Proof.
  destruct (respond 3 ex_outcome (h_path ex_hs)) as [x' r] eqn:E. exists x', r. split; [done|].
  destruct (respond_within_limit 3 ex_outcome (h_path ex_hs) x' r (countable_encode ex_outcome)
    (countable_encode (error_into_response (RpcStatus (get_status INVALID_ARGUMENT
      (oversize_response_msg (len (countable_encode ex_outcome)) (raw_limit (h_path ex_hs))))))))
    as [Hno|(p & He & _ & Hd)]; [done|done|done|by vm_compute|exact E|by left|right].
  exists p. split; [exact He|]. rewrite Hd. by rewrite decide_False by (by vm_compute).
Defined.

Lemma violations_are_contained_witness :
  let s' := server_handle_msg ex_services tt ex_env (gen_new_data 4 [Byte.x01]) ex_hs in
  h_streams s' = ∅ /\ length (emitted (h_path s')) = 1%nat.
Proof.
  intros s'. destruct (violations_are_contained ex_services tt ex_env (gen_new_data 4 [Byte.x01]) ex_hs)
    as (Hs & _ & _); [done|left; by vm_compute|]. split; [exact Hs|by vm_compute].
Defined.

(** ** A stream opened, and two DATA frames *)

Definition ex_open : GenMessage :=
  default default_gen (match request_frame 7 (MkRequest "svc" "Chat" [] 0 []) with
                       | Ok g => Some (MkGen (add_flags (header g) (Z.lor FLAG_REMOTE_OPEN FLAG_NO_DATA)) (payload g))
                       | Err _ => None end).
Definition ex_data1 : GenMessage := gen_new_data 7 [Byte.x01].
Definition ex_data2 : GenMessage := gen_new_data 7 [Byte.x02].

Inductive Sched := Take (tid : nat) (msg : GenMessage) | Resume | Task (tid : nat).

(** A schedule of the reader and the tasks. *)
Definition exec (a : Sched) (sys : @System ex_path_state ListChan unit)
  : option (System * list Event) :=
  match a, reader sys with
  | Take tid msg, None =>
      match tasks sys !! tid with
      | None => Some (MkSystem (hstate sys) (Some tid) (<[tid := Start msg]> (tasks sys)),
                      [EvFrame tid msg])
      | Some _ => None
      end
  | Resume, Some tid =>
      if from_option (negb ∘ holding) true (tasks sys !! tid)
      then Some (MkSystem (hstate sys) None (tasks sys), []) else None
  | Task tid, _ =>
      pc ← tasks sys !! tid;
      '(pc', s', evs) ← task_step ex_services tt ex_env tid pc (hstate sys);
      Some (MkSystem s' (reader sys) (<[tid := pc']> (tasks sys)), evs)
  | _, _ => None
  end.

Fixpoint exec_all (acts : list Sched) (evs : list Event) (sys : System)
  : option (list Event * System) :=
  match acts with
  | [] => Some (evs, sys)
  | a :: acts' => '(sys', evs') ← exec a sys; exec_all acts' (evs ++ evs') sys'
  end.

Lemma server_exec_reachable acts evs sys evs' sys' :
  reachable ex_services tt ex_hs evs sys -> exec_all acts evs sys = Some (evs', sys') ->
  reachable ex_services tt ex_hs evs' sys'.
Proof.
  revert evs sys. induction acts as [|a acts IH]; intros evs sys Hr E; simpl in E; [by simplify_eq|].
  apply bind_Some in E as ([sys1 evs1] & E1 & E). eapply IH; [|exact E].
  eapply ReachStep; [exact Hr|]. destruct sys as [hs rd ts]. unfold exec in E1.
  destruct a as [tid msg| |tid], rd as [rtid|]; cbn in E1; try done.
  - destruct (ts !! tid) eqn:Et; simplify_eq. by apply StepFrame.
  - destruct (from_option (negb ∘ holding) true (ts !! rtid)) eqn:Eh; simplify_eq. apply StepResume.
    intros pc Hl. rewrite Hl in Eh. by apply negb_true_iff in Eh.
  - apply bind_Some in E1 as (pc & Hl & E1). apply bind_Some in E1 as ([[pc' s'] evs2] & Et & E1).
    simplify_eq. by eapply StepTask.
  - apply bind_Some in E1 as (pc & Hl & E1). apply bind_Some in E1 as ([[pc' s'] evs2] & Et & E1).
    simplify_eq. by eapply StepTask.
Qed.

Definition ex_opening : list Sched := [Take 0 ex_open; Task 0; Task 0; Task 0; Resume].

Lemma registered_before_next_frame_witness :
  exists evs sys, exec_all ex_opening [] (MkSystem ex_hs None ∅) = Some (evs, sys) /\
    (EvRegister 0 7 ∈ evs \/ EvCancel 0 ∈ evs).
Proof.
  destruct (exec_all ex_opening [] (MkSystem ex_hs None ∅)) as [[evs sys]|] eqn:E;
    [|by vm_compute in E].
  exists evs, sys. split; [done|].
  apply (registered_before_next_frame ex_services tt ex_hs evs sys 0 ex_open).
  - eapply server_exec_reachable; [apply ReachInit|exact E].
  - vm_compute in E. injection E as <- <-. done.
  - vm_compute in E. injection E as <- <-. by left.
  - split_and!; [done|by vm_compute|]. exists "chat". eexists. vm_compute. reflexivity.
Defined.

(** The second DATA frame is delivered before the first: the reader goes on as soon as the task of a
    DATA frame runs, and the task sends to the mailbox afterwards. *)
Lemma data_frames_can_overtake :
  exists acts evs sys q,
    exec_all acts [] (MkSystem ex_hs None ∅) = Some (evs, sys) /\
    reachable ex_services tt ex_hs evs sys /\
    omap (fun e => match e with EvFrame _ m => Some m | _ => None end) evs = [ex_open; ex_data1; ex_data2] /\
    h_boxes (hstate sys) !! 0%nat = Some q /\ mpsc_items q = [Ok ex_data2; Ok ex_data1].
Proof.
  set (acts := ex_opening ++ [Take 1 ex_data1; Task 1; Resume; Take 2 ex_data2; Task 2; Resume;
    Task 2; Task 2; Task 1; Task 1]).
  destruct (exec_all acts [] (MkSystem ex_hs None ∅)) as [[evs sys]|] eqn:E; [|by vm_compute in E].
  exists acts, evs, sys. assert (reachable ex_services tt ex_hs evs sys) as Hr
    by (eapply server_exec_reachable; [apply ReachInit|exact E]).
  vm_compute in E. injection E as <- <-. eexists. split_and!; [by vm_compute|exact Hr|by vm_compute|..];
    vm_compute; reflexivity.
Qed.
End Witness.
