(* ===== verification/AsyncListen.v ===== *)
(** The life of an asynchronous server (src/src/asynchronous/server.rs): its listeners, the accept
    loop and the operations that start and stop it. *)
From S2P Require Import Prelude Errors Extension Context AsyncServer.

Section AsyncListen.
Context {L D T StreamName : Type}.

(** An accept loop that owns its listener, or one that has ended. *)
Inductive AcceptLoop := Accepting (l : L) | Ended.

(** [Server]; accept loops are named, and [stop_listen_tx] is the sender to the loop of that name.
    [listeners] is a [Vec]: pushed to and popped at its end. *)
Record Server := MkServer {
  listeners : list L;
  services : @Services D StreamName;
  is_shutdown : bool;
  stop_listen_tx : option nat;
  server_accept_hook : option (Hook D T);
  loops : gmap nat AcceptLoop;
  next_loop : nat }.

Definition server_new : Server := MkServer [] ∅ false None None ∅ 0.

Definition set_listeners (s : Server) (l : list L) : Server :=
  MkServer l (services s) (is_shutdown s) (stop_listen_tx s) (server_accept_hook s) (loops s) (next_loop s).
Definition set_stop_tx (s : Server) (t : option nat) : Server :=
  MkServer (listeners s) (services s) (is_shutdown s) t (server_accept_hook s) (loops s) (next_loop s).
Definition set_loop (s : Server) (i : nat) (l : AcceptLoop) : Server :=
  MkServer (listeners s) (services s) (is_shutdown s) (stop_listen_tx s) (server_accept_hook s)
    (<[i := l]> (loops s)) (next_loop s).

(** [add_listener]. *)
Definition add_listener (s : Server) (l : L) : Server := set_listeners s (listeners s ++ [l]).

(** [bind]: the transport's own [bind] gives a listener or an error text. *)
Definition bind (s : Server) (bound : res string L) : Result Server :=
  listener ← map_err (err_to_others_err "Listener::bind error ") bound;
  mret (add_listener s listener).

(** [add_unix_listener], [add_tcp_listener], [add_vsock_listener]: the transport makes a listener of
    the raw descriptor, or fails with an error text. *)
Definition add_raw_listener (error : string) (s : Server) (made : res string L) : Result Server :=
  listener ← map_err (err_to_others_err error) made;
  mret (add_listener s listener).
Definition add_unix_listener : Server -> res string L -> Result Server :=
  add_raw_listener "from_raw_unix_listener_fd error".
Definition add_tcp_listener : Server -> res string L -> Result Server :=
  add_raw_listener "from_raw_tcp_listener_fd error".
Definition add_vsock_listener : Server -> res string L -> Result Server :=
  add_raw_listener "from_raw_unix_listener_fd error".

(** [set_accept_hook]. *)
Definition set_accept_hook (s : Server) (h : Hook D T) : Server :=
  MkServer (listeners s) (services s) (is_shutdown s) (stop_listen_tx s) (Some h) (loops s) (next_loop s).

(** [register_service]: [extend], the new services win. Its panic once the server has been started
    is out of reach: starting borrows the server, registering consumes it. *)
Definition register_service (s : Server) (new : @Services D StreamName) : Server :=
  MkServer (listeners s) ((new : gmap string (@Service D StreamName)) ∪ services s) (is_shutdown s) (stop_listen_tx s) (server_accept_hook s)
    (loops s) (next_loop s).

(** [get_listener]: [Vec::pop]. *)
Definition get_listener (s : Server) : Server * Result L :=
  match last (listeners s) with
  | Some l => (set_listeners s (removelast (listeners s)), Ok l)
  | None => (s, Err (Others "ttrpc-rust server started with no bound listener"))
  end.

(** Dropping the sender of a loop: its [stop_listen_rx.recv()] gives [None] and the loop breaks,
    dropping its listener. *)
Definition drop_stop_tx (s : Server) : Server :=
  match stop_listen_tx s with
  | Some i => set_loop (set_stop_tx s None) i Ended
  | None => s
  end.

(** [do_start]: assigning [stop_listen_tx] drops the sender of an earlier loop. *)
Definition do_start (incoming : L) (s : Server) : Server :=
  let s := drop_stop_tx s in
  MkServer (listeners s) (services s) (is_shutdown s) (Some (next_loop s)) (server_accept_hook s)
    (<[next_loop s := Accepting incoming]> (loops s)) (S (next_loop s)).

(** [start]. *)
Definition start (s : Server) : Server * Result unit :=
  match get_listener s with
  | (s', Ok incoming) => (do_start incoming s', Ok tt)
  | (s', Err e) => (s', Err e)
  end.

(** What [incoming.next()] yields in an accept loop, and what comes of it. *)
Inductive Incoming := NewConn (fd : option Z) | ConnError | NoMore.

(** The connection task spawned for an accepted socket: the hook decides the context, or the
    connection is dropped. *)
Definition accept_connection (s : Server) (data_default : D) (fd : option Z) (dup : Z -> Z)
    (os_error : IoError) (race : HookRace) : option (ConnectionContext D T) :=
  match on_accept (MkExtConfig (server_accept_hook s)) fd dup os_error race with
  | Ok output => Some (context_new data_default output)
  | Err _ => None
  end.

(** One turn of accept loop [i]. *)
Definition accept_turn (i : nat) (n : Incoming) (s : Server) : Server :=
  match loops s !! i, n with
  | Some (Accepting _), NoMore => set_loop s i Ended
  | _, _ => s
  end.

(** [stop_listen]; [None]: the [unwrap] of the send to an accept loop that has ended panics. *)
Definition stop_listen (s : Server) : option Server :=
  match stop_listen_tx s with
  | None => Some s
  | Some i =>
      let s := set_stop_tx s None in
      match loops s !! i with
      | Some (Accepting l) => Some (set_listeners (set_loop s i Ended) [l])
      | _ => None
      end
  end.

(** [disconnect], the wait for the connections to exit being left to [Shutdown]. *)
Definition disconnect (s : Server) : Server :=
  MkServer (listeners s) (services s) true (stop_listen_tx s) (server_accept_hook s) (loops s) (next_loop s).

(** [shutdown]. *)
Definition server_shutdown (s : Server) : option Server :=
  s ← stop_listen s;
  let s := disconnect s in
  Some (set_listeners s (removelast (listeners s))).

(** ** Properties *)

Lemma pop_push s l : get_listener (add_listener s l) = (s, Ok l).
Proof.
  unfold get_listener, add_listener. cbn. rewrite last_snoc, removelast_last.
  by destruct s.
Qed.

Fixpoint accept_turns (i : nat) (ns : list Incoming) (s : Server) : Server :=
  match ns with [] => s | n :: ns' => accept_turns i ns' (accept_turn i n s) end.

Lemma accept_turns_keep i ns s l :
  loops s !! i = Some (Accepting l) -> NoMore ∉ ns -> accept_turns i ns s = s.
Proof.
  revert s. induction ns as [|n ns IH]; intros s Hl Hn; [done|]. cbn.
  apply not_elem_of_cons in Hn as [Hne Hn].
  assert (accept_turn i n s = s) as -> by (unfold accept_turn; rewrite Hl; by destruct n).
  by apply IH.
Qed.

(** [start] serves the listener added last, [stop_listen] gives it back whatever connections
    arrived meanwhile, and the server can then be started again on that same listener; the other
    listeners of the server are dropped by [stop_listen]. A server without listeners does not
    start. *)
Theorem start_stop_start (s : Server) (l : L) (ns : list Incoming) :
  stop_listen_tx s = None -> NoMore ∉ ns ->
  let s1 := (start (add_listener s l)).1 in
  let s2 := accept_turns (next_loop s) ns s1 in
  (start (add_listener s l)).2 = Ok tt /\
  loops s2 !! next_loop s = Some (Accepting l) /\
  exists s3, stop_listen s2 = Some s3 /\ listeners s3 = [l] /\ services s3 = services s /\
    loops s3 !! next_loop s = Some Ended /\
    (exists s4, start s3 = (s4, Ok tt) /\ listeners s4 = [] /\
       loops s4 !! next_loop s3 = Some (Accepting l)) /\
    (listeners s = [] -> is_err (start s).2 = true).
Proof.
  intros Hs Hn s1 s2. unfold s2, s1, start. rewrite pop_push. cbn [fst snd].
  unfold do_start, drop_stop_tx. rewrite Hs. cbn [fst snd].
  set (s1' := MkServer _ _ _ _ _ _ _).
  assert (loops s1' !! next_loop s = Some (Accepting l)) as Hl by (by apply lookup_insert_eq).
  rewrite (accept_turns_keep _ _ _ _ Hl Hn). split_and!; [done|done|].
  unfold stop_listen. cbn [stop_listen_tx s1' loops set_stop_tx]. cbn in Hl. rewrite Hl.
  eexists. split_and!; [done|done|done|by apply lookup_insert_eq| |].
  - eexists. split_and!; [done|done|]. by apply lookup_insert_eq.
  - intros E. unfold get_listener. by rewrite E.
Qed.

(** Stopping, and shutting down, a server whose listener has come to its end panics. *)
Lemma stop_after_end_panics (s : Server) (i : nat) (l : L) :
  stop_listen_tx s = Some i -> loops s !! i = Some (Accepting l) ->
  stop_listen (accept_turn i NoMore s) = None /\ server_shutdown (accept_turn i NoMore s) = None.
Proof.
  intros Ht Hl. assert (stop_listen (accept_turn i NoMore s) = None) as E.
  { unfold accept_turn. rewrite Hl. unfold stop_listen. cbn. rewrite Ht. cbn. by rewrite lookup_insert_eq. }
  split; [done|]. unfold server_shutdown. by rewrite E.
Qed.
End AsyncListen.

Lemma start_stop_start_witness :
  let s : @Server nat unit NonceTransform string := add_listener server_new 1%nat in
  exists s3, stop_listen (accept_turns 0 [NewConn (Some 4); ConnError] (start (add_listener s 2%nat)).1) = Some s3 /\
    listeners s3 = [2%nat].
Proof.
  intros s. destruct (start_stop_start s 2%nat [NewConn (Some 4); ConnError]) as (_ & _ & s3 & H3 & Hl & _);
    [done|by rewrite !not_elem_of_cons; auto using not_elem_of_nil|]. by exists s3.
Defined.
