(* ===== verification/ServerConn.v ===== *)
(** Connections of the asynchronous server (src/src/asynchronous/server.rs): the reader delegate, the
    handler tasks, the spawned stream handlers and the writer of one connection, interleaved; and
    the server around them, whose shutdown waits for the readers and writers of all connections. *)
From S2P Require Import Prelude Errors Wire Codec Frame Channel Extension Context Stream Connection Shutdown.
From S2P Require Import AsyncServer.

(** [ConnectionContext::inbound] on a frame that has arrived, as the path's context runs it. *)
Class RecvPath (X : Type) := { receive : bool -> GenMessage -> X -> X * Result GenMessage }.

Class RecvPathLaws (X : Type) `{SendPath X, RecvPath X} : Prop := {
  receive_emitted : forall q m x, emitted (receive q m x).1 = emitted x;
  receive_steady : forall q m x, steady x -> steady (receive q m x).1 }.

Section ServerConn.
Context {X : Type} `{SendPath X, RecvPath X} {Q : Type -> Type} `{Mpsc Q, Texts}.
Context `{Codec Request} `{Codec Response} {D StreamName : Type}.
Context (services : @Services D StreamName) (data : D).

(** ** One connection *)

(** [Connection::run] of the server: in its loop, in [exit], or returned, with its delegate dropped;
    whether the wait of [exit] ran into its timeout. *)
Inductive Phase := Looping | Exiting | Gone (elapsed : bool).

(** The writer task; the reader aborts it after a read error. *)
Inductive WriterState := Running | WriterEnded (r : Result unit) | Aborted.

(** The streams of a connection, by the task that opened them: the spawned handlers that have not
    returned, the live [StreamSender]s with their id, and the live [StreamReceiver]s with their id
    and mailbox. *)
Record Streams := MkStreams {
  running : gset nat;
  senders : gmap nat Z;
  receivers : gmap nat (Z * chan_id) }.

(** [ServerReader] and [ServerWriter] with the tasks of the connection: [handlers] are the reader's
    position and the handler tasks, [handler_down] is the flag of [handler_shutdown], [taken]
    counts the messages the writer took out of its channel. [disconnected] and [cancelled], that
    [disconnect] was called and which tasks were cut short, are specification only. *)
Record ServerConn := MkServerConn {
  handlers : @System X Q D;
  phase : Phase;
  handler_down : bool;
  disconnected : bool;
  live_streams : Streams;
  cancelled : gset nat;
  taken : nat;
  writer_state : WriterState }.

(** [spawn_connection_handler], [ServerBuilder::build] and [Connection::new]: empty registries, a
    notifier of the connection's own, and both tasks started. *)
Definition spawn_connection_handler (x : X) : ServerConn :=
  MkServerConn (MkSystem (MkHandlerState ∅ ∅ 0 x) None ∅) Looping false false
    (MkStreams ∅ ∅ ∅) ∅ 0 Running.

Definition path (c : ServerConn) : X := h_path (hstate (handlers c)).
Definition conn_tasks (c : ServerConn) : gmap nat TaskPc := tasks (handlers c).

Definition set_handlers (c : ServerConn) (y : System) : ServerConn :=
  MkServerConn y (phase c) (handler_down c) (disconnected c) (live_streams c) (cancelled c) (taken c) (writer_state c).
Definition with_hstate (c : ServerConn) (s : HandlerState) : ServerConn :=
  set_handlers c (MkSystem s (reader (handlers c)) (conn_tasks c)).
Definition with_path (c : ServerConn) (x : X) : ServerConn :=
  with_hstate c (set_path (hstate (handlers c)) x).
Definition set_phase (c : ServerConn) (p : Phase) (down : bool) : ServerConn :=
  MkServerConn (handlers c) p down (disconnected c) (live_streams c) (cancelled c) (taken c) (writer_state c).
Definition set_live (c : ServerConn) (l : Streams) : ServerConn :=
  MkServerConn (handlers c) (phase c) (handler_down c) (disconnected c) l (cancelled c) (taken c) (writer_state c).
Definition set_cancelled (c : ServerConn) (l : gset nat) : ServerConn :=
  MkServerConn (handlers c) (phase c) (handler_down c) (disconnected c) (live_streams c) l (taken c) (writer_state c).
Definition set_writer (c : ServerConn) (n : nat) (w : WriterState) : ServerConn :=
  MkServerConn (handlers c) (phase c) (handler_down c) (disconnected c) (live_streams c) (cancelled c) n w.

(** ** The reader delegate *)

(** [ServerReader::handle_msg] up to its [wait_rx.await]: nothing once the handlers are shut down;
    a frame whose transform fails is dropped; otherwise its task is spawned, under a fresh name. *)
Definition reader_handle_msg (msg : GenMessage) (c : ServerConn) : ServerConn :=
  if handler_down c then c
  else match receive (bool_decide (type_ (header msg) = MESSAGE_TYPE_REQUEST)) msg (path c) with
       | (x, Err _) => with_path c x
       | (x, Ok msg) =>
           let tid := fresh (dom (conn_tasks c)) in
           set_handlers c (MkSystem (set_path (hstate (handlers c)) x) (Some tid)
                                    (<[tid := Start msg]> (conn_tasks c)))
       end.

(** [ServerReader::handle_err]. *)
Definition reader_handle_err (h : MessageHeader) (e : Error) (c : ServerConn) : ServerConn :=
  with_path c (server_handle_err h e (path c)).

(** [ServerReader::disconnect]. *)
Definition reader_disconnect (e : Error) (c : ServerConn) : ServerConn :=
  MkServerConn (handlers c) (phase c) true true (live_streams c) (cancelled c) (taken c) (writer_state c).

(** [ServerReader::exit], up to its wait. *)
Definition reader_exit (c : ServerConn) : ServerConn := set_phase c Exiting (handler_down c).

#[global] Instance server_reader : ReaderDelegate ServerConn := {
  rd_disconnect := reader_disconnect;
  rd_exit := reader_exit;
  rd_handle_msg := reader_handle_msg;
  rd_handle_err := reader_handle_err }.

(** [writer_task.abort()], and the join that follows it. *)
Definition abort_writer (c : ServerConn) : ServerConn :=
  match writer_state c with Running => set_writer c (taken c) Aborted | _ => c end.

(** A turn of the loop of [Connection::run] with this delegate. *)
Definition reader_turn (i : Turn) (c : ServerConn) : ServerConn :=
  let '(calls, goes_on) := loop_turn i in
  let c := if existsb (fun call => match call with AbortWriter => true | _ => false end) calls
           then abort_writer c else c in
  foldl apply_call c (if goes_on then calls else calls ++ [Exit]).

(** The branches of the turn that can be ready: the writer's end as it ended, the shutdown signal
    once the server has given it. *)
Definition turn_possible (down : bool) (c : ServerConn) (i : Turn) : Prop :=
  match writer_done i with
  | Some (Ok r) => writer_state c = WriterEnded r
  | Some (Err _) => writer_state c = Aborted
  | None => True
  end /\ (shutdown_done i = true -> down = true).

(** ** Steps *)

Definition is_done (pc : @TaskPc D) : bool := match pc with Done => true | _ => false end.
Definition all_done (c : ServerConn) : Prop := map_Forall (fun _ pc => is_done pc = true) (conn_tasks c).
#[global] Instance all_done_dec c : Decision (all_done c) := _.

(** A sender of the writer's channel lives in the reader, in every handler task and in every
    stream. *)
Definition no_senders (c : ServerConn) : Prop :=
  (exists b, phase c = Gone b) /\ all_done c /\ senders (live_streams c) = ∅.

(** The step at which [handle_stream] makes the [StreamInner] and spawns the handler that owns it. *)
Definition spawned (pc : @TaskPc D) : option (Z * chan_id) :=
  match pc with StreamRegistered ch r => Some (stream_id (msg_header r), ch) | _ => None end.
Definition spawn_stream (tid : nat) (pc : @TaskPc D) (l : Streams) : Streams :=
  match spawned pc with
  | Some entry => MkStreams ({[tid]} ∪ running l) (<[tid := entry.1]> (senders l)) (<[tid := entry]> (receivers l))
  | None => l
  end.

(** The task is at an await, where its future can be dropped. *)
Definition suspended (pc : @TaskPc D) : bool :=
  match pc with StreamRegister _ | StreamRegistered _ _ | DataLookup _ | Done => false | _ => true end.

(** [StreamReceiver::drop]: the stream's id is removed from the registry, whoever registered it. *)
Definition drop_receiver (sid : Z) (ch : chan_id) (s : @HandlerState X Q) : @HandlerState X Q :=
  MkHandlerState (delete sid (h_streams s)) (alter mpsc_drop_rx ch (h_boxes s)) (h_next s) (h_path s).

(** [run] returns: the delegate is dropped, and its notifier with it. *)
Definition reader_gone (elapsed : bool) (c : ServerConn) : ServerConn := set_phase c (Gone elapsed) true.

(** Steps by what makes them: the loop; the tasks and the writer at work; the application, which runs
    methods, makes room in the mailboxes of its streams, ends handlers and drops their halves; the
    peer, which takes a frame off the socket; a stream handler that sends or receives; and the timeout
    of [exit]. *)
Inductive Act := ATurn (i : Turn) | AWork | AApp | APeer | AStream | AElapsed.

(** What a step of a task waits for. *)
Definition task_act (pc : @TaskPc D) : Act :=
  match pc with Method _ _ | DataSend _ _ => AApp | _ => AWork end.

Inductive conn_step (down : bool) : ServerConn -> Act -> ServerConn -> Prop :=
  | CTurn c i :
      phase c = Looping -> reader (handlers c) = None -> turn_possible down c i ->
      conn_step down c (ATurn i) (reader_turn i c)
  | CResume c tid :  (* [wait_rx.await] completes *)
      reader (handlers c) = Some tid ->
      (forall pc, conn_tasks c !! tid = Some pc -> holding pc = false) ->
      conn_step down c AWork (set_handlers c (MkSystem (hstate (handlers c)) None (conn_tasks c)))
  | CTask c tid env pc pc' s' evs :
      conn_tasks c !! tid = Some pc -> (forall r, pc = StreamJoin r -> tid ∉ running (live_streams c)) ->
      task_step services data env tid pc (hstate (handlers c)) = Some (pc', s', evs) ->
      conn_step down c (task_act pc)
        (set_live (set_handlers c (MkSystem s' (reader (handlers c)) (<[tid := pc']> (conn_tasks c))))
           (spawn_stream tid pc (live_streams c)))
  | CCancel c tid pc :  (* [handler_shutdown_waiter.wait_shutdown()] wins the [select!] *)
      handler_down c = true -> conn_tasks c !! tid = Some pc -> suspended pc = true ->
      conn_step down c AWork
        (set_cancelled (set_handlers c (MkSystem (hstate (handlers c)) (reader (handlers c))
           (<[tid := Done]> (conn_tasks c)))) ({[tid]} ∪ cancelled c))
  | CStreamSend c tid sid msg x r :
      senders (live_streams c) !! tid = Some sid -> stream_id (header msg) = sid ->
      transform_send msg false true (path c) = (x, r) ->
      conn_step down c AStream (with_path c x)
  | CStreamRecv c tid sid ch q q' v :
      receivers (live_streams c) !! tid = Some (sid, ch) -> h_boxes (hstate (handlers c)) !! ch = Some q ->
      mpsc_recv q = (q', Some v) ->
      conn_step down c AStream (with_hstate c (set_box (hstate (handlers c)) ch q'))
  | CHandlerEnd c tid :
      tid ∈ running (live_streams c) ->
      conn_step down c AApp (set_live c (MkStreams (running (live_streams c) ∖ {[tid]})
        (senders (live_streams c)) (receivers (live_streams c))))
  | CSenderDrop c tid sid :
      senders (live_streams c) !! tid = Some sid ->
      conn_step down c AApp (set_live c (MkStreams (running (live_streams c))
        (delete tid (senders (live_streams c))) (receivers (live_streams c))))
  | CReceiverDrop c tid sid ch :
      receivers (live_streams c) !! tid = Some (sid, ch) ->
      conn_step down c AApp
        (set_live (with_hstate c (drop_receiver sid ch (hstate (handlers c))))
           (MkStreams (running (live_streams c)) (senders (live_streams c))
              (delete tid (receivers (live_streams c)))))
  | CExited c :  (* every task has dropped its waiters *)
      phase c = Exiting -> all_done c -> conn_step down c AWork (reader_gone false c)
  | CExitElapsed c :
      phase c = Exiting -> conn_step down c AElapsed (reader_gone true c)
  | CWrite c :
      writer_state c = Running -> (taken c < length (emitted (path c)))%nat ->
      conn_step down c APeer (set_writer c (S (taken c)) Running)
  | CWriteFailed c e :
      writer_state c = Running -> (taken c < length (emitted (path c)))%nat ->
      conn_step down c APeer (set_writer c (S (taken c)) (WriterEnded (Err e)))
  | CWriterDone c :  (* [recv] gives [None] *)
      writer_state c = Running -> taken c = length (emitted (path c)) -> no_senders c ->
      conn_step down c AWork (set_writer c (taken c) (WriterEnded (Ok tt))).

(** The steps that bring a connection to its end once its server shuts down, and those of them that
    wait for nobody but the runtime. *)
Definition advances (a : Act) : bool :=
  match a with AWork | AApp | APeer => true | ATurn i => negb (loop_turn i).2 | _ => false end.

(** A connection that waits for the application or for its peer: a handler task, while the handlers
    are not told to stop, is in the application's method, joins its stream handler, or sends to the
    mailbox of a stream; the reader is gone and the application holds a [StreamSender]; or a frame
    is still to be written. *)
Definition in_application (c : ServerConn) (tid : nat) (pc : @TaskPc D) : Prop :=
  match pc with
  | Method _ _ | DataSend _ _ => True
  | StreamJoin _ => tid ∈ running (live_streams c)
  | _ => False
  end.

(** The server's waiters that a connection holds: [server_shutdown] of its reader,
    [_server_shutdown] of its writer. *)
Definition conn_waiters (c : ServerConn) : nat :=
  (match phase c with Gone _ => 0 | _ => 1 end +
   match writer_state c with Running => 1 | _ => 0 end)%nat.

(** ** The server *)

(** [Server] by its shutdown flag, whether its accept loop runs, how many accepted sockets are in
    their hook, and the connections. *)
Record ServerState := MkServerState {
  server_down : bool;
  accepting : bool;
  hooking : nat;
  conns : list ServerConn }.
Definition server_initial : ServerState := MkServerState false true 0 [].

Inductive server_step (advance : bool) : ServerState -> ServerState -> Prop :=
  | SAccept d h l : advance = false ->
      server_step advance (MkServerState d true h l) (MkServerState d true (S h) l)
  | SHooked d b h l x :  (* [on_accept] gave a context *)
      steady x -> emitted x = [] ->
      server_step advance (MkServerState d b (S h) l) (MkServerState d b h (l ++ [spawn_connection_handler x]))
  | SHookFailed d b h l :
      server_step advance (MkServerState d b (S h) l) (MkServerState d b h l)
  | SConn d b h l k c a c' :
      l !! k = Some c -> conn_step d c a c' -> (advance = true -> advances a = true) ->
      server_step advance (MkServerState d b h l) (MkServerState d b h (<[k := c']> l))
  | SStopListen d b h l : advance = false ->  (* [stop_listen], or the listener's end *)
      server_step advance (MkServerState d b h l) (MkServerState d false h l)
  | SShutdown d b h l : advance = false ->
      server_step advance (MkServerState d b h l) (MkServerState true b h l).


Definition server_reachable : ServerState -> Prop := rtc (server_step false) server_initial.

(** The waiters of the server's notifier: one of the accept loop, one of every socket in its hook,
    and those of the connections. *)
Definition server_waiters (s : ServerState) : nat :=
  ((if accepting s then 1 else 0) + hooking s + sum_list_with conn_waiters (conns s))%nat.

(** ** Messages that a step adds to the writer's channel *)

Context `{!SendPathLaws X, !RecvPathLaws X}.

(** At most [n] messages more. *)
Definition grows (n : nat) (x x' : X) : Prop :=
  steady x' /\ exists l, emitted x' = emitted x ++ l /\ (length l <= n)%nat.

Lemma grows_refl n x : steady x -> grows n x x.
Proof. intros Hx. split; [done|]. exists []. rewrite app_nil_r. split; [done|cbn; lia]. Qed.

Lemma grows_length n x x' :
  grows n x x' -> (length (emitted x) <= length (emitted x') <= length (emitted x) + n)%nat.
Proof. intros (_ & l & -> & Hl). rewrite length_app. lia. Qed.

Lemma transform_send_grows m b a x : steady x -> grows 1 x (transform_send m b a x).1.
Proof.
  intros Hx. destruct (transform_send m b a x) as [x' [[]|e]] eqn:E; cbn;
    (split; [by eapply transform_send_steady|]).
  - exists [m]. by destruct (transform_send_ok _ _ _ _ _ Hx E).
  - destruct (transform_send_err _ _ _ _ _ _ Hx E) as [->| ->]; [exists []|exists [m]]; [|done].
    split; [by rewrite app_nil_r|cbn; lia].
Qed.

Lemma respond_grows sid resp x : steady x -> grows 1 x (respond sid resp x).1.
Proof.
  intros Hx. destruct (respond sid resp x) as [x' r] eqn:E.
  destruct (respond_emits _ _ _ _ _ Hx E) as [Hs [He|(p & _ & He)]]; cbn; (split; [done|]).
  - exists []. rewrite app_nil_r. split; [done|cbn; lia].
  - by eexists.
Qed.

Lemma finish_request_grows sid r x : steady x -> grows 1 x (finish_request sid r x).
Proof.
  intros Hx. unfold finish_request, respond_with_status.
  destruct r as [[resp|]|status]; eauto using respond_grows, transform_send_grows.
Qed.

(** What is left of a task, counting the message it may still send and the handler, the sender and
    the receiver of the stream it may spawn. *)
Definition rank (pc : @TaskPc D) : nat :=
  match pc with
  | Done => 0 | Finish _ _ => 2 | OddRespond _ => 2 | Method _ _ => 3 | StreamJoin _ => 3
  | StreamFirst _ _ => 4 | StreamRegistered _ _ => 8 | StreamRegister _ => 9
  | DataSend _ _ => 2 | DataLookup _ => 3 | Start _ => 10
  end.

Lemma rank_done pc : is_done pc = true <-> rank pc = O.
Proof. by destruct pc. Qed.

Lemma box_put_path ch v (s s' : @HandlerState X Q) ok : box_put ch v s = (s', ok) -> h_path s' = h_path s.
Proof. unfold box_put. intros. repeat case_match; by simplify_eq. Qed.

Lemma stream_first_data_path ch r (s s' : @HandlerState X Q) o :
  stream_first_data ch r s = (s', o) -> h_path s' = h_path s.
Proof. unfold stream_first_data. intros. repeat case_match; simplify_eq; eauto using box_put_path. Qed.

Lemma handle_data_grows msg (s : @HandlerState X Q) :
  steady (h_path s) -> grows 1 (h_path s) (h_path (handle_data msg s)).
Proof.
  intros Hs. unfold handle_data. case_match; [|cbn; unfold respond_with_status; by apply respond_grows].
  destruct (box_put _ _ s) as [s' []] eqn:Eb; apply box_put_path in Eb; rewrite <- Eb in *.
  - by apply grows_refl.
  - cbn. unfold respond_with_status. by apply respond_grows.
Qed.

Lemma task_step_work env tid pc (s : @HandlerState X Q) pc' s' evs :
  steady (h_path s) -> task_step services data env tid pc s = Some (pc', s', evs) ->
  exists n, grows n (h_path s) (h_path s') /\
    (rank pc' + n + (if spawned pc is Some _ then 3 else 0) < rank pc)%nat.
Proof.
  intros Hs E.
  assert (forall k, grows k (h_path s) (h_path s)) as Hr by (intros; by apply grows_refl).
  destruct pc; cbn in E; repeat case_match; simplify_eq; cbn;
    repeat match goal with
    | E : stream_first_data _ _ _ = _ |- _ => apply stream_first_data_path in E; rewrite E
    | E : box_put _ _ _ = _ |- _ => apply box_put_path in E; try rewrite E
    end; try (exists O; split; [by apply Hr|cbn; lia]; fail);
    exists 1%nat; (split; [|cbn; lia]);
    unfold respond_with_status; auto using respond_grows, finish_request_grows, handle_data_grows.
Qed.

(** ** The invariant of a connection *)

Record conn_inv (c : ServerConn) : Prop := {
  ci_steady : steady (path c);
  ci_taken : (taken c <= length (emitted (path c)))%nat;
  ci_ended : writer_state c = WriterEnded (Ok tt) ->
    no_senders c /\ taken c = length (emitted (path c));
  ci_reader tid : reader (handlers c) = Some tid -> phase c = Looping;
  ci_down : handler_down c = match phase c with
                             | Looping => false | Exiting => disconnected c | Gone _ => true end;
  ci_gone : phase c = Gone false -> all_done c;
  ci_looping : phase c = Looping -> disconnected c = false;
  ci_aborted : writer_state c = Aborted -> disconnected c = true;
  ci_cancelled : cancelled c <> ∅ -> disconnected c = true \/ phase c = Gone true }.

Lemma spawned_inv x : steady x -> emitted x = [] -> conn_inv (spawn_connection_handler x).
Proof. intros Hx He. split; cbn; rewrite ?He; done. Qed.

(** A step that leaves the reader's loop alone and only adds to the channel. *)
Lemma with_path_inv c x n :
  conn_inv c -> grows n (path c) x -> (writer_state c = WriterEnded (Ok tt) -> n = O) ->
  conn_inv (with_path c x).
Proof.
  intros [] Hg Hn. pose proof (grows_length _ _ _ Hg) as Hl. destruct Hg as [Hx _].
  split; cbn; try done; unfold path in *; [lia|]. intros Hw. rewrite (Hn Hw) in Hl.
  destruct (ci_ended0 Hw) as [? ?]. split; [done|lia].
Qed.


Lemma receive_grows q m x : steady x -> grows 0 x (receive q m x).1.
Proof.
  intros Hx. split; [by apply receive_steady|]. exists []. rewrite app_nil_r.
  split; [apply receive_emitted|done].
Qed.

Lemma looping_not_ended c : conn_inv c -> phase c = Looping -> writer_state c <> WriterEnded (Ok tt).
Proof. intros Hc Hp Hw. destruct (ci_ended c Hc Hw) as [((b & Hb) & _) _]. congruence. Qed.

Lemma reader_handle_msg_inv msg c :
  conn_inv c -> phase c = Looping -> reader (handlers c) = None -> conn_inv (reader_handle_msg msg c).
Proof.
  intros Hc Hp Hr. unfold reader_handle_msg. destruct (handler_down c); [done|].
  pose proof (receive_grows (bool_decide (type_ (header msg) = MESSAGE_TYPE_REQUEST)) msg
    (path c) (ci_steady c Hc)) as Hg.
  pose proof (looping_not_ended c Hc Hp) as Hne.
  destruct (receive _ msg (path c)) as [x [m|e]]; cbn in Hg.
  - pose proof (grows_length _ _ _ Hg) as Hl. destruct Hg as [Hx _], Hc.
    split; cbn; unfold path in *; cbn; try done; [lia|congruence].
  - eapply with_path_inv; [done|exact Hg|done].
Qed.

Lemma reader_turn_inv c i down :
  conn_inv c -> phase c = Looping -> reader (handlers c) = None -> turn_possible down c i ->
  conn_inv (reader_turn i c).
Proof.
  intros Hc Hp Hr [Hw _]. pose proof (looping_not_ended c Hc Hp) as Hne.
  assert (forall c' : ServerConn, handlers c' = handlers c -> writer_state c' <> WriterEnded (Ok tt) ->
    (writer_state c' = Aborted -> disconnected c' = true) -> phase c' = Exiting ->
    handler_down c' = disconnected c' -> taken c' = taken c -> cancelled c' = cancelled c ->
    conn_inv c') as Hexit.
  { intros c' Hh Hw' Ha Hp' Hd Ht Hcc. destruct Hc. unfold path in *.
    split; unfold path in *; rewrite ?Hh, ?Ht, ?Hp', ?Hcc; try done; [congruence|].
    intros Hne'. destruct (ci_cancelled0 Hne'); [|congruence].
    rewrite (ci_looping0 Hp) in *. done. }
  unfold reader_turn, loop_turn. destruct (writer_done i) as [[[u|e]|e]|].
  - destruct u. congruence.
  - cbn. apply Hexit; cbn; by rewrite ?Hw.
  - pose proof (ci_aborted c Hc Hw). by rewrite (ci_looping c Hc Hp) in *.
  - destruct (shutdown_done i).
    { cbn. apply Hexit; cbn; try done; destruct Hc; [done|]. by rewrite ci_down0, Hp, ci_looping0. }
    destruct (read_done i) as [[m|[e|h e]]|]; cbn; [by apply reader_handle_msg_inv| | |done].
    + unfold abort_writer. destruct (writer_state c) as [|r|] eqn:Ews;
        apply Hexit; cbn; by rewrite ?Ews.
    + eapply (with_path_inv c _ 1); [done| |done].
      apply respond_grows, (ci_steady c Hc).
Qed.

(** Tasks change their own positions, the channel, and the set of streams. *)
Lemma handlers_step_inv c (s' : HandlerState) tid pc pc' n live :
  conn_inv c -> conn_tasks c !! tid = Some pc -> is_done pc = false ->
  grows n (path c) (h_path s') ->
  conn_inv (set_live (set_handlers c (MkSystem s' (reader (handlers c)) (<[tid := pc']> (conn_tasks c)))) live).
Proof.
  intros Hc Ht Hd Hg. pose proof (grows_length _ _ _ Hg) as Hl. destruct Hg as [Hx _].
  assert (~ all_done c) as Hnd.
  { intros Ha. by rewrite (map_Forall_lookup_1 _ _ _ _ Ha Ht) in Hd. }
  destruct Hc. unfold path in *. split; cbn; unfold path in *; cbn; try done; [lia| |].
  - intros Hw. destruct (ci_ended0 Hw) as [(_ & Ha & _) _]. done.
  - intros Hp. by destruct Hnd; auto.
Qed.

Lemma task_step_not_done env tid pc (s : @HandlerState X Q) r :
  task_step services data env tid pc s = Some r -> is_done pc = false.
Proof. by destruct pc. Qed.

Lemma with_hstate_inv c (s' : HandlerState) l :
  conn_inv c -> h_path s' = path c -> senders l ⊆ senders (live_streams c) ->
  conn_inv (set_live (with_hstate c s') l).
Proof.
  intros [] Hp Hl. split; cbn; unfold path in *; cbn; rewrite ?Hp; try done.
  intros Hw. destruct (ci_ended0 Hw) as [(? & ? & E) ?]. split; [|done]. split_and!; [done|done|]. cbn.
  apply map_empty. intros i. destruct (senders l !! i) eqn:El; [|done]. exfalso.
  pose proof (lookup_weaken _ _ _ _ El Hl) as Hi. by rewrite E in Hi.
Qed.

Lemma set_live_inv c l :
  conn_inv c -> senders l ⊆ senders (live_streams c) -> conn_inv (set_live c l).
Proof. intros Hc Hl. by destruct c as [[] ? ? ? ? ? ? ?]; apply (with_hstate_inv _ _ _ Hc eq_refl Hl). Qed.

Lemma conn_step_inv down c a c' : conn_inv c -> conn_step down c a c' -> conn_inv c'.
Proof.
  intros Hc Hs. pose proof (ci_steady c Hc) as Hx.
  destruct Hs as [c i Hp Hr Hi|c tid Hr Hh|c tid env pc pc' s' evs Ht Hj He|c tid pc Hd Ht Hn|
    c tid sid msg x r Hl Hsid He|c tid sid ch q q' v Hl Hq Hv|c tid Hl|c tid sid Hl|c tid sid ch Hl|c Hp Ha|c Hp|
    c Hw Hl|c e Hw Hl|c Hw Hl Hn].
  - by eapply reader_turn_inv.
  - by destruct Hc; split.
  - destruct (task_step_work _ _ _ _ _ _ _ Hx He) as (n & Hg & _).
    eapply handlers_step_inv; eauto using task_step_not_done.
  - assert (~ all_done c) as Hnd.
    { intros Ha. pose proof (map_Forall_lookup_1 _ _ _ _ Ha Ht) as Hd'. by destruct pc. }
    destruct Hc. split; cbn; try done.
    + intros Hw. by destruct (ci_ended0 Hw) as [(_ & ? & _) _].
    + intros Hp. by destruct Hnd; auto.
    + intros _. rewrite ci_down0 in Hd. destruct (phase c) as [| |[]] eqn:Ep; auto; done.
  - pose proof (transform_send_grows msg false true (path c) Hx) as Hg. rewrite He in Hg.
    eapply with_path_inv; [done|exact Hg|]. intros Hw.
    destruct (ci_ended c Hc Hw) as [(_ & _ & E) _]. by rewrite E in Hl.
  - apply (with_hstate_inv c _ (live_streams c) Hc); [done|done].
  - by apply set_live_inv.
  - apply set_live_inv; [done|]. cbn. apply delete_subseteq.
  - by apply with_hstate_inv.
  - destruct Hc. split; cbn; try done.
    + intros Hw. destruct (ci_ended0 Hw) as [((? & ?) & _) _]. congruence.
    + intros tid Hr. rewrite (ci_reader0 _ Hr) in Hp. done.
    + intros Hne. destruct (ci_cancelled0 Hne); [by left|congruence].
  - destruct Hc. split; cbn; try done; [| |by right].
    + intros Hw. destruct (ci_ended0 Hw) as [((? & ?) & _) _]. congruence.
    + intros tid Hr. rewrite (ci_reader0 _ Hr) in Hp. done.
  - by destruct Hc; split.
  - by destruct Hc; split.
  - by destruct Hc; split.
Qed.

(** ** The registry of streams *)

Definition before_spawn (pc : @TaskPc D) : bool :=
  match pc with Start _ | StreamRegister _ | StreamRegistered _ _ => true | _ => false end.

Abbreviation registry c := (h_streams (hstate (handlers c))).

(** Every registered id belongs to a live receiver, or to a task that is about to make it. *)
Record reg_inv (c : ServerConn) : Prop := {
  ri_owner sid ch : registry c !! sid = Some ch ->
    (exists tid, receivers (live_streams c) !! tid = Some (sid, ch)) \/
    (exists tid r, conn_tasks c !! tid = Some (StreamRegistered ch r) /\ stream_id (msg_header r) = sid);
  ri_past tid e : receivers (live_streams c) !! tid = Some e ->
    exists pc, conn_tasks c !! tid = Some pc /\ before_spawn pc = false }.

Lemma box_put_streams ch v (s s' : @HandlerState X Q) ok : box_put ch v s = (s', ok) -> h_streams s' = h_streams s.
Proof. unfold box_put. intros. repeat case_match; by simplify_eq. Qed.

Lemma stream_first_data_streams ch r (s s' : @HandlerState X Q) o :
  stream_first_data ch r s = (s', o) -> h_streams s' = h_streams s.
Proof. unfold stream_first_data. intros. repeat case_match; simplify_eq; eauto using box_put_streams. Qed.

Lemma handle_data_streams msg (s : @HandlerState X Q) : h_streams (handle_data msg s) = h_streams s.
Proof.
  unfold handle_data. repeat case_match; cbn; try done;
    match goal with E : box_put _ _ _ = _ |- _ => by apply box_put_streams in E end.
Qed.

(** What a step of a task does to the registry, and where it leads. *)
Lemma task_step_registry env tid pc (s : @HandlerState X Q) pc' s' evs :
  task_step services data env tid pc s = Some (pc', s', evs) ->
  ((exists r, pc = StreamRegister r /\ pc' = StreamRegistered (h_next s) r /\
      h_streams s' = <[stream_id (msg_header r) := h_next s]> (h_streams s)) \/
   h_streams s' = h_streams s /\ spawned pc' = None) /\
  (before_spawn pc' = true -> before_spawn pc = true /\ spawned pc = None).
Proof.
  intros E. destruct pc; cbn in E; repeat case_match; simplify_eq; cbn;
    repeat match goal with
    | E : stream_first_data _ _ _ = _ |- _ => apply stream_first_data_streams in E
    | E : box_put _ _ _ = _ |- _ => apply box_put_streams in E
    end; rewrite ?handle_data_streams; try (split; [by right|done]; fail).
  split; [|done]. left. by eexists.
Qed.

(** Steps that keep the registry, the receivers, and the positions before a stream is spawned. *)
Lemma reg_inv_keep c c' :
  reg_inv c -> registry c' = registry c ->
  receivers (live_streams c') = receivers (live_streams c) ->
  (forall tid pc, conn_tasks c !! tid = Some pc ->
     exists pc', conn_tasks c' !! tid = Some pc' /\ (before_spawn pc = false -> before_spawn pc' = false) /\
       (spawned pc <> None -> pc' = pc)) ->
  reg_inv c'.
Proof.
  intros [Ho Hp] Hr Hl Ht. split.
  - intros sid ch. rewrite Hr, Hl. intros [?|(tid & r & Hk & Hs)]%Ho; [by left|right].
    destruct (Ht _ _ Hk) as (pc' & Hk' & _ & E). exists tid, r. by rewrite <- E.
  - intros tid e. rewrite Hl. intros (pc & Hk & Hb)%Hp. destruct (Ht _ _ Hk) as (pc' & ? & ? & _). eauto.
Qed.

Lemma reader_turn_registry i c :
  registry (reader_turn i c) = registry c /\ live_streams (reader_turn i c) = live_streams c /\
  forall tid pc, conn_tasks c !! tid = Some pc -> conn_tasks (reader_turn i c) !! tid = Some pc.
Proof.
  unfold reader_turn, loop_turn.
  assert (handlers (abort_writer c) = handlers c /\ live_streams (abort_writer c) = live_streams c) as [Eh El]
    by (unfold abort_writer; by destruct (writer_state c)).
  destruct (writer_done i) as [[[u|e]|e]|]; [done..|]. destruct (shutdown_done i); [done|].
  destruct (read_done i) as [[m|[e|h e]]|]; cbn -[abort_writer]; try done.
  - unfold reader_handle_msg. destruct (handler_down c); [done|].
    destruct (receive _ m (path c)) as [x [m'|e]]; cbn; [|done]. split_and!; [done|done|].
    intros tid pc Hk. rewrite lookup_insert_ne; [done|]. intros <-.
    apply (is_fresh (dom (conn_tasks c))). by eapply elem_of_dom_2.
  - unfold conn_tasks. cbn -[abort_writer]. by rewrite Eh, El.
Qed.

Lemma conn_step_registry down c a c' : reg_inv c -> conn_step down c a c' -> reg_inv c'.
Proof.
  intros Hi Hs.
  destruct Hs as [c i Hp Hr Ht|c tid Hr Hh|c tid env pc pc' s' evs Ht Hj He|c tid pc Hd Ht Hn|
    c tid sid msg x r Hl Hsid He|c tid sid ch q q' v Hl Hq Hv|c tid Hl|c tid sid Hl|c tid sid ch Hl|c Hp Ha|c Hp|
    c Hw Hl|c e Hw Hl|c Hw Hl Hn];
    try (by apply (reg_inv_keep c); [done..|]; intros tid' pc' Hk; exists pc').
  - destruct (reader_turn_registry i c) as (E1 & E2 & E3).
    apply (reg_inv_keep c); [done|done|by rewrite E2|]. intros tid pc Hk. exists pc. auto.
  - destruct (task_step_registry _ _ _ _ _ _ _ He) as [Hreg Hbs].
    destruct Hreg as [(r & -> & -> & Es)|[Es Esp]].
    + destruct Hi as [Ho Hp]. split; cbn; unfold conn_tasks in *; cbn; rewrite ?Es.
      * intros sid ch [[<- <-]|[_ Hk]]%lookup_insert_Some; [right; exists tid, r; by rewrite lookup_insert_eq|].
        destruct (Ho _ _ Hk) as [?|(tid' & r' & Hk' & <-)]; [by left|right]. exists tid', r'.
        rewrite lookup_insert_ne; [done|]. intros ->. unfold conn_tasks in *. congruence.
      * intros tid' e (pc & Hk & Hb)%Hp. exists pc. rewrite lookup_insert_ne; [done|].
        intros ->. unfold conn_tasks in *. rewrite Ht in Hk. by simplify_eq.
    + destruct Hi as [Ho Hp]. split; cbn; unfold conn_tasks in *; cbn; rewrite ?Es.
      * intros sid ch Hk. unfold spawn_stream.
        destruct (Ho _ _ Hk) as [(tid' & Hr')|(tid' & r' & Hk' & <-)].
        { left. destruct (spawned pc) as [e|] eqn:Ep; [|by exists tid']. cbn. exists tid'.
          rewrite lookup_insert_ne; [done|]. intros ->. destruct (Hp _ _ Hr') as (pc1 & Hk1 & Hb).
          unfold conn_tasks in *. rewrite Ht in Hk1. simplify_eq. by destruct pc1. }
        unfold conn_tasks in *. destruct (decide (tid = tid')) as [<-|Hne].
        { rewrite Ht in Hk'. simplify_eq. left. exists tid. cbn. by rewrite lookup_insert_eq. }
        right. exists tid', r'. by rewrite lookup_insert_ne.
      * intros tid' e. unfold spawn_stream. destruct (decide (tid = tid')) as [<-|Hne].
        { intros Hr'. exists pc'. rewrite lookup_insert_eq. split; [done|].
          destruct (before_spawn pc') eqn:Hb; [|done]. destruct (Hbs eq_refl) as [Hb1 Hb2].
          rewrite Hb2 in Hr'. destruct (Hp _ _ Hr') as (pc1 & Hk1 & Hb'). unfold conn_tasks in *. congruence. }
        rewrite lookup_insert_ne by done. intros Hr'. apply (Hp tid' e).
        destruct (spawned pc); [cbn in Hr'; by rewrite lookup_insert_ne in Hr'|done].
  - apply (reg_inv_keep c); [done..|]. intros tid' pc' Hk. unfold conn_tasks in *. cbn.
    destruct (decide (tid = tid')) as [<-|Hne]; [|exists pc'; by rewrite lookup_insert_ne].
    exists Done. rewrite lookup_insert_eq. split_and!; [done|done|]. rewrite Ht in Hk. simplify_eq.
    by destruct pc'.
  - destruct Hi as [Ho Hp]. split; cbn.
    + intros sid' ch' [Hne Hk]%lookup_delete_Some. destruct (Ho _ _ Hk) as [(tid' & Hr')|?]; [|by right].
      left. exists tid'. rewrite lookup_delete_ne; [done|]. intros ->. congruence.
    + intros tid' e [_ Hr']%lookup_delete_Some. by apply (Hp tid' e).
Qed.

Lemma spawned_registry x : reg_inv (spawn_connection_handler x).
Proof. split; cbn; intros ? ?; by rewrite lookup_empty. Qed.

(** A stream whose handler waits for its next message, on a connection that is gone. *)
Definition idle (tid : nat) (sid : Z) (ch : chan_id) (c : ServerConn) : Prop :=
  (exists b, phase c = Gone b) /\ all_done c /\ writer_state c <> WriterEnded (Ok tt) /\ tid ∈ running (live_streams c) /\
  (is_Some (senders (live_streams c) !! tid)) /\ receivers (live_streams c) !! tid = Some (sid, ch) /\
  (forall tid' sid' ch', receivers (live_streams c) !! tid' = Some (sid', ch') ->
     sid' = sid \/ ch' = ch -> tid' = tid) /\
  registry c !! sid = Some ch /\
  exists q, h_boxes (hstate (handlers c)) !! ch = Some q /\ mpsc_items q = [].

Context `{!MpscLaws Q}.

(** Nothing wakes it: its mailbox stays empty, with a sender of it in the registry, whatever else
    happens on the connection, until the handler itself gives up. The writer, which waits for the
    handler's sender, does not end either. *)
Lemma idle_stream_stays down tid sid ch c a c' :
  idle tid sid ch c -> conn_step down c a c' ->
  idle tid sid ch c' \/ tid ∉ running (live_streams c') \/ senders (live_streams c') !! tid = None \/
  receivers (live_streams c') !! tid = None.
Proof.
  intros Hidle Hs. pose proof Hidle as ((b & Hb) & Ha & Hw0 & Hr & Hse & Hre & Hu & Hk & q0 & Hq0 & Hi0).
  assert (forall tid pc, conn_tasks c !! tid = Some pc -> pc = Done) as Hd.
  { intros tid' pc Hl. pose proof (map_Forall_lookup_1 _ _ _ _ Ha Hl). by destruct pc. }
  destruct Hs as [c i Hp _ _|c tid' Hr' Hh|c tid' env pc pc' s' evs Ht Hj He|c tid' pc Hd' Ht Hn|
    c tid' sid0 msg x r Hl Hsid He|c tid' sid' ch' q q' v Hl Hq Hv|c tid' Hl|c tid' sid0 Hl|c tid' sid' ch' Hl|c Hp Ha'|c Hp|
    c Hw Hl|c e Hw Hl|c Hw Hl Hn]; try congruence.
  all: try (by rewrite (Hd _ _ Ht) in *).
  all: try (left; split_and!; by eauto).
  - left. split_and!; try done; [by exists b|]. cbn.
    destruct (decide (ch' = ch)) as [->|Hne].
    { rewrite Hq0 in Hq. simplify_eq. apply mpsc_recv_spec in Hv as (Hv & _). by rewrite Hi0 in Hv. }
    exists q0. by rewrite lookup_insert_ne.
  - destruct (decide (tid' = tid)) as [->|Hne].
    { right; left. cbn. intros [_ Hx]%elem_of_difference. by apply Hx, elem_of_singleton. }
    left. split_and!; try done; [by exists b|cbn|by eauto].
    apply elem_of_difference. split; [done|]. by rewrite elem_of_singleton.
  - destruct (decide (tid' = tid)) as [->|Hne].
    { right; right; left. cbn. apply lookup_delete_eq. }
    left. split_and!; try done; [by exists b|cbn|by eauto]. by rewrite lookup_delete_ne.
  - destruct (decide (tid' = tid)) as [->|Hne].
    { right; right; right. cbn. apply lookup_delete_eq. }
    assert (sid' <> sid /\ ch' <> ch) as [Hs Hc] by (split; intros ->; apply Hne; by eapply Hu; eauto).
    left. split_and!; try done; [by exists b| | | |]; cbn.
    + by rewrite lookup_delete_ne.
    + intros ? ? ? [_ ?]%lookup_delete_Some. by eapply Hu.
    + by rewrite lookup_delete_ne.
    + exists q0. by rewrite lookup_alter_ne.
  - destruct Hn as (_ & _ & E). rewrite E in Hse. by destruct Hse.
Qed.

(** ** Work and progress of a connection *)









#[global] Instance in_application_dec c tid pc : Decision (in_application c tid pc).
Proof. destruct pc; cbn; apply _. Defined.




(** ** The server *)

Definition server_inv (s : ServerState) : Prop := Forall (fun c => conn_inv c /\ reg_inv c) (conns s).

Lemma server_inv_conn s k c : server_inv s -> conns s !! k = Some c -> conn_inv c /\ reg_inv c.
Proof. intros Hi Hl. by apply (Forall_lookup_1 _ _ _ _ Hi Hl). Qed.

Lemma server_step_inv adv s s' : server_inv s -> server_step adv s s' -> server_inv s'.
Proof.
  unfold server_inv. intros Hi Hs. destruct Hs as [|d b h l x Hx He| |d b h l k c a c' Hl Hs _| |]; cbn in *; try done.
  - apply Forall_app_2; [done|]. constructor; [|done].
    split; [by apply spawned_inv|apply spawned_registry].
  - destruct (Forall_lookup_1 _ _ _ _ Hi Hl) as [Hc Hg].
    apply Forall_insert; [done|]. split; [by eapply conn_step_inv|by eapply conn_step_registry].
Qed.

Lemma server_state_inv s : server_reachable s -> server_inv s.
Proof.
  intros Hr. eapply (rtc_ind_r server_inv server_initial); [by constructor| |exact Hr].
  eauto using server_step_inv.
Qed.










(** C27: a stream is registered on the server only as long as its handler can receive: in every
    reachable state of the server, an entry of a connection's registry belongs to a stream whose
    [StreamReceiver] is alive, or to the task that is just opening it. In particular nothing is
    left in the registry once the handler tasks have ended and the receivers are dropped, however
    the handlers ended. *)
Theorem server_registry (s : ServerState) (k : nat) (c : ServerConn) :
  server_reachable s -> conns s !! k = Some c ->
  (forall sid ch, registry c !! sid = Some ch ->
     (exists tid, receivers (live_streams c) !! tid = Some (sid, ch)) \/
     (exists tid r, conn_tasks c !! tid = Some (StreamRegistered ch r) /\ stream_id (msg_header r) = sid)) /\
  (all_done c -> receivers (live_streams c) = ∅ -> registry c = ∅).
Proof.
  intros Hr Hk. destruct (server_inv_conn _ k c (server_state_inv _ Hr) Hk) as [_ [Ho _]].
  split; [exact Ho|]. intros Hd He. apply map_empty. intros sid.
  destruct (registry c !! sid) as [ch|] eqn:E; [|done].
  destruct (Ho _ _ E) as [(tid & Ht)|(tid & r & Ht & _)]; [by rewrite He in Ht|].
  by pose proof (map_Forall_lookup_1 _ _ _ _ Hd Ht).
Qed.

(** While the listener runs, the accept loop is a waiter itself: [disconnect] alone, without
    [stop_listen], has no end but its timeout. *)
Lemma disconnect_needs_stop {N Tok : Type} `{NotifyLaws N Tok issued} (wt : option Z)
    (sd : @Shutdown.System N Tok) (tid : nat) (pc : Pc) (s : ServerState) :
  accepting s = true -> Shutdown.reachable wt sd -> live sd = server_waiters s ->
  threads sd !! tid = Some pc -> in_wait_exit pc = true ->
  forall sh, poll pc (shared sd) <> Some (sh, ExitReturned).
Proof.
  intros Ha Hsd Hl Ht Hw sh Hp. pose proof (exit_returned_live wt sd tid pc sh Hsd Ht Hw Hp) as Hz.
  rewrite Hl in Hz. unfold server_waiters in Hz. by rewrite Ha in Hz.
Qed.
End ServerConn.

(** ** The receive path of a connection without a transform *)

Section AloneRecv.
Context {D T : Type} {Q : Type -> Type} `{TransformLaws T, MpscLaws Q, Texts}.

#[local] Instance alone_recv : RecvPath (ConnectionContext D T * Q SendingMessage) := {
  receive := fun is_request msg '(c, chan) =>
    let '((c', m), r) := inbound is_request (c, msg) in
    ((c', chan), match r with Ok _ => Ok m | Err e => Err e end) }.

#[local] Instance alone_recv_laws :
  @RecvPathLaws (ConnectionContext D T * Q SendingMessage) alone_path alone_recv.
Proof.
  split; intros q m [c chan]; unfold receive, alone_recv.
  - by destruct (inbound q (c, m)) as [[c' m'] r].
  - cbn. intros Hc. unfold inbound. by rewrite Hc.
Qed.
End AloneRecv.

Section Witness.
Local Instance conn_texts : Texts :=
  {| status_debug := fun _ => ""; nix_display := pretty; nix_debug := pretty;
     tokio_send_error := "channel closed" |}.
Local Instance conn_request_codec : Codec Request := request_codec.
Local Instance conn_response_codec : Codec Response := response_codec.
Abbreviation path_state := (ConnectionContext unit NonceTransform * ListChan SendingMessage)%type.
Local Instance conn_send_path : SendPath path_state := alone_path.
Local Instance conn_send_laws : SendPathLaws path_state := alone_path_laws.
Local Instance conn_recv_path : RecvPath path_state := alone_recv.
Local Instance conn_recv_laws : RecvPathLaws path_state := alone_recv_laws.

Abbreviation ex_conn := (@ServerConn path_state ListChan unit).
Abbreviation ex_server := (@ServerState path_state ListChan unit).

Definition served : @Services unit string :=
  {["svc" := MkService {["Echo" := fun _ req => Ok (MkResponse None (req_payload req))]} {["Chat" := "chat"]}]}.

(** A schedule of one connection. *)
Inductive Choice :=
  | XTurn (i : Turn) | XResume | XTask (tid : nat) | XCancel (tid : nat) | XExited | XElapsed
  | XWrite | XWriterDone.

Definition ex_task (tid : nat) (c : ex_conn) : option ex_conn :=
  pc ← conn_tasks c !! tid;
  '(pc', s', evs) ← task_step served tt (MkHandlerEnv false (Ok (Ok None))) tid pc (hstate (handlers c));
  if (match pc with StreamJoin _ => bool_decide (tid ∈ running (live_streams c)) | _ => false end) then None
  else Some (set_live (set_handlers c (MkSystem s' (reader (handlers c)) (<[tid := pc']> (conn_tasks c))))
              (spawn_stream tid pc (live_streams c))).

Definition ex_cancel (tid : nat) (c : ex_conn) : option ex_conn :=
  pc ← conn_tasks c !! tid;
  if handler_down c && suspended pc
  then Some (set_cancelled (set_handlers c (MkSystem (hstate (handlers c)) (reader (handlers c))
              (<[tid := Done]> (conn_tasks c)))) ({[tid]} ∪ cancelled c))
  else None.

Definition choose (down : bool) (x : Choice) (c : ex_conn) : option ex_conn :=
  match x, phase c, reader (handlers c), writer_state c with
  | XTurn i, Looping, None, _ =>
      match writer_done i with
      | None => if implb (shutdown_done i) down then Some (reader_turn i c) else None
      | Some _ => None
      end
  | XResume, _, Some tid, _ =>
      if from_option (negb ∘ holding) true (conn_tasks c !! tid)
      then Some (set_handlers c (MkSystem (hstate (handlers c)) None (conn_tasks c))) else None
  | XTask tid, _, _, _ => ex_task tid c
  | XCancel tid, _, _, _ => ex_cancel tid c
  | XElapsed, Exiting, _, _ => Some (reader_gone true c)
  | XExited, Exiting, _, _ => if decide (all_done c) then Some (reader_gone false c) else None
  | XWrite, _, _, Running =>
      if decide (taken c < length (emitted (path c)))%nat
      then Some (set_writer c (S (taken c)) Running) else None
  | XWriterDone, Gone b, _, Running =>
      if decide (taken c = length (emitted (path c)) /\ all_done c /\ senders (live_streams c) = ∅)
      then Some (set_writer c (taken c) (WriterEnded (Ok tt))) else None
  | _, _, _, _ => None
  end.

Lemma choose_step down x c c' :
  choose down x c = Some c' ->
  exists a, conn_step served tt down c a c' /\ match a with ATurn i => x = XTurn i | _ => True end.
Proof.
  intros E. unfold choose in E. destruct x as [i| |tid|tid| | | |].
  - destruct (phase c) eqn:Hp, (reader (handlers c)) eqn:Hr, (writer_done i) eqn:Hw; try done.
    destruct (implb (shutdown_done i) down) eqn:Hd; simplify_eq. eexists. split; [apply CTurn; [done..|]|done].
    split; [by rewrite Hw|]. intros Hs. by rewrite Hs in Hd.
  - destruct (phase c), (reader (handlers c)) as [tid|] eqn:Hr; try done;
      destruct (from_option _ _ _) eqn:Hh; simplify_eq; eexists; (split; [eapply CResume; [done|]|done]);
      intros pc Hl; rewrite Hl in Hh; by apply negb_true_iff in Hh.
  - assert (ex_task tid c = Some c') as E' by (by destruct (phase c), (reader (handlers c)), (writer_state c)).
    unfold ex_task in E'. apply bind_Some in E' as (pc & Hl & E'). apply bind_Some in E' as ([[pc' s'] evs] & Et & E').
    destruct (match pc with StreamJoin _ => _ | _ => _ end) eqn:Ej; simplify_eq. eexists.
    split; [eapply CTask; [done| |done]|by destruct pc]. intros r ->. by apply bool_decide_eq_false in Ej.
  - assert (ex_cancel tid c = Some c') as E' by (by destruct (phase c), (reader (handlers c)), (writer_state c)).
    unfold ex_cancel in E'. apply bind_Some in E' as (pc & Hl & E').
    destruct (handler_down c) eqn:Hd, (suspended pc) eqn:Hs; simplify_eq/=. eexists. by split; [eapply CCancel|].
  - destruct (phase c) eqn:Hp; try done. case_decide; simplify_eq. eexists. by split; [apply CExited|].
  - destruct (phase c) eqn:Hp; simplify_eq. eexists. by split; [apply CExitElapsed|].
  - destruct (phase c), (reader (handlers c)), (writer_state c) eqn:Hw; try done; case_decide; simplify_eq;
      eexists; by split; [apply CWrite|].
  - destruct (phase c) as [| |b] eqn:Hp, (reader (handlers c)), (writer_state c) eqn:Hw; try done;
      case_decide; simplify_eq; destruct_and!; eexists; (split; [apply CWriterDone; [done..|]|done]);
      (split_and!; [by exists b|done|done]).
Qed.

Fixpoint choose_all (down : bool) (xs : list Choice) (c : ex_conn) : option ex_conn :=
  match xs with [] => Some c | x :: xs' => choose down x c ≫= choose_all down xs' end.

Lemma choose_all_reachable d b xs c c' :
  server_reachable served tt (MkServerState d b 0 [c]) -> choose_all d xs c = Some c' ->
  server_reachable served tt (MkServerState d b 0 [c']).
Proof.
  revert c. induction xs as [|x xs IH]; intros c Hr E; cbn in E; [by simplify_eq|].
  apply bind_Some in E as (c1 & E1 & E). apply choose_step in E1 as (a & Hs & _). eapply IH; [|exact E].
  eapply rtc_r; [exact Hr|]. by apply (SConn _ _ false d b 0 [c] 0 c a c1).
Qed.

Definition fresh_conn : ex_conn := spawn_connection_handler (MkCtx tt None, mpsc_channel).
(** A connection that has run under a schedule, when the server shuts down. *)
Lemma schedule_reachable xs c :
  choose_all false xs fresh_conn = Some c -> server_reachable served tt (MkServerState true false 0 [c]).
Proof.
  intros E. eapply rtc_r; [eapply rtc_r|].
  - eapply (choose_all_reachable false true); [|exact E].
    eapply rtc_l; [by apply (SAccept _ _ false false 0 [])|].
    eapply rtc_l; [by apply (SHooked _ _ false false true 0 [] (MkCtx tt None, mpsc_channel))|]. apply rtc_refl.
  - by apply SStopListen.
  - by apply SShutdown.
Qed.






Abbreviation registry c := (h_streams (hstate (handlers c))).

(** A stream without a first message, its handler waiting for one. *)
Definition chat_frame : GenMessage :=
  match AsyncClient.request_frame 7 (MkRequest "svc" "Chat" [] 0 []) with
  | Ok g => MkGen (add_flags (header g) (Z.lor FLAG_REMOTE_OPEN FLAG_NO_DATA)) (payload g)
  | Err _ => default_gen
  end.
Definition chatting : option ex_conn :=
  choose_all false [XTurn (MkTurn None false (Some (Ok chat_frame))); XTask 0; XTask 0; XTask 0; XResume; XTask 0]
    fresh_conn.

Lemma server_registry_witness :
  exists c, chatting = Some c /\ registry c !! 7 = Some 0%nat /\
    ((exists tid, receivers (live_streams c) !! tid = Some (7, 0%nat)) \/
     (exists tid r, conn_tasks c !! tid = Some (StreamRegistered 0 r) /\ stream_id (msg_header r) = 7)).
Proof.
  destruct chatting as [c|] eqn:E; [|by vm_compute in E]. exists c.
  assert (registry c !! 7 = Some 0%nat) as Hk by (vm_compute in E; injection E as <-; by vm_compute).
  split_and!; [done|exact Hk|].
  destruct (server_registry served tt (MkServerState true false 0 [c]) 0 c) as [Ho _];
    [exact (schedule_reachable _ c E)|done|]. by apply Ho.
Defined.

(** The server shuts down while the handler waits: after the timeout of [exit] its connection is
    gone, and the stream is idle. *)
Lemma idle_stream_reachable :
  exists c : ex_conn, server_reachable served tt (MkServerState true false 0 [c]) /\ idle 0 7 0%nat c.
Proof.
  destruct (chatting ≫= choose_all true [XTurn (MkTurn None true None); XElapsed; XCancel 0]) as [c|] eqn:E;
    [|by vm_compute in E].
  exists c. split.
  - apply bind_Some in E as (c1 & E1 & E). eapply choose_all_reachable; [exact (schedule_reachable _ c1 E1)|exact E].
  - assert (receivers (live_streams c) = {[0%nat := (7, 0%nat)]}) as Er
      by (vm_compute in E; injection E as <-; by vm_compute).
    unfold idle. rewrite Er. vm_compute in E. injection E as <-.
    split_and!; try (vm_compute; reflexivity); try (vm_compute; congruence).
    + by eexists.
    + apply (bool_decide_unpack _). by vm_compute.
    + by eexists.
    + intros tid' sid' ch' Hl _. apply lookup_singleton_Some in Hl as [? _]. done.
    + eexists. split; by vm_compute.
Qed.
End Witness.
