(* ===== verification/Rpc.v ===== *)
(** A client and a server on one connection: the client of client.rs with any number of concurrent
    calls, the connection of server.rs with its tasks and streams, and the two directions of the
    socket between them, over connections without a payload transform. *)
From S2P Require Import Prelude Errors Wire Codec Frame Channel Extension Stream Connection AsyncClient.
From S2P Require Import AsyncServer ServerConn.

(** What the server's path does when there is no transform: a frame is received as it was sent, and
    the whole frame limit is available. Then the messages [emitted] on it are the frames written. *)
Class ClearPath (X : Type) `{SendPath X, RecvPath X} : Prop := {
  receive_clear : forall q m x x' m', steady x -> receive q m x = (x', Ok m') -> m' = m;
  raw_limit_clear : forall x, steady x -> raw_limit x = MESSAGE_LENGTH_MAX }.

Section Rpc.
Context {X : Type} `{SendPath X, RecvPath X} {Q : Type -> Type} `{Mpsc Q, Texts}.
Context `{Codec Request} `{Codec Response} {D StreamName : Type}.
Context (services : @Services D StreamName) (data : D).
Context `{!SendPathLaws X, !RecvPathLaws X, !ClearPath X}.
Context `{!CodecLaws Request, !CodecLaws Response}.

Abbreviation Conn := (@ServerConn X Q D).

(** ** Where the messages of the server come from *)

(** The frame is a request that no streaming method of the table answers. *)
Definition unary_request (g : GenMessage) (req : Request) : Prop :=
  stream_id (header g) mod 2 = 1 /\ type_ (header g) = MESSAGE_TYPE_REQUEST /\
  message_try_from g = Ok (MkMessage (header g) req) /\
  forall srv, services !! service req = Some srv -> service_streams srv !! method req = None.

(** A message on the frame's stream; to a unary request, the response that carries an outcome the
    request is specified to have. *)
Definition answers (g : GenMessage) (outcome : res Status Response) (m : GenMessage) : Prop :=
  forall b, codec_encode (outcome_response outcome) = Ok b -> len b <= MESSAGE_LENGTH_MAX ->
    m = gen_new_response (stream_id (header g)) b.
Definition produced (g m : GenMessage) : Prop :=
  stream_id (header m) = stream_id (header g) /\
  forall req, unary_request g req -> exists elapsed, answers g (unary_spec services data elapsed (header g) req) m.

(** The result that a task is about to send. *)
Definition finish_ok (g : GenMessage) (r : res Status (option Response)) : Prop :=
  forall req, unary_request g req -> exists elapsed, r = Some <$> unary_spec services data elapsed (header g) req.

(** The positions of the task that was spawned for the frame. *)
Definition task_ok (g : GenMessage) (pc : @TaskPc D) : Prop :=
  match pc with
  | Start g' => g' = g
  | OddRespond sid => sid = stream_id (header g) /\ stream_id (header g) mod 2 <> 1
  | Method m r => dispatch services g = Ok (ToMethod m, r) /\ stream_id (header g) mod 2 = 1 /\
                  type_ (header g) = MESSAGE_TYPE_REQUEST
  | StreamRegister r | StreamRegistered _ r | StreamFirst _ r | StreamJoin r =>
      opens_stream services g /\ msg_header r = header g
  | Finish sid r => sid = stream_id (header g) /\ finish_ok g r
  | DataLookup g' | DataSend _ g' => g' = g /\ type_ (header g) = MESSAGE_TYPE_DATA
  | Done => True
  end.

Lemma unary_not_stream g req : unary_request g req -> ~ opens_stream services g.
Proof.
  intros (_ & _ & Hd & Hs) (_ & _ & n & r & E). unfold dispatch in E. rewrite Hd in E. munfold. cbn in E.
  destruct (services !! service req) as [srv|] eqn:Es; cbn in E; [|done].
  unfold get_stream in E. rewrite (Hs srv eq_refl) in E. by destruct (get_method _ _).
Qed.

Lemma finish_stream g r : opens_stream services g -> finish_ok g r.
Proof. intros Ho req Hu. by destruct (unary_not_stream _ _ Hu). Qed.

Lemma produced_vacuous g m :
  stream_id (header m) = stream_id (header g) -> (forall req, ~ unary_request g req) -> produced g m.
Proof. intros Hs Hn. split; [done|]. intros req Hu. by destruct (Hn req). Qed.

(** Nothing more was sent, or one message that the frame explains. *)
Definition emits (g : GenMessage) (x x' : X) : Prop :=
  emitted x' = emitted x \/ exists m, emitted x' = emitted x ++ [m] /\ produced g m.

Lemma respond_emits_vacuous g sid resp x :
  steady x -> sid = stream_id (header g) -> (forall req, ~ unary_request g req) ->
  emits g x (respond sid resp x).1.
Proof.
  intros Hx -> Hn. destruct (respond _ resp x) as [x' r] eqn:E.
  destruct (respond_emits _ _ _ _ _ Hx E) as [_ [?|(p & _ & He)]]; [by left|right].
  eexists. split; [exact He|]. by apply produced_vacuous.
Qed.

Lemma transform_send_emits m b a x :
  steady x -> emitted (transform_send m b a x).1 = emitted x \/
              emitted (transform_send m b a x).1 = emitted x ++ [m].
Proof.
  intros Hx. destruct (transform_send m b a x) as [x' [[]|e]] eqn:E.
  - right. by apply (transform_send_ok _ _ _ _ _ Hx E).
  - by apply (transform_send_err _ _ _ _ _ _ Hx E).
Qed.

Lemma finish_emits_on sid r x :
  steady x -> emitted (finish_request sid r x) = emitted x \/
  exists m, emitted (finish_request sid r x) = emitted x ++ [m] /\ stream_id (header m) = sid.
Proof.
  intros Hx. unfold finish_request, respond_with_status. destruct r as [[resp|]|status].
  2: { destruct (transform_send_emits (gen_new_close sid) false false x Hx); eauto. }
  all: match goal with |- context [respond ?a ?b ?y] => destruct (respond a b y) as [x' r'] eqn:E end;
    destruct (respond_emits _ _ _ _ _ Hx E) as [_ [?|(p & _ & He)]]; [by left|right; by eexists].
Qed.

Lemma finish_request_produced g r x :
  steady x -> finish_ok g r -> emits g x (finish_request (stream_id (header g)) r x).
Proof.
  intros Hx Hf. destruct (finish_emits_on (stream_id (header g)) r x Hx) as [?|(m & He & Hs)]; [by left|].
  right. exists m. split; [done|]. split; [done|]. intros req Hu. destruct (Hf req Hu) as (el & ->).
  exists el. intros b Hb Hl.
  destruct (finish_request_emits (stream_id (header g)) _ x b Hx Hb) as [E|E].
  - by rewrite raw_limit_clear.
  - rewrite He in E. apply (f_equal length) in E. rewrite length_app in E. cbn in E. lia.
  - rewrite He in E. by simplify_list_eq.
Qed.

(** A step of a task keeps to its frame. *)
Lemma task_step_prov env tid g pc (s : @HandlerState X Q) pc' s' evs :
  steady (h_path s) -> task_ok g pc -> task_step services data env tid pc s = Some (pc', s', evs) ->
  task_ok g pc' /\ emits g (h_path s) (h_path s').
Proof.
  intros Hx Hok E.
  assert (emits g (h_path s) (h_path s)) as Hsame by by left.
  destruct pc as [g'|sid|m r|r|ch r|ch r|r|sid r|g'|ch g'|]; cbn in Hok, E; [..|done].
  - subst g'. case_decide as Hodd; [by simplify_eq|]. case_decide as Hty.
    + destruct (dispatch services g) as [[[m|n] r]|status] eqn:Ed; simplify_eq; (split; [|done]); cbn; [done| |].
      * split; [|by eapply dispatch_header]. split_and!; [done|done|by eauto].
      * split; [done|]. intros req Hu. pose proof Hu as (_ & _ & Hd & Hs). exists (env_elapsed env).
        pose proof (handle_request_unary services data env g req s' Hd Hs) as Er.
        unfold handle_request in Er. rewrite Ed in Er. by injection Er.
    + case_decide; by simplify_eq.
  - destruct Hok as [-> Hn]. simplify_eq. split; [done|]. apply respond_emits_vacuous; [done|done|].
    by intros req [? _].
  - destruct Hok as (Hd & Hodd & Hty). simplify_eq. split; [|done]. cbn.
    rewrite (dispatch_header _ _ _ _ Hd). split; [done|]. intros req Hu. pose proof Hu as (_ & _ & Hm & Hs).
    exists (env_elapsed env). pose proof (handle_request_unary services data env g req s' Hm Hs) as Er.
    unfold handle_request in Er. rewrite Hd in Er. by injection Er.
  - by simplify_eq.
  - by simplify_eq.
  - destruct Hok as [Ho Hh]. destruct (stream_first_data ch r s) as [s1 o] eqn:Ef.
    apply stream_first_data_path in Ef. destruct o; simplify_eq; unfold emits; rewrite Ef.
    + by split.
    + split; [|by left]. cbn. rewrite Hh. split; [done|]. by apply finish_stream.
  - destruct Hok as [Ho Hh]. simplify_eq. split; [|done]. cbn. rewrite Hh.
    split; [done|by apply finish_stream].
  - destruct Hok as [-> Hf]. simplify_eq. split; [done|]. by apply finish_request_produced.
  - destruct Hok as [-> Hd]. assert (forall req, ~ unary_request g req) as Hn by (intros req (_ & Ht & _); by rewrite Hd in Ht).
    case_match; simplify_eq; [by split|]. split; [done|]. unfold handle_data. case_match; [done|].
    by apply respond_emits_vacuous.
  - destruct Hok as [-> Hd]. assert (forall req, ~ unary_request g req) as Hn by (intros req (_ & Ht & _); by rewrite Hd in Ht).
    destruct (box_put ch (Ok g) s) as [s1 []] eqn:Eb; apply box_put_path in Eb; simplify_eq; (split; [done|]);
      unfold emits; cbn; rewrite <- Eb; [by left|]. rewrite <- Eb in Hx. by apply respond_emits_vacuous.
Qed.

(** How many messages there are on a stream. *)
Definition on_stream (id : Z) (g : GenMessage) : Prop := stream_id (header g) = id.
#[global] Instance on_stream_dec id g : Decision (on_stream id g) := decide (stream_id (header g) = id).

(** How often the client has written on a stream. *)
Definition written (id : Z) (l : list GenMessage) : nat := length (filter (on_stream id) l).
#[local] Arguments written : simpl never.

Lemma written_app id l l' : written id (l ++ l') = (written id l + written id l')%nat.
Proof. unfold written. by rewrite filter_app, length_app. Qed.

Lemma written_one id g : written id [g] = if decide (stream_id (header g) = id) then 1%nat else 0%nat.
Proof. unfold written, filter, list_filter. by destruct (decide (on_stream id g)); case_decide. Qed.

Lemma written_elem id g l : g ∈ l -> on_stream id g -> (1 <= written id l)%nat.
Proof.
  intros Hl Hg. unfold written. assert (g ∈ filter (on_stream id) l) as Hin by (by apply list_elem_of_filter).
  destruct (filter _ _); [by apply elem_of_nil in Hin|cbn; lia].
Qed.

Lemma written_none id l : (forall g, g ∈ l -> ~ on_stream id g) -> written id l = O.
Proof.
  intros Hn. unfold written. destruct (filter (on_stream id) l) as [|g l'] eqn:E; [done|].
  assert (g ∈ filter (on_stream id) l) as [Hg Hin]%list_elem_of_filter by (rewrite E; by left).
  by destruct (Hn g).
Qed.

(** A task sends in its last step. *)
Lemma task_step_sends env tid pc (s : @HandlerState X Q) pc' s' evs :
  task_step services data env tid pc s = Some (pc', s', evs) -> pc' = Done \/ h_path s' = h_path s.
Proof.
  destruct pc; cbn; intros E; repeat case_match; simplify_eq; try (by left); right; try done;
    by eapply stream_first_data_path.
Qed.

(** No other task was spawned for a frame of the same stream. *)
Definition alone (F : gmap nat GenMessage) (tid : nat) (g : GenMessage) : Prop :=
  forall tid' g', F !! tid' = Some g' -> stream_id (header g') = stream_id (header g) -> tid' = tid.

(** Every task, sender and message of the connection belongs to a frame; [F] are the frames by the
    tasks that were spawned for them. *)
Record prov (F : gmap nat GenMessage) (c : Conn) : Prop := {
  pv_task tid pc : conn_tasks c !! tid = Some pc -> exists g, F !! tid = Some g /\ task_ok g pc;
  pv_sender tid sid : senders (live_streams c) !! tid = Some sid ->
    exists g, F !! tid = Some g /\ sid = stream_id (header g) /\ opens_stream services g;
  pv_emitted m : m ∈ emitted (path c) -> exists tid g, F !! tid = Some g /\ produced g m;
  pv_once tid g req pc : F !! tid = Some g -> unary_request g req -> alone F tid g ->
    conn_tasks c !! tid = Some pc ->
    (written (stream_id (header g)) (emitted (path c)) <= if is_done pc then 1 else 0)%nat }.

Lemma emits_prov (F : gmap nat GenMessage) tid g x x' :
  F !! tid = Some g -> emits g x x' ->
  (forall m, m ∈ emitted x -> exists tid g, F !! tid = Some g /\ produced g m) ->
  forall m, m ∈ emitted x' -> exists tid g, F !! tid = Some g /\ produced g m.
Proof.
  intros Hg [->|(m0 & -> & Hp)] He m; [by apply He|].
  intros [?|Hm]%elem_of_app; [by apply He|]. apply list_elem_of_singleton in Hm as ->. by eauto.
Qed.

Lemma emits_once (F : gmap nat GenMessage) tid0 g0 tid g x x' n n' :
  F !! tid0 = Some g0 -> emits g0 x x' -> F !! tid = Some g -> alone F tid g -> (n <= n')%nat ->
  (tid0 = tid -> emitted x' <> emitted x -> (S n <= n')%nat) ->
  (written (stream_id (header g)) (emitted x) <= n)%nat -> (written (stream_id (header g)) (emitted x') <= n')%nat.
Proof.
  intros Hg0 [->|(m & He & Hs & _)] Hg Ha Hn Ht Hw; [lia|]. rewrite He, written_app, written_one.
  case_decide as Hd; [|lia].
  assert (tid0 = tid) as E by (apply (Ha tid0 g0 Hg0); congruence).
  assert (emitted x' <> emitted x) as Hne.
  { rewrite He. intros E'%(f_equal length). rewrite length_app in E'. cbn in E'. lia. }
  specialize (Ht E Hne). lia.
Qed.

(** The steps of the connection at which no frame arrives. *)
Definition quiet (a : Act) : Prop :=
  match a with
  | ATurn i => match read_done i with Some (Ok _) | Some (Err (ReturnError _ _)) => False | _ => True end
  | _ => True
  end.

Lemma quiet_turn i (c : Conn) :
  quiet (ATurn i) -> handlers (reader_turn i c) = handlers c /\ live_streams (reader_turn i c) = live_streams c.
Proof.
  unfold reader_turn, loop_turn, quiet. intros Hq.
  assert (forall c0 : Conn, handlers (abort_writer c0) = handlers c0 /\ live_streams (abort_writer c0) = live_streams c0) as Ha.
  { intros c0. unfold abort_writer. by destruct (writer_state c0). }
  destruct (writer_done i) as [[[u|e]|e]|]; [done..|]. destruct (shutdown_done i); [done|].
  destruct (read_done i) as [[m|[e|h e]]|]; try done. apply Ha.
Qed.

Lemma conn_step_prov F down c a c' :
  conn_inv c -> prov F c -> conn_step services data down c a c' -> quiet a -> prov F c'.
Proof.
  intros Hc Hv Hs Hq. pose proof (ci_steady c Hc) as Hx.
  destruct Hs as [c i Hp Hr Hi|c tid Hr Hh|c tid env pc pc' s' evs Ht Hj He|c tid pc Hd Ht Hn|
    c tid sid msg x r Hl Hsid He|c tid sid ch q q' v Hl Hqc Hrv|c tid Hl|c tid sid Hl|c tid sid ch Hl|c Hp Ha|c Hp|
    c Hw Hl|c e Hw Hl|c Hw Hl Hn]; try (by destruct Hv; split).
  - destruct (quiet_turn i c Hq) as [Eh El]. destruct Hv. unfold path, conn_tasks in *.
    split; unfold path, conn_tasks; rewrite ?Eh, ?El; done.
  - destruct Hv as [Hv1 Hv2 Hv3 Hv4]. destruct (Hv1 _ _ Ht) as (g & Hg & Hok).
    destruct (task_step_prov _ _ _ _ _ _ _ _ Hx Hok He) as [Hok' Hem]. split; cbn.
    + intros tid' pc1 [[<- <-]|[_ Hl]]%lookup_insert_Some; [by exists g|by apply Hv1].
    + intros tid' sid. unfold spawn_stream, spawned. destruct pc; try apply Hv2. cbn.
      intros [[<- <-]|[_ Hl]]%lookup_insert_Some; [|by apply Hv2]. exists g. cbn in Hok.
      destruct Hok as [Ho ->]. done.
    + by eapply emits_prov.
    + intros tid' g' req pc1 Hg' Hu Ha [[<- <-]|[Hne Hl]]%lookup_insert_Some.
      * apply (emits_once F tid g tid g' (path c) _ 0); [done..|lia| |].
        { intros _ Hne. destruct (task_step_sends _ _ _ _ _ _ _ He) as [->|E]; [done|].
          unfold path in Hne. cbn in Hne. by rewrite E in Hne. }
        pose proof (Hv4 _ _ _ _ Hg' Hu Ha Ht) as Hw. by rewrite (task_step_not_done _ _ _ _ _ _ _ He) in Hw.
      * eapply (emits_once F tid g tid' g' (path c)); [done..|by intros ->|by eapply Hv4].
  - destruct Hv as [Hv1 Hv2 Hv3 Hv4]. split; [|done|done|]; cbn.
    + intros tid' pc1 [[<- <-]|[_ Hl]]%lookup_insert_Some; [|by apply Hv1].
      destruct (Hv1 _ _ Ht) as (g & Hg & _). by exists g.
    + intros tid' g' req pc1 Hg' Hu Ha [[<- <-]|[Hne Hl]]%lookup_insert_Some; [|by eapply Hv4].
      pose proof (Hv4 _ _ _ _ Hg' Hu Ha Ht) as Hw. unfold path in *. cbn. destruct (is_done pc); lia.
  - destruct Hv as [Hv1 Hv2 Hv3 Hv4]. destruct (Hv2 _ _ Hl) as (g & Hg & Hs & Ho).
    pose proof (transform_send_emits msg false true (path c) Hx) as Ht. rewrite He in Ht. cbn in Ht.
    assert (emits g (path c) x) as Hem.
    { destruct Ht as [Ht|Ht]; [by left|right]. exists msg. split; [exact Ht|].
      apply produced_vacuous; [congruence|]. intros req Hu. by eapply unary_not_stream. }
    split; [done|done| |]; cbn.
    + by eapply emits_prov.
    + intros tid' g' req pc1 Hg' Hu Ha Hl'. eapply (emits_once F tid g tid' g' (path c)); [done..| |by eapply Hv4].
      intros ->. assert (g' = g) as -> by congruence. by destruct (unary_not_stream _ _ Hu).
  - destruct Hv as [Hv1 Hv2 Hv3 Hv4]. split; [done| |done|done]. cbn.
    intros tid' sid' [_ ?]%lookup_delete_Some. by apply Hv2.
Qed.

(** A frame arrives: its task is spawned under a fresh name, unless the handlers are shut down. *)
Lemma reader_handle_msg_prov F msg c :
  conn_inv c -> prov F c -> dom F = dom (conn_tasks c) -> reader (handlers c) = None ->
  let c' := reader_handle_msg msg c in
  match reader (handlers c') with
  | Some tid => F !! tid = None /\ dom (conn_tasks c') = {[tid]} ∪ dom (conn_tasks c) /\ prov (<[tid := msg]> F) c'
  | None => dom (conn_tasks c') = dom (conn_tasks c) /\ prov F c'
  end.
Proof.
  intros Hc Hv Hd Hr. pose proof (ci_steady c Hc) as Hx. cbn. unfold reader_handle_msg.
  destruct (handler_down c); [by rewrite Hr|].
  destruct (receive _ msg (path c)) as [x r] eqn:Er.
  assert (emitted x = emitted (path c)) as Hem by (by rewrite <- (receive_emitted (bool_decide (type_ (header msg) = MESSAGE_TYPE_REQUEST)) msg (path c)), Er).
  destruct Hv as [Hv1 Hv2 Hv3 Hv4]. destruct r as [m|e]; cbn; rewrite ?Hr.
  2: { split; [done|]. split; unfold path, conn_tasks; cbn; rewrite ?Hem; done. }
  apply receive_clear in Er as ->; [|done].
  set (tid := fresh (dom (conn_tasks c))). assert (tid ∉ dom F) as Hf by (rewrite Hd; apply is_fresh).
  apply not_elem_of_dom in Hf. unfold conn_tasks. cbn. split_and!; [done|by rewrite dom_insert_L|].
  assert (forall tid' g, F !! tid' = Some g -> <[tid := msg]> F !! tid' = Some g) as Hmono.
  { intros tid' g Hg. rewrite lookup_insert_ne; [done|congruence]. }
  split; unfold path, conn_tasks; cbn.
  - intros tid' pc [[<- <-]|[_ Hl]]%lookup_insert_Some; [exists msg; by rewrite lookup_insert_eq|].
    destruct (Hv1 _ _ Hl) as (g & Hg & ?). eauto.
  - intros tid' sid Hl. destruct (Hv2 _ _ Hl) as (g & Hg & ?). eauto.
  - intros m0. rewrite Hem. intros Hm. destruct (Hv3 _ Hm) as (tid' & g & Hg & ?). eauto 6.
  - intros tid' g req pc Hg Hu Ha Hl. rewrite Hem. destruct (decide (tid' = tid)) as [->|Hne].
    + rewrite lookup_insert_eq in Hl. rewrite lookup_insert_eq in Hg. simplify_eq. cbn.
      rewrite written_none; [done|]. intros m Hm Hon. destruct (Hv3 m Hm) as (t & g' & Hg' & Hs & _).
      assert (t = tid) as -> by (apply (Ha t g'); [by apply Hmono|]; by rewrite <- Hs). congruence.
    + rewrite lookup_insert_ne in Hl by done. rewrite lookup_insert_ne in Hg by done.
      eapply Hv4; [done..| |done]. intros t g' Hg' Hs. apply (Ha t g'); [by apply Hmono|done].
Qed.

(** ** The two sides together *)

Context {DC T : Type} `{PayloadTransform T, !MpscLaws Q}.

Abbreviation Client := (@AsyncClient.System DC T Q).

(** A call as it was made. *)
Record Asked := MkAsked { a_call : Call; a_kind : CallKind; a_req : Request }.

(** The client and the connection of the server; [up], the frames that the client's writer has
    written, of which the server's reader has taken [up_taken]; [down_taken], how many of the
    messages written by the server the client's reader has taken. The client's history, what each of
    its calls has asked, and the number and the frame that each task of the server was spawned for are
    specification only. *)
Record RpcSystem := MkRpc {
  client : Client;
  history : list AsyncClient.Event;
  asked : gmap chan_id Asked;
  up : list GenMessage;
  up_taken : nat;
  server : Conn;
  frames : gmap nat (nat * GenMessage);
  down_taken : nat }.

Definition set_client (s : RpcSystem) (c : Client) (evs : list AsyncClient.Event) : RpcSystem :=
  MkRpc c (history s ++ evs) (asked s) (up s) (up_taken s) (server s) (frames s) (down_taken s).
Definition write_up (s : RpcSystem) (g : GenMessage) : RpcSystem :=
  MkRpc (client s) (history s) (asked s) (up s ++ [g]) (up_taken s) (server s) (frames s) (down_taken s).
Definition set_server (s : RpcSystem) (c : Conn) : RpcSystem :=
  MkRpc (client s) (history s) (asked s) (up s) (up_taken s) c (frames s) (down_taken s).

(** A call has been registered. *)
Definition open_call (s : RpcSystem) (c : @AsyncClient.Conn DC T Q) (a : Asked) : RpcSystem :=
  let k := a_call a in
  MkRpc (AsyncClient.MkSystem c (<[c_chan k := (k, a_kind a, Sending)]> (calls (client s))))
    (history s ++ [EvTake (c_id k); EvOpen (c_chan k) (c_id k)]) (<[c_chan k := a]> (asked s))
    (up s) (up_taken s) (server s) (frames s) (down_taken s).

(** The server's reader has taken a frame; a task has been spawned for it, or it was dropped. *)
Definition take_up (s : RpcSystem) (g : GenMessage) (c : Conn) : RpcSystem :=
  MkRpc (client s) (history s) (asked s) (up s) (S (up_taken s)) c
    (match reader (handlers c) with Some tid => <[tid := (up_taken s, g)]> (frames s) | None => frames s end)
    (down_taken s).

(** The frames in a mailbox. *)
Definition res_frame (v : Result GenMessage) : option GenMessage := if v is Ok m then Some m else None.
Definition frames_in (q : Q (Result GenMessage)) : list GenMessage := omap res_frame (mpsc_items q).

(** The step of the client puts no frame into a mailbox, and opens no call. *)
Definition no_frame (c c' : Client) (evs : list AsyncClient.Event) : Prop :=
  (forall ch q', boxes (conn c') !! ch = Some q' ->
     exists q, boxes (conn c) !! ch = Some q /\ frames_in q' `suffix_of` frames_in q) /\
  (forall ch id, EvOpen ch id ∉ evs).

Inductive rpc_step : RpcSystem -> RpcSystem -> Prop :=
  | RRequest s now req c' k :
      request_begin now req (conn (client s)) = (c', Ok k) ->
      rpc_step s (open_call s c' (MkAsked k Unary req))
  | RNewStream s req sc c' k :
      new_stream_begin req sc (conn (client s)) = (c', Ok k) ->
      rpc_step s (open_call s c' (MkAsked k Streaming req))
  | RSend s ch k kd :  (* [transform_send] gives the frame to the writer, which writes it *)
      calls (client s) !! ch = Some (k, kd, Sending) ->
      rpc_step s (write_up (set_client s
        (AsyncClient.MkSystem (conn (client s)) (<[ch := (k, kd, Waiting)]> (calls (client s)))) []) (c_msg k))
  | RStreamSend s ch a msg :  (* the [StreamSender] of a stream, which exists once the request is sent *)
      asked s !! ch = Some a -> a_kind a = Streaming -> c_msg (a_call a) ∈ up s ->
      stream_id (header msg) = c_id (a_call a) -> type_ (header msg) = MESSAGE_TYPE_DATA ->
      rpc_step s (write_up s msg)
  | RClient s evs c' :
      AsyncClient.step (client s) evs c' -> no_frame (client s) c' evs ->
      rpc_step s (set_client s c' evs)
  | RFrame s m :
      emitted (path (server s)) !! down_taken s = Some m -> (down_taken s < ServerConn.taken (server s))%nat ->
      rpc_step s (MkRpc (AsyncClient.MkSystem (handle_msg m (conn (client s))) (calls (client s)))
        (history s) (asked s) (up s) (up_taken s) (server s) (frames s) (S (down_taken s)))
  | RServer s down a c' :
      conn_step services data down (server s) a c' -> quiet a -> rpc_step s (set_server s c')
  | RServerFrame s down g c' :
      up s !! up_taken s = Some g ->
      conn_step services data down (server s) (ATurn (MkTurn None false (Some (Ok g)))) c' ->
      rpc_step s (take_up s g c').

(** A new connection: the client has no transform, the server's path is as the accept loop makes it. *)
Definition rpc_initial (s : RpcSystem) : Prop :=
  exists d x, steady x /\ emitted x = [] /\
    s = MkRpc (AsyncClient.MkSystem (new_conn (MkCtx d None)) ∅) [] ∅ [] 0 (spawn_connection_handler x) ∅ 0.
Definition rpc_reachable (s : RpcSystem) : Prop := exists s0, rpc_initial s0 /\ rtc rpc_step s0 s.

Lemma elem_of_frames_in q m : m ∈ frames_in q <-> Ok m ∈ mpsc_items q.
Proof.
  unfold frames_in. rewrite list_elem_of_omap. split; [|by exists (Ok m)].
  intros ([m'|e] & Hin & [=]). by subst.
Qed.

Lemma suffix_omap_cons v (l : list (Result GenMessage)) : omap res_frame l `suffix_of` omap res_frame (v :: l).
Proof. destruct v as [m|e]; cbn; [by apply suffix_cons_r|done]. Qed.

Lemma no_frame_boxes (c c' : Client) evs ch q' m :
  no_frame c c' evs -> boxes (conn c') !! ch = Some q' -> Ok m ∈ mpsc_items q' ->
  exists q, boxes (conn c) !! ch = Some q /\ Ok m ∈ mpsc_items q.
Proof.
  intros [Hn _] Hq Hm%elem_of_frames_in. destruct (Hn _ _ Hq) as (q & Hq0 & Hs). exists q.
  split; [done|]. apply elem_of_frames_in. destruct Hs as [l ->]. apply elem_of_app. by right.
Qed.

(** *** Both components run as on their own *)

Lemma begin_opens (c c' : @AsyncClient.Conn DC T Q) k now req sc :
  request_begin now req c = (c', Ok k) \/ new_stream_begin req sc c = (c', Ok k) ->
  c' = conn_opened c /\ c_id k = next_stream_id c /\ c_chan k = next_chan c.
Proof. intros [E|E]; [apply request_begin_spec in E as (? & ? & ? & _)|apply new_stream_begin_spec in E]; done. Qed.

(** A frame that the client receives without a transform is passed on as it is. *)
Lemma handle_msg_clear m (c : @AsyncClient.Conn DC T Q) :
  payload_transform (conn_ctx c) = None ->
  exists v, handle_msg m c = route (stream_id (header m)) v c /\ forall m', v = Ok m' -> m' = m.
Proof.
  intros Hc. destruct (handle_msg_route_inbound m c) as (x & m' & v & Ei & -> & Hv).
  unfold inbound in Ei. rewrite Hc in Ei. cbn in Ei. simplify_eq. exists v.
  split; [by destruct c|]. intros m1 E. by apply Hv.
Qed.

Lemma route_boxes id v (c : @AsyncClient.Conn DC T Q) ch q' x :
  boxes (route id v c) !! ch = Some q' -> x ∈ mpsc_items q' ->
  (exists q, boxes c !! ch = Some q /\ x ∈ mpsc_items q) \/ x = v.
Proof.
  destruct (streams c !! id) as [ch0|] eqn:Hs; [|rewrite route_none by done; eauto].
  destruct (route_spec id v c ch0 Hs) as [(q & q0 & Hq & _ & _ & Hit & ->)|(b & _ & Hb & _ & ->)]; cbn.
  - intros [[<- <-]|[_ Hl]]%lookup_insert_Some Hx; [|by eauto]. rewrite Hit in Hx.
    apply elem_of_app in Hx as [Hx|Hx]; [by eauto|right]. by apply list_elem_of_singleton in Hx.
  - intros Hl Hx. destruct (Hb _ _ Hl) as (q & Hq & Hi & _). rewrite Hi in Hx. by eauto.
Qed.

Lemma route_ctx id v (c : @AsyncClient.Conn DC T Q) : conn_ctx (route id v c) = conn_ctx c.
Proof.
  destruct (streams c !! id) as [ch0|] eqn:Hs; [|by rewrite route_none].
  by destruct (route_spec id v c ch0 Hs) as [(q & q0 & _ & _ & _ & _ & ->)|(b & _ & _ & _ & ->)].
Qed.

Lemma client_step_ctx (c c' : Client) evs :
  payload_transform (conn_ctx (conn c)) = None -> AsyncClient.step c evs c' ->
  payload_transform (conn_ctx (conn c')) = None.
Proof.
  intros Hc Hs. destruct Hs as [s now req c' k Hb|s req sc c' k Hb|s now req sc c' e Hb| | |
    s ch k c1 v c2 r _ Hr Hf|s ch k c1 v _ Hr|s msg|s h e|s order e Hp]; cbn; try done.
  - by apply request_begin_spec in Hb as (-> & _).
  - by apply new_stream_begin_spec in Hb as (-> & _).
  - destruct Hb as [Hb|Hb]; [apply request_begin_spec in Hb|apply new_stream_begin_spec in Hb]; by subst.
  - apply box_recv_spec in Hr as (q & q' & _ & _ & _ & ->). unfold request_finish in Hf. cbn in Hf.
    by simplify_eq.
  - by apply box_recv_spec in Hr as (q & q' & _ & _ & _ & ->).
  - destruct (handle_msg_clear msg _ Hc) as (v & -> & _). by rewrite route_ctx.
  - unfold handle_err. by rewrite fail_stream_route, route_ctx.
  - rewrite disconnect_spec by done. clear Hp. revert Hc. generalize (conn s).
    induction order as [|[id ch] order IH]; intros c Hc; [done|]. apply IH. by rewrite route_ctx.
Qed.

(** A step that opens no call only ends calls or moves them on. *)
Lemma client_step_calls (c c' : Client) evs ch k kd st :
  AsyncClient.step c evs c' -> (forall ch id, EvOpen ch id ∉ evs) -> calls c' !! ch = Some (k, kd, st) ->
  exists st0, calls c !! ch = Some (k, kd, st0) /\ (st = Sending -> st0 = Sending).
Proof.
  intros Hs Ho Hl. destruct Hs as [s now req c' k0 Hb|s req sc c' k0 Hb|s now req sc c' e Hb|s ch0 k0 kd0 Hc| |
    | | | |]; cbn in *; try (by eauto); try (by destruct (Ho (c_chan k0) (c_id k0)); right; left).
  - apply lookup_insert_Some in Hl as [[<- E]|[_ Hl]]; [|by eauto]. simplify_eq. by eauto.
  - apply lookup_delete_Some in Hl as [_ Hl]. by eauto.
  - apply lookup_delete_Some in Hl as [_ Hl]. by eauto.
Qed.

Lemma opened_no_open (evs evs' : list AsyncClient.Event) ch id :
  (forall ch id, EvOpen ch id ∉ evs') -> opened (evs ++ evs') ch id <-> opened evs ch id.
Proof. intros Hn. rewrite opened_app. split; [intros [?|He]; [done|by apply Hn in He]|by left]. Qed.

Lemma unwrapped_app (evs evs' : list AsyncClient.Event) : unwrapped (evs ++ evs') -> unwrapped evs.
Proof. unfold unwrapped. rewrite taken_app. lia. Qed.

(** *** The client's side *)

Record client_side (s : RpcSystem) : Prop := {
  cl_run : exists d, AsyncClient.reachable (MkCtx d None) (history s) (client s);
  cl_ctx : payload_transform (conn_ctx (conn (client s))) = None;
  cl_asked ch a : asked s !! ch = Some a ->
    opened (history s) ch (c_id (a_call a)) /\ stream_id (header (c_msg (a_call a))) = c_id (a_call a) /\
    (a_kind a = Unary -> request_frame (c_id (a_call a)) (a_req a) = Ok (c_msg (a_call a)));
  cl_opened ch id : opened (history s) ch id -> exists a, asked s !! ch = Some a /\ c_id (a_call a) = id;
  cl_calls ch k kd st : calls (client s) !! ch = Some (k, kd, st) ->
    exists req, asked s !! ch = Some (MkAsked k kd req);
  cl_up g : g ∈ up s -> exists ch a, asked s !! ch = Some a /\ stream_id (header g) = c_id (a_call a) /\
    (a_kind a = Unary -> g = c_msg (a_call a));
  cl_once ch a : unwrapped (history s) -> asked s !! ch = Some a -> a_kind a = Unary ->
    (written (c_id (a_call a)) (up s) <= match calls (client s) !! ch with Some (_, _, Sending) => 0 | _ => 1 end)%nat;
  cl_boxes ch q m : boxes (conn (client s)) !! ch = Some q -> Ok m ∈ mpsc_items q -> m ∈ emitted (path (server s));
  cl_answered ch m : EvAnswer ch (Ok m) ∈ history s -> m ∈ emitted (path (server s)) }.

Lemma client_side_inv s : client_side s -> AsyncClient.inv (history s) (calls (client s)) (conn (client s)).
Proof. intros [(d & Hr) _ _ _ _ _ _ _ _]. by eapply client_reachable_inv. Qed.

(** An unused id is written on no stream. *)
Lemma written_fresh s id :
  client_side s -> (forall ch, ~ opened (history s) ch id) -> written id (up s) = O.
Proof.
  intros Hs Hn. apply written_none. intros g Hin Hg.
  destruct (cl_up s Hs g Hin) as (ch & a & Ha & Hid & _). destruct (cl_asked s Hs ch a Ha) as [Ho _].
  destruct (Hn ch). unfold on_stream in Hg. by rewrite <- Hg, Hid.
Qed.

Lemma open_call_side s c a :
  client_side s -> c = conn_opened (conn (client s)) -> c_id (a_call a) = next_stream_id (conn (client s)) ->
  c_chan (a_call a) = next_chan (conn (client s)) ->
  AsyncClient.step (client s) [EvTake (c_id (a_call a)); EvOpen (c_chan (a_call a)) (c_id (a_call a))]
    (client (open_call s c a)) ->
  stream_id (header (c_msg (a_call a))) = c_id (a_call a) ->
  (a_kind a = Unary -> request_frame (c_id (a_call a)) (a_req a) = Ok (c_msg (a_call a))) ->
  client_side (open_call s c a).
Proof.
  intros Hs -> Hid Hch Hstep Hh Hk. pose proof (client_side_inv s Hs) as Hi.
  set (k := a_call a) in *. set (evs := [EvTake (c_id k); EvOpen (c_chan k) (c_id k)]) in *.
  assert (forall id, ~ opened (history s) (c_chan k) id) as Hfresh.
  { intros id (Hlt & _)%(inv_opened _ _ _ Hi). rewrite Hch in Hlt. lia. }
  assert (forall ch id, opened (history s ++ evs) ch id <-> opened (history s) ch id \/ (ch = c_chan k /\ id = c_id k)) as Hop.
  { intros ch id. rewrite opened_app. unfold evs. rewrite !elem_of_cons, elem_of_nil.
    split; [intros [?|[?|[[= -> ->]|[]]]]; by auto|intros [?|[-> ->]]; auto]. }
  destruct Hs as [(d & Hr) Hctx Has Hopn Hcalls Hup Honce Hbox Hans].
  assert (asked s !! c_chan k = None) as Hnone.
  { destruct (asked s !! c_chan k) eqn:E; [|done]. destruct (Has _ _ E) as [Ho _]. by apply Hfresh in Ho. }
  assert (forall ch a', asked s !! ch = Some a' -> <[c_chan k := a]> (asked s) !! ch = Some a') as Hmono.
  { intros ch a' E. rewrite lookup_insert_ne; [done|congruence]. }
  assert (AsyncClient.reachable (MkCtx d None) (history s ++ evs) (client (open_call s (conn_opened (conn (client s))) a)))
    as Hr' by (by eapply AsyncClient.ReachStep).
  pose proof (client_reachable_inv _ _ _ Hr') as Hi'.
  assert (unwrapped (history s ++ evs) -> forall ch, ~ opened (history s) ch (c_id k)) as Hnew.
  { intros Hu ch Ho. apply (Hfresh (c_id k)). enough (ch = c_chan k) as <- by done.
    eapply (inv_inj _ _ _ Hi'); [exact Hu|apply Hop; by left|apply Hop; by right]. }
  split; cbn; fold k evs.
  - by exists d.
  - done.
  - intros ch a' [[<- <-]|[_ Hl]]%lookup_insert_Some; [|destruct (Has _ _ Hl) as (? & ? & ?)]; rewrite Hop; auto.
  - intros ch id [Ho|[-> ->]]%Hop; [|exists a; by rewrite lookup_insert_eq].
    destruct (Hopn _ _ Ho) as (a' & ? & ?). eauto.
  - intros ch k' kd st [[<- E]|[_ Hl]]%lookup_insert_Some.
    + simplify_eq. exists (a_req a). rewrite lookup_insert_eq. by destruct a.
    + destruct (Hcalls _ _ _ _ Hl) as (req & ?). eauto.
  - intros g Hg. destruct (Hup g Hg) as (ch & a' & ? & ? & ?). eauto 6.
  - intros ch a' Hu [[<- <-]|[Hne Hl]]%lookup_insert_Some Hun.
    + rewrite lookup_insert_eq. fold k.
      pose proof (written_fresh s (c_id k)) as Hw. rewrite Hw; [done|by split; eauto|by apply Hnew].
    + rewrite lookup_insert_ne by done. apply Honce; [by eapply unwrapped_app|done|done].
  - intros ch q m [[<- <-]|[_ Hl]]%lookup_insert_Some Hm; [|by eauto].
    destruct (mpsc_channel_spec (Q := Q) (Result GenMessage)) as [E _]. rewrite E in Hm. by apply elem_of_nil in Hm.
  - intros ch m [Hin|Hin]%elem_of_app; [by eauto|]. unfold evs in Hin.
    rewrite !elem_of_cons, elem_of_nil in Hin. by destruct Hin as [?|[?|[]]].
Qed.

(** Messages stay: the writer's channel only grows. *)
Lemma reader_turn_emitted i (c : Conn) : conn_inv c -> emitted (path c) `prefix_of` emitted (path (reader_turn i c)).
Proof.
  intros Hc. pose proof (ci_steady c Hc) as Hx.
  unfold reader_turn, loop_turn.
  destruct (writer_done i) as [[[u|e]|e]|]; [done..|]. destruct (shutdown_done i); [done|].
  destruct (read_done i) as [[m|[e|h e]]|]; cbn; [| | |done].
  - unfold reader_handle_msg. destruct (handler_down c); [done|].
    pose proof (receive_emitted (bool_decide (type_ (header m) = MESSAGE_TYPE_REQUEST)) m (path c)) as He.
    destruct (receive _ m (path c)) as [x [m'|e]]; cbn in He; unfold path in *; cbn; by rewrite He.
  - unfold abort_writer. by destruct (writer_state c).
  - destruct (respond_grows (stream_id h) (error_into_response e) (path c) Hx) as (_ & l & He & _).
    unfold path, server_handle_err in *. cbn. rewrite He. by apply prefix_app_r.
Qed.

Lemma conn_step_prefix down (c c' : Conn) a :
  conn_inv c -> conn_step services data down c a c' -> emitted (path c) `prefix_of` emitted (path c').
Proof.
  intros Hc Hs. pose proof (ci_steady c Hc) as Hx.
  destruct Hs as [c i Hp Hr Hi|c tid Hr Hh|c tid env pc pc' s' evs Ht Hj He|c tid pc Hd Ht Hn|
    c tid sid msg x r Hl Hsid He| | | | | | | | |]; try done.
  - by apply reader_turn_emitted.
  - destruct (task_step_work _ _ _ _ _ _ _ _ _ Hx He) as (n & (_ & l & E & _) & _). unfold path in *. cbn.
    rewrite E. by eexists.
  - pose proof (transform_send_emits msg false true (path c) Hx) as Ht. rewrite He in Ht. unfold path in *. cbn in *.
    destruct Ht as [-> | ->]; [done|by eexists].
Qed.

Lemma conn_step_emitted down (c c' : Conn) a m :
  conn_inv c -> conn_step services data down c a c' -> m ∈ emitted (path c) -> m ∈ emitted (path c').
Proof.
  intros Hc Hs Hm. destruct (conn_step_prefix _ _ _ _ Hc Hs) as [l ->]. apply elem_of_app. by left.
Qed.

(** The other steps of the client, and the frames it sends and receives. *)
Lemma client_move_side s c evs :
  client_side s -> AsyncClient.step (client s) evs c -> (forall ch id, EvOpen ch id ∉ evs) ->
  (forall ch q m, boxes (conn c) !! ch = Some q -> Ok m ∈ mpsc_items q -> m ∈ emitted (path (server s))) ->
  client_side (set_client s c evs).
Proof.
  intros Hs Hstep Ho Hb. pose proof (client_step_ctx _ _ _ (cl_ctx s Hs) Hstep) as Hctx'.
  pose proof (fun ch k kd st => client_step_calls _ _ _ ch k kd st Hstep Ho) as Hc.
  destruct Hs as [(d & Hr) Hctx Has Hopn Hcalls Hup Honce Hbox Hans]. split; cbn; try done.
  - exists d. by eapply AsyncClient.ReachStep.
  - intros ch a Ha. destruct (Has _ _ Ha) as (? & ? & ?). by rewrite opened_no_open.
  - intros ch id. rewrite opened_no_open by done. apply Hopn.
  - intros ch k kd st Hl. destruct (Hc _ _ _ _ Hl) as (st0 & Hl0 & _). by eapply Hcalls.
  - intros ch a Hu Ha Hk. pose proof (Honce ch a (unwrapped_app _ _ Hu) Ha Hk) as Hle.
    destruct (calls c !! ch) as [[[k kd] st]|] eqn:El.
    + destruct (Hc _ _ _ _ El) as (st0 & Hl0 & Hst). rewrite Hl0 in Hle.
      destruct st; [by rewrite Hst in Hle|]. destruct st0; lia.
    + destruct (calls (client s) !! ch) as [[[? ?] []]|]; lia.
  - intros ch m [Hin|Hin]%elem_of_app; [by eapply Hans|].
    destruct (step_answer _ _ _ _ _ Hstep Hin) as (q & Hq & Hm). by eapply Hbox.
Qed.

(** Calls with the same id are the same. *)
Lemma asked_inj s ch ch' a a' :
  client_side s -> unwrapped (history s) -> asked s !! ch = Some a -> asked s !! ch' = Some a' ->
  c_id (a_call a) = c_id (a_call a') -> ch = ch'.
Proof.
  intros Hs Hu Ha Ha' E. destruct (cl_asked s Hs _ _ Ha) as [Ho _]. destruct (cl_asked s Hs _ _ Ha') as [Ho' _].
  eapply (inv_inj _ _ _ (client_side_inv s Hs)); [exact Hu|exact Ho|by rewrite E].
Qed.

Lemma write_up_side s ch a g :
  client_side s -> asked s !! ch = Some a -> stream_id (header g) = c_id (a_call a) ->
  (a_kind a = Unary -> g = c_msg (a_call a) /\ (unwrapped (history s) -> written (c_id (a_call a)) (up s) = O) /\
     forall k kd, calls (client s) !! ch <> Some (k, kd, Sending)) ->
  client_side (write_up s g).
Proof.
  intros Hs Ha Hg Hk. pose proof (asked_inj s) as Hinj. pose proof Hs as Hs'.
  destruct Hs as [? ? ? ? ? Hup Honce ? ?]. split; cbn; try done.
  - intros g' [Hin|Hin]%elem_of_app; [by apply Hup|]. apply list_elem_of_singleton in Hin as ->.
    exists ch, a. split_and!; [done|done|]. intros Hun. by destruct (Hk Hun).
  - intros ch' a' Hu Ha' Hun. pose proof (Honce _ _ Hu Ha' Hun) as Hle.
    rewrite written_app, written_one. case_decide as Hd; [|by rewrite Nat.add_0_r].
    assert (ch' = ch) as -> by (eapply Hinj; [done..|congruence]). assert (a' = a) as -> by congruence.
    destruct (Hk Hun) as (_ & Hz & Hns). rewrite Hz by done.
    destruct (calls (client s) !! ch) as [[[k kd] []]|] eqn:Ec; try lia. by destruct (Hns k kd).
Qed.

(** The frame of a call that is opened. *)
Lemma stream_call_frame (c c' : @AsyncClient.Conn DC T Q) k req sc :
  new_stream_begin req sc c = (c', Ok k) ->
  exists g, request_frame (next_stream_id c) req = Ok g /\ stream_id (header (c_msg k)) = stream_id (header g).
Proof.
  unfold new_stream_begin, fetch_add_2, unbounded_channel, register. munfold. cbn.
  destruct (request_frame (next_stream_id c) req) as [g|e] eqn:E; [|intros; by simplify_eq/=].
  intros Hb. exists g. split; [done|]. destruct sc; [destruct (bool_decide _)|]; by simplify_eq/=.
Qed.

Lemma request_frame_stream s req g :
  client_side s -> request_frame (next_stream_id (conn (client s))) req = Ok g ->
  stream_id (header g) = next_stream_id (conn (client s)).
Proof.
  intros Hs Hf. eapply frame_of_request; [|done].
  rewrite (inv_next _ _ _ (client_side_inv s Hs)). by destruct (nth_id_odd (AsyncClient.taken (history s))).
Qed.

(** The whole client side. *)
Lemma client_side_step s s' : conn_inv (server s) -> client_side s -> rpc_step s s' -> client_side s'.
Proof.
  intros Hc Hs Hstep.
  destruct Hstep as [s now req c' k Hb|s req sc c' k Hb|s ch k kd Hl|s ch a msg Ha Hk Hsent Hid Hty|s evs c' Hst Hnf|
    s m Hm Hlt|s down a c' Hst Hq|s down g c' Hg Hst].
  - destruct (begin_opens _ _ _ now req false (or_introl Hb)) as (Hc' & Hid & Hch).
    assert (request_frame (c_id k) req = Ok (c_msg k)) as Hf
      by (rewrite Hid; by apply request_begin_spec in Hb as (_ & _ & _ & ?)).
    apply open_call_side; try done; [by eapply AsyncClient.StepRequest|]. cbn.
    rewrite Hid in *. by eapply request_frame_stream.
  - destruct (begin_opens _ _ _ 0 req sc (or_intror Hb)) as (Hc' & Hid & Hch).
    destruct (stream_call_frame _ _ _ _ _ Hb) as (g & Hf & Hh).
    apply open_call_side; try done; [by eapply AsyncClient.StepNewStream|]. cbn.
    rewrite Hid, Hh. by eapply request_frame_stream.
  - destruct (cl_calls s Hs _ _ _ _ Hl) as (req & Ha).
    apply (write_up_side _ ch (MkAsked k kd req)); [|done|by apply (cl_asked s Hs _ _ Ha)|].
    + apply client_move_side; [done|by eapply AsyncClient.StepSent|by intros ? ? ?%elem_of_nil|apply (cl_boxes s Hs)].
    + cbn. intros ->. split_and!; [done| |].
      * intros Hu%unwrapped_app. pose proof (cl_once s Hs _ _ Hu Ha eq_refl) as Hle. cbn in Hle.
        rewrite Hl in Hle. lia.
      * intros k' kd'. rewrite lookup_insert_eq. congruence.
  - apply (write_up_side _ ch a); [done..|]. intros E. congruence.
  - apply client_move_side; [done|done|apply Hnf|]. intros ch q' m Hq Hm.
    destruct (no_frame_boxes _ _ _ _ _ _ Hnf Hq Hm) as (q & ? & ?). by eapply (cl_boxes s Hs).
  - assert (client_side (set_client s (AsyncClient.MkSystem (handle_msg m (conn (client s))) (calls (client s))) [])) as [].
    { apply client_move_side; [done|by apply AsyncClient.StepFrame|by intros ? ? ?%elem_of_nil|]. cbn.
      destruct (handle_msg_clear m _ (cl_ctx s Hs)) as (v & -> & Hv). intros ch q' m' Hq Hm'.
      destruct (route_boxes _ _ _ _ _ _ Hq Hm') as [(q & ? & ?)|E]; [by eapply (cl_boxes s Hs)|].
      rewrite (Hv m') by done. by eapply list_elem_of_lookup_2. }
    cbn in *. rewrite app_nil_r in *. by split.
  - assert (forall m, m ∈ emitted (path (server s)) -> m ∈ emitted (path c')) as He by (intros m; by eapply conn_step_emitted).
    destruct Hs; split; cbn; eauto.
  - assert (forall m, m ∈ emitted (path (server s)) -> m ∈ emitted (path c')) as He by (intros m; by eapply conn_step_emitted).
    destruct Hs; split; cbn; eauto.
Qed.

(** *** The server's side *)

Lemma written_unique id l i j g g' :
  (written id l <= 1)%nat -> l !! i = Some g -> l !! j = Some g' ->
  on_stream id g -> on_stream id g' -> i = j.
Proof.
  revert i j. induction l as [|g0 l IH]; intros i j Hw Hi Hj Hg Hg'; [done|].
  change (g0 :: l) with ([g0] ++ l) in Hw. rewrite written_app, written_one in Hw.
  destruct i as [|i], j as [|j]; cbn in Hi, Hj; simplify_eq; [done| | |].
  - rewrite decide_True in Hw by done. pose proof (written_elem _ _ _ (list_elem_of_lookup_2 _ _ _ Hj) Hg'). lia.
  - rewrite decide_True in Hw by done. pose proof (written_elem _ _ _ (list_elem_of_lookup_2 _ _ _ Hi) Hg). lia.
  - f_equal. apply IH; try done. case_decide; lia.
Qed.

Record server_side (s : RpcSystem) : Prop := {
  ss_conn : conn_inv (server s);
  ss_prov : prov (snd <$> frames s) (server s);
  ss_dom : dom (frames s) = dom (conn_tasks (server s));
  ss_frame tid i g : frames s !! tid = Some (i, g) -> (i < up_taken s)%nat /\ up s !! i = Some g;
  ss_inj tid tid' i g g' : frames s !! tid = Some (i, g) -> frames s !! tid' = Some (i, g') -> tid = tid' }.

Lemma conn_step_dom down (c c' : Conn) a :
  conn_step services data down c a c' -> quiet a -> dom (conn_tasks c') = dom (conn_tasks c).
Proof.
  intros Hs Hq.
  destruct Hs as [c i Hp Hr Hi|c tid Hr Hh|c tid env pc pc' s' evs Ht Hj He|c tid pc Hd Ht Hn|
    | | | | | | | | |]; try done.
  - unfold conn_tasks. by destruct (quiet_turn i c Hq) as [-> _].
  - cbn. apply dom_insert_lookup_L. by eexists.
  - cbn. apply dom_insert_lookup_L. by eexists.
Qed.

Lemma server_side_frame s down g c' :
  server_side s -> up s !! up_taken s = Some g ->
  conn_step services data down (server s) (ATurn (MkTurn None false (Some (Ok g)))) c' ->
  server_side (take_up s g c').
Proof.
  intros [Hc Hv Hd Hf Hi] Hg Hst. pose proof (conn_step_inv _ _ _ _ _ _ Hc Hst) as Hc'.
  inversion Hst as [c i Hp Hr Hpos|c tid env pc pc' s' evs| | | | | | | | | | | |]; subst; [|by destruct pc].
  change (reader_turn _ (server s)) with (reader_handle_msg g (server s)) in *.
  assert (dom (snd <$> frames s) = dom (conn_tasks (server s))) as Hd' by (by rewrite dom_fmap_L).
  pose proof (reader_handle_msg_prov _ g _ Hc Hv Hd' Hr) as Hm. cbn in Hm.
  destruct (reader (handlers (reader_handle_msg g (server s)))) as [tid|] eqn:Er.
  - destruct Hm as (Hn & Hdom & Hv'). rewrite lookup_fmap, fmap_None in Hn.
    split; cbn; rewrite ?Er; [done|by rewrite fmap_insert|by rewrite dom_insert_L, Hdom, Hd| |].
    + intros tid' i g' [[<- E]|[_ Hl]]%lookup_insert_Some; [simplify_eq; split; [lia|done]|].
      destruct (Hf _ _ _ Hl). split; [lia|done].
    + intros t t' i g1 g2 [[<- E]|[Hne Hl]]%lookup_insert_Some [[<- E']|[Hne' Hl']]%lookup_insert_Some;
        simplify_eq; [done| | |by eauto].
      * destruct (Hf _ _ _ Hl'). lia.
      * destruct (Hf _ _ _ Hl). lia.
  - destruct Hm as (Hdom & Hv'). split; cbn; rewrite ?Er; [done|done|by rewrite Hdom| |done].
    intros tid' i g' Hl. destruct (Hf _ _ _ Hl). split; [lia|done].
Qed.

Lemma server_side_step s s' : server_side s -> rpc_step s s' -> server_side s'.
Proof.
  intros Hs Hstep.
  assert (forall g, server_side (write_up s g)) as Hup.
  { intros g. destruct Hs as [? ? ? Hf ?]. split; cbn; try done. intros tid i g' Hl.
    destruct (Hf _ _ _ Hl). split; [done|by apply lookup_app_l_Some]. }
  destruct Hstep as [s now req c' k Hb|s req sc c' k Hb|s ch k kd Hl|s ch a msg Ha Hk Hsent Hid Hty|s evs c' Hst [Hnf Ho]|
    s m Hm Hlt|s down a c' Hst Hq|s down g c' Hg Hst].
  1, 2, 5, 6: by destruct Hs; split.
  - by destruct (Hup (c_msg k)); split.
  - apply Hup.
  - destruct Hs as [Hc Hv Hd Hf Hi]. split; cbn; try done.
    + by eapply conn_step_inv.
    + by eapply conn_step_prov.
    + rewrite Hd. symmetry. by eapply conn_step_dom.
  - by eapply server_side_frame.
Qed.

Lemma rpc_sides s : rpc_reachable s -> client_side s /\ server_side s.
Proof.
  intros (s0 & (d & x & Hx & He & ->) & Hr).
  apply (rtc_ind_r (fun s => client_side s /\ server_side s) _) with (3 := Hr).
  - split; split; cbn; try done.
    + exists d. constructor.
    + intros ch id Ho. by apply elem_of_nil in Ho.
    + intros g Hg. by apply elem_of_nil in Hg.
    + intros ch m Ha. by apply elem_of_nil in Ha.
    + by apply spawned_inv.
    + split; cbn; [done..| |done]. unfold path. cbn. rewrite He. intros m Hm. by apply elem_of_nil in Hm.
  - intros s1 s2 _ Hs [Hcl Hss]. split; [eapply client_side_step; [apply Hss|done..]|by eapply server_side_step].
Qed.

(** What the server sends is on the stream of a call. *)
Lemma emitted_asked s m :
  client_side s -> server_side s -> m ∈ emitted (path (server s)) ->
  exists ch a, asked s !! ch = Some a /\ stream_id (header m) = c_id (a_call a).
Proof.
  intros Hcl Hss Hm. destruct (pv_emitted _ _ (ss_prov s Hss) _ Hm) as (tid & g & Hg & Hs & _).
  rewrite lookup_fmap in Hg. apply fmap_Some in Hg as ([i g0] & Hfr & ->).
  destruct (ss_frame s Hss _ _ _ Hfr) as [_ Hup%list_elem_of_lookup_2].
  destruct (cl_up s Hcl _ Hup) as (ch & a & Ha & Hid & _). exists ch, a. split; [done|]. by rewrite Hs.
Qed.

(** ** Properties *)

(** C1: calls on a shared connection do not get mixed up, whatever the schedule: with any number of
    unary and streaming calls in flight, handler tasks in any order, handlers and streams that are
    cancelled and calls that are abandoned, a unary call that is answered by a frame was handled by
    exactly one task of the server, which was spawned for the very request frame of the call; the
    server has sent one message on the call's stream, and what [Client::request] makes of it is what
    the request is specified to give: the handler's response or error, or the status that says why
    no handler ran. The stream ids are assumed not to have wrapped, the method not to be a streaming
    one, and the response to fit a frame. *)
Theorem concurrent_calls_correct (s : RpcSystem) (ch : chan_id) (a : Asked) (m : GenMessage) :
  rpc_reachable s -> unwrapped (history s) -> asked s !! ch = Some a -> a_kind a = Unary ->
  (forall srv, services !! service (a_req a) = Some srv -> service_streams srv !! method (a_req a) = None) ->
  EvAnswer ch (Ok m) ∈ history s ->
  exists tid i, frames s !! tid = Some (i, c_msg (a_call a)) /\ up s !! i = Some (c_msg (a_call a)) /\
    (forall tid' i' g', frames s !! tid' = Some (i', g') -> stream_id (header g') = c_id (a_call a) -> tid' = tid) /\
    written (c_id (a_call a)) (emitted (path (server s))) = 1%nat /\
    exists elapsed, let outcome := unary_spec services data elapsed (header (c_msg (a_call a))) (a_req a) in
      forall b, codec_encode (outcome_response outcome) = Ok b -> len b <= MESSAGE_LENGTH_MAX ->
        request_result (Ok m) = caller_sees outcome.
Proof.
  intros Hr Hu Ha Hk Hns Hans. destruct (rpc_sides s Hr) as [Hcl Hss].
  pose proof (client_side_inv s Hcl) as Hi. destruct (cl_run s Hcl) as (d & Hrun).
  destruct (cl_asked s Hcl _ _ Ha) as (Hop & Hsid & Hf). specialize (Hf Hk).
  assert (stream_id (header m) = c_id (a_call a)) as Hm.
  { eapply (inv_fun _ _ _ Hi); [by eapply answers_own_stream|done]. }
  pose proof (cl_answered s Hcl _ _ Hans) as Hem.
  destruct (pv_emitted _ _ (ss_prov s Hss) _ Hem) as (tid & g & Hg & Hs & Hp).
  rewrite lookup_fmap in Hg. apply fmap_Some in Hg as ([i g0] & Hfr & ->). cbn [snd] in Hs, Hp.
  destruct (ss_frame s Hss _ _ _ Hfr) as [_ Hupi].
  pose proof (cl_once s Hcl _ _ Hu Ha Hk) as Hw.
  assert (written (c_id (a_call a)) (up s) <= 1)%nat as Hw1.
  { destruct (calls (client s) !! ch) as [[[? ?] []]|]; lia. }
  assert (g0 = c_msg (a_call a)) as ->.
  { destruct (cl_up s Hcl g0) as (ch' & a' & Ha' & Hid & He); [by eapply list_elem_of_lookup_2|].
    assert (ch' = ch) as -> by (eapply asked_inj; [done..|congruence]).
    assert (a' = a) as -> by congruence. by apply He. }
  assert (forall tid' i' g', frames s !! tid' = Some (i', g') -> stream_id (header g') = c_id (a_call a) -> tid' = tid) as Huniq.
  { intros tid' i' g' Hfr' Hs'. destruct (ss_frame s Hss _ _ _ Hfr') as [_ Hupi'].
    assert (i' = i) as -> by (eapply (written_unique (c_id (a_call a))); [exact Hw1|done..]).
    by eapply (ss_inj s Hss). }
  assert (unary_request (c_msg (a_call a)) (a_req a)) as Hun.
  { destruct (inv_opened _ _ _ Hi _ _ Hop) as (_ & j & _ & Ej). destruct (nth_id_odd j) as [Hu32 Hodd].
    rewrite <- Ej in Hu32, Hodd. destruct (frame_of_request _ _ _ Hu32 Hf) as (_ & _ & Hty & _ & Hdec).
    split_and!; [by rewrite Hsid|done|done|done]. }
  exists tid, i. split_and!; [done|done|done| |].
  - assert (is_Some (conn_tasks (server s) !! tid)) as [pc Hpc].
    { apply elem_of_dom. rewrite <- (ss_dom s Hss). apply elem_of_dom. by eexists. }
    assert (written (c_id (a_call a)) (emitted (path (server s))) <= if is_done pc then 1 else 0)%nat as Hle.
    { rewrite <- Hsid. eapply (pv_once _ _ (ss_prov s Hss) tid); [by rewrite lookup_fmap, Hfr|exact Hun| |exact Hpc].
      intros tid' g' Hg' Hs'. rewrite lookup_fmap in Hg'. apply fmap_Some in Hg' as ([i' g''] & Hfr' & ->).
      eapply Huniq; [done|]. cbn in Hs'. congruence. }
    pose proof (written_elem _ _ _ Hem Hm). destruct (is_done pc); lia.
  - destruct (Hp _ Hun) as (el & Hout). exists el. intros outcome b Hb Hl. rewrite (Hout b Hb Hl).
    by apply (response_read_back services data el (header (c_msg (a_call a)))).
Qed.
End Rpc.

Section Witness.
Local Instance rpc_texts : Texts := conn_texts.
Local Instance rpc_request_codec : Codec Request := request_codec.
Local Instance rpc_response_codec : Codec Response := response_codec.
Local Instance rpc_request_laws : CodecLaws Request := request_codec_laws.
Local Instance rpc_response_laws : CodecLaws Response := response_codec_laws.
Abbreviation path_state := (ConnectionContext unit NonceTransform * ListChan SendingMessage)%type.
Local Instance rpc_send_path : SendPath path_state := conn_send_path.
Local Instance rpc_send_laws : SendPathLaws path_state := conn_send_laws.
Local Instance rpc_recv_path : RecvPath path_state := conn_recv_path.
Local Instance rpc_recv_laws : RecvPathLaws path_state := conn_recv_laws.

(** The path of a connection without a hook is clear. *)
Local Instance rpc_clear : ClearPath path_state.
Proof.
  split.
  - intros q m [c chan] x' m' Hc E. cbn in *. unfold inbound in E. rewrite Hc in E.
    destruct (check_oversize _ _); by simplify_eq.
  - intros [c chan] Hc. cbn in *. unfold max_raw_payload_len. by rewrite Hc.
Qed.

Abbreviation ex_rpc := (@RpcSystem path_state ListChan unit unit NonceTransform).

(** A schedule of the two sides. *)
Inductive RpcChoice :=
  | YRequest (req : Request) | YSend (ch : chan_id) | YServer (x : Choice) | YServerFrame | YFrame | YAnswer (ch : chan_id).

Definition rpc_choose (y : RpcChoice) (s : ex_rpc) : option ex_rpc :=
  match y with
  | YRequest req =>
      match request_begin 0 req (conn (client s)) with
      | (c', Ok k) => Some (open_call s c' (MkAsked k Unary req))
      | _ => None
      end
  | YSend ch =>
      '(k, kd, st) ← calls (client s) !! ch;
      match st with
      | Sending => Some (write_up (set_client s (AsyncClient.MkSystem (conn (client s))
                           (<[ch := (k, kd, Waiting)]> (calls (client s)))) []) (c_msg k))
      | Waiting => None
      end
  | YServer (XTurn _) => None
  | YServer x => c' ← choose false x (server s); Some (set_server s c')
  | YServerFrame =>
      g ← up s !! up_taken s;
      c' ← choose false (XTurn (MkTurn None false (Some (Ok g)))) (server s);
      Some (take_up s g c')
  | YFrame =>
      m ← emitted (path (server s)) !! down_taken s;
      if decide (down_taken s < ServerConn.taken (server s))%nat
      then Some (MkRpc (AsyncClient.MkSystem (handle_msg m (conn (client s))) (calls (client s)))
                   (history s) (asked s) (up s) (up_taken s) (server s) (frames s) (S (down_taken s)))
      else None
  | YAnswer ch =>
      match calls (client s) !! ch, box_recv ch (conn (client s)) with
      | Some (k, Unary, Waiting), (c1, Some v) =>
          '(c2, r) ← request_finish k (Ready (Some v)) c1;
          Some (set_client s (AsyncClient.MkSystem c2 (delete ch (calls (client s)))) [EvAnswer ch v])
      | _, _ => None
      end
  end.

Lemma rpc_choose_step y s s' : rpc_choose y s = Some s' -> rpc_step served tt s s'.
Proof.
  destruct y as [req|ch|x| | |ch]; cbn [rpc_choose]; intros E.
  - destruct (request_begin 0 req _) as [c' [k|e]] eqn:Eb; simplify_eq. by eapply RRequest.
  - apply bind_Some in E as ([[k kd] []] & Hl & E); simplify_eq. by apply RSend.
  - destruct x; [done|..]; apply bind_Some in E as (c' & Hc & E); apply choose_step in Hc as (a & Hs & Ha);
      simplify_eq; (eapply RServer; [exact Hs|]); by destruct a.
  - apply bind_Some in E as (g & Hg & E). apply bind_Some in E as (c' & Hc & E). simplify_eq.
    eapply (RServerFrame _ _ _ false); [done|]. pose proof Hc as Hc'.
    apply choose_step in Hc' as (a & Hs & Ha). unfold choose in Hc.
    destruct (phase (server s)) eqn:Hp, (reader (handlers (server s))) eqn:Hr; try done. cbn in Hc.
    simplify_eq. apply (CTurn _ _ false (server s) (MkTurn None false (Some (Ok g)))); [done..|]. by split.
  - apply bind_Some in E as (m & Hm & E). case_decide; simplify_eq. by apply RFrame.
  - destruct (calls (client s) !! ch) as [[[k []] []]|] eqn:Hc; try done.
    destruct (box_recv ch (conn (client s))) as [c1 [v|]] eqn:Hb; [|done].
    apply bind_Some in E as ([c2 r] & Hf & E). simplify_eq. apply RClient; [by eapply AsyncClient.StepAnswered|].
    apply box_recv_spec in Hb as (q & q' & Hq & Hit & _ & ->). unfold request_finish in Hf. cbn in Hf. simplify_eq.
    split; [|by intros ? ? ?%list_elem_of_singleton]. cbn. intros ch' q1.
    rewrite lookup_alter_Some. intros [(<- & q2 & Hl & ->)|[Hne Hl]].
    + assert (exists q0, boxes (conn (client s)) !! c_chan k = Some q0) as (q0 & Hq0)
        by (apply lookup_insert_Some in Hl as [[<- _]|[_ Hl]]; eauto).
      exists q0. split; [done|]. apply suffix_nil.
    + apply lookup_insert_Some in Hl as [[<- <-]|[_ Hl]]; [|by eauto]. exists q. split; [done|].
      pose proof (suffix_omap_cons v (mpsc_items q')) as Hs. rewrite <- Hit in Hs. exact Hs.
Qed.

Fixpoint rpc_run (ys : list RpcChoice) (s : ex_rpc) : option ex_rpc :=
  match ys with [] => Some s | y :: ys' => rpc_choose y s ≫= rpc_run ys' end.

Lemma rpc_run_reachable ys s s' :
  rpc_reachable served tt s -> rpc_run ys s = Some s' -> rpc_reachable served tt s'.
Proof.
  revert s. induction ys as [|y ys IH]; intros s Hr E; cbn in E; [by simplify_eq|].
  apply bind_Some in E as (s1 & E1 & E). apply rpc_choose_step in E1. destruct Hr as (s0 & Hi & Hr).
  eapply IH; [|exact E]. exists s0. split; [done|]. by eapply rtc_r.
Qed.

Definition rpc_start : ex_rpc :=
  MkRpc (AsyncClient.MkSystem (new_conn (MkCtx tt None)) ∅) [] ∅ [] 0 fresh_conn ∅ 0.

(** Two echo calls at once: the server handles the second one first. *)
Definition ask (b : byte) : Request := MkRequest "svc" "Echo" [b] 0 [].
Definition two_calls : option ex_rpc :=
  rpc_run [YRequest (ask Byte.x07); YRequest (ask Byte.x08); YSend 1; YSend 0; YServerFrame; YServer (XTask 0);
           YServer XResume; YServerFrame; YServer (XTask 1); YServer XResume; YServer (XTask 1); YServer (XTask 1);
           YServer XWrite; YServer (XTask 0); YServer (XTask 0); YFrame; YServer XWrite; YFrame; YAnswer 0; YAnswer 1]
    rpc_start.

Lemma two_calls_reachable s : two_calls = Some s -> rpc_reachable served tt s.
Proof.
  apply rpc_run_reachable. exists rpc_start. split; [|apply rtc_refl].
  exists tt, (MkCtx tt None, mpsc_channel). by split_and!.
Qed.

Fixpoint first_answer (ch : chan_id) (evs : list AsyncClient.Event) : option GenMessage :=
  match evs with
  | [] => None
  | EvAnswer ch' (Ok m) :: evs' => if decide (ch' = ch) then Some m else first_answer ch evs'
  | _ :: evs' => first_answer ch evs'
  end.

Lemma first_answer_elem ch evs m : first_answer ch evs = Some m -> EvAnswer ch (Ok m) ∈ evs.
Proof.
  induction evs as [|e evs IH]; cbn; [done|]. destruct e as [| |ch' [m'|]]; try (intros; right; by apply IH).
  case_decide as Hd; [|intros; right; by apply IH]. intros [= ->]. subst. by left.
Qed.

Definition observed (s : ex_rpc) : option (CallKind * Request) * nat * option GenMessage :=
  ((fun a => (a_kind a, a_req a)) <$> asked s !! 0%nat, AsyncClient.taken (history s), first_answer 0 (history s)).

Lemma concurrent_calls_correct_witness :
  exists s a m, two_calls = Some s /\ asked s !! 0%nat = Some a /\ EvAnswer 0%nat (Ok m) ∈ history s /\
    a_req a = ask Byte.x07 /\ request_result (Ok m) = Ok (MkResponse None [Byte.x07]).
Proof.
  destruct two_calls as [s|] eqn:E; [|by vm_compute in E].
  pose (m := gen_new_response 1 (countable_encode (MkResponse None [Byte.x07]))).
  assert (observed <$> two_calls = Some (Some (Unary, ask Byte.x07), 2%nat, Some m)) as Ho by (clear E; by vm_compute).
  rewrite E in Ho. cbn [fmap option_fmap option_map] in Ho. apply (inj Some) in Ho.
  unfold observed in Ho. destruct (asked s !! 0%nat) as [a|] eqn:Ha; [|done].
  clearbody m. cbn [fmap option_fmap option_map] in Ho. injection Ho as Hk Hq Ht Hin. apply first_answer_elem in Hin.
  exists s, a, m. split_and!; [done|done|exact Hin|exact Hq|].
  destruct (concurrent_calls_correct served tt s 0 a m) as (tid & i & _ & _ & _ & _ & el & Hres).
  - by apply two_calls_reachable.
  - unfold unwrapped. rewrite Ht. done.
  - exact Ha.
  - exact Hk.
  - intros srv Hs. rewrite Hq in *. vm_compute in Hs. injection Hs as <-. by vm_compute.
  - exact Hin.
  - rewrite Hq in Hres. cbn zeta in Hres. rewrite (Hres (countable_encode (MkResponse None [Byte.x07]))); by vm_compute.
Defined.
End Witness.
