(* ===== verification/StreamRpc.v ===== *)
(** Streams over a shared connection: in the system of a client and a connection of the server with
    any number of calls (Rpc), what the receiving half of a client's stream gets is what the server
    has written on it, in order. *)
From S2P Require Import Prelude Errors Wire Codec Frame Channel Extension Stream Connection AsyncClient.
From S2P Require Import AsyncServer ServerConn Rpc.

Section StreamRpc.
Context {X : Type} `{SendPath X, RecvPath X} {Q : Type -> Type} `{Mpsc Q, Texts}.
Context `{Codec Request} `{Codec Response} {D StreamName : Type}.
Context (services : @Services D StreamName) (data : D).
Context `{!SendPathLaws X, !RecvPathLaws X, !ClearPath X}.
Context `{!CodecLaws Request, !CodecLaws Response}.
Context {DC T : Type} `{PayloadTransform T, !MpscLaws Q}.

Abbreviation Client := (@AsyncClient.System DC T Q).
Abbreviation ClientConn := (@AsyncClient.Conn DC T Q).
Abbreviation Sys := (@RpcSystem X Q D DC T).

(** ** What a stream of the client has got *)

(** The frames that the owner of mailbox [ch] has taken, and those that wait in it. *)
Definition taken_frames (ch : chan_id) (evs : list AsyncClient.Event) : list GenMessage :=
  omap (fun e => match e with
                 | EvAnswer ch' v => if decide (ch' = ch) then res_frame v else None
                 | _ => None
                 end) evs.
Definition inbox (ch : chan_id) (c : ClientConn) : list GenMessage :=
  match boxes c !! ch with Some q => frames_in q | None => [] end.
Definition arrivals (ch : chan_id) (evs : list AsyncClient.Event) (c : ClientConn) : list GenMessage :=
  taken_frames ch evs ++ inbox ch c.

(** The messages of a stream. *)
Definition of_stream (id : Z) (l : list GenMessage) : list GenMessage := filter (on_stream id) l.

Definition is_final (m : GenMessage) : Prop := keeps (Ok m) = false.

(** The stream has got the first of the messages [l], and all of them while it is registered; a
    message that ends the stream is the last. *)
Record follows (evs : list AsyncClient.Event) (c : ClientConn) (ch : chan_id) (id : Z) (l : list GenMessage) : Prop := {
  fo_prefix : arrivals ch evs c `prefix_of` l;
  fo_whole : streams c !! id = Some ch -> arrivals ch evs c = l /\ Forall (fun m => ~ is_final m) l;
  fo_final l1 m l2 : arrivals ch evs c = l1 ++ m :: l2 -> is_final m -> l2 = [] }.

Lemma taken_frames_app ch evs evs' : taken_frames ch (evs ++ evs') = taken_frames ch evs ++ taken_frames ch evs'.
Proof. apply omap_app. Qed.

Lemma of_stream_app id l l' : of_stream id (l ++ l') = of_stream id l ++ of_stream id l'.
Proof. apply filter_app. Qed.

Lemma of_stream_one id m : of_stream id [m] = if decide (stream_id (header m) = id) then [m] else [].
Proof. unfold of_stream, filter, list_filter. by destruct (decide (on_stream id m)); case_decide. Qed.

(** A step that leaves the stream less, and what it has got a beginning of what it had. *)
Lemma follows_less evs c evs' c' ch id l :
  follows evs c ch id l -> arrivals ch evs' c' `prefix_of` arrivals ch evs c ->
  (streams c' !! id = Some ch -> streams c !! id = Some ch /\ arrivals ch evs' c' = arrivals ch evs c) ->
  follows evs' c' ch id l.
Proof.
  intros [Hp Hw Hf] Hpre Hst. split.
  - by etrans.
  - intros [Hs E]%Hst. rewrite E. by apply Hw.
  - intros l1 m l2 E Hm. destruct Hpre as [k Ek]. rewrite E, <- app_assoc in Ek. cbn in Ek.
    apply Hf in Ek; [|done]. by apply app_nil in Ek as [? _].
Qed.

Lemma follows_same evs c evs' c' ch id l :
  follows evs c ch id l -> arrivals ch evs' c' = arrivals ch evs c ->
  (streams c' !! id = Some ch -> streams c !! id = Some ch) -> follows evs' c' ch id l.
Proof. intros Hf E Hs. eapply follows_less; [exact Hf|by rewrite E|by eauto]. Qed.

(** Messages that the stream will not get, because it is not registered any more. *)
Lemma follows_missed evs c ch id l m :
  follows evs c ch id l -> streams c !! id <> Some ch -> follows evs c ch id (l ++ [m]).
Proof. intros [Hp Hw Hf] Hs. split; [by apply prefix_app_r|done|done]. Qed.

Lemma arrivals_box ch evs (c c' : ClientConn) : boxes c' !! ch = boxes c !! ch -> arrivals ch evs c' = arrivals ch evs c.
Proof. intros E. unfold arrivals, inbox. by rewrite E. Qed.

(** ** What arrives *)

Section Routing.
Context (evs : list AsyncClient.Event) (cs : gmap chan_id (Call * CallKind * CallState)) (c : ClientConn).
Context (Hi : AsyncClient.inv evs cs c) (Hu : unwrapped evs).
Context (ch : chan_id) (id : Z) (Ho : opened evs ch id).

(** A mailbox that is registered under another id is another one. *)
Lemma registered_once id0 ch0 : streams c !! id0 = Some ch0 -> ch0 = ch <-> id0 = id.
Proof.
  intros Hs%(inv_streams _ _ _ Hi). split; [intros ->; by eapply (inv_fun _ _ _ Hi)|intros ->].
  by eapply (inv_inj _ _ _ Hi).
Qed.

(** A result that is delivered, by what it adds to the mailbox [ch]; a result whose mailbox is
    closed leaves the stream unregistered. *)
Lemma route_arrivals id0 v :
  (arrivals ch evs (route id0 v c) = arrivals ch evs c /\
     (streams (route id0 v c) !! id = Some ch -> streams c !! id = Some ch /\ id0 <> id)) \/
  (id0 = id /\ streams c !! id = Some ch /\
     arrivals ch evs (route id0 v c) = arrivals ch evs c ++ option_list (res_frame v) /\
     (streams (route id0 v c) !! id = Some ch -> keeps v = true)).
Proof.
  destruct (streams c !! id0) as [ch0|] eqn:Hs.
  2: { left. rewrite route_none by done. split; [done|]. intros Hs'. split; [done|]. congruence. }
  pose proof (registered_once _ _ Hs) as Hone.
  destruct (route_spec id0 v c ch0 Hs) as [(q & q' & Hq & _ & _ & Hit & ->)|(b & _ & Hb1 & Hb2 & ->)]; cbn [streams].
  - destruct (decide (id0 = id)) as [->|Hne].
    + right. assert (ch0 = ch) as -> by by apply Hone. split_and!; [done|done| |].
      * unfold arrivals, inbox. cbn [boxes]. rewrite lookup_insert_eq, Hq, <- app_assoc. f_equal.
        unfold frames_in. by rewrite Hit, omap_app.
      * destruct (keeps v); [done|]. by rewrite lookup_delete_eq.
    + left. split.
      * apply arrivals_box. cbn [boxes]. rewrite lookup_insert_ne; [done|]. by intros ->%Hone.
      * intros Hst. split; [|done]. destruct (keeps v); [done|]. by rewrite lookup_delete_ne in Hst.
  - left. split.
    + unfold arrivals, inbox. cbn [boxes]. destruct (boxes c !! ch) as [q|] eqn:Eq.
      * destruct (Hb2 _ _ Eq) as (q' & -> & Eit & _). unfold frames_in. by rewrite Eit.
      * destruct (b !! ch) as [q'|] eqn:Eb; [|done]. destruct (Hb1 _ _ Eb) as (q & Eq' & _). congruence.
    + intros Hst. destruct (decide (id0 = id)) as [->|Hne]; [by rewrite lookup_delete_eq in Hst|].
      by rewrite lookup_delete_ne in Hst.
Qed.

(** A frame of the server, which the reader passes on as it is or answers with an error. *)
Lemma route_follows l m v :
  follows evs c ch id l -> (forall m', v = Ok m' -> m' = m) ->
  follows evs (route (stream_id (header m)) v c) ch id (l ++ of_stream id [m]).
Proof.
  intros Hf Hv. rewrite of_stream_one. destruct (route_arrivals (stream_id (header m)) v) as [[Ha Hs]|(Hid & Hs & Ha & Hk)].
  - assert (follows evs (route (stream_id (header m)) v c) ch id l) as Hf'
      by (eapply follows_same; [done|done|by intros [? _]%Hs]).
    case_decide as Hd; [|by rewrite app_nil_r]. apply follows_missed; [done|]. by intros [_ ?]%Hs.
  - rewrite decide_True by done. destruct (fo_whole _ _ _ _ _ Hf Hs) as [Hw Hn]. destruct v as [m'|e]; cbn in Ha.
    + rewrite (Hv m' eq_refl) in *. split; rewrite Ha, Hw.
      * done.
      * intros Hst%Hk. split; [done|]. apply Forall_app. split; [done|]. apply Forall_singleton. unfold is_final. by rewrite Hst.
      * intros l1 x l2 E Hx. destruct l2 as [|y l2] using rev_ind; [done|]. exfalso. clear IHl2.
        rewrite app_comm_cons, app_assoc in E. apply app_inj_tail in E as [-> _].
        apply Forall_app in Hn as [_ Hn]. apply Forall_cons in Hn as [Hn _]. done.
    + rewrite app_nil_r in Ha. apply follows_missed; [|by intros ?%Hk].
      eapply follows_same; [done|done|by intros ?%Hk].
Qed.

(** An error in the place of a frame. *)
Lemma route_error_follows l id0 e : follows evs c ch id l -> follows evs (route id0 (Err e) c) ch id l.
Proof.
  intros Hf. destruct (route_arrivals id0 (Err e)) as [[Ha Hs]|(_ & _ & Ha & Hk)]; (eapply follows_same; [done| |]).
  - done.
  - by intros [? _]%Hs.
  - by rewrite Ha, app_nil_r.
  - by intros ?%Hk.
Qed.
End Routing.

(** Events that take nothing out of the mailbox. *)
Lemma arrivals_quiet ch evs evs' (c : ClientConn) : taken_frames ch evs' = [] -> arrivals ch (evs ++ evs') c = arrivals ch evs c.
Proof. intros E. unfold arrivals. by rewrite taken_frames_app, E, app_nil_r. Qed.

(** The owner takes the first result. *)
Lemma arrivals_pop ch evs (c : ClientConn) q q' v :
  boxes c !! ch = Some q -> mpsc_items q = v :: mpsc_items q' ->
  arrivals ch (evs ++ [EvAnswer ch v]) (set_boxes c (<[ch := q']> (boxes c))) = arrivals ch evs c.
Proof.
  intros Hq Hit. unfold arrivals, inbox. rewrite taken_frames_app. cbn [boxes set_boxes]. rewrite lookup_insert_eq, Hq.
  unfold frames_in. rewrite Hit, <- app_assoc. f_equal. cbn. rewrite decide_True by done. by destruct v.
Qed.

Lemma drain_follows evs cs order e (c : ClientConn) ch id l :
  AsyncClient.inv evs cs c -> unwrapped evs -> opened evs ch id ->
  follows evs c ch id l -> follows evs (AsyncClient.drain order e c) ch id l.
Proof.
  intros Hi Hu Ho. revert c Hi. induction order as [|[id0 ch0] order IH]; intros c Hi Hf; [done|]. cbn.
  apply IH; [by apply route_inv|by eapply route_error_follows].
Qed.

(** The client's own steps bring nothing new. *)
Lemma client_step_follows evs (cl cl' : Client) evs' ch id l :
  AsyncClient.inv evs (calls cl) (conn cl) -> payload_transform (conn_ctx (conn cl)) = None -> unwrapped evs ->
  opened evs ch id -> (forall k kd st, calls cl !! ch = Some (k, kd, st) -> kd = Streaming) ->
  AsyncClient.step cl evs' cl' -> no_frame cl cl' evs' ->
  follows evs (conn cl) ch id l -> follows (evs ++ evs') (conn cl') ch id l.
Proof.
  intros Hi Hctx Hu Ho Hk Hs [Hnf Hno] Hf.
  destruct Hs as [s now req c' k Hb|s req sc c' k Hb|s now req sc c' e Hb|s ch0 k kd Hc|s ch0 k kd st Hc|
    s ch0 k c1 v c2 r Hc Hr Hfin|s ch0 k c1 v Hc Hr|s msg|s h e|s order e Hp]; cbn [conn calls] in *.
  1, 2: by destruct (Hno (c_chan k) (c_id k)); right; left.
  - assert (c' = (fetch_add_2 (conn s)).1) as ->
      by (destruct Hb as [Hb|Hb]; [apply request_begin_spec in Hb|apply new_stream_begin_spec in Hb]; done).
    eapply follows_same; [exact Hf|by rewrite arrivals_quiet|done].
  - rewrite app_nil_r. done.
  - rewrite app_nil_r. destruct (inv_call _ _ _ Hi _ _ _ _ Hc) as (Hch & Hop & q & Hq & _).
    unfold abandon. eapply follows_less; [exact Hf| |].
    + unfold arrivals, inbox. cbn [boxes box_drop set_boxes unregister set_streams]. rewrite Hch.
      destruct (decide (ch0 = ch)) as [->|Hne]; [|by rewrite lookup_alter_ne].
      rewrite lookup_alter_eq, Hq. cbn. destruct (mpsc_drop_spec _ q) as [_ E]. unfold frames_in at 1. rewrite E.
      rewrite app_nil_r. by apply prefix_app_r.
    + cbn [streams box_drop set_boxes unregister set_streams]. intros [Hne Hl]%lookup_delete_Some. split; [done|].
      apply arrivals_box. cbn. rewrite Hch, lookup_alter_ne; [done|]. intros ->. apply Hne.
      by eapply (inv_fun _ _ _ Hi).
  - destruct (inv_call _ _ _ Hi _ _ _ _ Hc) as (Hch & _). destruct (box_recv_spec _ _ _ _ Hr) as (q & q' & Hq & _ & _ & ->).
    unfold request_finish in Hfin. cbn in Hfin. simplify_eq.
    assert (c_chan k <> ch) as Hne by (intros E; rewrite E in Hc; by apply Hk in Hc).
    eapply follows_same; [exact Hf| |done].
    rewrite arrivals_quiet by (cbn; by rewrite decide_False).
    apply arrivals_box. cbn. by rewrite lookup_alter_ne, lookup_insert_ne.
  - destruct (box_recv_spec _ _ _ _ Hr) as (q & q' & Hq & Hit & _ & ->).
    eapply follows_same; [exact Hf| |done]. destruct (decide (ch0 = ch)) as [->|Hne]; [by eapply arrivals_pop|].
    rewrite arrivals_quiet by (cbn; by rewrite decide_False). apply arrivals_box. cbn. by rewrite lookup_insert_ne.
  - rewrite app_nil_r. destruct (handle_msg_clear msg _ Hctx) as (v & E & Hv). rewrite E in *.
    destruct (route_arrivals _ _ _ Hi Hu ch id Ho (stream_id (header msg)) v) as [[Ha Hst]|(Hid & Hst & Ha & Hkp)].
    + eapply follows_same; [exact Hf|done|by intros [? _]%Hst].
    + destruct v as [m|e]; cbn in Ha; [exfalso|].
      2: { rewrite app_nil_r in Ha. eapply follows_same; [exact Hf|done|by intros ?%Hkp]. }
      unfold arrivals in Ha. rewrite <- app_assoc in Ha. apply app_inv_head in Ha.
      unfold inbox in Ha. destruct (boxes (route (stream_id (header msg)) (Ok m) (conn s)) !! ch) as [q'|] eqn:Eq.
      * destruct (Hnf _ _ Eq) as (q & Hq & [k Hsuf]). rewrite Hq in Ha. rewrite Hsuf in Ha.
        apply (f_equal length) in Ha. rewrite !length_app in Ha. cbn in Ha. lia.
      * by destruct (boxes (conn s) !! ch) as [q|]; [destruct (frames_in q)|].
  - rewrite app_nil_r. unfold handle_err. rewrite fail_stream_route. by eapply route_error_follows.
  - rewrite app_nil_r, (disconnect_spec _ _ _ Hp). by eapply drain_follows.
Qed.

(** ** The whole system *)

(** The messages of a stream that have come to the client's reader. *)
Definition read_on (s : Sys) (id : Z) : list GenMessage :=
  of_stream id (take (down_taken s) (emitted (path (server s)))).

Record streams_inv (s : Sys) : Prop := {
  st_down : (down_taken s <= length (emitted (path (server s))))%nat;
  st_follows ch a : unwrapped (history s) -> asked s !! ch = Some a -> a_kind a = Streaming ->
    follows (history s) (conn (client s)) ch (c_id (a_call a)) (read_on s (c_id (a_call a))) }.

Lemma streams_inv_same s s' :
  streams_inv s -> (down_taken s' <= length (emitted (path (server s'))))%nat ->
  (forall id, read_on s' id = read_on s id) -> history s' = history s -> conn (client s') = conn (client s) ->
  asked s' = asked s -> streams_inv s'.
Proof. intros [_ Hf] Hd Hr Hh Hc Ha. split; [done|]. intros ch a. rewrite Hr, Hh, Hc, Ha. apply Hf. Qed.

(** The server only adds messages. *)
Lemma server_adds s c' F n u :
  streams_inv s -> emitted (path (server s)) `prefix_of` emitted (path c') ->
  streams_inv (MkRpc (client s) (history s) (asked s) u n c' F (down_taken s)).
Proof.
  intros Hi [k E]. pose proof (st_down s Hi) as Hd. eapply streams_inv_same; [exact Hi| |intros id|done..]; cbn.
  - rewrite E, length_app. lia.
  - unfold read_on. cbn. by rewrite E, take_app_le.
Qed.

Lemma elem_of_taken_frames m ch evs : m ∈ taken_frames ch evs <-> EvAnswer ch (Ok m) ∈ evs.
Proof.
  unfold taken_frames. rewrite list_elem_of_omap. split.
  - intros ([| |ch' [m'|e]] & Hin & E); try done; case_decide; by simplify_eq/=.
  - intros Hin. exists (EvAnswer ch (Ok m)). by rewrite decide_True.
Qed.

(** A call that is opened has got nothing yet. *)
Lemma open_call_streams s c a :
  client_side s -> server_side services data s -> client_side (open_call s c a) -> streams_inv s ->
  c = conn_opened (conn (client s)) -> c_id (a_call a) = next_stream_id (conn (client s)) ->
  c_chan (a_call a) = next_chan (conn (client s)) -> streams_inv (open_call s c a).
Proof.
  intros Hcl Hss Hcl' Hi -> Hid Hch. pose proof (client_side_inv s Hcl) as Hinv. destruct (cl_run s Hcl) as (d & Hrun).
  assert (forall id, ~ opened (history s) (c_chan (a_call a)) id) as Hfresh.
  { intros id (Hlt & _)%(inv_opened _ _ _ Hinv). rewrite Hch in Hlt. lia. }
  split; [apply (st_down s Hi)|]. intros ch a' Hu Ha' Hk. pose proof (unwrapped_app _ _ Hu) as Hu0.
  pose proof Ha' as Ha1. cbn in Ha'. apply lookup_insert_Some in Ha' as [[<- <-]|[Hne Ha']].
  - assert (read_on (open_call s (conn_opened (conn (client s))) a) (c_id (a_call a)) = []) as ->.
    { apply elem_of_nil_inv. intros m Hm. unfold read_on, of_stream in Hm. cbn in Hm.
      apply list_elem_of_filter in Hm as [Hon Hm]. apply elem_of_take in Hm as (i & Hm%list_elem_of_lookup_2 & _).
      destruct (emitted_asked _ _ _ _ Hcl Hss Hm) as (ch0 & a0 & Ha0 & Hs0).
      assert (c_chan (a_call a) <> ch0) as Hne.
      { intros <-. destruct (cl_asked s Hcl _ _ Ha0) as [Ho _]. by apply Hfresh in Ho. }
      apply Hne. eapply (asked_inj _ _ _ a a0 Hcl' Hu Ha1); [|by rewrite <- Hs0].
      cbn. by rewrite lookup_insert_ne. }
    assert (arrivals (c_chan (a_call a)) (history s ++ [EvTake (c_id (a_call a)); EvOpen (c_chan (a_call a)) (c_id (a_call a))])
      (conn_opened (conn (client s))) = []) as E.
    { rewrite arrivals_quiet by done. unfold arrivals, inbox. cbn [boxes conn_opened]. rewrite <- Hch, lookup_insert_eq.
      unfold frames_in. destruct (mpsc_channel_spec (Q := Q) (Result GenMessage)) as [-> _]. rewrite app_nil_r.
      apply elem_of_nil_inv. intros m Hm%elem_of_taken_frames. eapply Hfresh. by eapply answers_own_stream. }
    split; unfold open_call; cbn [history client conn]; rewrite E; [done|done|by intros []].
  - cbn. eapply follows_same; [by apply (st_follows s Hi)| |].
    + rewrite arrivals_quiet by done. apply arrivals_box. cbn. rewrite lookup_insert_ne; [done|congruence].
    + cbn. intros [[_ E]|[_ Hl]]%lookup_insert_Some; [congruence|done].
Qed.

Lemma streams_inv_step s s' :
  client_side s -> server_side services data s -> client_side s' -> streams_inv s -> rpc_step services data s s' -> streams_inv s'.
Proof.
  intros Hcl Hss Hcl' Hi Hstep. pose proof (client_side_inv s Hcl) as Hinv.
  destruct Hstep as [s now req c' k Hb|s req sc c' k Hb|s ch k kd Hl|s ch a msg Ha Hk Hsent Hid Hty|s evs c' Hst Hnf|
    s m Hm Hlt|s down a c' Hst Hq|s down g c' Hg Hst].
  - destruct (begin_opens _ _ _ now req false (or_introl Hb)) as (Hc' & Hid & Hch). by apply open_call_streams.
  - destruct (begin_opens _ _ _ 0 req sc (or_intror Hb)) as (Hc' & Hid & Hch). by apply open_call_streams.
  - eapply streams_inv_same; [exact Hi|apply (st_down s Hi)|done|cbn; by rewrite app_nil_r|done|done].
  - eapply streams_inv_same; [exact Hi|apply (st_down s Hi)|done..].
  - split; [apply (st_down s Hi)|]. intros ch a Hu Ha Hk. cbn in Hu, Ha. pose proof (unwrapped_app _ _ Hu) as Hu0.
    destruct (cl_asked s Hcl _ _ Ha) as [Ho _]. cbn.
    eapply (client_step_follows (history s) (client s) c'); try done; [apply (cl_ctx s Hcl)| |by apply (st_follows s Hi)].
    intros k kd st Hc. destruct (cl_calls s Hcl _ _ _ _ Hc) as (req & E). by simplify_eq.
  - split; [by apply lookup_lt_Some in Hm|]. intros ch a Hu Ha Hk. destruct (cl_asked s Hcl _ _ Ha) as [Ho _].
    unfold read_on. cbn [down_taken server client history conn]. rewrite (take_S_r _ _ _ Hm), of_stream_app.
    destruct (handle_msg_clear m _ (cl_ctx s Hcl)) as (v & -> & Hv).
    eapply route_follows; [done|done|done|by apply (st_follows s Hi)|done].
  - apply (server_adds s); [done|]. exact (conn_step_prefix _ _ _ _ _ _ (ss_conn _ _ _ Hss) Hst).
  - apply (server_adds s); [done|]. exact (conn_step_prefix _ _ _ _ _ _ (ss_conn _ _ _ Hss) Hst).
Qed.

Lemma reachable_streams s : rpc_reachable services data s -> streams_inv s.
Proof.
  intros (s0 & Hi & Hr).
  enough (rpc_reachable services data s /\ streams_inv s) as [_ ?] by done.
  apply (rtc_ind_r (fun s => rpc_reachable services data s /\ streams_inv s) s0) with (3 := Hr).
  - split; [by exists s0|]. destruct Hi as (d & x & _ & _ & ->). split; [cbn; lia|]. intros ch a _ Ha. done.
  - intros s1 s2 Hr1 Hs [Hr' IH]. assert (rpc_reachable services data s2) as Hr2.
    { destruct Hr' as (s0' & Hi' & Hr'). exists s0'. split; [done|by eapply rtc_r]. }
    split; [done|]. destruct (rpc_sides _ _ _ Hr') as [Hcl Hss]. destruct (rpc_sides _ _ _ Hr2) as [Hcl' _].
    exact (streams_inv_step _ _ Hcl Hss Hcl' IH Hs).
Qed.

(** ** What the owner of the stream makes of it *)

(** The results that receiving a message after the other gives. *)
Lemma typed_recv_frames {M : Type} `{CodecLaws M} senders (r : StreamReceiver Q) id (ms : list M) bs l ms' :
  remote_closed r = false -> recveivable r = true -> mpsc_items (rx r) = Ok <$> l ->
  Forall2 (fun m b => codec_encode m = Ok b /\ len b <= MESSAGE_LENGTH_MAX) ms bs ->
  l `prefix_of` (gen_new_data id <$> bs) ++ gen_new_close id :: ms' ->
  (forall l1 m l2, l = l1 ++ m :: l2 -> is_final m -> l2 = []) ->
  (typed_recv_n (length l) senders r).2 `prefix_of` ((fun m => Some (Ok (Some m))) <$> ms) ++ [Some (Ok None)].
Proof.
  intros Hc Hr Hq Hf Hp Hfin. revert r l Hc Hr Hq Hp Hfin.
  induction Hf as [|m b ms bs [Hm Hb] Hf IH]; intros r [|g l] Hc Hr Hq Hp Hfin; try apply prefix_nil; cbn in Hq, Hp;
    pose proof (prefix_cons_inv_1 _ _ _ _ Hp) as ->; pose proof (prefix_cons_inv_2 _ _ _ _ Hp) as Hp'.
  - assert (l = []) as -> by by apply (Hfin [] (gen_new_close id)).
    destruct (stream_recv_close senders r id [] Hc Hr Hq) as (q' & E & _).
    cbn [length typed_recv_n]. unfold typed_recv_opt. by rewrite E.
  - destruct (stream_recv_data senders r id b _ Hc Hr Hb Hq) as (q' & E & Hq').
    cbn [length typed_recv_n]. unfold typed_recv_opt. rewrite E.
    specialize (IH (set_rx r q') l Hc Hr Hq' Hp').
    destruct (typed_recv_n (length l) senders (set_rx r q')) as [r2 os]. cbn in IH |- *.
    unfold decode_msg. rewrite (codec_decode_encode _ _ Hm). munfold. cbn. apply prefix_cons, IH.
    intros l1 x l2 El. apply (Hfin (gen_new_data id b :: l1)). by rewrite El.
Qed.

(** ** Properties *)

(** C3: the frames of a stream of the client come as the server has written them, whatever else is on
    the connection and however tasks, calls and frames interleave: what has been taken out of the
    stream's mailbox, and what waits in it, are the first of the messages that the server's connection
    has put on the stream, in order, none left out and none twice, and all of them that the client's
    reader has read while the stream is registered; a message that ends the stream is the last. So
    when the server puts on it the messages of a typed stream and then its end, the caller's receiver
    gives these messages in order, then one end of stream, as far as it has received. The stream ids
    are assumed not to have wrapped. *)
Theorem streams_in_order {M : Type} `{CodecLaws M} (s : Sys) (ch : chan_id) (a : Asked) :
  rpc_reachable services data s -> unwrapped (history s) -> asked s !! ch = Some a -> a_kind a = Streaming ->
  let id := c_id (a_call a) in
  let sent := of_stream id (emitted (path (server s))) in
  let got := taken_frames ch (history s) in
  got ++ inbox ch (conn (client s)) `prefix_of` sent /\
  (streams (conn (client s)) !! id = Some ch -> got ++ inbox ch (conn (client s)) = read_on s id) /\
  forall (ms : list M) bs rest senders sends (q : Q (Result GenMessage)),
    sent `prefix_of` (gen_new_data id <$> bs) ++ gen_new_close id :: rest ->
    Forall2 (fun m b => codec_encode m = Ok b /\ len b <= MESSAGE_LENGTH_MAX) ms bs ->
    mpsc_items q = Ok <$> got ->
    (typed_recv_n (length got) senders (receiver (stream_new_client id q sends true))).2
      `prefix_of` ((fun m => Some (Ok (Some m))) <$> ms) ++ [Some (Ok None)].
Proof.
  intros Hr Hu Ha Hk id sent got. destruct (st_follows _ (reachable_streams s Hr) _ _ Hu Ha Hk) as [Hp Hw Hf].
  fold id in Hp, Hw, Hf. unfold arrivals in *. fold got in Hp, Hw, Hf.
  assert (read_on s id `prefix_of` sent) as Hread.
  { exists (of_stream id (drop (down_taken s) (emitted (path (server s))))). unfold sent, read_on.
    by rewrite <- of_stream_app, take_drop. }
  split_and!; [by etrans|by intros [? _]%Hw|].
  intros ms bs rest senders sends q Hsent Henc Hq. eapply (typed_recv_frames senders _ id ms bs got rest); try done.
  - etrans; [|exact Hsent]. etrans; [|exact Hread]. etrans; [|exact Hp]. by apply prefix_app_r.
  - intros l1 m l2 E Hm. assert (l2 ++ inbox ch (conn (client s)) = []) as [? _]%app_nil; [|done].
    eapply (Hf l1 m); [|done]. by rewrite E, <- app_assoc.
Qed.
End StreamRpc.

Section Witness.
Local Instance streams_texts : Texts := conn_texts.
Local Instance streams_request_codec : Codec Request := request_codec.
Local Instance streams_response_codec : Codec Response := response_codec.
Local Instance streams_request_laws : CodecLaws Request := request_codec_laws.
Local Instance streams_response_laws : CodecLaws Response := response_codec_laws.
Abbreviation path_state := (ConnectionContext unit NonceTransform * ListChan SendingMessage)%type.
Local Instance streams_send_path : SendPath path_state := conn_send_path.
Local Instance streams_send_laws : SendPathLaws path_state := conn_send_laws.
Local Instance streams_recv_path : RecvPath path_state := conn_recv_path.
Local Instance streams_recv_laws : RecvPathLaws path_state := conn_recv_laws.
Local Instance streams_clear : ClearPath path_state := rpc_clear.
Abbreviation ex_rpc := (@RpcSystem path_state ListChan unit unit NonceTransform).

(** The schedules of Rpc, with the opening of a stream, what its handler sends and when it returns,
    and what its owner receives and sends. *)
Inductive StreamChoice :=
  | VRpc (y : RpcChoice) | VOpen (req : Request) (sc : bool) | VHandlerSend (tid : nat) (msg : GenMessage)
  | VHandlerEnd (tid : nat) | VRecv (ch : chan_id) | VSend (ch : chan_id) (msg : GenMessage).

Definition stream_choose (v : StreamChoice) (s : ex_rpc) : option ex_rpc :=
  match v with
  | VRpc y => rpc_choose y s
  | VOpen req sc =>
      match new_stream_begin req sc (conn (client s)) with
      | (c', Ok k) => Some (open_call s c' (MkAsked k Streaming req))
      | _ => None
      end
  | VHandlerSend tid msg =>
      sid ← senders (live_streams (server s)) !! tid;
      if decide (stream_id (header msg) = sid)
      then Some (set_server s (with_path (server s) (transform_send msg false true (path (server s))).1)) else None
  | VHandlerEnd tid =>
      if decide (tid ∈ running (live_streams (server s)))
      then Some (set_server s (set_live (server s) (MkStreams (running (live_streams (server s)) ∖ {[tid]})
             (senders (live_streams (server s))) (receivers (live_streams (server s)))))) else None
  | VRecv ch =>
      match calls (client s) !! ch, box_recv ch (conn (client s)) with
      | Some (k, Streaming, Waiting), (c1, Some v) =>
          Some (set_client s (AsyncClient.MkSystem c1 (calls (client s))) [EvAnswer ch v])
      | _, _ => None
      end
  | VSend ch msg =>
      a ← asked s !! ch;
      if a_kind a is Streaming then
        if decide (c_msg (a_call a) ∈ up s /\ stream_id (header msg) = c_id (a_call a) /\
                   type_ (header msg) = MESSAGE_TYPE_DATA)
        then Some (write_up s msg) else None
      else None
  end.

Lemma stream_choose_step v s s' : stream_choose v s = Some s' -> rpc_step served tt s s'.
Proof.
  destruct v as [y|req sc|tid msg|tid|ch|ch msg]; cbn [stream_choose]; intros E.
  - by eapply rpc_choose_step.
  - destruct (new_stream_begin req sc _) as [c' [k|e]] eqn:Eb; simplify_eq. by eapply RNewStream.
  - apply bind_Some in E as (sid & Hl & E). case_decide; simplify_eq.
    destruct (transform_send msg false true (path (server s))) as [x r] eqn:Et.
    eapply (RServer _ _ _ false AStream); [|done]. by eapply CStreamSend.
  - case_decide; simplify_eq. eapply (RServer _ _ _ false AApp); [|done]. by apply CHandlerEnd.
  - destruct (calls (client s) !! ch) as [[[k []] []]|] eqn:Hc; try done.
    destruct (box_recv ch (conn (client s))) as [c1 [v|]] eqn:Hb; [|done]. simplify_eq.
    apply RClient; [by eapply AsyncClient.StepStreamRecv|].
    apply box_recv_spec in Hb as (q & q' & Hq & Hit & _ & ->). split; [|by intros ? ? ?%list_elem_of_singleton].
    cbn. intros ch' q1 [[<- <-]|[_ Hl]]%lookup_insert_Some; [|by eauto]. exists q. split; [done|].
    pose proof (suffix_omap_cons v (mpsc_items q')) as Hs. rewrite <- Hit in Hs. exact Hs.
  - apply bind_Some in E as (a & Ha & E). destruct (a_kind a) eqn:Hk; [done|].
    case_decide as Hd; [|done]. destruct Hd as (Hin & Hid & Hty). simplify_eq.
    by eapply RStreamSend.
Qed.

Fixpoint stream_run (vs : list StreamChoice) (s : ex_rpc) : option ex_rpc :=
  match vs with [] => Some s | v :: vs' => stream_choose v s ≫= stream_run vs' end.

Lemma stream_run_reachable vs s s' :
  rpc_reachable served tt s -> stream_run vs s = Some s' -> rpc_reachable served tt s'.
Proof.
  revert s. induction vs as [|v vs IH]; intros s Hr E; cbn in E; [by simplify_eq|].
  apply bind_Some in E as (s1 & E1 & E). apply stream_choose_step in E1. destruct Hr as (s0 & Hi & Hr).
  eapply IH; [|exact E]. exists s0. split; [done|]. by eapply rtc_r.
Qed.

(** A server-streaming call beside a unary one: two messages and the end of the stream, of which the
    caller has received two when a unary response has come in between. *)
Definition chat_request : Request := MkRequest "svc" "Chat" [Byte.x05] 0 [].
Definition chat : option ex_rpc :=
  stream_run ([VOpen chat_request false; VRpc (YRequest (ask Byte.x07)); VRpc (YSend 0); VRpc (YSend 1); VRpc YServerFrame] ++
    (VRpc ∘ YServer <$> [XTask 0; XTask 0; XTask 0; XResume; XTask 0]) ++
    [VHandlerSend 0 (gen_new_data 1 [Byte.x0a]); VRpc YServerFrame; VRpc (YServer (XTask 1)); VRpc (YServer XResume);
     VRpc (YServer (XTask 1)); VRpc (YServer (XTask 1)); VHandlerSend 0 (gen_new_data 1 [Byte.x0b]);
     VHandlerEnd 0; VRpc (YServer (XTask 0)); VRpc (YServer (XTask 0))] ++
    (VRpc ∘ YServer <$> [XWrite; XWrite; XWrite; XWrite]) ++
    [VRpc YFrame; VRpc YFrame; VRpc YFrame; VRpc YFrame; VRecv 0; VRecv 0])%nat rpc_start.

Lemma rpc_start_reachable : rpc_reachable served tt rpc_start.
Proof. exists rpc_start. split; [|apply rtc_refl]. exists tt, (MkCtx tt None, mpsc_channel). by split_and!. Qed.

Lemma chat_reachable s : chat = Some s -> rpc_reachable served tt s.
Proof. apply stream_run_reachable, rpc_start_reachable. Qed.

Definition chat_sent : list GenMessage := [gen_new_data 1 [Byte.x0a]; gen_new_data 1 [Byte.x0b]; gen_new_close 1].
Definition chat_observed (s : ex_rpc) : option (CallKind * Z) * nat * list GenMessage * list GenMessage :=
  ((fun a => (a_kind a, c_id (a_call a))) <$> asked s !! 0%nat, AsyncClient.taken (history s),
   of_stream 1 (emitted (path (server s))), taken_frames 0 (history s)).

Lemma streams_in_order_witness :
  exists s a, chat = Some s /\ asked s !! 0%nat = Some a /\
    [gen_new_data 1 [Byte.x0a]; gen_new_data 1 [Byte.x0b]] ++ inbox 0%nat (conn (client s)) `prefix_of` chat_sent /\
    (typed_recv_n (M := list byte) 2 true (receiver (stream_new_client 1
       (MkListChan [Ok (gen_new_data 1 [Byte.x0a]); Ok (gen_new_data 1 [Byte.x0b])] true) false true))).2
      `prefix_of` [Some (Ok (Some [Byte.x0a])); Some (Ok (Some [Byte.x0b])); Some (Ok None)].
Proof.
  destruct chat as [s|] eqn:E; [|by vm_compute in E].
  assert (chat_observed <$> chat = Some (Some (Streaming, 1), 2%nat, chat_sent,
    [gen_new_data 1 [Byte.x0a]; gen_new_data 1 [Byte.x0b]])) as Ho by (clear E; vm_compute; reflexivity).
  rewrite E in Ho. cbn [fmap option_fmap option_map] in Ho. apply (inj Some) in Ho.
  unfold chat_observed in Ho. destruct (asked s !! 0%nat) as [a|] eqn:Ha; [|done].
  cbn [fmap option_fmap option_map] in Ho. injection Ho as Hk Hid Ht Hsent Hgot.
  assert (of_stream 1 (emitted (path (server s))) = chat_sent) as Hsent' by exact Hsent.
  destruct (streams_in_order (M := list byte) served tt s 0%nat a) as (Hp & _ & Hty).
  - by apply chat_reachable.
  - unfold unwrapped. by rewrite Ht.
  - exact Ha.
  - exact Hk.
  - cbv zeta in Hp, Hty. rewrite Hid, Hgot in Hp, Hty. rewrite Hsent' in Hp, Hty. exists s, a. split_and!; [done|done|exact Hp|].
    refine (Hty [[Byte.x0a]; [Byte.x0b]] [[Byte.x0a]; [Byte.x0b]] [] true false
      (MkListChan [Ok (gen_new_data 1 [Byte.x0a]); Ok (gen_new_data 1 [Byte.x0b])] true) _ _ _).
    + reflexivity.
    + repeat constructor; discriminate.
    + done.
Defined.
End Witness.
