(* ===== verification/StreamServe.v ===== *)
(** The streams of a server's connection in the system of a client and a server (Rpc): what the
    handler of a stream can receive, and how long its stream stays registered. *)
From S2P Require Import Prelude Errors Wire Codec Frame Channel Extension Stream Connection AsyncClient.
From S2P Require Import AsyncServer ServerConn Rpc.
From S2P Require StreamRpc.

Section StreamServe.
Context {X : Type} `{SendPath X, RecvPath X} {Q : Type -> Type} `{Mpsc Q, Texts}.
Context `{Codec Request} `{Codec Response} {D StreamName : Type}.
Context (services : @Services D StreamName) (data : D).
Context `{!SendPathLaws X, !RecvPathLaws X, !ClearPath X}.
Context `{!CodecLaws Request, !CodecLaws Response}.
Context {DC T : Type} `{PayloadTransform T, !MpscLaws Q}.

Abbreviation Conn := (@ServerConn X Q D).
Abbreviation Sys := (@RpcSystem X Q D DC T).

(** ** One connection

    [F], the frames that the tasks of the connection were spawned for; [B], the mailboxes by the task
    that made them. *)

(** How far a task is in opening a stream. *)
Definition stage (pc : @TaskPc D) : nat :=
  match pc with Start _ => 0 | StreamRegister _ => 1 | StreamRegistered _ _ => 2 | _ => 3 end.

(** The task opens the stream of its frame with this request. *)
Definition reads (F : gmap nat GenMessage) (tid : nat) (r : Message Request) : Prop :=
  exists g n, F !! tid = Some g /\ opens_stream services g /\ dispatch services g = Ok (ToStream n, r).

(** The mailbox was made for the stream of this id. *)
Definition box_of (F : gmap nat GenMessage) (B : gmap chan_id nat) (ch : chan_id) (sid : Z) : Prop :=
  exists tid g, B !! ch = Some tid /\ F !! tid = Some g /\ stream_id (header g) = sid.

Definition pc_ok (F : gmap nat GenMessage) (B : gmap chan_id nat) (tid : nat) (pc : @TaskPc D) : Prop :=
  match pc with
  | StreamRegister r => reads F tid r
  | StreamRegistered ch r | StreamFirst ch r => reads F tid r /\ B !! ch = Some tid
  | DataSend ch m => box_of F B ch (stream_id (header m))
  | _ => True
  end.

(** The message is the payload of the request [g], or a DATA frame on its stream. *)
Definition came_from (F : gmap nat GenMessage) (g m : GenMessage) : Prop :=
  (has_flag (header g) FLAG_NO_DATA = false /\
     exists r, message_try_from g = Ok r /\ m = gen_new_data (stream_id (header g)) (req_payload (msg_payload r))) \/
  (stream_id (header m) = stream_id (header g) /\ type_ (header m) = MESSAGE_TYPE_DATA /\
     exists tid, F !! tid = Some m).

(** No two frames open the same stream. *)
Definition no_twins (F : gmap nat GenMessage) : Prop :=
  forall tid tid' g g', F !! tid = Some g -> F !! tid' = Some g' -> opens_stream services g ->
    opens_stream services g' -> stream_id (header g) = stream_id (header g') -> tid = tid'.

Abbreviation registry c := (h_streams (hstate (handlers c))).
Abbreviation mailboxes c := (h_boxes (hstate (handlers c))).
Abbreviation next_box c := (h_next (hstate (handlers c))).

(** The stream [sid], which has the mailbox [ch], is open on the server's side. *)
Definition open_stream (c : Conn) (tid : nat) (sid : Z) (ch : chan_id) : Prop :=
  receivers (live_streams c) !! tid = Some (sid, ch) \/
  exists r, conn_tasks c !! tid = Some (StreamRegistered ch r) /\ sid = stream_id (msg_header r).

Record serve_inv (F : gmap nat GenMessage) (B : gmap chan_id nat) (c : Conn) : Prop := {
  sv_box ch tid : B !! ch = Some tid -> (ch < next_box c)%nat /\
    (exists g, F !! tid = Some g /\ opens_stream services g) /\
    exists pc, conn_tasks c !! tid = Some pc /\ (2 <= stage pc)%nat;
  sv_registry sid ch : registry c !! sid = Some ch -> box_of F B ch sid;
  sv_pc tid pc : conn_tasks c !! tid = Some pc -> pc_ok F B tid pc;
  sv_receiver tid sid ch : receivers (live_streams c) !! tid = Some (sid, ch) ->
    B !! ch = Some tid /\ box_of F B ch sid /\ exists pc, conn_tasks c !! tid = Some pc /\ (3 <= stage pc)%nat;
  sv_items ch q v : mailboxes c !! ch = Some q -> v ∈ mpsc_items q ->
    exists tid g m, B !! ch = Some tid /\ F !! tid = Some g /\ v = Ok m /\ came_from F g m;
  sv_live tid sid ch : no_twins F -> open_stream c tid sid ch -> registry c !! sid = Some ch }.

Lemma reads_header F tid r g : reads F tid r -> F !! tid = Some g ->
  opens_stream services g /\ msg_header r = header g /\ message_try_from g = Ok r.
Proof.
  intros (g' & n & Hg' & Ho & Hd) Hg. assert (g' = g) as -> by congruence. split; [done|]. split; [by eapply dispatch_header|].
  unfold dispatch in Hd. destruct (message_try_from g) as [r'|]; [|done]. munfold. cbn in Hd.
  destruct (services !! _); cbn in Hd; [|done]. repeat case_match; by simplify_eq.
Qed.

Lemma box_of_sid F B ch tid g sid : box_of F B ch sid -> B !! ch = Some tid -> F !! tid = Some g -> stream_id (header g) = sid.
Proof. intros (tid' & g' & ? & ? & ?) ? ?. by simplify_eq. Qed.

(** The owner of an open stream. *)
Lemma open_stream_owner F B c tid sid ch :
  serve_inv F B c -> open_stream c tid sid ch ->
  B !! ch = Some tid /\ exists g, F !! tid = Some g /\ opens_stream services g /\ stream_id (header g) = sid.
Proof.
  intros Hi Ho. assert (B !! ch = Some tid /\ forall g, F !! tid = Some g -> stream_id (header g) = sid) as [Hb Hs].
  { destruct Ho as [Hr|(r & Ht & ->)].
    - destruct (sv_receiver _ _ _ Hi _ _ _ Hr) as (Hb & Hbox & _). split; [done|]. intros g Hg. by eapply box_of_sid.
    - destruct (sv_pc _ _ _ Hi _ _ Ht) as [Hr Hb]. split; [done|]. intros g Hg.
      destruct (reads_header _ _ _ _ Hr Hg) as (_ & -> & _). done. }
  split; [done|]. destruct (sv_box _ _ _ Hi _ _ Hb) as (_ & (g & Hg & Hop) & _). exists g. split_and!; [done|done|by apply Hs].
Qed.

(** Open streams of the same id are the same. *)
Lemma open_stream_alone F B c tid tid' sid ch ch' :
  serve_inv F B c -> no_twins F -> open_stream c tid sid ch -> open_stream c tid' sid ch' -> tid = tid'.
Proof.
  intros Hi Hn Ho Ho'. destruct (open_stream_owner _ _ _ _ _ _ Hi Ho) as (_ & g & Hg & Hop & Hs).
  destruct (open_stream_owner _ _ _ _ _ _ Hi Ho') as (_ & g' & Hg' & Hop' & Hs'). eapply Hn; [done..|congruence].
Qed.

(** *** Steps *)

Lemma box_of_mono F F' B B' ch sid : F ⊆ F' -> B ⊆ B' -> box_of F B ch sid -> box_of F' B' ch sid.
Proof. intros HF HB (tid & g & ? & ? & ?). exists tid, g. by split_and!; [eapply lookup_weaken|eapply lookup_weaken|]. Qed.

Lemma pc_ok_mono F F' B B' tid pc : F ⊆ F' -> B ⊆ B' -> pc_ok F B tid pc -> pc_ok F' B' tid pc.
Proof.
  intros HF HB. assert (forall r, reads F tid r -> reads F' tid r) as Hr.
  { intros r (g & n & Hg & ? & ?). exists g, n. by split; [eapply lookup_weaken|]. }
  destruct pc; cbn; try done; [by apply Hr| | |by apply box_of_mono];
    (intros [? ?]; split; [by apply Hr|by eapply lookup_weaken]).
Qed.

Lemma came_from_mono F F' g m : F ⊆ F' -> came_from F g m -> came_from F' g m.
Proof. intros HF [?|(? & ? & tid & ?)]; [by left|right]. split_and!; [done|done|]. exists tid. by eapply lookup_weaken. Qed.

Lemma no_twins_mono F F' : F ⊆ F' -> no_twins F' -> no_twins F.
Proof. intros HF Hn tid tid' g g' Hg Hg'. apply Hn; by eapply lookup_weaken. Qed.

(** A step that leaves the registry, the mailboxes and the receivers alone, and may move a task on. *)
Lemma serve_move F B c c' tid pc pc' :
  serve_inv F B c -> registry c' = registry c -> mailboxes c' = mailboxes c -> next_box c' = next_box c ->
  receivers (live_streams c') = receivers (live_streams c) -> conn_tasks c !! tid = Some pc ->
  conn_tasks c' = <[tid := pc']> (conn_tasks c) -> (stage pc <= stage pc')%nat -> pc_ok F B tid pc' ->
  (forall ch r, pc' <> StreamRegistered ch r) -> serve_inv F B c'.
Proof.
  intros [I1 I2 I3 I4 I5 I6] Er Em En El Ht Et Hst Hok Hn.
  assert (forall tid' n, (exists pc0, conn_tasks c !! tid' = Some pc0 /\ (n <= stage pc0)%nat) ->
    exists pc0, conn_tasks c' !! tid' = Some pc0 /\ (n <= stage pc0)%nat) as Hs.
  { intros tid' n (pc0 & Hpc & Hle). rewrite Et. destruct (decide (tid = tid')) as [<-|Hne].
    - exists pc'. rewrite lookup_insert_eq. split; [done|]. assert (pc0 = pc) as -> by congruence. lia.
    - exists pc0. by rewrite lookup_insert_ne. }
  split; rewrite ?Er, ?Em, ?En, ?El; try done.
  - intros ch tid' Hb. destruct (I1 _ _ Hb) as (? & ? & ?). by auto.
  - rewrite Et. intros tid' pc0 [[<- <-]|[_ Hl]]%lookup_insert_Some; [done|by apply I3].
  - intros tid' sid ch Hr. destruct (I4 _ _ _ Hr) as (? & ? & ?). by auto.
  - intros tid' sid ch Ht' Ho. apply (I6 tid'); [done|]. destruct Ho as [Ho|(r & Ho & ->)]; [left; by rewrite <- El|right].
    rewrite Et in Ho. apply lookup_insert_Some in Ho as [[_ E]|[_ Ho]]; [by apply Hn in E|]. by exists r.
Qed.

(** A step that leaves the tasks alone too. *)
Lemma serve_same F B c c' :
  serve_inv F B c -> registry c' = registry c -> mailboxes c' = mailboxes c -> next_box c' = next_box c ->
  receivers (live_streams c') = receivers (live_streams c) -> conn_tasks c' = conn_tasks c -> serve_inv F B c'.
Proof.
  intros [I1 I2 I3 I4 I5 I6] Er Em En El Et. split; rewrite ?Er, ?Em, ?En, ?El, ?Et; try done.
  unfold open_stream. by rewrite El, Et.
Qed.

(** A result is put into a mailbox. *)
Lemma serve_put F B c ch v (s' : @HandlerState X Q) ok g m :
  serve_inv F B c -> box_put ch v (hstate (handlers c)) = (s', ok) ->
  (exists tid, B !! ch = Some tid /\ F !! tid = Some g) -> v = Ok m -> came_from F g m ->
  h_streams s' = registry c /\ h_next s' = next_box c /\ serve_inv F B (with_hstate c s').
Proof.
  intros Hi E (tid & Hb & Hg) -> Hm. unfold box_put in E.
  destruct (mailboxes c !! ch) as [q|] eqn:Hq.
  - destruct (mpsc_send (Ok m) q) as [q' b] eqn:Es. simplify_eq. apply mpsc_send_spec in Es as (_ & _ & Hit).
    destruct Hi as [I1 I2 I3 I4 I5 I6]. split_and!; [done|done|]. split; try done. cbn.
    intros ch' q1 v [[<- <-]|[_ Hl]]%lookup_insert_Some Hv; [|by eapply I5].
    rewrite Hit in Hv. destruct (mpsc_open q); [|by eapply I5].
    apply elem_of_app in Hv as [Hv| ->%list_elem_of_singleton]; [by eapply I5|]. by exists tid, g, m.
  - simplify_eq. split_and!; [done|done|]. by eapply serve_same.
Qed.

(** The state of a connection after a step of task [tid] from [pc] to [pc']. *)
Definition after_task (c : Conn) (tid : nat) (pc pc' : @TaskPc D) (s' : @HandlerState X Q) : Conn :=
  set_live (set_handlers c (MkSystem s' (reader (handlers c)) (<[tid := pc']> (conn_tasks c))))
    (spawn_stream tid pc (live_streams c)).

Lemma spawn_none tid pc l : spawned (D := D) pc = None -> spawn_stream tid pc l = l.
Proof. unfold spawn_stream. by intros ->. Qed.

(** The mailbox of a stream is made and registered. *)
Lemma serve_open F B c tid r :
  serve_inv F B c -> conn_tasks c !! tid = Some (StreamRegister r) ->
  let '(s', ch) := stream_open r (hstate (handlers c)) in
  B !! ch = None /\ serve_inv F (<[ch := tid]> B) (after_task c tid (StreamRegister r) (StreamRegistered ch r) s').
Proof.
  intros Hi Ht. unfold stream_open. set (sid := stream_id (msg_header r)).
  assert (B !! next_box c = None) as Hnone.
  { destruct (B !! next_box c) as [tid'|] eqn:E; [|done]. destruct (sv_box _ _ _ Hi _ _ E) as (Hlt & _). lia. }
  split; [done|]. pose proof (insert_subseteq B (next_box c) tid Hnone) as HB.
  pose proof (sv_pc _ _ _ Hi _ _ Ht) as Hr. cbn in Hr. pose proof Hr as (g & n & Hg & Hop & Hd).
  destruct (reads_header _ _ _ _ Hr Hg) as (_ & Hh & _).
  assert (box_of F (<[next_box c := tid]> B) (next_box c) sid) as Hbox.
  { exists tid, g. rewrite lookup_insert_eq. unfold sid. by rewrite Hh. }
  assert (forall tid' k, (k <= 2)%nat \/ tid' <> tid ->
    (exists pc0, conn_tasks c !! tid' = Some pc0 /\ (k <= stage pc0)%nat) ->
    exists pc0, <[tid := StreamRegistered (next_box c) r]> (conn_tasks c) !! tid' = Some pc0 /\ (k <= stage pc0)%nat) as Hst.
  { intros tid' k Hk (pc0 & Hpc & Hle). destruct (decide (tid = tid')) as [<-|Hne].
    - eexists. rewrite lookup_insert_eq. split; [done|]. destruct Hk as [Hk|?]; [exact Hk|done].
    - exists pc0. by rewrite lookup_insert_ne. }
  assert (forall sid' ch', open_stream c tid sid' ch' -> False) as Hno.
  { intros sid' ch' [Hrc|(r' & Hrc & _)]; [|congruence].
    destruct (sv_receiver _ _ _ Hi _ _ _ Hrc) as (_ & _ & pc0 & Hpc & Hle). simplify_eq. cbn in Hle. lia. }
  pose proof Hi as [I1 I2 I3 I4 I5 I6]. unfold after_task. split; cbn.
  - intros ch tid' [[<- <-]|[_ Hb]]%lookup_insert_Some.
    + split; [lia|]. split; [by exists g|]. eexists. by rewrite lookup_insert_eq.
    + destruct (I1 _ _ Hb) as (? & ? & ?). split; [lia|]. split; [done|]. apply Hst; [by left; lia|done].
  - intros sid' ch [[<- <-]|[_ Hl]]%lookup_insert_Some; [done|]. eapply box_of_mono; [done|exact HB|by apply I2].
  - intros tid' pc0 [[<- <-]|[_ Hl]]%lookup_insert_Some; [|eapply pc_ok_mono; [done|exact HB|by apply I3]].
    cbn. split; [done|by rewrite lookup_insert_eq].
  - intros tid' sid' ch Hrc. destruct (I4 _ _ _ Hrc) as (Hb & Hbx & Hpc).
    split; [by eapply lookup_weaken|]. split; [by eapply box_of_mono|]. apply Hst; [|done]. right. intros ->.
    eapply Hno. by left.
  - intros ch q v [[<- <-]|[_ Hl]]%lookup_insert_Some Hv.
    + destruct (mpsc_channel_spec (Q := Q) (Result GenMessage)) as [E _]. rewrite E in Hv. by apply elem_of_nil in Hv.
    + destruct (I5 _ _ _ Hl Hv) as (t & g' & m & Hb & ? & ? & ?). exists t, g', m. split; [by eapply lookup_weaken|done].
  - intros tid' sid' ch Hn Ho.
    destruct (decide (tid' = tid)) as [->|Hne].
    + destruct Ho as [Hrc|(r' & Hrc & ->)]; [exfalso; eapply Hno; by left|]. cbn in Hrc.
      unfold conn_tasks in Hrc. cbn in Hrc. rewrite lookup_insert_eq in Hrc. simplify_eq. by rewrite lookup_insert_eq.
    + assert (open_stream c tid' sid' ch) as Ho'.
      { destruct Ho as [Hrc|(r' & Hrc & ->)]; [by left|right; exists r'].
        unfold conn_tasks in Hrc. cbn in Hrc. by rewrite lookup_insert_ne in Hrc. }
      rewrite lookup_insert_ne; [by eapply I6|]. intros E.
      destruct (open_stream_owner _ _ _ _ _ _ Hi Ho') as (_ & g' & Hg' & Hop' & Hs').
      apply Hne. eapply (Hn tid' tid g' g); [done..|]. rewrite Hs', <- Hh. by symmetry.
Qed.

(** Its handler is spawned. *)
Lemma serve_spawn F B c tid ch r :
  serve_inv F B c -> conn_tasks c !! tid = Some (StreamRegistered ch r) ->
  serve_inv F B (after_task c tid (StreamRegistered ch r) (StreamFirst ch r) (hstate (handlers c))).
Proof.
  intros Hi Ht. pose proof (sv_pc _ _ _ Hi _ _ Ht) as [Hr Hb]. pose proof Hr as (g & n & Hg & Hop & Hd).
  destruct (reads_header _ _ _ _ Hr Hg) as (_ & Hh & _). pose proof Hi as [I1 I2 I3 I4 I5 I6].
  assert (forall tid' k, (k <= 3)%nat -> (exists pc0, conn_tasks c !! tid' = Some pc0 /\ (k <= stage pc0)%nat) ->
    exists pc0, <[tid := StreamFirst ch r]> (conn_tasks c) !! tid' = Some pc0 /\ (k <= stage pc0)%nat) as Hst.
  { intros tid' k Hk (pc0 & Hpc & Hle). destruct (decide (tid = tid')) as [<-|Hne].
    - eexists. by rewrite lookup_insert_eq.
    - exists pc0. by rewrite lookup_insert_ne. }
  unfold after_task. split; cbn; try done.
  - intros ch' tid' Hb'. destruct (I1 _ _ Hb') as (? & ? & ?). split_and!; [done|done|]. apply Hst; [lia|done].
  - by intros tid' pc0 [[<- <-]|[_ Hl]]%lookup_insert_Some; [|apply I3].
  - intros tid' sid ch' [[<- [= <- <-]]|[_ Hl]]%lookup_insert_Some.
    + split; [done|]. split; [exists tid, g; by rewrite Hh|]. eexists. by rewrite lookup_insert_eq.
    + destruct (I4 _ _ _ Hl) as (? & ? & ?). split_and!; [done|done|]. apply Hst; [lia|done].
  - intros tid' sid ch' Hn Ho. apply (I6 tid' sid ch' Hn). destruct Ho as [Ho|(r' & Ho & ->)].
    + cbn in Ho. apply lookup_insert_Some in Ho as [[<- [= <- <-]]|[_ Ho]]; [right; by exists r|by left].
    + unfold conn_tasks in Ho. cbn in Ho. apply lookup_insert_Some in Ho as [[_ ?]|[_ Ho]]; [done|right; by exists r'].
Qed.

(** A step of a task that changes nothing but the path. *)
Lemma serve_pass F B c tid pc pc' (s' : @HandlerState X Q) :
  serve_inv F B c -> conn_tasks c !! tid = Some pc -> spawned pc = None ->
  h_streams s' = registry c -> h_boxes s' = mailboxes c -> h_next s' = next_box c ->
  (stage pc <= stage pc')%nat -> pc_ok F B tid pc' -> (forall ch r, pc' <> StreamRegistered ch r) ->
  serve_inv F B (after_task c tid pc pc' s').
Proof.
  intros Hi Ht Hs Es Eb En Hst Hok Hn. unfold after_task. rewrite spawn_none by done.
  by eapply serve_move; [exact Hi|..|exact Ht|done|done|done|].
Qed.

(** The same after a message was put into a mailbox. *)
Lemma serve_pass_put F B c tid pc pc' ch v (s' : @HandlerState X Q) ok g m :
  serve_inv F B c -> conn_tasks c !! tid = Some pc -> spawned pc = None ->
  box_put ch v (hstate (handlers c)) = (s', ok) ->
  (exists t, B !! ch = Some t /\ F !! t = Some g) -> v = Ok m -> came_from F g m ->
  (stage pc <= stage pc')%nat -> pc_ok F B tid pc' -> (forall ch r, pc' <> StreamRegistered ch r) ->
  forall s1 : HandlerState, h_streams s1 = h_streams s' -> h_boxes s1 = h_boxes s' -> h_next s1 = h_next s' ->
  serve_inv F B (after_task c tid pc pc' s1).
Proof.
  intros Hi Ht Hs E Hb Hv Hm Hst Hok Hn s1 Es Eb En. destruct (serve_put _ _ _ _ _ _ _ _ _ Hi E Hb Hv Hm) as (E1 & E2 & Hi').
  exact (serve_pass F B (with_hstate c s') tid pc pc' s1 Hi' Ht Hs Es Eb En Hst Hok Hn).
Qed.

Lemma serve_task F B c tid env pc pc' s' evs :
  prov services data F c -> serve_inv F B c -> conn_tasks c !! tid = Some pc ->
  task_step services data env tid pc (hstate (handlers c)) = Some (pc', s', evs) ->
  exists B', B ⊆ B' /\ serve_inv F B' (after_task c tid pc pc' s').
Proof.
  intros Hv Hi Ht E. destruct (pv_task _ _ _ _ Hv _ _ Ht) as (g & Hg & Hok). pose proof (sv_pc _ _ _ Hi _ _ Ht) as Hpc.
  pose proof (fun pc' s' => serve_pass F B c tid pc pc' s' Hi Ht) as Hpass.
  assert (forall pc' s', serve_inv F B (after_task c tid pc pc' s') -> exists B', B ⊆ B' /\ serve_inv F B' (after_task c tid pc pc' s'))
    as Hex by eauto.
  destruct pc as [g'|sid|m r|r|ch r|ch r|r|sid r|g'|ch g'|]; cbn in Hok, Hpc, E; [..|done].
  - subst g'. case_decide as Hodd; [simplify_eq; apply Hex, Hpass; cbn; try done; lia|]. case_decide as Hty.
    + destruct (dispatch services g) as [[[m|n] r]|status] eqn:Ed; simplify_eq; apply Hex, Hpass; cbn; try done; try lia.
      assert (opens_stream services g) by (split_and!; [by destruct (decide (stream_id (header g) mod 2 = 1))|done|by eauto]).
      by exists g, n.
    + case_decide; simplify_eq; apply Hex, Hpass; cbn; try done; lia.
  - simplify_eq. apply Hex, Hpass; cbn; try done; lia.
  - simplify_eq. apply Hex, Hpass; cbn; try done; lia.
  - simplify_eq. pose proof (serve_open F B c tid r Hi Ht) as Ho. cbn in Ho. destruct Ho as [Hn Ho].
    eexists. split; [|exact Ho]. by apply insert_subseteq.
  - simplify_eq. by apply Hex, serve_spawn.
  - destruct Hpc as [Hr Hb]. destruct (reads_header _ _ _ _ Hr Hg) as (_ & Hh & Hreq).
    destruct (stream_first_data ch r _) as [s1 o] eqn:Ef. unfold stream_first_data in Ef.
    destruct (has_flag (msg_header r) FLAG_NO_DATA) eqn:Hfl; [simplify_eq; apply Hex, Hpass; cbn; try done; lia|].
    destruct (box_put ch _ _) as [s2 b] eqn:Eb. assert (s2 = s1) as -> by (by destruct b; simplify_eq).
    assert (came_from F g (gen_new_data (stream_id (msg_header r)) (req_payload (msg_payload r)))) as Hm.
    { left. rewrite <- Hh. split; [done|]. by exists r. }
    apply Hex. destruct o; simplify_eq; (eapply serve_pass_put; [exact Hi|exact Ht|done|exact Eb|by eauto|done|exact Hm|cbn; lia|done..]).
  - simplify_eq. apply Hex, Hpass; cbn; try done; lia.
  - simplify_eq. apply Hex, Hpass; cbn; try done; lia.
  - destruct Hok as [-> Hty]. destruct (registry c !! stream_id (header g)) as [ch|] eqn:Er; simplify_eq.
    + apply Hex, Hpass; cbn; try done; try lia. by eapply sv_registry.
    + unfold handle_data. rewrite Er. apply Hex, Hpass; cbn; try done; lia.
  - destruct Hok as [-> Hty]. destruct Hpc as (t & g0 & Hb & Hg0 & Hs).
    destruct (box_put ch (Ok g) _) as [s1 b] eqn:Eb.
    assert (came_from F g0 g) as Hm by (right; split_and!; [done|done|by eauto]).
    apply Hex. destruct b; simplify_eq; (eapply serve_pass_put; [exact Hi|exact Ht|done|exact Eb|by eauto|done|exact Hm|cbn; lia|done..]).
Qed.

(** The handler receives, and its receiver is dropped. *)
Lemma serve_recv F B c ch q q' v :
  serve_inv F B c -> mailboxes c !! ch = Some q -> mpsc_recv q = (q', Some v) ->
  serve_inv F B (with_hstate c (set_box (hstate (handlers c)) ch q')).
Proof.
  intros [I1 I2 I3 I4 I5 I6] Hq Hr. apply mpsc_recv_spec in Hr as (_ & Ht & _). split; try done. cbn.
  intros ch' q1 v' [[<- <-]|[_ Hl]]%lookup_insert_Some Hv; [|by eapply I5]. rewrite Ht in Hv.
  apply (I5 _ _ _ Hq). destruct (mpsc_items q); [done|by right].
Qed.

Lemma serve_drop F B c tid sid ch :
  serve_inv F B c -> receivers (live_streams c) !! tid = Some (sid, ch) ->
  serve_inv F B (set_live (with_hstate c (drop_receiver sid ch (hstate (handlers c))))
    (MkStreams (running (live_streams c)) (senders (live_streams c)) (delete tid (receivers (live_streams c))))).
Proof.
  intros Hi Hr. pose proof Hi as [I1 I2 I3 I4 I5 I6]. split; cbn; try done.
  - intros sid' ch' [_ Hl]%lookup_delete_Some. by apply I2.
  - intros tid' sid' ch' [_ Hl]%lookup_delete_Some. by apply I4.
  - intros ch' q v [(<- & q0 & Hq0 & ->)|[_ Hl]]%lookup_alter_Some Hv; [|by eapply I5].
    destruct (mpsc_drop_spec _ q0) as [_ E]. rewrite E in Hv. by apply elem_of_nil in Hv.
  - intros tid' sid' ch' Hn Ho. assert (open_stream c tid sid ch) as Hot by by left.
    assert (tid' <> tid /\ open_stream c tid' sid' ch') as [Hne Ho'].
    { destruct Ho as [Ho|(r & Ho & ->)]; cbn in Ho.
      - apply lookup_delete_Some in Ho as [Hne Ho]. by split; [congruence|left].
      - split; [|right; by exists r]. intros ->. destruct (I4 _ _ _ Hr) as (_ & _ & pc & Hpc & Hle).
        unfold conn_tasks in *. cbn in Ho. simplify_eq. cbn in Hle. lia. }
    rewrite lookup_delete_ne; [by eapply I6|]. intros ->. apply Hne. by eapply open_stream_alone.
Qed.

Lemma serve_step F B down c a c' :
  prov services data F c -> serve_inv F B c -> conn_step services data down c a c' -> quiet a ->
  exists B', B ⊆ B' /\ serve_inv F B' c'.
Proof.
  intros Hv Hi Hs Hq.
  assert (forall c', serve_inv F B c' -> exists B', B ⊆ B' /\ serve_inv F B' c') as Hex by eauto.
  destruct Hs as [c i Hp Hr Hi'|c tid Hr Hh|c tid env pc pc' s' evs Ht Hj He|c tid pc Hd Ht Hn|
    c tid sid msg x r Hl Hsid He|c tid sid ch q q' v Hl Hqc Hrv|c tid Hl|c tid sid Hl|c tid sid ch Hl|c Hp Ha|c Hp|
    c Hw Hl|c e Hw Hl|c Hw Hl Hn].
  3: { exact (serve_task F B c tid env pc pc' s' evs Hv Hi Ht He). }
  5: { apply Hex. by eapply serve_recv. }
  7: { apply Hex. by apply serve_drop. }
  1: { destruct (quiet_turn i c Hq) as [Eh El]. apply Hex. eapply serve_same; [exact Hi|..]; unfold conn_tasks; by rewrite ?Eh, ?El. }
  2: { apply Hex. eapply serve_move; [exact Hi|done|done|done|done|exact Ht|done| |done|done]. cbn. destruct pc; cbn; lia. }
  all: apply Hex; eapply serve_same; [exact Hi|done..].
Qed.

(** A frame arrives. *)
Lemma serve_frame F B msg c :
  conn_inv c -> serve_inv F B c -> reader (handlers c) = None -> dom F = dom (conn_tasks c) ->
  let c' := reader_handle_msg msg c in
  serve_inv (match reader (handlers c') with Some tid => <[tid := msg]> F | None => F end) B c'.
Proof.
  intros Hc Hi Hr Hd. cbn. unfold reader_handle_msg. destruct (handler_down c); [by rewrite Hr|].
  destruct (receive _ msg (path c)) as [x [m|e]] eqn:Er; cbn; rewrite ?Hr.
  2: { eapply serve_same; [exact Hi|done..]. }
  apply receive_clear in Er as ->; [|apply (ci_steady c Hc)].
  set (tid := fresh _). assert (conn_tasks c !! tid = None) as Hn by (apply not_elem_of_dom, is_fresh).
  assert (F !! tid = None) as Hf by (apply not_elem_of_dom; rewrite Hd; apply is_fresh).
  pose proof (insert_subseteq F tid msg Hf) as HF.
  assert (forall tid' pc, conn_tasks c !! tid' = Some pc -> <[tid := Start msg]> (conn_tasks c) !! tid' = Some pc) as Hst
    by (intros tid' pc Hl; rewrite lookup_insert_ne; [done|congruence]).
  destruct Hi as [I1 I2 I3 I4 I5 I6]. split; cbn.
  - intros ch tid' Hb. destruct (I1 _ _ Hb) as (? & (g & ? & ?) & pc & ? & ?).
    split_and!; [done|exists g; split; [by eapply lookup_weaken|done]|exists pc; split; [by apply Hst|done]].
  - intros sid ch Hl. eapply box_of_mono; [exact HF|done|by apply I2].
  - intros tid' pc [[<- <-]|[_ Hl]]%lookup_insert_Some; [done|]. eapply pc_ok_mono; [exact HF|done|by apply I3].
  - intros tid' sid ch Hl. destruct (I4 _ _ _ Hl) as (? & ? & pc & ? & ?).
    split_and!; [done|by eapply box_of_mono|exists pc; split; [by apply Hst|done]].
  - intros ch q v Hl Hv. destruct (I5 _ _ _ Hl Hv) as (t & g & m & ? & ? & ? & ?). exists t, g, m.
    split_and!; [done|by eapply lookup_weaken|done|by eapply came_from_mono].
  - intros tid' sid ch Hn' Ho. apply (I6 tid' sid ch); [by eapply no_twins_mono|].
    destruct Ho as [Ho|(r & Ho & ->)]; [by left|right; exists r]. unfold conn_tasks in Ho. cbn in Ho.
    apply lookup_insert_Some in Ho as [[_ ?]|[_ Ho]]; done.
Qed.

Lemma serve_init x : serve_inv ∅ ∅ (spawn_connection_handler x).
Proof. split; cbn; try done. by intros tid sid ch _ [Ho|(r & Ho & _)]. Qed.

(** ** The whole system *)

(** The frame is a request. *)
Definition carries (g : GenMessage) (req : Request) : Prop :=
  type_ (header g) = MESSAGE_TYPE_REQUEST /\ message_try_from g = Ok (MkMessage (header g) req).

(** A frame of the client is the request of a call, or follows it. *)
Record requests_inv (s : Sys) : Prop := {
  rq_type ch a : asked s !! ch = Some a -> carries (c_msg (a_call a)) (a_req a);
  rq_up j m : up s !! j = Some m -> exists ch a, asked s !! ch = Some a /\ stream_id (header m) = c_id (a_call a) /\
    (m = c_msg (a_call a) \/
     type_ (header m) = MESSAGE_TYPE_DATA /\ exists i, (i < j)%nat /\ up s !! i = Some (c_msg (a_call a)));
  rq_sending ch k kd j : unwrapped (history s) -> calls (client s) !! ch = Some (k, kd, Sending) ->
    up s !! j <> Some (c_msg k);
  rq_once ch a i j : unwrapped (history s) -> asked s !! ch = Some a ->
    up s !! i = Some (c_msg (a_call a)) -> up s !! j = Some (c_msg (a_call a)) -> i = j }.

Lemma stream_call_type (c c' : @AsyncClient.Conn DC T Q) k req sc g :
  new_stream_begin req sc c = (c', Ok k) -> request_frame (next_stream_id c) req = Ok g ->
  type_ (header (c_msg k)) = type_ (header g) /\ payload (c_msg k) = payload g.
Proof.
  unfold new_stream_begin, fetch_add_2, unbounded_channel, register. munfold. cbn. intros Hb E. rewrite E in Hb. cbn in Hb.
  destruct sc; [destruct (bool_decide _)|]; by simplify_eq/=.
Qed.

Lemma asked_fresh (s : Sys) : client_side s -> asked s !! next_chan (conn (client s)) = None.
Proof.
  intros Hcl. destruct (asked s !! next_chan (conn (client s))) as [a|] eqn:E; [|done].
  destruct (cl_asked s Hcl _ _ E) as [(Hlt & _)%(inv_opened _ _ _ (client_side_inv s Hcl)) _]. lia.
Qed.

Lemma requests_open (s : Sys) c a :
  client_side s -> client_side (open_call s c a) -> requests_inv s -> c_chan (a_call a) = next_chan (conn (client s)) ->
  carries (c_msg (a_call a)) (a_req a) -> requests_inv (open_call s c a).
Proof.
  intros Hcl Hcl' [Q1 Q2 Q3 Q4] Hch Hty. pose proof (asked_fresh s Hcl) as Hnone. rewrite <- Hch in Hnone.
  assert (forall ch a', asked s !! ch = Some a' -> <[c_chan (a_call a) := a]> (asked s) !! ch = Some a') as Hmono
    by (intros ch a' E; rewrite lookup_insert_ne; [done|congruence]).
  assert (unwrapped (history (open_call s c a)) -> forall j, up s !! j <> Some (c_msg (a_call a))) as Hnew.
  { intros Hu j Hj. destruct (Q2 _ _ Hj) as (ch & a' & Ha' & Hid & _).
    assert (asked (open_call s c a) !! c_chan (a_call a) = Some a) as Ha by (cbn; by rewrite lookup_insert_eq).
    destruct (cl_asked _ Hcl' _ _ Ha) as (_ & Hs & _).
    assert (c_chan (a_call a) = ch) as <-; [|congruence].
    eapply (asked_inj _ _ _ a a' Hcl' Hu Ha); [by apply Hmono|congruence]. }
  split; cbn.
  - intros ch a' [[<- <-]|[_ Hl]]%lookup_insert_Some; [done|by eapply Q1].
  - intros j m Hj. destruct (Q2 _ _ Hj) as (ch & a' & Ha' & ?). exists ch, a'. split; [by apply Hmono|done].
  - intros ch k kd j Hu [[<- E]|[_ Hl]]%lookup_insert_Some; [simplify_eq; by apply Hnew|].
    eapply Q3; [by eapply unwrapped_app|done].
  - intros ch a' i j Hu [[<- <-]|[_ Hl]]%lookup_insert_Some Hi Hj; [by destruct (Hnew Hu i)|].
    eapply Q4; [by eapply unwrapped_app|done..].
Qed.

(** A frame is written: the request of a call that was not sent yet, or a DATA frame after it. *)
Lemma requests_write (s : Sys) ch a g cl :
  client_side s -> requests_inv s -> asked s !! ch = Some a -> stream_id (header g) = c_id (a_call a) ->
  (forall ch' k kd, calls cl !! ch' = Some (k, kd, Sending) -> calls (client s) !! ch' = Some (k, kd, Sending)) ->
  (g = c_msg (a_call a) /\ (exists kd, calls (client s) !! ch = Some (a_call a, kd, Sending)) /\
     (forall k kd, calls cl !! ch <> Some (k, kd, Sending)) \/
   type_ (header g) = MESSAGE_TYPE_DATA /\ c_msg (a_call a) ∈ up s) ->
  requests_inv (write_up (set_client s cl []) g).
Proof.
  intros Hcl [Q1 Q2 Q3 Q4] Ha Hid Hcs Hg.
  assert (unwrapped (history s) -> forall ch' a', asked s !! ch' = Some a' -> g = c_msg (a_call a') -> ch' = ch /\ a' = a) as Hown.
  { intros Hu ch' a' Ha' E. assert (ch' = ch) as ->; [|split; [done|congruence]].
    eapply (asked_inj _ _ _ a' a Hcl Hu); [done..|]. destruct (cl_asked s Hcl _ _ Ha') as (_ & Hs & _). congruence. }
  split; cbn; rewrite ?app_nil_r.
  - done.
  - intros j m [[Hlt Hj]|[-> <-]]%lookup_snoc_Some.
    + destruct (Q2 _ _ Hj) as (ch' & a' & ? & ? & [?|(? & i & ? & Hi)]); exists ch', a'; split_and!; try done; [by left|right].
      split; [done|]. exists i. split; [done|]. by apply lookup_app_l_Some.
    + exists ch, a. split_and!; [done|done|]. destruct Hg as [[? _]|[Hty Hin]]; [by left|right]. split; [done|].
      apply list_elem_of_lookup in Hin as [i Hi]. exists i. split; [by apply lookup_lt_Some in Hi|]. by apply lookup_app_l_Some.
  - intros ch' k kd j Hu Hl [[Hlt Hj]|[_ E]]%lookup_snoc_Some; [by eapply Q3; eauto|].
    pose proof (Hcs _ _ _ Hl) as Hl'. destruct (cl_calls s Hcl _ _ _ _ Hl') as (req & Ha').
    destruct (Hown Hu _ _ Ha' E) as [-> <-]. cbn in *. destruct Hg as [(_ & _ & Hns)|[Hty _]]; [by eapply Hns|].
    pose proof (Q1 _ _ Ha') as [Ht' _]. cbn in Ht'. rewrite E, Ht' in Hty. done.
  - intros ch' a' i j Hu Ha' Hi Hj. apply lookup_snoc_Some in Hi as [[_ Hi]|[-> Ei]], Hj as [[_ Hj]|[-> Ej]];
      [by eapply Q4| | |done]; exfalso.
    + destruct (Hown Hu _ _ Ha' Ej) as [-> ->]. destruct Hg as [(_ & (kd & Hk) & _)|[Hty _]]; [by eapply Q3|].
      rewrite Ej, (proj1 (Q1 _ _ Ha')) in Hty. done.
    + destruct (Hown Hu _ _ Ha' Ei) as [-> ->]. destruct Hg as [(_ & (kd & Hk) & _)|[Hty _]]; [by eapply Q3|].
      rewrite Ei, (proj1 (Q1 _ _ Ha')) in Hty. done.
Qed.

Lemma requests_same (s s' : Sys) :
  requests_inv s -> up s' = up s -> asked s' = asked s -> (unwrapped (history s') -> unwrapped (history s)) ->
  (forall ch k kd, calls (client s') !! ch = Some (k, kd, Sending) -> calls (client s) !! ch = Some (k, kd, Sending)) ->
  requests_inv s'.
Proof.
  intros [Q1 Q2 Q3 Q4] Eu Ea Hu Hc. split; rewrite ?Eu, ?Ea; try done.
  - intros ch k kd j Hu' Hl. eapply Q3; [by apply Hu|by apply Hc].
  - intros ch a i j Hu'. eapply Q4. by apply Hu.
Qed.

Lemma requests_step (s s' : Sys) :
  client_side s -> client_side s' -> requests_inv s -> rpc_step services data s s' -> requests_inv s'.
Proof.
  intros Hcl Hcl' Hi Hstep. pose proof (client_side_inv s Hcl) as Hinv.
  assert (forall k req g, request_frame (next_stream_id (conn (client s))) req = Ok g ->
    type_ (header k) = type_ (header g) /\ payload k = payload g -> carries k req) as Hreq.
  { intros k req g Hf [Ht Hp]. destruct (frame_of_request (next_stream_id (conn (client s))) req g) as (_ & _ & Hty & _ & Hd); [|done|].
    - rewrite (inv_next _ _ _ Hinv). by destruct (nth_id_odd (AsyncClient.taken (history s))).
    - split; [by rewrite Ht|]. unfold message_try_from in *. rewrite Hp. munfold.
      destruct (codec_decode (payload g)); by simplify_eq/=. }
  destruct Hstep as [s now req c' k Hb|s req sc c' k Hb|s ch k kd Hl|s ch a msg Ha Hk Hsent Hid Hty|s evs c' Hst [_ Ho]|
    s m Hm Hlt|s down a c' Hst Hq|s down g c' Hg Hst].
  - destruct (begin_opens _ _ _ now req false (or_introl Hb)) as (Hc' & Hid & Hch). apply requests_open; [done..|].
    apply request_begin_spec in Hb as (_ & _ & _ & Hf). by eapply Hreq.
  - destruct (begin_opens _ _ _ 0 req sc (or_intror Hb)) as (Hc' & Hid & Hch). apply requests_open; [done..|].
    destruct (stream_call_frame _ _ _ _ _ Hb) as (g & Hf & _). eapply Hreq; [exact Hf|]. by eapply stream_call_type.
  - destruct (cl_calls s Hcl _ _ _ _ Hl) as (req & Ha).
    apply (requests_write s ch (MkAsked k kd req)); [done|done|done|by apply (cl_asked s Hcl _ _ Ha)| |left].
    + cbn. intros ch' k' kd' [[_ ?]|[_ ?]]%lookup_insert_Some; [congruence|done].
    + split_and!; [done|by exists kd|]. cbn. intros k' kd'. rewrite lookup_insert_eq. congruence.
  - pose proof (requests_write s ch a msg (client s) Hcl Hi Ha Hid) as Hw.
    eapply requests_same; [apply Hw; [by eauto|by right]|done..| |by eauto]. cbn. by rewrite app_nil_r.
  - eapply requests_same; [exact Hi|done..|by apply unwrapped_app|]. cbn. intros ch k kd Hc.
    destruct (client_step_calls _ _ _ _ _ _ _ Hst Ho Hc) as (st0 & Hl & Hs). by rewrite (Hs eq_refl) in Hl.
  - by eapply requests_same.
  - by eapply requests_same.
  - by eapply requests_same.
Qed.

(** Under ids that have not wrapped, the frames of two tasks do not open the same stream. *)
Lemma requests_no_twins (s : Sys) :
  client_side s -> server_side services data s -> requests_inv s -> unwrapped (history s) ->
  no_twins (snd <$> frames s).
Proof.
  intros Hcl Hss Hi Hu tid tid' g g' Hg Hg' (_ & Ht & _) (_ & Ht' & _) Hs. rewrite lookup_fmap in Hg, Hg'.
  apply fmap_Some in Hg as ([i g0] & Hf & ->), Hg' as ([j g0'] & Hf' & ->). cbn [snd] in *.
  destruct (ss_frame _ _ s Hss _ _ _ Hf) as [_ Hi1], (ss_frame _ _ s Hss _ _ _ Hf') as [_ Hj1].
  destruct (rq_up s Hi _ _ Hi1) as (ch & a & Ha & Hid & [->|[Hd _]]); [|by rewrite Ht in Hd].
  destruct (rq_up s Hi _ _ Hj1) as (ch' & a' & Ha' & Hid' & [->|[Hd _]]); [|by rewrite Ht' in Hd].
  assert (ch = ch') as <- by (eapply (asked_inj s); [done..|congruence]). assert (a' = a) as -> by congruence.
  assert (i = j) as <- by (by eapply (rq_once s Hi)). by eapply (ss_inj _ _ s Hss).
Qed.

Lemma reachable_serves (s : Sys) :
  rpc_reachable services data s -> requests_inv s /\ exists B, serve_inv (snd <$> frames s) B (server s).
Proof.
  intros (s0 & Hi & Hr).
  enough (rpc_reachable services data s /\ requests_inv s /\ exists B, serve_inv (snd <$> frames s) B (server s)) as [_ ?] by done.
  apply (rtc_ind_r (fun s => rpc_reachable services data s /\ requests_inv s /\
    exists B, serve_inv (snd <$> frames s) B (server s)) s0) with (3 := Hr).
  - split; [by exists s0|]. destruct Hi as (d & x & _ & _ & ->). split; [by split|]. exists ∅. apply serve_init.
  - intros s1 s2 Hr1 Hs (Hr' & Hq & B & Hb). assert (rpc_reachable services data s2) as Hr2.
    { destruct Hr' as (s0' & Hi' & Hr'). exists s0'. split; [done|by eapply rtc_r]. }
    destruct (rpc_sides _ _ _ Hr') as [Hcl Hss]. destruct (rpc_sides _ _ _ Hr2) as [Hcl' _].
    split; [done|]. split; [exact (requests_step _ _ Hcl Hcl' Hq Hs)|].
    destruct Hs as [| | | | | |s1 down a c' Hst Hquiet|s1 down g c' Hg Hst]; try by exists B.
    + destruct (serve_step _ _ _ _ _ _ (ss_prov _ _ _ Hss) Hb Hst Hquiet) as (B' & _ & Hb'). by exists B'.
    + inversion Hst as [c i Hp Hrd Hpos|c tid env pc pc' s' evs| | | | | | | | | | | |]; subst; [|by destruct pc].
      change (reader_turn _ (server s1)) with (reader_handle_msg g (server s1)) in *.
      assert (dom (snd <$> frames s1) = dom (conn_tasks (server s1))) as Hd by (rewrite dom_fmap_L; apply (ss_dom _ _ _ Hss)).
      pose proof (serve_frame _ B g _ (ss_conn _ _ _ Hss) Hb Hrd Hd) as Hf. cbn in Hf. exists B. cbn.
      destruct (reader (handlers (reader_handle_msg g (server s1)))) as [tid|]; [by rewrite fmap_insert|done].
Qed.

(** ** Properties *)

(** C4: the handler of a stream on the server receives only what belongs to its call, whatever else is
    on the connection: a stream whose receiver lives was opened by the one task that was spawned for
    the request frame of a call; it is registered, so that the DATA frames of the call are not refused,
    until its receiver is dropped; and all that its mailbox holds is the payload of that request, if
    the request does not say that it has none, and DATA frames that the client has written on the
    stream after the request. The stream ids are assumed not to have wrapped. *)
Theorem handlers_see_their_stream (s : Sys) (tid : nat) (sid : Z) (ch : chan_id) :
  rpc_reachable services data s -> unwrapped (history s) ->
  receivers (live_streams (server s)) !! tid = Some (sid, ch) ->
  exists i ch0 a, asked s !! ch0 = Some a /\ c_id (a_call a) = sid /\
    let g := c_msg (a_call a) in
    frames s !! tid = Some (i, g) /\ up s !! i = Some g /\
    (forall tid' i' g', frames s !! tid' = Some (i', g') -> opens_stream services g' -> stream_id (header g') = sid -> tid' = tid) /\
    h_streams (hstate (handlers (server s))) !! sid = Some ch /\
    forall q v, h_boxes (hstate (handlers (server s))) !! ch = Some q -> v ∈ mpsc_items q ->
      exists m, v = Ok m /\
        (has_flag (header g) FLAG_NO_DATA = false /\ m = gen_new_data sid (req_payload (a_req a)) \/
         type_ (header m) = MESSAGE_TYPE_DATA /\ stream_id (header m) = sid /\
         exists tid' j, frames s !! tid' = Some (j, m) /\ up s !! j = Some m /\ (i < j)%nat).
Proof.
  intros Hr Hu Hrc. destruct (rpc_sides _ _ _ Hr) as [Hcl Hss]. destruct (reachable_serves _ Hr) as (Hq & B & Hb).
  pose proof (requests_no_twins _ Hcl Hss Hq Hu) as Hn. assert (open_stream (server s) tid sid ch) as Ho by by left.
  destruct (open_stream_owner _ _ _ _ _ _ Hb Ho) as (HB & g & Hg & Hop & Hs).
  pose proof Hg as Hfg. rewrite lookup_fmap in Hfg. apply fmap_Some in Hfg as ([i g0] & Hf & E). cbn in E. subst g0.
  destruct (ss_frame _ _ _ Hss _ _ _ Hf) as [_ Hup]. destruct Hop as (Hodd & Hty & Hdisp).
  destruct (rq_up _ Hq _ _ Hup) as (ch0 & a & Ha & Hid & [->|[Hd _]]); [|by rewrite Hty in Hd].
  destruct (rq_type _ Hq _ _ Ha) as [_ Hreq].
  exists i, ch0, a. split; [done|]. split; [congruence|]. cbv zeta. split_and!; [done|done| |by eapply sv_live|].
  - intros tid' i' g' Hf' Hop' Hs'. eapply (Hn tid' tid g' (c_msg (a_call a))); [by rewrite lookup_fmap, Hf'|done|done|done|congruence].
  - intros q v Hbx Hv. destruct (sv_items _ _ _ Hb _ _ _ Hbx Hv) as (t & g1 & m & HB' & Hg1 & -> & Hm).
    assert (t = tid) as -> by congruence. assert (g1 = c_msg (a_call a)) as -> by congruence. exists m. split; [done|].
    destruct Hm as [(Hfl & r & Hr1 & ->)|(Hs1 & Ht1 & tid' & Hf')].
    + left. split; [done|]. rewrite Hreq in Hr1. by simplify_eq.
    + right. split; [done|]. split; [congruence|]. rewrite lookup_fmap in Hf'. apply fmap_Some in Hf' as ([j g2] & Hf' & E). cbn in E. subst g2.
      destruct (ss_frame _ _ _ Hss _ _ _ Hf') as [_ Hup']. exists tid', j. split_and!; [done|done|].
      destruct (rq_up _ Hq _ _ Hup') as (ch1 & a1 & Ha1 & Hid1 & Hor).
      assert (ch1 = ch0) as -> by (eapply (asked_inj s); [done..|congruence]). assert (a1 = a) as -> by congruence.
      destruct Hor as [->|(_ & i' & Hlt & Hi')]; [by rewrite Hty in Ht1|].
      assert (i = i') as -> by (by eapply (rq_once _ Hq)). done.
Qed.
End StreamServe.

Section Witness.
Import StreamRpc.
Local Instance serves_texts : Texts := conn_texts.
Local Instance serves_request_codec : Codec Request := request_codec.
Local Instance serves_response_codec : Codec Response := response_codec.
Local Instance serves_request_laws : CodecLaws Request := request_codec_laws.
Local Instance serves_response_laws : CodecLaws Response := response_codec_laws.
Abbreviation path_state := (ConnectionContext unit NonceTransform * ListChan SendingMessage)%type.
Local Instance serves_send_path : SendPath path_state := conn_send_path.
Local Instance serves_send_laws : SendPathLaws path_state := conn_send_laws.
Local Instance serves_recv_path : RecvPath path_state := conn_recv_path.
Local Instance serves_recv_laws : RecvPathLaws path_state := conn_recv_laws.
Local Instance serves_clear : ClearPath path_state := rpc_clear.
Abbreviation ex_rpc := (@RpcSystem path_state ListChan unit unit NonceTransform).

(** A client-streaming call: its first message waits in the mailbox of the handler. *)
Definition upload : option ex_rpc :=
  stream_run ([VOpen (MkRequest "svc" "Chat" [] 0 []) true; VRpc (YSend 0); VSend 0 (gen_new_data 1 [Byte.x0a]); VRpc YServerFrame] ++
    (VRpc ∘ YServer <$> [XTask 0; XTask 0; XTask 0; XResume; XTask 0]) ++ [VRpc YServerFrame] ++
    (VRpc ∘ YServer <$> [XTask 1; XResume; XTask 1; XTask 1]))%nat rpc_start.

Lemma upload_reachable s : upload = Some s -> rpc_reachable served tt s.
Proof. apply stream_run_reachable, rpc_start_reachable. Qed.

Definition upload_observed (s : ex_rpc) : option (Z * chan_id) * nat * option (list (Result GenMessage)) * option bool :=
  (receivers (live_streams (server s)) !! 0%nat, AsyncClient.taken (history s),
   lc_items <$> h_boxes (hstate (handlers (server s))) !! 0%nat,
   (fun f => has_flag (header f.2) FLAG_NO_DATA) <$> frames s !! 0%nat).

Lemma handlers_see_their_stream_witness :
  exists s i a, upload = Some s /\ frames s !! 0%nat = Some (i, c_msg (a_call a)) /\
    h_streams (hstate (handlers (server s))) !! 1 = Some 0%nat /\
    exists tid' j, frames s !! tid' = Some (j, gen_new_data 1 [Byte.x0a]) /\ (i < j)%nat.
Proof.
  destruct upload as [s|] eqn:E; [|by vm_compute in E].
  assert (upload_observed <$> upload =
    Some (Some (1, 0%nat), 1%nat, Some [Ok (gen_new_data 1 [Byte.x0a])], Some true)) as Ho
    by (clear E; vm_compute; reflexivity).
  rewrite E in Ho. cbn [fmap option_fmap option_map] in Ho. apply (inj Some) in Ho. unfold upload_observed in Ho.
  destruct (h_boxes (hstate (handlers (server s))) !! 0%nat) as [q|] eqn:Hq; [|done].
  destruct (frames s !! 0%nat) as [[i g]|] eqn:Hf; [|done].
  cbn [fmap option_fmap option_map snd] in Ho. injection Ho as Hr Ht Hit Hfl.
  destruct (handlers_see_their_stream served tt s 0 1 0%nat) as (i' & ch0 & a & _ & _ & Hfr & _ & _ & Hreg & Hbox).
  - by apply upload_reachable.
  - unfold unwrapped. by rewrite Ht.
  - exact Hr.
  - cbv zeta in Hfr, Hbox. rewrite Hf in Hfr. injection Hfr as -> ->. exists s, i', a. split_and!; [done|done|exact Hreg|].
    destruct (Hbox q (Ok (gen_new_data 1 [Byte.x0a])) Hq) as (m & [= <-] & [[Hfl' _]|(_ & _ & tid' & j & Hj & _ & Hlt)]).
    + change (Ok (gen_new_data 1 [Byte.x0a]) ∈ lc_items q). rewrite Hit. by left.
    + congruence.
    + exists tid', j. split; [exact Hj|exact Hlt].
Defined.
End Witness.
