(* ===== verification/Delivery.v ===== *)
(** What the reader of a client (src/src/asynchronous/client.rs) delivers to the mailbox of a call
    when it hands over a run of frames, the call's own among those of other calls. *)
From S2P Require Import Prelude Errors Wire Codec Frame Channel Extension Stream AsyncClient.
From S2P Require Rpc StreamRpc.

Section Delivery.
Context {D T : Type} {Q : Type -> Type} `{PayloadTransform T, MpscLaws Q, Texts}.
Context `{Codec Request} `{Codec Response}.

Abbreviation ClientConn := (@Conn D T Q).
Abbreviation of_stream := StreamRpc.of_stream.

(** The reader hands over frames, one after the other. *)
Definition handle_msgs (ms : list GenMessage) (c : ClientConn) : ClientConn :=
  foldl (fun c m => handle_msg m c) c ms.

(** Mailbox [ch] is open and holds [l]. *)
Definition mailbox_has (c : ClientConn) (ch : chan_id) (l : list (Result GenMessage)) : Prop :=
  exists q, boxes c !! ch = Some q /\ mpsc_open q = true /\ mpsc_items q = l.

(** Mailbox [ch] is the one of stream [id], and of no other. *)
Definition owns (c : ClientConn) (id : Z) (ch : chan_id) : Prop :=
  streams c !! id = Some ch /\ forall id', streams c !! id' = Some ch -> id' = id.
Definition unowned (c : ClientConn) (ch : chan_id) : Prop := forall id', streams c !! id' <> Some ch.

(** The frames that the reader passes on. *)
Definition passed (m : GenMessage) : Prop :=
  (type_ (header m) = MESSAGE_TYPE_RESPONSE \/ type_ (header m) = MESSAGE_TYPE_DATA) /\
  len (payload m) <= MESSAGE_LENGTH_MAX.

Lemma handle_msg_passed m (c : ClientConn) :
  payload_transform (conn_ctx c) = None -> passed m -> handle_msg m c = route (stream_id (header m)) (Ok m) c.
Proof.
  intros Hc [Hm Hl]. unfold handle_msg, inbound. rewrite Hc. cbn.
  rewrite (proj2 (check_oversize_ok _ false) Hl).
  replace (set_ctx c (conn_ctx c)) with c by (by destruct c).
  unfold get_resp_tx, route, keeps in *.
  change MESSAGE_TYPE_RESPONSE with 2 in *. change MESSAGE_TYPE_DATA with 3 in *.
  destruct (decide (type_ (header m) = 2)) as [Ht|Ht].
  - rewrite bool_decide_eq_false_2 by lia. cbn [andb].
    destruct (streams c !! stream_id (header m)) eqn:Es; [done|by apply unregister_absent].
  - assert (type_ (header m) = 3) as Ht3 by (by destruct Hm).
    rewrite decide_True, bool_decide_eq_true_2 by done. cbn [andb].
    destruct (has_flag (header m) FLAG_REMOTE_CLOSED); cbn [negb];
      destruct (streams c !! stream_id (header m)) eqn:Es; try done. by apply unregister_absent.
Qed.

Lemma route_conn_ctx id v (c : ClientConn) : conn_ctx (route id v c) = conn_ctx c.
Proof.
  destruct (streams c !! id) as [ch|] eqn:Hs; [|by rewrite route_none].
  by destruct (route_spec id v c ch Hs) as [(q & q' & _ & _ & _ & _ & ->)|(b & _ & _ & _ & ->)].
Qed.

Lemma route_registry id v (c : ClientConn) :
  streams (route id v c) = streams c \/ streams (route id v c) = delete id (streams c).
Proof.
  destruct (streams c !! id) as [ch|] eqn:Hs; [|left; by rewrite route_none].
  destruct (route_spec id v c ch Hs) as [(q & q' & _ & _ & _ & _ & ->)|(b & _ & _ & _ & ->)]; cbn; [|by right].
  destruct (keeps v); [by left|by right].
Qed.

(** A result for another stream leaves the mailbox alone. *)
Lemma route_elsewhere id v (c : ClientConn) ch l :
  streams c !! id <> Some ch -> mailbox_has c ch l -> mailbox_has (route id v c) ch l.
Proof.
  intros Hne (q & Hq & Ho & Hl). destruct (streams c !! id) as [ch0|] eqn:Hs; [|rewrite route_none by done; by exists q].
  destruct (route_spec id v c ch0 Hs) as [(q0 & q' & _ & _ & _ & _ & ->)|(b & _ & _ & Hb & ->)].
  - exists q. cbn. rewrite lookup_insert_ne by congruence. by split_and!.
  - destruct (Hb _ _ Hq) as (q' & Hq' & Hi & Ho'). exists q'. split_and!; [exact Hq'|congruence|congruence].
Qed.

Lemma route_unowned id v (c : ClientConn) ch : unowned c ch -> unowned (route id v c) ch.
Proof.
  intros Hu id'. destruct (route_registry id v c) as [->| ->]; [by apply Hu|].
  intros [_ Hl]%lookup_delete_Some. by apply (Hu id').
Qed.

(** Once the stream is over, nothing comes to its mailbox any more. *)
Lemma handle_msgs_unowned ms (c : ClientConn) ch l :
  payload_transform (conn_ctx c) = None -> unowned c ch -> mailbox_has c ch l -> mailbox_has (handle_msgs ms c) ch l.
Proof.
  revert c. induction ms as [|m ms IH]; intros c Hc Hu Hm; [done|]. cbn.
  destruct (Rpc.handle_msg_clear m c Hc) as (v & -> & _).
  apply IH; [by rewrite route_conn_ctx|by apply route_unowned|by apply route_elsewhere].
Qed.

(** A result for the stream itself. *)
Lemma route_here id v (c : ClientConn) ch l :
  owns c id ch -> mailbox_has c ch l ->
  mailbox_has (route id v c) ch (l ++ [v]) /\
  if keeps v then owns (route id v c) id ch else unowned (route id v c) ch.
Proof.
  intros [Hs Hone] (q & Hq & Ho & <-).
  destruct (route_spec id v c ch Hs) as [(q0 & q' & Hq0 & _ & Ho' & Hi & ->)|(b & Hb & _)].
  - assert (q0 = q) as -> by congruence. split.
    + exists q'. cbn. by rewrite lookup_insert_eq.
    + destruct (keeps v); [done|]. intros id'. cbn. intros [Hne Hl]%lookup_delete_Some. by apply Hne, eq_sym, Hone.
  - by rewrite (Hb _ Hq) in Ho.
Qed.

Lemma route_owned_elsewhere id id' v (c : ClientConn) ch :
  owns c id ch -> id' <> id -> owns (route id' v c) id ch.
Proof.
  intros [Hs Hone] Hne. destruct (route_registry id' v c) as [E|E]; split; rewrite E; [done|done| |].
  - by rewrite lookup_delete_ne.
  - intros id0 [_ Hl]%lookup_delete_Some. by apply Hone.
Qed.

(** The mailbox of an open stream gets the stream's frames, each of them once and in order, up to and
    with the first that ends the stream, whatever frames of other streams come in between. *)
Lemma handle_msgs_delivers ms (c : ClientConn) id ch l0 l m later :
  payload_transform (conn_ctx c) = None -> owns c id ch -> mailbox_has c ch l0 ->
  of_stream id ms = l ++ m :: later -> Forall (fun m => passed m /\ keeps (Ok m) = true) l ->
  passed m -> keeps (Ok m) = false ->
  mailbox_has (handle_msgs ms c) ch (l0 ++ (Ok <$> (l ++ [m]))).
Proof.
  intros Hc Ho Hm Hf Hk Hp Hend. revert c l0 l Hc Ho Hm Hf Hk.
  induction ms as [|g ms IH]; intros c l0 l Hc Ho Hm Hf Hk; [by destruct l|]. cbn.
  change (g :: ms) with ([g] ++ ms) in Hf.
  rewrite StreamRpc.of_stream_app, StreamRpc.of_stream_one in Hf. case_decide as Hg.
  - assert (passed g) as Hpg.
    { destruct l as [|k l]; cbn in Hf; injection Hf as -> Hf; [done|]. by apply Forall_cons in Hk as [[Hk _] _]. }
    rewrite handle_msg_passed, Hg by done. destruct (route_here id (Ok g) c ch l0 Ho Hm) as [Hm' Ho'].
    destruct l as [|k l]; cbn in Hf; injection Hf as -> Hf.
    + rewrite Hend in Ho'. apply handle_msgs_unowned; [by rewrite route_conn_ctx|done|done].
    + apply Forall_cons in Hk as [[_ Hk] Hks]. rewrite Hk in Ho'.
      specialize (IH (route id (Ok k) c) (l0 ++ [Ok k]) l ltac:(by rewrite route_conn_ctx) Ho' Hm' Hf Hks).
      by rewrite <- app_assoc in IH.
  - cbn in Hf. destruct (Rpc.handle_msg_clear g c Hc) as (v & -> & _). apply IH; try done.
    + by rewrite route_conn_ctx.
    + by apply route_owned_elsewhere.
    + apply route_elsewhere; [|done]. intros Hs. by apply Hg, (proj2 Ho).
Qed.

(** A stream that has just been registered owns its mailbox, which is empty. *)
Lemma new_stream_owns x evs (cl : @System D T Q) req sc (c' : ClientConn) k :
  reachable x evs cl -> new_stream_begin req sc (conn cl) = (c', Ok k) ->
  owns c' (c_id k) (c_chan k) /\ mailbox_has c' (c_chan k) [] /\ conn_ctx c' = conn_ctx (conn cl).
Proof.
  intros Hr Hb. apply client_reachable_inv in Hr. apply new_stream_begin_spec in Hb as (-> & -> & ->).
  destruct (mpsc_channel_spec (Result GenMessage)) as [Hi Ho]. split_and!; [split| |done].
  - cbn. by rewrite lookup_insert_eq.
  - cbn. intros id' [[<- _]|[_ Hl]]%lookup_insert_Some; [done|].
    apply (inv_streams _ _ _ Hr) in Hl. apply (inv_opened _ _ _ Hr) in Hl as [Hlt _]. lia.
  - exists mpsc_channel. cbn. by rewrite lookup_insert_eq.
Qed.
End Delivery.
