(* ===== verification/TypedRpc.v ===== *)
(** The generated code's view of a call: the macros that generated clients and services expand
    (src/src/asynchronous/utils.rs and src/src/sync/utils.rs), over the codecs of the application's
    messages. *)
From S2P Require Import Prelude Errors Wire Codec Frame Channel Extension Context Stream AsyncClient AsyncServer.

(** What the protobuf libraries document of [merge]: into a default message it is [decode]. *)
Class MergeLaws (M : Type) `{Codec M} (fresh : M) : Prop := {
  merge_encode : forall c b, codec_encode c = Ok b -> codec_merge fresh b = (c, Ok tt) }.

#[global] Instance bytes_merge_laws : MergeLaws (list byte) [].
Proof. split. intros c b E. simplify_eq/=. done. Qed.

(** ** The service side *)

Section Handlers.
Context {Ctx C R : Type} `{Codec C, Codec R, Texts}.

(** The status a handler's error is reported with. *)
Definition handler_status (e : Error) : Status :=
  match e with
  | RpcStatus s => s
  | _ => get_status UNKNOWN (error_debug e)
  end.

(** The [match] of [async_request_handler!], [async_client_streamimg_handler!] and
    [request_handler!] on the application's result. *)
Definition typed_response (r : Result R) : Result Response :=
  match r with
  | Ok rep =>
      payload ← map_err (err_to_others_err "Encoding response ") (codec_encode rep);
      Ok (response_set_payload (init_status (get_status OK "")) payload)
  | Err x => Ok (init_status (handler_status x))
  end.

(** [async_request_handler!]. *)
Definition async_request_handler (req_fn : Ctx -> C -> Result R) (ctx : Ctx) (req : Request)
  : Result Response :=
  r ← map_err (err_to_others_err "Unpack request error ") (codec_decode (req_payload req));
  typed_response (req_fn ctx r).

(** [async_client_streamimg_handler!]; the application reads the stream while it runs, here by its
    result. *)
Definition async_client_streaming_handler (result : Result R) : Result (option Response) :=
  Some <$> typed_response result.

(** The end of [async_server_streamimg_handler!] and [async_duplex_streamimg_handler!]. *)
Definition stream_done (result : Result unit) : Result (option Response) :=
  match result with
  | Ok _ => Ok None
  | Err x => Ok (Some (init_status (handler_status x)))
  end.

(** [async_server_streamimg_handler!]: the request is the first message of the stream. *)
Definition async_server_streaming_handler (recv : Result (list byte)) (req_fn : C -> Result unit)
  : Result (option Response) :=
  req_buf ← recv;
  r ← map_err Others (codec_decode req_buf);
  stream_done (req_fn r).

(** [async_duplex_streamimg_handler!]. *)
Definition async_duplex_streaming_handler (result : Result unit) : Result (option Response) :=
  stream_done result.
End Handlers.

(** ** The client side *)

Section Requests.
Context {C R : Type} `{Codec C, Codec R}.

(** The request of the client macros before its payload; [order] is the order in which the map of
    the context's metadata yields its entries. *)
Definition client_init_request (server method : string) (ctx : Context_)
    (order : list (string * list string)) : Request :=
  init_request server method (ctx_timeout_nano ctx) (to_pb order).

(** [async_client_request!] and [client_request!] up to [request(creq)]. *)
Definition client_creq (server method : string) (ctx : Context_)
    (order : list (string * list string)) (req : C) : Result Request :=
  payload ← map_err (err_to_others_err "Encoding request ") (codec_encode req);
  mret (request_set_payload (client_init_request server method ctx order) payload).

(** What they return, [cres] being the fresh message the generated method passes. *)
Definition client_cres (cres : R) (res : Response) : Result R :=
  let '(cres, r) := codec_merge cres (res_payload res) in
  _ ← map_err (err_to_others_err "Unpack get error ") r;
  mret cres.

(** [async_client_request!] and [client_request!], over the client's [request]. *)
Definition client_request {S : Type} (request : Request -> st S Error Response)
    (server method : string) (ctx : Context_) (order : list (string * list string)) (req : C)
    (cres : R) : st S Error R :=
  creq ← st_lift (client_creq server method ctx order req);
  res ← request creq;
  st_lift (client_cres cres res).
End Requests.

Section StreamRequests.
Context {D T : Type} {Q : Type -> Type} `{PayloadTransform T, Mpsc Q, Texts, Codec Request}.

(** [async_client_stream!] and [async_client_stream_send!]: the call, and the two flags that
    [new_stream] was given. *)
Definition async_client_stream (server method : string) (ctx : Context_)
    (order : list (string * list string)) : st (@Conn D T Q) Error (Call * (bool * bool)) :=
  k ← new_stream_begin (client_init_request server method ctx order) true;
  mret (k, (true, true)).

Definition async_client_stream_send (server method : string) (ctx : Context_)
    (order : list (string * list string)) : st (@Conn D T Q) Error (Call * (bool * bool)) :=
  k ← new_stream_begin (client_init_request server method ctx order) true;
  mret (k, (true, false)).

(** [async_client_stream_receive!]. *)
Definition async_client_stream_receive {C} `{Codec C} (server method : string) (ctx : Context_)
    (order : list (string * list string)) (req : C)
  : st (@Conn D T Q) Error (Call * (bool * bool)) :=
  creq ← st_lift (client_creq server method ctx order req);
  k ← new_stream_begin creq false;
  mret (k, (false, true)).
End StreamRequests.

(** ** Properties *)

Section Unary.
Context {X : Type} `{SendPathLaws X} {Q : Type -> Type} `{Mpsc Q, Texts}.
Context `{CodecLaws Request} `{CodecLaws Response}.
Context {D StreamName C R : Type} `{CodecLaws C} (fresh : R) `{MergeLaws R fresh}.

Abbreviation TypedServices := (@Services D StreamName).

(** What a typed unary call gives its caller: the reply, or the status of the failure. *)
Definition typed_spec (elapsed : bool) (timeout_nano : Z) (result : Result R) : Result R :=
  if decide (timeout_nano <> 0 /\ elapsed = true)
  then Err (RpcStatus (get_status DEADLINE_EXCEEDED "timeout"))
  else match result with
       | Ok rep => Ok rep
       | Err e => Err (RpcStatus (handler_status e))
       end.

Lemma typed_response_seen (r : Result R) resp :
  typed_response r = Ok resp -> (forall e, r = Err e -> code (handler_status e) <> OK) ->
  (match non_ok resp with Some s => Err (RpcStatus s) | None => client_cres fresh resp end)
  = match r with Ok rep => Ok rep | Err e => Err (RpcStatus (handler_status e)) end.
Proof.
  intros E Hok. destruct r as [rep|e]; cbn in E; munfold.
  - destruct (codec_encode rep) as [b|] eqn:Eb; cbn in E; [|done]. simplify_eq/=.
    unfold non_ok, client_cres. cbn. by rewrite (merge_encode _ _ Eb).
  - simplify_eq. unfold non_ok. cbn. by rewrite decide_True by (by apply Hok).
Qed.

(** C9: a typed unary call through generated code on both sides: when the client's stub sends a
    message and the server has the method's generated handler registered, the server hands the
    connection exactly one message, which enters the channel to the writer unless the send itself
    reports an error, and the client's stub turns it into exactly the reply of the application's
    method on the message that was sent, called with the caller's metadata and timeout; into the status
    of the application's error (UNKNOWN with its text when it is not a status); or, for a request
    with a timeout whose method was too slow, into DEADLINE_EXCEEDED. A handler error whose status
    is OK is not an error for the caller and is excluded; the reply is assumed to be encodable and
    to fit the frame limit. *)
Theorem typed_unary_end_to_end (services : TypedServices) (data : D) (env : HandlerEnv)
    (req_fn : @TtrpcContext D -> C -> Result R) (srv : @Service D StreamName)
    (server method : string) (ctx : Context_) (order : list (string * list string)) (req : C)
    (creq : Request) (id : Z) (g : GenMessage) (s : @HandlerState X Q) (resp : Response) (b : list byte) :
  services !! server = Some srv -> methods srv !! method = Some (async_request_handler req_fn) ->
  service_streams srv !! method = None ->
  order ≡ₚ map_to_list (ctx_metadata ctx) ->
  client_creq server method ctx order req = Ok creq ->
  is_u32 id -> id mod 2 = 1 -> request_frame id creq = Ok g -> steady (h_path s) ->
  let seen := MkTtrpcContext (header g) (filter (fun kv => kv.2 <> []) (ctx_metadata ctx))
                (ctx_timeout_nano ctx) data in
  typed_response (req_fn seen req) = Ok resp ->
  (forall e, req_fn seen req = Err e -> code (handler_status e) <> OK) ->
  codec_encode (outcome_response (unary_spec services data (env_elapsed env) (header g) creq)) = Ok b ->
  len b <= raw_limit (h_path s) ->
  let s' := server_handle_msg services data env g s in
  exists m, hands_over m true (h_path s) (h_path s') /\ stream_id (header m) = id /\
    (res ← request_result (Ok m); client_cres fresh res) =
    typed_spec (env_elapsed env) (ctx_timeout_nano ctx) (req_fn seen req).
Proof.
  intros Hsrv Hm Hns Ho Hcreq Hid Hodd Hg Hst seen Hresp Hnok Hb Hl s'.
  unfold client_creq, client_init_request in Hcreq. munfold.
  destruct (codec_encode req) as [pb|] eqn:Epb; cbn in Hcreq; [|done]. simplify_eq.
  destruct (server_unary_sends services data env id _ g s b Hid Hodd Hg Hst) as (_ & _ & He); try done.
  { cbn. intros srv' Hs'. rewrite Hsrv in Hs'. by simplify_eq. }
  exists (gen_new_response id b). split_and!; [exact He|done|].
  rewrite (response_read_back _ _ _ _ _ id _ Hb).
  unfold unary_spec, typed_spec. cbn. rewrite Hsrv, Hm. cbn.
  fold (from_pb (to_pb order)). rewrite (from_pb_to_pb _ _ Ho). fold seen.
  destruct (decide (ctx_timeout_nano ctx <> 0 /\ env_elapsed env = true)); [done|].
  unfold async_request_handler. munfold. cbn. rewrite (codec_decode_encode _ _ Epb). cbn.
  rewrite Hresp. cbn. rewrite <- (typed_response_seen _ _ Hresp Hnok).
  by destruct (non_ok resp).
Qed.
End Unary.

Section Opening.
Context {D T X : Type} {Q : Type -> Type} `{PayloadTransform T, MpscLaws Q, SendPath X, Texts}.
Context `{CodecLaws Request} `{Codec Response}.

(** The server side of opening a stream with the frame [m]: the decoded request, and the mailbox
    the handler starts with. *)
Definition stream_opened (m : GenMessage) (s : @HandlerState X Q)
  : res string (Message Request * (HandlerState * chan_id)) :=
  r ← message_try_from m;
  let '(s, ch) := stream_open r s in
  match stream_first_data ch r s with
  | (s, Ok _) => mret (r, (s, ch))
  | (s, Err status) => Err (message status)
  end.

(** The frame [m] opens stream [id] on a server in any state, and the handler's mailbox starts
    with the frames [first]. *)
Definition opens_with (m : GenMessage) (id : Z) (req : Request) (first : list GenMessage) : Prop :=
  stream_id (header m) = id /\ type_ (header m) = MESSAGE_TYPE_REQUEST /\
  forall s : @HandlerState X Q, exists h s' ch q,
    stream_opened m s = Ok (MkMessage h req, (s', ch)) /\ h_streams s' !! id = Some ch /\
    h_boxes s' !! ch = Some q /\ mpsc_items q = Ok <$> first.

Lemma new_stream_begin_ok req sc (c c' : @Conn D T Q) k :
  new_stream_begin req sc c = (c', Ok k) ->
  c_id k = next_stream_id c /\
  (sc = true -> req_payload req = []) /\
  exists g, request_frame (next_stream_id c) req = Ok g /\
    c_msg k = MkGen (add_flags (header g) (if sc then Z.lor FLAG_REMOTE_OPEN FLAG_NO_DATA
                                           else FLAG_REMOTE_CLOSED)) (payload g).
Proof.
  unfold new_stream_begin, fetch_add_2, unbounded_channel, register. munfold. cbn.
  destruct (request_frame (next_stream_id c) req) as [g|e] eqn:E; [|intros; by simplify_eq/=].
  destruct sc; [|intros; simplify_eq/=; split_and!; [done|done|by exists g]].
  destruct (bool_decide (req_payload req = [])) eqn:Ed; intros; simplify_eq/=.
  apply bool_decide_eq_true in Ed. split_and!; [done|done|by exists g].
Qed.

Lemma new_stream_opens req sc (c c' : @Conn D T Q) k :
  is_u32 (next_stream_id c) -> new_stream_begin req sc c = (c', Ok k) ->
  opens_with (c_msg k) (c_id k) req
    (if sc then [] else [gen_new_data (c_id k) (req_payload req)]).
Proof.
  intros Hid E. apply new_stream_begin_ok in E as (-> & _ & g & Hg & ->).
  destruct (frame_of_request _ _ _ Hid Hg) as (_ & Hsid & Hty & Hfl & Hdec).
  split_and!; [done|done|]. intros s.
  unfold message_try_from in Hdec. munfold.
  unfold stream_opened, message_try_from. munfold. cbn.
  destruct (codec_decode (payload g)) as [req'|]; cbn in *; [|done]. simplify_eq.
  destruct (mpsc_channel_spec (Result GenMessage)) as [Hi Ho].
  unfold stream_first_data, box_put, has_flag. cbn. rewrite Hfl, Hsid.
  destruct sc; cbn.
  - eexists _, _, _, mpsc_channel. split; [done|]. cbn. by rewrite !lookup_insert_eq.
  - rewrite lookup_insert_eq. destruct (mpsc_send _ _) as [q ok] eqn:Es.
    apply mpsc_send_spec in Es as (-> & _ & Hq). rewrite Ho in *. cbn.
    eexists _, _, _, q. split; [done|]. cbn. by rewrite !lookup_insert_eq, Hq, Hi.
Qed.

(** How streams are opened through generated code. The message of a server-streaming call
    reaches the handler's mailbox as its only first frame, and the generated handler, which
    receives it before it runs the application's method, runs it on that very message. A stream
    opened for client or duplex streaming starts with an empty mailbox, so that the handler's
    first message is the client's first. In each case the request the server decodes is the one
    the stub built for the service and method. *)
Theorem stream_opening {C} `{CodecLaws C} (server method : string) (ctx : Context_)
    (order : list (string * list string)) (req : C) (c c' : @Conn D T Q) (k : Call)
    (f : bool * bool) :
  is_u32 (next_stream_id c) ->
  let creq := client_init_request server method ctx order in
  (async_client_stream server method ctx order c = (c', Ok (k, f)) ->
     f = (true, true) /\ opens_with (c_msg k) (c_id k) creq []) /\
  (async_client_stream_send server method ctx order c = (c', Ok (k, f)) ->
     f = (true, false) /\ opens_with (c_msg k) (c_id k) creq []) /\
  (async_client_stream_receive server method ctx order req c = (c', Ok (k, f)) ->
     f = (false, true) /\
     exists b, codec_encode req = Ok b /\
       opens_with (c_msg k) (c_id k) (request_set_payload creq b) [gen_new_data (c_id k) b] /\
       forall (q : Q (Result GenMessage)) (fn : C -> Result unit),
         len b <= MESSAGE_LENGTH_MAX -> mpsc_items q = [Ok (gen_new_data (c_id k) b)] ->
         exists r' recv, stream_recv true (receiver (stream_new_server (c_id k) q true true))
                         = (r', Some recv) /\
           async_server_streaming_handler recv fn = stream_done (fn req)).
Proof.
  intros Hid creq. split_and!.
  - unfold async_client_stream. munfold. intros E.
    destruct (new_stream_begin _ true c) as [c1 [k1|]] eqn:E1; simplify_eq/=.
    split; [done|]. by apply (new_stream_opens _ true _ _ _ Hid E1).
  - unfold async_client_stream_send. munfold. intros E.
    destruct (new_stream_begin _ true c) as [c1 [k1|]] eqn:E1; simplify_eq/=.
    split; [done|]. by apply (new_stream_opens _ true _ _ _ Hid E1).
  - unfold async_client_stream_receive, client_creq. munfold. intros E.
    destruct (codec_encode req) as [b|] eqn:Eb; cbn in E; [|done].
    destruct (new_stream_begin _ false c) as [c1 [k1|]] eqn:E1; simplify_eq/=.
    split; [done|]. exists b. split_and!; [done|by apply (new_stream_opens _ false _ _ _ Hid E1)|].
    intros q fn Hl Hq.
    destruct (stream_recv_data true (receiver (stream_new_server (c_id k) q true true)) (c_id k) b [])
      as (q' & E2 & _); [done|done|done|done|].
    eexists _, _. split; [exact E2|].
    unfold async_server_streaming_handler. munfold. by rewrite (codec_decode_encode _ _ Eb).
Qed.
End Opening.

Section Witness.
Local Instance typed_texts : Texts :=
  {| status_debug := fun _ => ""; nix_display := pretty; nix_debug := pretty;
     tokio_send_error := "channel closed" |}.
Local Instance typed_request_codec : Codec Request := request_codec.
Local Instance typed_response_codec : Codec Response := response_codec.
Local Instance typed_request_laws : CodecLaws Request := request_codec_laws.
Local Instance typed_response_laws : CodecLaws Response := response_codec_laws.
Abbreviation ex_typed_path := (ConnectionContext unit NonceTransform * ListChan SendingMessage)%type.
Local Instance typed_send_path : SendPath ex_typed_path := alone_path.
Local Instance typed_send_path_laws : SendPathLaws ex_typed_path := alone_path_laws.

(** A method that appends the user of the metadata to the message, given as bytes. *)
Definition ex_greet (ctx : @TtrpcContext unit) (req : list byte) : Result (list byte) :=
  match tc_metadata ctx !! "fail" with
  | Some _ => Err Eof
  | None => Ok (req ++ [Byte.x21])
  end.
Definition ex_greeter : @Service unit string :=
  MkService {["Hello" := async_request_handler ex_greet]} ∅.
Definition ex_typed_hs : @HandlerState ex_typed_path ListChan :=
  MkHandlerState ∅ ∅ 0 (MkCtx tt None, mpsc_channel).
Definition ex_typed_ctx : Context_ := MkContext {["user" := ["me"]]} 0.
Definition ex_typed_creq : Request :=
  MkRequest "greeter" "Hello" [Byte.x48] 0 [MkKeyValue "user" "me"].
Definition ex_typed_reply : Response := MkResponse (Some (MkStatus OK "" [])) [Byte.x48; Byte.x21].
Definition ex_no_timer : HandlerEnv := MkHandlerEnv false (Ok (Ok None)).

Lemma typed_unary_end_to_end_witness :
  exists g m, request_frame 9 ex_typed_creq = Ok g /\
    emitted (h_path (server_handle_msg {["greeter" := ex_greeter]} tt ex_no_timer g ex_typed_hs)) = [m] /\
    (res ← request_result (Ok m); client_cres [] res) = Ok [Byte.x48; Byte.x21].
Proof.
  destruct (request_frame 9 ex_typed_creq) as [g|] eqn:Eg; [|by vm_compute in Eg].
  destruct (typed_unary_end_to_end [] {["greeter" := ex_greeter]} tt ex_no_timer ex_greet ex_greeter
    "greeter" "Hello" ex_typed_ctx [("user", ["me"])] [Byte.x48] ex_typed_creq 9 g ex_typed_hs
    ex_typed_reply (countable_encode ex_typed_reply)) as (m & [_ He] & _ & Hr).
  - reflexivity.
  - reflexivity.
  - reflexivity.
  - by vm_compute.
  - by vm_compute.
  - done.
  - done.
  - exact Eg.
  - done.
  - by vm_compute.
  - intros e He. vm_compute in He. done.
  - vm_compute in Eg. injection Eg as <-. by vm_compute.
  - apply Z.leb_le. by vm_compute.
  - exists g, m. split_and!; [done| |rewrite Hr; by vm_compute].
    destruct (transform_send m true false (h_path ex_typed_hs)).2; [exact He|].
    destruct He as [He|He]; [|exact He]. exfalso. vm_compute in Eg. injection Eg as <-. by vm_compute in He.
Defined.

Lemma stream_opening_witness :
  let c : @Conn unit NonceTransform ListChan := new_conn (MkCtx tt None) in
  exists c' k, async_client_stream_receive "greeter" "Watch" ex_typed_ctx [("user", ["me"])] [Byte.x48] c
               = (c', Ok (k, (false, true))) /\
    stream_id (header (c_msg k)) = 1 /\ type_ (header (c_msg k)) = MESSAGE_TYPE_REQUEST.
Proof.
  intros c.
  destruct (async_client_stream_receive "greeter" "Watch" ex_typed_ctx [("user", ["me"])] [Byte.x48] c)
    as [c' [[k f]|e]] eqn:E; [|by vm_compute in E].
  destruct (stream_opening (X := ex_typed_path) (Q := ListChan) "greeter" "Watch" ex_typed_ctx
    [("user", ["me"])] [Byte.x48] c c' k f) as (_ & _ & Hop); [done|].
  destruct (Hop E) as (-> & b & _ & (Hs & Ht & _) & _).
  exists c', k. split_and!; [done| |exact Ht]. rewrite Hs. vm_compute in E. by injection E as <- <-.
Defined.
End Witness.
