(* ===== verification/TypedStream.v ===== *)
(** The typed streams of generated code (src/src/asynchronous/stream.rs): one pair of wrappers for
    every kind of streaming call, over the halves of [Stream], and what client-streaming and
    server-streaming calls give both sides. *)
From S2P Require Import Prelude Errors Wire Codec Frame Channel Extension Context Stream AsyncClient AsyncServer.
From S2P Require Import TypedRpc Delivery.
From S2P Require StreamRpc.

(** ** The wrappers

    [PhantomData] is left out; the message types are those of the operations. Every operation that
    sends runs on the send path and the [local_closed] flag its sender shares with its clones. *)

Record CSSender := MkCSSender { css_tx : StreamSender }.
Record SSSender := MkSSSender { sss_tx : StreamSender }.
Record ServerStreamSender := MkServerStreamSender { sv_sender : StreamSender }.

Section Wrappers.
Context {Q : Type -> Type}.

Record CSReceiver := MkCSReceiver { csr_rx : StreamReceiver Q }.
Record SSReceiver := MkSSReceiver { ssr_rx : StreamReceiver Q }.
Record ClientStream := MkClientStream { cs_tx : CSSender; cs_rx : CSReceiver }.
Record ServerStream := MkServerStream { ss_tx : SSSender; ss_rx : SSReceiver }.
Record ClientStreamSender := MkClientStreamSender { cl_inner : StreamInner Q }.
Record ServerStreamReceiver := MkServerStreamReceiver { sv_receiver : StreamReceiver Q }.

(** [_client_guard] is the clone of the client that keeps its connection alive. *)
Record ClientStreamReceiver (G : Type) := MkClientStreamReceiver { cl_receiver : StreamReceiver Q; client_guard : G }.
Arguments MkClientStreamReceiver {G} _ _.
Arguments cl_receiver {G} _.
Arguments client_guard {G} _.

Definition client_stream_new (inner : StreamInner Q) : ClientStream :=
  let '(tx, rx) := stream_split inner in MkClientStream (MkCSSender tx) (MkCSReceiver rx).
Definition client_stream_split (s : ClientStream) : CSSender * CSReceiver := (cs_tx s, cs_rx s).
Definition server_stream_new (inner : StreamInner Q) : ServerStream :=
  let '(tx, rx) := stream_split inner in MkServerStream (MkSSSender tx) (MkSSReceiver rx).
Definition server_stream_split (s : ServerStream) : SSSender * SSReceiver := (ss_tx s, ss_rx s).
Definition client_stream_sender_new (inner : StreamInner Q) : ClientStreamSender := MkClientStreamSender inner.
Definition server_stream_sender_new (inner : StreamInner Q) : ServerStreamSender :=
  MkServerStreamSender (stream_split inner).1.
Definition client_stream_receiver_new {G} (inner : StreamInner Q) (guard : G) : ClientStreamReceiver G :=
  MkClientStreamReceiver (stream_split inner).2 guard.
Definition server_stream_receiver_new (inner : StreamInner Q) : ServerStreamReceiver :=
  MkServerStreamReceiver (stream_split inner).2.

Section Sends.
Context {X : Type} `{SendPath X} {M : Type} `{Codec M}.

Definition cs_sender_send (s : CSSender) (req : M) : st (X * bool) Error unit :=
  msg_buf ← st_lift (map_err (err_to_others_err "Encode message failed.") (codec_encode req));
  stream_send (css_tx s) msg_buf.
Definition cs_sender_close_send (s : CSSender) : st (X * bool) Error unit := stream_close_send (css_tx s).
Definition client_stream_send (s : ClientStream) (req : M) : st (X * bool) Error unit :=
  cs_sender_send (cs_tx s) req.
Definition client_stream_close_send (s : ClientStream) : st (X * bool) Error unit :=
  cs_sender_close_send (cs_tx s).

Definition ss_sender_send (s : SSSender) (resp : M) : st (X * bool) Error unit :=
  msg_buf ← st_lift (map_err (err_to_others_err "Encode message failed.") (codec_encode resp));
  stream_send (sss_tx s) msg_buf.
Definition server_stream_send (s : ServerStream) (resp : M) : st (X * bool) Error unit :=
  ss_sender_send (ss_tx s) resp.

Definition client_stream_sender_send (s : ClientStreamSender) (req : M) : st (X * bool) Error unit :=
  msg_buf ← st_lift (map_err (err_to_others_err "Encode message failed.") (codec_encode req));
  stream_send (sender (cl_inner s)) msg_buf.

Definition server_stream_sender_send (s : ServerStreamSender) (resp : M) : st (X * bool) Error unit :=
  msg_buf ← st_lift (map_err (err_to_others_err "Encode message failed.") (codec_encode resp));
  stream_send (sv_sender s) msg_buf.
End Sends.

Section Receives.
Context `{Mpsc Q, Codec Response} {M : Type} `{Codec M}.

(** One poll of the [recv]s; [senders]: a sender of the mailbox is left. *)
Definition cs_receiver_recv (senders : bool) (r : CSReceiver) : CSReceiver * option (Result M) :=
  let '(rx, o) := typed_recv senders (csr_rx r) in (MkCSReceiver rx, o).
Definition client_stream_recv (senders : bool) (s : ClientStream) : ClientStream * option (Result M) :=
  let '(rx, o) := cs_receiver_recv senders (cs_rx s) in (MkClientStream (cs_tx s) rx, o).

Definition ss_receiver_recv (senders : bool) (r : SSReceiver) : SSReceiver * option (Result (option M)) :=
  let '(rx, o) := typed_recv_opt senders (ssr_rx r) in (MkSSReceiver rx, o).
Definition server_stream_recv (senders : bool) (s : ServerStream)
  : ServerStream * option (Result (option M)) :=
  let '(rx, o) := ss_receiver_recv senders (ss_rx s) in (MkServerStream (ss_tx s) rx, o).

Definition client_stream_receiver_recv {G} (senders : bool) (r : ClientStreamReceiver G)
  : ClientStreamReceiver G * option (Result (option M)) :=
  let '(rx, o) := typed_recv_opt senders (cl_receiver r) in
  (MkClientStreamReceiver rx (client_guard r), o).

Definition server_stream_receiver_recv (senders : bool) (r : ServerStreamReceiver)
  : ServerStreamReceiver * option (Result (option M)) :=
  let '(rx, o) := typed_recv_opt senders (sv_receiver r) in (MkServerStreamReceiver rx, o).

(** [ClientStreamSender::close_and_recv], its receiver being polled until it is ready. *)
Definition client_stream_close_and_recv {X : Type} `{SendPath X} (senders : bool) (s : ClientStreamSender)
  : st (X * bool) Error (ClientStreamSender * option (Result M)) :=
  '(inner, o) ← close_and_recv senders (cl_inner s);
  mret (MkClientStreamSender inner, o).

(** A consumer that receives until the stream ends: the messages, and the error that stopped it if
    one did; [None] when the mailbox is empty or the fuel, a bound on the messages, runs out. *)
Fixpoint drain {A} (recv : A -> A * option (Result (option M))) (fuel : nat) (r : A)
  : option (A * (list M * Result unit)) :=
  match fuel with
  | O => None
  | S fuel' =>
      match recv r with
      | (_, None) => None
      | (r', Some (Err e)) => Some (r', ([], Err e))
      | (r', Some (Ok None)) => Some (r', ([], Ok tt))
      | (r', Some (Ok (Some m))) =>
          '(r'', (ms, fin)) ← drain recv fuel' r'; Some (r'', (m :: ms, fin))
      end
  end.
End Receives.
End Wrappers.
Arguments CSReceiver : clear implicits.
Arguments SSReceiver : clear implicits.
Arguments ClientStream : clear implicits.
Arguments ServerStream : clear implicits.
Arguments ClientStreamSender : clear implicits.
Arguments ServerStreamReceiver : clear implicits.
Arguments ClientStreamReceiver : clear implicits.
Arguments MkClientStreamReceiver {Q G} _ _.
Arguments cl_receiver {Q G} _.
Arguments client_guard {Q G} _.

(** ** Lemmas *)

Section Draining.
Context {Q : Type -> Type} `{MpscLaws Q} `{Codec Response} {M : Type} `{CodecLaws M}.
Context {A : Type} (senders : bool) (wrap : StreamReceiver Q -> A) (recv : A -> A * option (Result (option M))).
Context (recv_wrap : forall r, recv (wrap r) = let '(r', o) := typed_recv_opt senders r in (wrap r', o)).

(** The message [last] ends the stream, with the error that [fin] tells if any. *)
Definition ends_stream (last : GenMessage) (fin : Result unit) : Prop :=
  forall (r : StreamReceiver Q) l, remote_closed r = false -> recveivable r = true ->
    mpsc_items (rx r) = Ok last :: l ->
    exists r', typed_recv_opt (M := M) senders r =
      (r', Some (match fin with Ok _ => Ok None | Err e => Err e end)).

(** Receiving until the end gives the messages whose encodings the mailbox holds. *)
Lemma drain_stream (r : StreamReceiver Q) sid (ms : list M) bs last fin l fuel :
  remote_closed r = false -> recveivable r = true -> (length ms < fuel)%nat ->
  mpsc_items (rx r) = ((Ok ∘ gen_new_data sid) <$> bs) ++ Ok last :: l -> ends_stream last fin ->
  Forall2 (fun m b => codec_encode m = Ok b /\ len b <= MESSAGE_LENGTH_MAX) ms bs ->
  exists r', drain recv fuel (wrap r) = Some (r', (ms, fin)).
Proof.
  intros Hc Hr Hn Hq He Hf. revert r fuel Hc Hr Hn Hq.
  induction Hf as [|m b ms bs [Hm Hb] Hf IH]; intros r [|fuel] Hc Hr Hn Hq; cbn in Hn, Hq; try lia.
  - destruct (He r l Hc Hr Hq) as (r' & E). cbn [drain]. rewrite recv_wrap, E.
    destruct fin as [[]|e]; by eexists.
  - destruct (stream_recv_data senders r sid b _ Hc Hr Hb Hq) as (q' & E & Hq').
    destruct (IH (set_rx r q') fuel Hc Hr ltac:(lia) Hq') as (r' & E'). exists r'.
    cbn [drain]. rewrite recv_wrap. unfold typed_recv_opt. rewrite E. cbn.
    unfold decode_msg. rewrite (codec_decode_encode _ _ Hm). munfold. cbn. by rewrite E'.
Qed.

Lemma close_ends_stream sid : ends_stream (gen_new_close sid) (Ok tt).
Proof.
  intros r l Hc Hr Hq. destruct (stream_recv_close senders r sid l Hc Hr Hq) as (q' & E & _).
  unfold typed_recv_opt. rewrite E. by eexists.
Qed.

(** A response with a status that is not OK. *)
Lemma status_ends_stream `{!CodecLaws Response} sid (st : Status) b :
  codec_encode (init_status st) = Ok b -> code st <> OK ->
  ends_stream (gen_new_response sid b) (Err (RpcStatus st)).
Proof.
  intros Hb Hok r l Hc Hr Hq. unfold typed_recv_opt, stream_recv. rewrite Hc.
  destruct (recv_result_cons senders _ _ _ Hq) as (q' & -> & _). unfold recv_msg.
  rewrite decide_True by done. change (payload (gen_new_response sid b)) with b.
  rewrite (codec_decode_encode _ _ Hb). munfold. cbn. rewrite decide_True by done. by eexists.
Qed.
End Draining.

Section Properties.
Context {X : Type} `{SendPathLaws X} {Q : Type -> Type} `{MpscLaws Q, Texts}.
Context `{CodecLaws Response} {M R : Type} `{CodecLaws M, CodecLaws R}.

(** Sends in a row, stopping at the first error. *)
Fixpoint sends {A} (send : A -> M -> st (X * bool) Error unit) (s : A) (ms : list M)
  : st (X * bool) Error unit :=
  match ms with [] => mret tt | m :: ms' => _ ← send s m; sends send s ms' end.

Lemma sends_typed {A} (send : A -> M -> st (X * bool) Error unit) (tx : A -> StreamSender) s ms :
  (forall s m, send s m = typed_send (tx s) m) -> sends send s ms = typed_send_all (tx s) ms.
Proof.
  intros Hs. induction ms as [|m ms IH]; [done|]. cbn [sends typed_send_all]. by rewrite Hs, IH.
Qed.

(** What the caller of a client-streaming call sees of the method's result. *)
Definition stream_reply (result : Result R) : Result R :=
  match result with Ok rep => Ok rep | Err e => Err (RpcStatus (handler_status e)) end.

(** The response of a generated handler, as the closing end of a stream reads it. *)
Lemma recv_typed_response senders (r : StreamReceiver Q) sid (result : Result R) resp b l :
  remote_closed r = false -> typed_response result = Ok resp ->
  (forall e, result = Err e -> code (handler_status e) <> OK) ->
  codec_encode resp = Ok b -> mpsc_items (rx r) = Ok (gen_new_response sid b) :: l ->
  exists r' res, stream_recv senders r = (r', Some res) /\
    (msg_buf ← res; decode_msg msg_buf) = stream_reply result.
Proof.
  intros Hc Hresp Hok Hb Hq. unfold stream_recv. rewrite Hc.
  destruct (recv_result_cons senders _ _ _ Hq) as (q' & -> & _).
  unfold recv_msg. rewrite decide_True by done.
  change (payload (gen_new_response sid b)) with b. rewrite (codec_decode_encode _ _ Hb).
  eexists _, _. split; [done|]. munfold. cbn.
  destruct result as [rep|e]; cbn in Hresp; munfold.
  - destruct (codec_encode rep) as [rb|] eqn:Er; cbn in Hresp; [|done]. simplify_eq/=.
    unfold decode_msg. by rewrite (codec_decode_encode _ _ Er).
  - simplify_eq. cbn. by rewrite decide_True by (by apply Hok).
Qed.

(** What a method that receives, here all of the stream before it returns, makes of the calls in the
    mailbox of its stream. *)
Definition received (q : Q (Result GenMessage)) id n : option (list M * Result unit) :=
  snd <$> drain (server_stream_receiver_recv true) n
            (server_stream_receiver_new (stream_new_server id q true true)).

(** A client-streaming call through generated code and the typed streams. Whatever the method has
    received, in whatever order the server's tasks have filled its mailbox, its result is what the
    server hands to the connection, and once the client's reader has delivered this message, among
    whatever frames of other calls, [close_and_recv] closes the sending half and returns the result:
    the reply, or the status of the method's error (UNKNOWN with its text when it is not a status).
    When the mailbox is filled in the order in which the client's frames were sent, which tasks that
    overtake each other do not do, the method has received the very list that the client sent, and its
    end. A method error whose status is OK is not an error for the caller and is excluded; the
    response is assumed to fit the frame limit. *)
Theorem client_streaming_end_to_end {D T} `{PayloadTransform T} (id : Z) (ms : list M) (f : list M * Result unit -> Result R)
    (x x1 x2 y : X) (c1 c2 : bool) (q q0 : Q (Result GenMessage)) n got (req : Request) (resp : Response)
    (b : list byte) (cc : @Conn D T Q) (ch : chan_id) (fs later : list GenMessage) :
  let client q := client_stream_sender_new (stream_new_client id q true false) in
  steady x -> sends client_stream_sender_send (client q0) ms (x, false) = ((x1, c1), Ok tt) ->
  stream_close_send (sender (cl_inner (client q0))) (x1, c1) = ((x2, c2), Ok tt) ->
  received q id n = Some got ->
  typed_response (f got) = Ok resp -> codec_encode resp = Ok b ->
  (forall e, f got = Err e -> code (handler_status e) <> OK) -> steady y -> len b <= raw_limit y ->
  payload_transform (conn_ctx cc) = None -> owns cc id ch -> mailbox_has cc ch [] ->
  (Ok <$> emitted x2 = (Ok <$> emitted x) ++ mpsc_items q -> (length ms < n)%nat -> got = (ms, Ok tt)) /\
  exists m, hands_over m true y
      (finish_request id (stream_result req (Ok (async_client_streaming_handler (f got)))) y) /\
    (StreamRpc.of_stream id fs = m :: later ->
     exists q' s', boxes (handle_msgs fs cc) !! ch = Some q' /\
       client_stream_close_and_recv true (client q') (x1, c1) =
         ((x2, c2), Ok (s', Some (stream_reply (f got))))).
Proof.
  intros client Hx Hs Hcl Hgot Hresp Hb Hok Hy Hl Hctx Hown Hbox.
  rewrite (sends_typed _ (fun s => sender (cl_inner s))) in Hs by done.
  destruct (typed_send_all_ok _ _ _ _ _ Hx Hs) as (-> & Hx1 & bs & He & Hf). split.
  { destruct (stream_close_send_ok _ _ _ _ Hx1 Hcl) as (-> & _ & He2). intros Hq Hn.
    rewrite He2, He, <- app_assoc, fmap_app in Hq. apply (app_inv_head (Ok <$> emitted x)) in Hq.
    destruct (drain_stream true MkServerStreamReceiver (server_stream_receiver_recv true)
      (fun r => eq_refl) (receiver (stream_new_server id q true true)) id ms bs (gen_new_close id) (Ok tt) [] n)
      as (r' & E); try done; [|apply close_ends_stream|].
    - transitivity (mpsc_items q); [done|]. by rewrite <- Hq, fmap_app, <- list_fmap_compose.
    - unfold received in Hgot. unfold server_stream_receiver_new in Hgot. cbn [snd] in Hgot.
      change (stream_split _).2 with (receiver (stream_new_server id q true true)) in Hgot.
      rewrite E in Hgot. by simplify_eq/=. }
  exists (gen_new_response id b). split.
  { assert (stream_result req (Ok (async_client_streaming_handler (f got))) = Some <$> Ok resp) as ->
      by (unfold stream_result, async_client_streaming_handler; by rewrite Hresp).
    rewrite (finish_request_sends id (Ok resp) y b Hb Hl). by apply sent_hands_over. }
  intros Hfs. destruct (handle_msgs_delivers fs cc id ch [] [] (gen_new_response id b) later) as (q' & Hq' & _ & Hi); try done.
  { split; [by left|]. pose proof (raw_limit_max y). cbn. lia. }
  destruct (recv_typed_response true (receiver (stream_new_client id q' true false)) id (f got) resp b [])
    as (r' & res & Er & Hres); [done..|].
  exists q'. unfold client_stream_close_and_recv, close_and_recv. munfold.
  change (sender (cl_inner (client q0))) with (sender (stream_new_client id q' true false)) in Hcl.
  unfold client. cbn [cl_inner client_stream_sender_new]. rewrite Hcl, Er. cbn.
  eexists. split; [exact Hq'|]. f_equal. f_equal. f_equal. f_equal. exact Hres.
Qed.
End Properties.

(** ** Server streaming *)

Section ServerStreaming.
Context {X : Type} `{SendPathLaws X} {Q : Type -> Type} `{MpscLaws Q, Texts}.
Context `{CodecLaws Request, CodecLaws Response} {C M : Type} `{CodecLaws C, CodecLaws M}.
Context {D T : Type} `{PayloadTransform T}.

(** What the caller is told at the end of the stream. *)
Definition stream_ending (result : Result unit) : Result unit :=
  match result with Ok _ => Ok tt | Err e => Err (RpcStatus (handler_status e)) end.

(** The response that ends the stream of a method that has failed. *)
Definition failure_fits (result : Result unit) (limit : Z) : Prop :=
  forall e, result = Err e -> code (handler_status e) <> OK /\
    exists b, codec_encode (init_status (handler_status e)) = Ok b /\ len b <= limit.

Lemma stream_receive_begins (server method : string) (ctx : Context_) (order : list (string * list string))
    (req : C) (c c' : @Conn D T Q) k fl :
  async_client_stream_receive server method ctx order req c = (c', Ok (k, fl)) ->
  fl = (false, true) /\ exists b, codec_encode req = Ok b /\
    new_stream_begin (request_set_payload (client_init_request server method ctx order) b) false c = (c', Ok k).
Proof.
  unfold async_client_stream_receive, client_creq. munfold. intros E.
  destruct (codec_encode req) as [b|] eqn:Eb; cbn in E; [|done].
  destruct (new_stream_begin _ false c) as [c1 [k1|]] eqn:E1; simplify_eq/=. split; [done|]. by exists b.
Qed.

(** How the stream of a method that has returned is ended: the message that is handed over, and what
    it tells the caller. *)
Lemma stream_end_sent senders id (result : Result unit) (req : Request) (y : X) :
  steady y -> failure_fits result (raw_limit y) ->
  exists last rpc_error, hands_over last rpc_error y (finish_request id (stream_result req (Ok (stream_done result))) y) /\
    stream_id (header last) = id /\ passed last /\ keeps (Ok last) = false /\
    ends_stream (M := M) (Q := Q) senders last (stream_ending result).
Proof.
  intros Hy Hfit. destruct result as [u|e].
  - exists (gen_new_close id), false. split_and!; [by apply sent_hands_over|done| |done|by apply close_ends_stream].
    split; [by right|done].
  - destruct (Hfit e eq_refl) as (Hok & b & Hb & Hl). exists (gen_new_response id b), true.
    assert (stream_result req (Ok (stream_done (Err e))) = Some <$> Ok (init_status (handler_status e))) as -> by done.
    rewrite (finish_request_sends id (Ok (init_status (handler_status e))) y b Hb Hl).
    split_and!; [by apply sent_hands_over|done| |done|by apply status_ends_stream].
    split; [by left|]. pose proof (raw_limit_max y). cbn. lia.
Qed.

(** C10: a server-streaming call through generated code and the typed streams, from a client in any
    state that it can reach. The server, in any state, opens the stream with the request that the
    client's stub built, and the generated handler gets from its mailbox the caller's very message and
    runs the application's method [f] on it. When the method has sent its messages and returns, the
    server hands exactly one more message to the connection, the end of the stream or the status of
    the method's error (UNKNOWN with its text when it is not a status), which enters the writer's
    channel unless that send fails. And when the client's reader reads the messages of the stream as
    the server has emitted them, among whatever frames of other calls and whatever comes later, the
    caller's receiver gives the method's messages in order, each of them once, and then the end of the
    stream, or that status. The client has no payload transform; a method error whose status is OK is
    not an error for the caller and is excluded; the request and the status are assumed to fit the
    frame limit. *)
Theorem server_streaming_end_to_end {G} (guard : G) (f : C -> list M * Result unit)
    (server method : string) (ctx : Context_) (order : list (string * list string)) (req : C)
    (x : ConnectionContext D T) evs (cl : @AsyncClient.System D T Q) (c1 : @Conn D T Q) (k : Call)
    (fl : bool * bool) (b : list byte) (s : @HandlerState X Q) :
  AsyncClient.reachable x evs cl -> payload_transform (conn_ctx (conn cl)) = None ->
  async_client_stream_receive server method ctx order req (conn cl) = (c1, Ok (k, fl)) ->
  codec_encode req = Ok b -> len b <= MESSAGE_LENGTH_MAX ->
  let id := c_id k in
  exists h creq s1 ch q r' recv,
    stream_opened (c_msg k) s = Ok (MkMessage h creq, (s1, ch)) /\
    h_streams s1 !! id = Some ch /\ h_boxes s1 !! ch = Some q /\
    creq = request_set_payload (client_init_request server method ctx order) b /\
    stream_recv true (receiver (stream_new_server id q true true)) = (r', Some recv) /\
    forall (y y1 : X) closed (q0 : Q (Result GenMessage)),
      steady y -> failure_fits (f req).2 (raw_limit y1) ->
      sends server_stream_sender_send (server_stream_sender_new (stream_new_server id q0 true true)) (f req).1 (y, false)
        = ((y1, closed), Ok tt) ->
      exists sent last rpc_error, emitted y1 = emitted y ++ sent /\
        hands_over last rpc_error y1 (finish_request id
          (stream_result creq (Ok (async_server_streaming_handler recv (fun r => (f r).2)))) y1) /\
        forall fs later, StreamRpc.of_stream id fs = sent ++ last :: later ->
          exists q1 r1, boxes (handle_msgs fs c1) !! c_chan k = Some q1 /\
            drain (client_stream_receiver_recv true) (S (length (f req).1))
              (client_stream_receiver_new (stream_new_client id q1 fl.1 fl.2) guard)
            = Some (r1, ((f req).1, stream_ending (f req).2)).
Proof.
  intros Hr Hctx E Hb Hl id. apply stream_receive_begins in E as (-> & b' & Hb' & E).
  assert (b' = b) as -> by congruence.
  assert (is_u32 (next_stream_id (conn cl))) as Hid.
  { rewrite (inv_next _ _ _ (client_reachable_inv _ _ _ Hr)). by destruct (nth_id_odd (AsyncClient.taken evs)). }
  destruct (new_stream_opens (X := X) _ _ _ _ _ Hid E) as (_ & _ & Hop).
  destruct (Hop s) as (h & s1 & ch & q & Ho & Hreg & Hbox & Hq).
  destruct (stream_recv_data true (receiver (stream_new_server id q true true)) id b []) as (q' & Er & _); [done..|].
  eexists h, _, s1, ch, q, _, _. split_and!; [exact Ho|done|exact Hbox|done|exact Er|].
  intros y y1 closed q0 Hy Hfit Hs. rewrite (sends_typed _ sv_sender) in Hs by done.
  destruct (typed_send_all_ok _ _ _ _ _ Hy Hs) as (_ & Hy1 & bs & He & Hf).
  set (creq := request_set_payload _ b).
  assert (async_server_streaming_handler (Ok b) (fun r => (f r).2) = stream_done (f req).2) as ->
    by (unfold async_server_streaming_handler; munfold; by rewrite (codec_decode_encode _ _ Hb)).
  destruct (stream_end_sent true id (f req).2 creq y1 Hy1 Hfit) as (last & re & Hov & _ & Hp & Hk & Hend).
  eexists _, last, re. split; [exact He|]. split; [exact Hov|]. intros fs later Hfs.
  destruct (new_stream_owns _ _ _ _ _ _ _ Hr E) as (Hown & Hmb & Hc1). rewrite <- Hc1 in Hctx.
  destruct (handle_msgs_delivers fs c1 id (c_chan k) [] _ last later Hctx Hown Hmb Hfs) as (q1 & Hq1 & _ & Hi); [|done..|].
  { apply Forall_fmap, Forall_forall. intros d Hd. apply list_elem_of_lookup_1 in Hd as [i Hi].
    destruct (Forall2_lookup_r _ _ _ _ _ Hf Hi) as (m & _ & _ & Hdl). by split; [split; [right|]|]. }
  destruct (drain_stream true (fun rx => MkClientStreamReceiver rx guard) (client_stream_receiver_recv true)
    (fun r => eq_refl) (receiver (stream_new_client id q1 false true)) id (f req).1 bs last
    (stream_ending (f req).2) [] (S (length (f req).1))) as (r1 & Ed); try done; [lia| |by exists q1, r1].
  transitivity (mpsc_items q1); [done|]. by rewrite Hi, fmap_app, <- list_fmap_compose.
Qed.
End ServerStreaming.

Section Witness.
Local Instance ts_texts : Texts :=
  {| status_debug := fun _ => ""; nix_display := pretty; nix_debug := pretty;
     tokio_send_error := "channel closed" |}.
Local Instance ts_request_codec : Codec Request := request_codec.
Local Instance ts_request_laws : CodecLaws Request := request_codec_laws.
Local Instance ts_response_codec : Codec Response := response_codec.
Local Instance ts_response_laws : CodecLaws Response := response_codec_laws.
Abbreviation ts_path := (ConnectionContext unit NonceTransform * ListChan SendingMessage)%type.
Local Instance ts_send_path : SendPath ts_path := alone_path.
Local Instance ts_send_laws : SendPathLaws ts_path := alone_path_laws.

Definition ts_start : ts_path := (MkCtx tt None, mpsc_channel).
Definition ts_client : @AsyncClient.System unit NonceTransform ListChan := AsyncClient.MkSystem (new_conn (MkCtx tt None)) ∅.
Definition ts_server : @HandlerState ts_path ListChan := MkHandlerState ∅ ∅ 0 ts_start.
Definition ts_context : Context_ := MkContext ∅ 0.
Definition ts_empty : ListChan (Result GenMessage) := mpsc_channel.

(** A method that sends its request back and another message, and then fails. *)
Definition ts_gone : Status := get_status NOT_FOUND "gone".
Definition ts_list (req : list byte) : list (list byte) * Result unit :=
  ([req; [Byte.x2a]], Err (RpcStatus ts_gone)).

(** What the client's reader gets: the messages of the stream among frames of another call. *)
Definition ts_end : GenMessage := gen_new_response 1 (countable_encode (init_status ts_gone)).
Definition ts_frames : list GenMessage :=
  [gen_new_data 1 [Byte.x05]; gen_new_response 3 []; gen_new_data 1 [Byte.x2a]; ts_end; gen_new_close 3].

Lemma server_streaming_end_to_end_witness :
  exists c1 k q1 r1,
    async_client_stream_receive "svc" "List" ts_context [] [Byte.x05] (conn ts_client) = (c1, Ok (k, (false, true))) /\
    boxes (handle_msgs ts_frames c1) !! c_chan k = Some q1 /\
    drain (M := list byte) (client_stream_receiver_recv true) 3
      (client_stream_receiver_new (stream_new_client 1 q1 false true) tt) =
    Some (r1, ([[Byte.x05]; [Byte.x2a]], Err (RpcStatus ts_gone))).
Proof.
  destruct (async_client_stream_receive "svc" "List" ts_context [] [Byte.x05] (conn ts_client)) as [c1 [[k fl]|e]] eqn:Ec;
    [|by vm_compute in Ec].
  assert (fl = (false, true) /\ c_id k = 1) as [-> Hid] by (vm_compute in Ec; by injection Ec as <- <- <-).
  destruct (server_streaming_end_to_end (X := ts_path) tt ts_list "svc" "List" ts_context [] [Byte.x05] (MkCtx tt None) []
    ts_client c1 k (false, true) [Byte.x05] ts_server) as (h & creq & s1 & ch & q & r' & recv & Ho & _ & Hb & Hcreq & Er & Hend);
    [constructor|done|exact Ec|done|by vm_compute|].
  cbv zeta in Er, Hend. rewrite Hid in Er, Hend.
  assert (recv = Ok [Byte.x05]) as ->.
  { vm_compute in Ec. injection Ec as <- <-. vm_compute in Ho. injection Ho as <- <- <- <-.
    vm_compute in Hb. injection Hb as <-. vm_compute in Er. by injection Er as <- <-. }
  destruct (sends server_stream_sender_send (server_stream_sender_new (stream_new_server 1 ts_empty true true))
    (ts_list [Byte.x05]).1 (ts_start, false)) as [[y1 closed] r] eqn:Es.
  destruct (Hend ts_start y1 closed ts_empty) as (sent & last & re & He & [_ Hov] & Hcl).
  - done.
  - intros e [= <-]. split; [done|]. exists (countable_encode (init_status ts_gone)). split; [done|].
    vm_compute in Es. injection Es as <- <- <-. by vm_compute.
  - rewrite Es. f_equal. vm_compute in Es. by injection Es as <- <- <-.
  - assert (emitted y1 = [gen_new_data 1 [Byte.x05]; gen_new_data 1 [Byte.x2a]]) as Hy1
      by (vm_compute in Es; injection Es as <- <- <-; by vm_compute).
    assert (last = ts_end) as ->.
    { match type of Hov with context [emitted (finish_request ?i ?r ?z)] =>
        assert (emitted (finish_request i r z) = [gen_new_data 1 [Byte.x05]; gen_new_data 1 [Byte.x2a]; ts_end]) as Hy2
          by (rewrite Hcreq; vm_compute in Es; injection Es as <- <- <-; by vm_compute)
      end.
      rewrite Hy2, Hy1 in Hov. destruct (transform_send last re false y1).2; [|destruct Hov as [Hov|Hov]]; by simplify_eq/=. }
    assert (sent = emitted y1) as -> by (by rewrite He).
    destruct (Hcl ts_frames []) as (q1 & r1 & Hq1 & Hd).
    { rewrite Hy1. by vm_compute. }
    by exists c1, k, q1, r1.
Defined.
End Witness.
