(* ===== verification/SyncChannel.v ===== *)
(** The synchronous transport (src/src/sync/channel.rs and the connections of
    src/src/sync/sys/unix/net.rs): blocking reads and writes of a socket with their retry loops,
    the frame reader and the frame writer with short reads and short writes, and the polling
    decisions of the listener and of the client connection. *)
From S2P Require Import Prelude Errors Wire Codec AsyncIO Frame.

(** ** Sockets

    The [recv] and [send] system calls on a connected stream socket, which fail with an [errno].
    [incoming] is what the peer will have sent from here on, [outgoing] what was handed to the
    kernel, and [transient] bounds the transient failures still to come (specification only). *)
Class Sock (K : Type) := {
  recv : nat -> st K Z (list byte);
  send : list byte -> st K Z nat;
  incoming : K -> list byte;
  outgoing : K -> list byte;
  transient : K -> nat;
  calm : K -> Prop }.

Definition EINTR : Z := 4.
Definition EAGAIN : Z := 11.

(** [retryable]. *)
Definition retryable (e : Z) : bool := bool_decide (e = EINTR) || bool_decide (e = EAGAIN).

(** What the system calls document: a successful [recv] gives at most the bytes asked for, and
    none exactly at the end of the stream; a successful [send] takes a prefix of its buffer.
    [EINTR] and [EAGAIN] do not repeat for ever. On a [calm] socket no other error occurs and
    every send takes at least a byte. *)
Class SockLaws (K : Type) `{Sock K} : Prop := {
  recv_ok : forall n s s' b, recv n s = (s', Ok b) ->
    (length b <= n)%nat /\ incoming s = b ++ incoming s' /\ outgoing s' = outgoing s /\
    (transient s' <= transient s)%nat;
  recv_eof : forall n s s', recv n s = (s', Ok []) -> (0 < n)%nat -> incoming s = [];
  recv_err : forall n s s' e, recv n s = (s', Err e) ->
    incoming s' = incoming s /\ outgoing s' = outgoing s /\ (transient s' <= transient s)%nat /\
    (retryable e = true -> (transient s' < transient s)%nat);
  send_ok : forall b s s' k, send b s = (s', Ok k) ->
    (k <= length b)%nat /\ outgoing s' = outgoing s ++ take k b /\ incoming s' = incoming s /\
    (transient s' <= transient s)%nat;
  send_err : forall b s s' e, send b s = (s', Err e) ->
    incoming s' = incoming s /\ outgoing s' = outgoing s /\ (transient s' <= transient s)%nat /\
    (retryable e = true -> (transient s' < transient s)%nat);
  recv_calm : forall n s s' r, recv n s = (s', r) -> calm s ->
    calm s' /\ forall e, r = Err e -> retryable e = true;
  send_calm : forall b s s' r, send b s = (s', r) -> calm s ->
    calm s' /\ (forall e, r = Err e -> retryable e = true) /\ (b <> [] -> r <> Ok O) }.

Section Connection.
Context {K : Type} `{Sock K} `{Texts} (fuel : nat).

(** ** [PipeConnection] *)

(** The loops of [read] and [write] around the system calls, with fuel for the retries. *)
Fixpoint retry_loop {A} (fuel : nat) (call : st K Z A) : pst K Error A := fun s =>
  match fuel with
  | O => None
  | S fuel' =>
      match call s with
      | (s', Ok a) => Some (s', Ok a)
      | (s', Err e) => if retryable e then retry_loop fuel' call s' else Some (s', Err (Nix e))
      end
  end.

(** [PipeConnection::read] into a buffer of [n] bytes: the bytes that were read. *)
Definition conn_read (n : nat) : pst K Error (list byte) := retry_loop fuel (recv n).
(** [PipeConnection::write]. *)
Definition conn_write (b : list byte) : pst K Error nat := retry_loop fuel (send b).

(** The conversion of the callers: [map_err(|e| Error::Socket(e.to_string()))]. *)
Definition as_socket_error {A} (m : pst K Error A) : pst K Error A := fun s =>
  match m s with
  | Some (s', r) => Some (s', map_err (fun e => Socket (error_display e)) r)
  | None => None
  end.

(** ** Reading *)

(** The loop of [read_into]: [buf.len() - len] bytes are missing, [acc] is [buf[..len]]. Every
    iteration but the last reads a byte, so that [need + 1] of them are enough. *)
Fixpoint read_into_loop (iterations need : nat) (acc : list byte) : pst K Error (list byte) :=
  if decide (need = O) then mret acc
  else match iterations with
       | O => pst_none
       | S iterations' =>
           b ← as_socket_error (conn_read need);
           if decide (length b = O) then mret acc
           else read_into_loop iterations' (need - length b) (acc ++ b)
       end.

(** [read_into(conn, buf)]: the part of the buffer that was filled. *)
Definition read_into (n : nat) : pst K Error (list byte) := read_into_loop (n + 1) n [].

(** [read_count(conn, count)]: the zeroed buffer truncated to what was read. *)
Definition read_count (n : nat) : pst K Error (list byte) := read_into n.

(** [discard_count(conn, count)]; [pages] counts the iterations. *)
Fixpoint discard_count_loop (iterations : nat) (need_discard : Z) : pst K Error unit :=
  match iterations with
  | O => mret tt
  | S iterations' =>
      if decide (need_discard > 0) then
        let once_discard := Z.min DEFAULT_PAGE need_discard in
        _ ← read_count (Z.to_nat once_discard);
        discard_count_loop iterations' (need_discard - once_discard)
      else mret tt
  end.
Definition discard_count (n : Z) : pst K Error unit := discard_count_loop (pages n) n.

Definition header_short_msg (size : Z) : string :=
  "Message header length " +:+ pretty size +:+ " is too small".

(** [read_message_header]; the conversion of a full buffer does not panic
    ([header_from_exact]). *)
Definition read_message_header : pst K Error MessageHeader :=
  buf ← read_into MESSAGE_HEADER_LENGTH;
  if decide (length buf <> MESSAGE_HEADER_LENGTH)
  then pst_fail (sock_error_msg (len buf) (header_short_msg (len buf)))
  else mret (default default_header (header_from buf)).

Definition body_short_msg (size n : Z) : string :=
  "Message length " +:+ pretty size +:+ " is not " +:+ pretty n.

(** [read_message]. *)
Definition read_message : pst K Error (MessageHeader * Result (list byte)) :=
  mh ← read_message_header;
  match check_oversize (h_length mh) true with
  | Err e => _ ← discard_count (h_length mh); mret (mh, Err e)
  | Ok _ =>
      buf ← read_count (Z.to_nat (h_length mh));
      if decide (len buf <> h_length mh)
      then pst_fail (sock_error_msg (len buf) (body_short_msg (len buf) (h_length mh)))
      else mret (mh, Ok buf)
  end.

(** ** Writing *)

Definition write_zero : Error := Socket "failed to write ttrpc frame: write zero".

(** The inner loop of [write_frame] over one slice, for a given writing callback. Every iteration
    writes a byte. *)
Fixpoint write_remaining (write : list byte -> pst K Error nat) (iterations : nat)
    (remaining : list byte) : pst K Error unit :=
  match remaining, iterations with
  | [], _ => mret tt
  | _, O => pst_none
  | _, S iterations' =>
      written ← write remaining;
      if decide (written = O) then pst_fail write_zero
      else write_remaining write iterations' (drop written remaining)
  end.

(** The two slices [write_frame] goes through, once the prefix is filled. *)
Definition write_slices (write : list byte -> pst K Error nat) (slices : list (list byte))
  : pst K Error unit :=
  foldr (fun slice rest => _ ← write_remaining write (length slice) slice; rest) (mret tt) slices.

(** [write_frame(header, payload, prefix, write)], with the caller's prefix buffer. *)
Definition write_frame (h : MessageHeader) (payload : list byte)
    (write : list byte -> pst K Error nat) : pst (K * Vec) Error unit := fun '(s, v) =>
  let v := fill_prefix h payload v in
  match write_slices write [vec_data v; drop (prefix_len payload) payload] s with
  | Some (s', r) => Some ((s', v), r)
  | None => None
  end.

(** [write_message(conn, header, payload, prefix)] of the synchronous channel. *)
Definition sync_write_message (h : MessageHeader) (payload : list byte)
  : pst (K * Vec) Error unit :=
  write_frame h payload (fun bytes => as_socket_error (conn_write bytes)).
End Connection.

(** ** What the reader gets, as a function of the bytes of the peer *)

Section Specification.
Context `{Texts}.

(** The outcome of [read_message] on a stream that ends after [bytes], and what is left of it. *)
Definition read_outcome (bytes : list byte)
  : Result (MessageHeader * Result (list byte)) * list byte :=
  let hb := take MESSAGE_HEADER_LENGTH bytes in
  let bytes := drop MESSAGE_HEADER_LENGTH bytes in
  if decide (length hb <> MESSAGE_HEADER_LENGTH)
  then (Err (sock_error_msg (len hb) (header_short_msg (len hb))), bytes)
  else
    let mh := default default_header (header_from hb) in
    let n := Z.to_nat (h_length mh) in
    match check_oversize (h_length mh) true with
    | Err e => (Ok (mh, Err e), drop n bytes)
    | Ok _ =>
        let body := take n bytes in
        (if decide (len body <> h_length mh)
         then Err (sock_error_msg (len body) (body_short_msg (len body) (h_length mh)))
         else Ok (mh, Ok body), drop n bytes)
    end.

Lemma read_outcome_frame m rest :
  wf_frame m -> read_outcome (frame_bytes m ++ rest) = (Ok (header m, Ok (payload m)), rest).
Proof.
  intros (Hwf & Hlen & Hmax). unfold read_outcome, frame_bytes. rewrite <- app_assoc.
  rewrite take_app_exact, drop_app_exact by apply length_header_bytes.
  rewrite decide_False by (intros Hn; by apply Hn).
  pose proof (header_from_bytes _ [] Hwf) as Hf. rewrite app_nil_r in Hf. rewrite Hf. cbn [default from_option id].
  rewrite (proj2 (check_oversize_ok (h_length (header m)) true)) by lia.
  rewrite take_app_exact, drop_app_exact by (unfold len in *; lia).
  rewrite decide_False by (intros Hn; by apply Hn). by destruct m.
Qed.
End Specification.

Section ReadingLemmas.
Context {K : Type} `{SockLaws K} `{Texts} (fuel : nat).

Definition nix_socket_error (e : Z) : Error := Socket (error_display (Nix e)).

(** The run of [m] from [s] ends; its outcome is [r], with [rest] left to read, unless the socket
    fails for good. *)
Definition reads {A} (m : pst K Error A) (s : K) (r : Result A) (rest : list byte) : Prop :=
  exists s' r', m s = Some (s', r') /\ outgoing s' = outgoing s /\
    (transient s' <= transient s)%nat /\ (calm s -> calm s') /\
    (r' = r /\ incoming s' = rest \/
     ~ calm s /\ exists e, retryable e = false /\ r' = Err (nix_socket_error e)).

Lemma reads_ret {A} (r : Result A) (m : pst K Error A) s :
  m s = Some (s, r) -> reads m s r (incoming s).
Proof. intros E. exists s, r. split_and!; try done. by left. Qed.

Lemma reads_bind {A B} (m : pst K Error A) (f : A -> pst K Error B) s a mid r rest :
  reads m s (Ok a) mid ->
  (forall s', (transient s' <= transient s)%nat -> incoming s' = mid -> reads (f a) s' r rest) ->
  reads (m ≫= f) s r rest.
Proof.
  intros (s1 & r1 & E & Ho & Ht & Hc & Hr) Hf. unfold reads. munfold. rewrite E.
  destruct Hr as [[-> Hi]|[Hn (e & He & ->)]].
  - destruct (Hf s1 Ht Hi) as (s2 & r2 & E2 & Ho2 & Ht2 & Hc2 & Hr2).
    exists s2, r2. split_and!; [done | congruence | lia | tauto |].
    destruct Hr2 as [|[Hn2 ?]]; [by left | right; split; [tauto|done]].
  - exists s1, (Err (nix_socket_error e)). split_and!; try done. right. eauto.
Qed.

Lemma reads_bind_err {A B} (m : pst K Error A) (f : A -> pst K Error B) s e rest :
  reads m s (Err e) rest -> reads (m ≫= f) s (Err e) rest.
Proof.
  intros (s1 & r1 & E & Ho & Ht & Hc & Hr). unfold reads. munfold. rewrite E.
  destruct Hr as [[-> Hi]|[Hn (e' & He & ->)]]; eexists s1, _; split_and!; try done;
    [by left | right; eauto].
Qed.

(** A retry loop ends within the fuel; it makes its call until the call no longer fails with a
    transient error. *)
Lemma retry_recv n s k : (transient s < k)%nat ->
  exists s' r, retry_loop k (recv n) s = Some (s', r) /\ outgoing s' = outgoing s /\
    (transient s' <= transient s)%nat /\ (calm s -> calm s') /\
    match r with
    | Ok b => (length b <= n)%nat /\ incoming s = b ++ incoming s' /\
              (b = [] -> (0 < n)%nat -> incoming s = [])
    | Err e => ~ calm s /\ exists n, retryable n = false /\ e = Nix n
    end.
Proof.
  revert s. induction k as [|k IH]; intros s Hk; [lia|]. cbn [retry_loop].
  destruct (recv n s) as [s1 [b|e]] eqn:E.
  - pose proof (recv_calm _ _ _ _ E). pose proof (recv_eof n s s1) as Heof.
    apply recv_ok in E as Hb. exists s1, (Ok b). split_and!; try tauto.
    intros -> ?. by apply Heof.
  - pose proof (recv_calm _ _ _ _ E) as Hcalm. apply recv_err in E as (Hi & Ho & Ht & Hd).
    destruct (retryable e) eqn:He.
    + destruct (IH s1) as (s2 & r & E2 & Ho2 & Ht2 & Hc2 & Hr); [specialize (Hd eq_refl); lia|].
      exists s2, r. split_and!; [done | congruence | lia | tauto |].
      rewrite Hi in Hr. destruct r; [done|]. destruct Hr; split; [tauto|done].
    + exists s1, (Err (Nix e)). split_and!; try tauto; [|eauto].
      intros Hs. destruct (Hcalm Hs) as [_ Hr]. specialize (Hr e eq_refl). congruence.
Qed.

(** [read_into] gives the next bytes of the stream, as many as asked for or all that are left,
    however the kernel splits them. *)
Lemma read_into_loop_reads k n acc s :
  (transient s < fuel)%nat -> (n < k)%nat ->
  reads (read_into_loop fuel k n acc) s (Ok (acc ++ take n (incoming s))) (drop n (incoming s)).
Proof.
  revert n acc s. induction k as [|k IH]; intros n acc s Hs Hk; [lia|].
  cbn [read_into_loop]. case_decide as Hn.
  { subst n. rewrite app_nil_r. by apply reads_ret. }
  destruct (retry_recv n s fuel Hs) as (s1 & r & E & Ho & Ht & Hc & Hr).
  unfold as_socket_error, conn_read. unfold reads. munfold. rewrite E.
  destruct r as [b|e].
  - destruct Hr as (Hb & Hi & Hz). case_decide as Hl.
    + destruct b; [|done]. rewrite (Hz eq_refl) by lia. rewrite (Hz eq_refl) in Hi by lia.
      exists s1, (Ok acc). split_and!; try done. left.
      rewrite take_nil, drop_nil, app_nil_r. by destruct (incoming s1).
    + destruct (IH (n - length b)%nat (acc ++ b) s1) as (s2 & r2 & E2 & Ho2 & Ht2 & Hc2 & Hr2);
        [lia | lia |].
      exists s2, r2. split_and!; [done | congruence | lia | tauto |].
      rewrite Hi, take_app_ge, drop_app_ge, app_assoc by done.
      destruct Hr2 as [|[Hn2 ?]]; [by left | right; split; [tauto|done]].
  - destruct Hr as (Hn' & e' & He & ->). exists s1, (Err (nix_socket_error e')).
    split_and!; try done. right. eauto.
Qed.

Lemma read_into_reads n s :
  (transient s < fuel)%nat ->
  reads (read_into fuel n) s (Ok (take n (incoming s))) (drop n (incoming s)).
Proof. intros. by apply (read_into_loop_reads _ _ []); [|lia]. Qed.

(** Discarding goes through the announced bytes, or to the end of the stream. *)
Lemma discard_count_reads n s :
  (transient s < fuel)%nat -> 0 <= n ->
  reads (discard_count fuel n) s (Ok tt) (drop (Z.to_nat n) (incoming s)).
Proof.
  unfold discard_count. remember (pages n) as p eqn:Hp. revert n s Hp.
  induction p as [|p IH]; intros n s Hp Hs Hn.
  - assert (n = 0) as -> by (destruct (decide (n > 0)) as [Hgt|]; [rewrite pages_step in Hp; done|lia]).
    by apply reads_ret.
  - assert (n > 0) as Hgt by (destruct (decide (n > 0)); [done | replace n with 0 in Hp by lia; done]).
    rewrite pages_step in Hp by done. simplify_eq. cbn [discard_count_loop].
    rewrite decide_True by done. set (once := Z.min DEFAULT_PAGE n) in *.
    assert (0 < once <= n) by (unfold once; assert (DEFAULT_PAGE = 4096) by done; lia).
    eapply reads_bind; [by apply read_into_reads|]. intros s1 Ht Hi.
    replace (Z.to_nat n) with (Z.to_nat once + Z.to_nat (n - once))%nat by lia.
    rewrite <- drop_drop, <- Hi. apply IH; [done|lia|lia].
Qed.

Lemma read_message_reads s :
  (transient s < fuel)%nat ->
  reads (read_message fuel) s (read_outcome (incoming s)).1 (read_outcome (incoming s)).2.
Proof.
  intros Hs. unfold read_message, read_message_header, read_outcome.
  pose proof (read_into_reads MESSAGE_HEADER_LENGTH s Hs) as Hh.
  set (hb := take MESSAGE_HEADER_LENGTH (incoming s)) in *.
  set (rest := drop MESSAGE_HEADER_LENGTH (incoming s)) in *.
  destruct (decide (length hb <> MESSAGE_HEADER_LENGTH)) as [Hn|Hn]; cbn [fst snd].
  { eapply reads_bind_err, reads_bind; [exact Hh|]. intros s1 _ Hi.
    rewrite decide_True by done. rewrite <- Hi. by apply reads_ret. }
  set (mh := default default_header (header_from hb)).
  apply (reads_bind _ _ _ mh rest); [eapply reads_bind; [exact Hh|] |].
  { intros s1 _ <-. rewrite decide_False by done. by apply reads_ret. }
  intros s1 Ht Hi.
  destruct (check_oversize (h_length mh) true) as [[]|e] eqn:Hc; cbn [fst snd].
  - eapply reads_bind; [apply (read_into_reads (Z.to_nat (h_length mh))); lia|].
    intros s2 _ Hi2. rewrite <- Hi, <- Hi2. case_decide; by apply reads_ret.
  - assert (0 <= h_length mh).
    { apply dec_stable. intros Hneg. unfold check_oversize in Hc. case_decide; [|done].
      assert (MESSAGE_LENGTH_MAX = 4194304) by done. lia. }
    eapply reads_bind; [apply discard_count_reads; [lia|done]|].
    intros s2 _ Hi2. rewrite <- Hi, <- Hi2. by apply reads_ret.
Qed.
End ReadingLemmas.

(** ** Lemmas on writing *)

Section WritingLemmas.
Context {K : Type} `{SockLaws K} `{Texts} (fuel : nat).

(** The run of [m] from [s] ends; it wrote [whole], or a proper part of it and failed. *)
Definition writes (m : pst K Error unit) (s : K) (whole : list byte) : Prop :=
  exists s' r b, m s = Some (s', r) /\ outgoing s' = outgoing s ++ b /\
    (transient s' <= transient s)%nat /\ incoming s' = incoming s /\ (calm s -> calm s') /\
    (r = Ok tt /\ b = whole \/
     ~ calm s /\ (exists c, c <> [] /\ whole = b ++ c) /\
     (r = Err write_zero \/ exists e, retryable e = false /\ r = Err (nix_socket_error e))).

Lemma retry_send c s k : (transient s < k)%nat -> c <> [] ->
  exists s' r, retry_loop k (send c) s = Some (s', r) /\
    (transient s' <= transient s)%nat /\ incoming s' = incoming s /\ (calm s -> calm s') /\
    match r with
    | Ok n => (n <= length c)%nat /\ outgoing s' = outgoing s ++ take n c /\ (calm s -> n <> O)
    | Err e => ~ calm s /\ outgoing s' = outgoing s /\ exists n, retryable n = false /\ e = Nix n
    end.
Proof.
  intros Hk Hc. revert s Hk. induction k as [|k IH]; intros s Hk; [lia|]. cbn [retry_loop].
  destruct (send c s) as [s1 [n|e]] eqn:E.
  - pose proof (send_calm _ _ _ _ E) as Hcalm. apply send_ok in E as Hb. exists s1, (Ok n).
    split_and!; try tauto. intros Hs ->. apply Hcalm in Hs as (_ & _ & Hz). by apply (Hz Hc).
  - pose proof (send_calm _ _ _ _ E) as Hcalm. apply send_err in E as (Hi & Ho & Ht & Hd).
    destruct (retryable e) eqn:He.
    + destruct (IH s1) as (s2 & r & E2 & Ht2 & Hi2 & Hc2 & Hr); [specialize (Hd eq_refl); lia|].
      exists s2, r. split_and!; [done | lia | congruence | tauto |].
      destruct r; [rewrite <- Ho; tauto|]. destruct Hr as (? & ? & ?).
      split_and!; [tauto | congruence | done].
    + exists s1, (Err (Nix e)). split_and!; try tauto; [|eauto].
      intros Hs. destruct (Hcalm Hs) as (_ & Hr & _). specialize (Hr e eq_refl). congruence.
Qed.

Lemma write_remaining_writes k b s :
  (transient s < fuel)%nat -> (length b <= k)%nat ->
  writes (write_remaining (fun bytes => as_socket_error (conn_write fuel bytes)) k b) s b.
Proof.
  revert b s. induction k as [|k IH]; intros b s Hs Hk.
  { destruct b; [|simpl in Hk; lia]. exists s, (Ok tt), []. rewrite app_nil_r.
    split_and!; try done. by left. }
  destruct b as [|x b].
  { exists s, (Ok tt), []. rewrite app_nil_r. split_and!; try done. by left. }
  cbn [write_remaining]. set (c := x :: b) in *.
  destruct (retry_send c s fuel Hs) as (s1 & r & E & Ht & Hi & Hc & Hr); [done|].
  unfold writes, as_socket_error, conn_write. munfold. rewrite E. destruct r as [n|e].
  - destruct Hr as (Hn & Ho & Hz). case_decide as Hn0.
    + subst n. exists s1, (Err write_zero), []. split_and!; try done.
      right. split_and!; [tauto | by exists c | by left].
    + destruct (IH (drop n c) s1) as (s2 & r2 & b2 & E2 & Ho2 & Ht2 & Hi2 & Hc2 & Hr2);
        [lia | rewrite length_drop; lia |].
      exists s2, r2, (take n c ++ b2).
      split_and!; [done | by rewrite Ho2, Ho, app_assoc | lia | congruence | tauto |].
      destruct Hr2 as [[-> ->]|(Hn2 & (d & Hd & Hw) & Hr2)]; [left; by rewrite take_drop|].
      right. split_and!; [tauto | | done]. exists d. split; [done|].
      by rewrite <- app_assoc, <- Hw, take_drop.
  - destruct Hr as (Hn & Ho & e' & He & ->). exists s1, (Err (nix_socket_error e')), [].
    rewrite Ho, app_nil_r. split_and!; try done.
    right. split_and!; [done | by exists c | right; eauto].
Qed.

Lemma writes_seq m f s a b :
  writes m s a ->
  (forall s', (transient s' <= transient s)%nat -> writes f s' b) ->
  writes (_ ← m; f) s (a ++ b).
Proof.
  intros (s1 & r & a1 & E & Ho & Ht & Hi & Hc & Hr) Hf. unfold writes. munfold. rewrite E.
  destruct Hr as [[-> ->]|(Hn & (d & Hd & ->) & Hr)].
  - destruct (Hf s1 Ht) as (s2 & r2 & b2 & E2 & Ho2 & Ht2 & Hi2 & Hc2 & Hr2).
    exists s2, r2, (a ++ b2).
    split_and!; [done | by rewrite Ho2, Ho, app_assoc | lia | congruence | tauto |].
    destruct Hr2 as [[-> ->]|(Hn2 & (d & Hd & ->) & Hr2)]; [by left|].
    right. split_and!; [tauto | | done]. exists d. by rewrite app_assoc.
  - exists s1, r, a1. destruct Hr as [->|(e & He & ->)]; split_and!; try done; right;
      (split_and!; [done | exists (d ++ b); split; [by destruct d | by rewrite app_assoc] |]);
      [by left | right; eauto].
Qed.

(** A frame is written through short writes; the reused prefix buffer does not matter. *)
Lemma sync_write_message_writes h p s v :
  (transient s < fuel)%nat ->
  exists s' r b, sync_write_message fuel h p (s, v) = Some ((s', fill_prefix h p v), r) /\
    outgoing s' = outgoing s ++ b /\ (transient s' <= transient s)%nat /\
    incoming s' = incoming s /\ (calm s -> calm s') /\
    (r = Ok tt /\ b = header_bytes h ++ p \/
     ~ calm s /\ (exists c, c <> [] /\ header_bytes h ++ p = b ++ c) /\
     (r = Err write_zero \/ exists e, retryable e = false /\ r = Err (nix_socket_error e))).
Proof.
  intros Hs. unfold sync_write_message, write_frame. cbn zeta. rewrite fill_prefix_data.
  assert (writes (write_slices (fun bytes => as_socket_error (conn_write fuel bytes))
            [header_bytes h ++ take (prefix_len p) p; drop (prefix_len p) p]) s
            (header_bytes h ++ p)) as (s' & r & b & E & Hrest).
  { replace (header_bytes h ++ p)
      with ((header_bytes h ++ take (prefix_len p) p) ++ drop (prefix_len p) p ++ [])
      by by rewrite app_nil_r, prefix_drop_payload.
    unfold write_slices. cbn [foldr].
    apply writes_seq; [by apply write_remaining_writes|]. intros s1 Ht1.
    apply writes_seq; [by apply write_remaining_writes; [lia|]|]. intros s2 _.
    exists s2, (Ok tt), []. rewrite app_nil_r. split_and!; try done. by left. }
  rewrite E. exists s', r, b. done.
Qed.
End WritingLemmas.

(** ** Polling and closing *)

(** An [io::Error]: an error of the system, or [io::Error::other(text)]. *)
Inductive IoErr := OsError (errno : Z) | OtherError (text : string).
#[global] Instance IoErr_eq_dec : EqDecision IoErr.
Proof. solve_decision. Defined.

(** [raw_os_error()]. *)
Definition raw_os_error (e : IoErr) : option Z :=
  match e with OsError n => Some n | OtherError _ => None end.

(** What [libc::poll] on the two descriptors came to: -1 with an [errno], 0, or the [revents] of
    the monitor and of the socket. *)
Inductive PollResult := PollError (errno : Z) | PollTimeout | PollReady (monitor socket : Z).

(** [PipeListener::accept]; [accept4] is what the system call would give. *)
Definition listener_accept (p : PollResult) (accept4 : res Z Z) : res IoErr (option Z) :=
  match p with
  | PollError e => Err (OsError e)
  | PollTimeout => Ok None
  | PollReady monitor socket =>
      if decide (monitor <> 0 \/ socket = 0) then Ok None
      else match accept4 with
           | Ok fd => Ok (Some fd)
           | Err e => Err (OsError e)
           end
  end.

(** [ClientConnection::ready]. *)
Definition client_ready (p : PollResult) : res IoErr (option unit) :=
  match p with
  | PollError e => if decide (e = EINTR) then Ok None else Err (OsError e)
  | PollTimeout => Ok None
  | PollReady monitor socket =>
      if decide (monitor <> 0) then Err (OtherError "pipe closed")
      else if decide (socket = 0) then Ok None
      else Ok (Some tt)
  end.

(** [close] of a connection: the descriptors handed to [close(2)] and the result, [closing] giving
    the result of the system call. *)
Definition pipe_close (closing : Z -> res Z unit) (fd : Z) : list Z * Result unit :=
  ([fd], map_err Nix (closing fd)).

(** [ClientConnection::close]: the waking descriptor, then the socket. *)
Definition client_close (closing : Z -> res Z unit) (fd close_fd : Z) : list Z * Result unit :=
  match closing close_fd with
  | Err e => ([close_fd], Err (Nix e))
  | Ok _ => ([close_fd; fd], map_err Nix (closing fd))
  end.

(** [Drop] of [ClientConnection]; the boolean tells that an [unwrap] panicked. *)
Definition client_drop (closing : Z -> res Z unit) (fd recver_fd close_fd : Z) : list Z * bool :=
  match client_close closing fd close_fd with
  | (closed, Err _) => (closed, true)
  | (closed, Ok _) => (closed ++ [recver_fd], is_err (closing recver_fd))
  end.

(** A client that is dropped closes its three descriptors once each when the system lets it. *)
Lemma client_drop_closes closing fd recver_fd close_fd :
  (forall n, closing n = Ok tt) ->
  client_drop closing fd recver_fd close_fd = ([close_fd; fd; recver_fd], false).
Proof. intros Hc. unfold client_drop, client_close. by rewrite !Hc. Qed.

(** ** Sockets that follow a script *)

(** The next outcomes of the system calls: at most [k] (for [recv], one more) bytes, or an
    [errno]; past the script everything asked for. *)
Inductive SockEvent := Chunk (k : nat) | Fault (errno : Z).

Record ScriptSock := MkScript {
  ss_in : list byte; ss_out : list byte; ss_recvs : list SockEvent; ss_sends : list SockEvent }.

Definition script_recv (n : nat) : st ScriptSock Z (list byte) := fun s =>
  match ss_recvs s with
  | Fault e :: es => (MkScript (ss_in s) (ss_out s) es (ss_sends s), Err e)
  | Chunk k :: es => let k := Nat.min n (S k) in
      (MkScript (drop k (ss_in s)) (ss_out s) es (ss_sends s), Ok (take k (ss_in s)))
  | [] => (MkScript (drop n (ss_in s)) (ss_out s) [] (ss_sends s), Ok (take n (ss_in s)))
  end.

Definition script_send (b : list byte) : st ScriptSock Z nat := fun s =>
  match ss_sends s with
  | Fault e :: es => (MkScript (ss_in s) (ss_out s) (ss_recvs s) es, Err e)
  | Chunk k :: es => let k := Nat.min (length b) k in
      (MkScript (ss_in s) (ss_out s ++ take k b) (ss_recvs s) es, Ok k)
  | [] => (MkScript (ss_in s) (ss_out s ++ b) (ss_recvs s) [], Ok (length b))
  end.

Definition calm_event (sending : bool) (e : SockEvent) : Prop :=
  match e with
  | Chunk k => sending = true -> k <> O
  | Fault n => retryable n = true
  end.

#[global] Instance script_sock : Sock ScriptSock := {
  recv := script_recv;
  send := script_send;
  incoming := ss_in;
  outgoing := ss_out;
  transient := fun s => (length (ss_recvs s) + length (ss_sends s))%nat;
  calm := fun s => Forall (calm_event false) (ss_recvs s) /\ Forall (calm_event true) (ss_sends s) }.

#[global] Instance script_sock_laws : SockLaws ScriptSock.
Proof.
  split.
  - intros n s s' b. destruct s as [i o rs ss]; simpl. unfold script_recv; simpl.
    destruct rs as [|[k|e] rs]; intros E; simplify_eq/=; rewrite length_take, take_drop;
      split_and!; (done || lia).
  - intros n s s'. destruct s as [i o rs ss]; simpl. unfold script_recv; simpl.
    destruct rs as [|[k|e] rs]; intros E ?; simplify_eq/=; (destruct i; [done|]);
      destruct n; try lia; simplify_eq/=.
  - intros n s s' e. destruct s as [i o rs ss]; simpl. unfold script_recv; simpl.
    destruct rs as [|[k|e'] rs]; intros E; simplify_eq/=; split_and!; (done || lia).
  - intros b s s' k. destruct s as [i o rs ss]; simpl. unfold script_send; simpl.
    destruct ss as [|[n|e] ss]; intros E; simplify_eq/=; rewrite ?firstn_all, ?take_ge by done;
      split_and!; (done || lia).
  - intros b s s' e. destruct s as [i o rs ss]; simpl. unfold script_send; simpl.
    destruct ss as [|[n|e'] ss]; intros E; simplify_eq/=; split_and!; (done || lia).
  - intros n s s' r. destruct s as [i o rs ss]; simpl. unfold script_recv; simpl.
    destruct rs as [|[k|e'] rs]; intros E [Hr Hs]; simplify_eq/=; try (by split_and!);
      apply Forall_cons in Hr as [? ?]; split_and!; try done; intros; by simplify_eq.
  - intros b s s' r. destruct s as [i o rs ss]; simpl. unfold script_send; simpl.
    destruct ss as [|[n|e'] ss]; intros E [Hr Hs]; simplify_eq/=.
    + split_and!; try done. intros Hb [=Hl]. by destruct b.
    + apply Forall_cons in Hs as [Hn ?]. split_and!; try done. intros Hb [=Hl].
      simpl in Hn. destruct b; [done|]. destruct n; [by apply Hn|done].
    + apply Forall_cons in Hs as [Hn ?]. split_and!; try done. intros; by simplify_eq.
Qed.

Section Properties.
Local Instance ex_texts : Texts := {
  status_debug := fun s => message s;
  nix_display := fun n => pretty n;
  nix_debug := fun n => pretty n;
  tokio_send_error := "channel closed" }.

(** C25: [read_message] always returns, however the kernel splits the bytes and however often it
    interrupts the calls, and its outcome is a function of the bytes the peer sends before closing:
    a frame within the limit is given whole and exactly its bytes are consumed, an oversized one is
    discarded and reported with its header, a stream that ends inside a frame is an error, and one
    that ends before a frame or its body the "socket disconnected" error. Any other outcome is
    [Error::Socket] with the text of a permanent error of the system. *)
Theorem sync_read_message `{SockLaws K, Texts} (fuel : nat) (s : K) :
  (transient s < fuel)%nat ->
  (exists s' r, read_message fuel s = Some (s', r) /\
    ((r, incoming s') = read_outcome (incoming s) \/
     ~ calm s /\ exists e, retryable e = false /\ r = Err (Socket (error_display (Nix e))))) /\
  forall m rest, wf_frame m -> incoming s = frame_bytes m ++ rest -> calm s ->
    exists s', read_message fuel s = Some (s', Ok (header m, Ok (payload m))) /\
      incoming s' = rest /\ calm s'.
Proof.
  intros Hs. destruct (read_message_reads fuel s Hs) as (s' & r & E & Ho & Ht & Hc & Hr).
  split.
  - exists s', r. split; [done|].
    destruct Hr as [[-> ->]|?]; [left; by destruct (read_outcome _) | by right].
  - intros m rest Hm Hi Hcalm. rewrite Hi, read_outcome_frame in Hr by done. cbn [fst snd] in Hr.
    destruct Hr as [[-> Hr]|[? _]]; [|done]. exists s'. rewrite E. auto.
Qed.

(** C26: the synchronous [write_message] always returns, and hands to the kernel the ten header
    bytes and the payload, in that order and once, however short the writes are and whatever its
    reused prefix buffer held; when it fails, with the "write zero" error or the text of a permanent
    error of the system, a proper prefix of the frame has been written. The prefix buffer never
    outgrows a page. *)
Theorem sync_write_message_whole `{SockLaws K, Texts} (fuel : nat) (m : GenMessage) (s : K) (v : Vec) :
  (transient s < fuel)%nat -> wf_vec v -> (vec_cap v <= DEFAULT_PAGE_SIZE)%nat ->
  exists s' v' r b, sync_write_message fuel (header m) (payload m) (s, v) = Some ((s', v'), r) /\
    wf_vec v' /\ (vec_cap v' <= DEFAULT_PAGE_SIZE)%nat /\
    outgoing s' = outgoing s ++ b /\ incoming s' = incoming s /\
    (r = Ok tt /\ b = frame_bytes m \/
     ~ calm s /\ (exists c, c <> [] /\ frame_bytes m = b ++ c) /\
     (r = Err write_zero \/
      exists e, retryable e = false /\ r = Err (Socket (error_display (Nix e))))).
Proof.
  intros Hs Hv Hcap.
  destruct (sync_write_message_writes fuel (header m) (payload m) s v Hs)
    as (s' & r & b & E & Ho & Ht & Hi & Hc & Hr).
  pose proof (fill_prefix_cap (header m) (payload m) v Hv).
  exists s', (fill_prefix (header m) (payload m) v), r, b.
  split_and!; [done | tauto | lia | done | done | exact Hr].
Qed.

Lemma sync_read_message_witness :
  let s := MkScript (frame_bytes ex_frame ++ [Byte.x09]) []
             [Chunk 0; Fault EINTR; Chunk 3; Fault EAGAIN; Chunk 1; Chunk 8; Fault EINTR] [] in
  (exists s', read_message 8 s = Some (s', Ok (header ex_frame, Ok (payload ex_frame))) /\
    incoming s' = [Byte.x09] /\ calm s') /\
  (exists s' r, read_message 1 (MkScript [Byte.x01; Byte.x02] [] [] []) = Some (s', r) /\
     (r, incoming s') = read_outcome [Byte.x01; Byte.x02]).
Proof.
  intros s. split.
  - apply (sync_read_message 8 s); [apply Nat.ltb_lt; reflexivity | apply ex_frame_wf | reflexivity |].
    split; repeat constructor; done.
  - destruct (sync_read_message 1 (MkScript [Byte.x01; Byte.x02] [] [] [])) as [(s' & r & E & Hr) _];
      [apply Nat.ltb_lt; reflexivity|].
    exists s', r. split; [exact E|]. destruct Hr as [Hr|[Hn _]]; [exact Hr|].
    exfalso. apply Hn. split; constructor.
Defined.

Lemma sync_write_message_whole_witness :
  let s := MkScript [] [] [] [Chunk 3; Fault EINTR; Chunk 1] in
  exists s' v', sync_write_message 4 (header ex_frame) (payload ex_frame) (s, MkVec [Byte.xff] 1)
                = Some ((s', v'), Ok tt) /\ outgoing s' = frame_bytes ex_frame.
Proof.
  intros s.
  destruct (sync_write_message_whole 4 ex_frame s (MkVec [Byte.xff] 1)) as
    (s' & v' & r & b & E & _ & _ & Ho & _ & Hr);
    [apply Nat.ltb_lt; reflexivity | apply Nat.leb_le; reflexivity | apply Nat.leb_le; reflexivity |].
  exists s', v'. destruct Hr as [[-> ->]|[Hn _]]; [split; [exact E | exact Ho]|].
  exfalso. apply Hn. split; [constructor|]. repeat constructor; done.
Defined.
End Properties.
