(* ===== verification/SyncClient.v ===== *)
(** The synchronous client (src/src/sync/client.rs): the calling threads, the sender thread and the
    receiver thread of a connection, interleaved over the registry of pending calls. *)
From S2P Require Import Prelude Errors Wire Codec Frame Channel Extension.

Section SyncClient.
Context {D T : Type} `{PayloadTransform T, Texts} `{Codec Request} `{Codec Response}.

(** ** State *)

(** A calling thread, named by its rendezvous channel: waiting in [recv], given a result, or gone
    with its receiver. A send on the channel completes exactly with a waiting caller. *)
Inductive Caller := Waiting | Answered (r : Result (list byte)) | GaveUp.

(** The sender thread between its blocking operations. *)
Inductive SenderPc :=
  | Idle
  | Registered (id : Z) (ch : chan_id) (buf : list byte)
  | Writing (id : Z) (ch : chan_id) (mh : MessageHeader) (buf : list byte).

(** What the threads of a client share, with the state of the sender and receiver threads:
    [stream_id] of the sender, [recver_map], the connection context, the queue behind [sender_tx]
    and whether the receiver thread is running. *)
Record Link := MkLink {
  l_next : Z;
  l_map : gmap Z chan_id;
  l_ctx : ConnectionContext D T;
  l_calls : gmap chan_id Caller;
  l_queue : list (list byte * chan_id);
  l_sender : SenderPc;
  l_receiving : bool }.

Definition set_calls (l : Link) cs := MkLink (l_next l) (l_map l) (l_ctx l) cs (l_queue l) (l_sender l) (l_receiving l).
Definition set_map (l : Link) m := MkLink (l_next l) m (l_ctx l) (l_calls l) (l_queue l) (l_sender l) (l_receiving l).
Definition set_sender (l : Link) p := MkLink (l_next l) (l_map l) (l_ctx l) (l_calls l) (l_queue l) p (l_receiving l).
Definition set_context (l : Link) x := MkLink (l_next l) (l_map l) x (l_calls l) (l_queue l) (l_sender l) (l_receiving l).

(** [new_client]. *)
Definition new_client (x : ConnectionContext D T) : Link := MkLink 1 ∅ x ∅ [] Idle true.

(** [with_hook]: [conn] is what [ClientConnection::new(fd)] gave. *)
Definition with_hook (data_default : D) (fd : Z) (conn : Result unit) (hook : Hook D T)
  : Result Link :=
  _ ← map_err (fun e => err_to_others_err "new ClientConnection" (error_display e)) conn;
  output ← map_err (fun e => Others ("sync client connect hook failed (fd=" +:+ pretty fd +:+ "): "
                                     +:+ hook_error_display e)) (hook fd);
  mret (new_client (context_new data_default (Some output))).

(** ** Calls *)

(** [request] up to the hand-over to the sender thread. *)
Definition request_buf (req : Request) : Result (list byte) :=
  buf ← map_err (err_to_others_err "Encode request error ") (codec_encode req);
  _ ← check_oversize (len buf) false;
  mret buf.

(** [self.sender_tx.send((buf, tx))]; the sender thread runs as long as a client exists. *)
Definition enqueue (ch : chan_id) (buf : list byte) (l : Link) : Link :=
  MkLink (l_next l) (l_map l) (l_ctx l) (<[ch := Waiting]> (l_calls l)) (l_queue l ++ [(buf, ch)])
    (l_sender l) (l_receiving l).

(** How [rx.recv()] or [rx.recv_timeout(...)] ends. *)
Inductive RecvEnd := Received (r : Result (list byte)) | Disconnected | TimedOut.

(** The time [recv_timeout] waits, if the request has a timeout: [timeout_nano as u64]. *)
Definition recv_limit (timeout_nano : Z) : option Z :=
  if decide (timeout_nano = 0) then None else Some (as_u64 timeout_nano).

(** [request] from there on; [None]: a wait without a limit does not time out. *)
Definition request_end (timeout_nano : Z) (e : RecvEnd) : option (Result Response) :=
  result ← match e, recv_limit timeout_nano with
           | Received r, _ => Some (Ok r)
           | Disconnected, None =>
               Some (Err (Others "Receive packet from Receiver error: receiving on a closed channel"))
           | Disconnected, Some _ =>
               Some (Err (Others "Receive packet from Receiver timeout: channel is empty and sending half is closed"))
           | TimedOut, Some _ =>
               Some (Err (Others "Receive packet from Receiver timeout: timed out waiting on channel"))
           | TimedOut, None => None
           end;
  Some (r ← result;
        buf ← r;
        res ← map_err (err_to_others_err "Unpack response error ") (codec_decode buf);
        match non_ok res with
        | Some status => Err (RpcStatus status)
        | None => Ok res
        end).

(** ** The sender thread *)

(** [recver_tx.send(r)] on a rendezvous channel; without a receiver the failure is logged. *)
Definition deliver (ch : chan_id) (r : Result (list byte)) (l : Link) : Link :=
  match l_calls l !! ch with
  | Some Waiting => set_calls l (<[ch := Answered r]> (l_calls l))
  | _ => l
  end.

(** The next request is taken: it gets the next id ([u32] addition, which wraps when overflow
    checks are off) and is registered. *)
Definition sender_take (l : Link) : option Link :=
  match l_sender l, l_queue l with
  | Idle, (buf, ch) :: queue =>
      let id := l_next l in
      Some (MkLink (as_u32 (id + 2)) (<[id := ch]> (l_map l)) (l_ctx l) (l_calls l) queue
              (Registered id ch buf) (l_receiving l))
  | _, _ => None
  end.

(** A request that cannot be sent: unregistered, and its caller told. *)
Definition sender_fail (id : Z) (ch : chan_id) (e : Error) (l : Link) : Link :=
  deliver ch (Err e) (set_map l (delete id (l_map l))).

(** The outbound transform. *)
Definition sender_transform (l : Link) : option Link :=
  match l_sender l with
  | Registered id ch buf =>
      let mh := set_stream_id (header_new_request 0 (len_u32 buf)) id in
      let '(x', r) := outbound_buf buf (serialize_aad mh) false (l_ctx l) in
      let l := set_context l x' in
      Some (match r with
            | Ok transformed =>
                set_sender l (Writing id ch (set_length mh (len_u32 transformed)) transformed)
            | Err e => sender_fail id ch e (set_sender l Idle)
            end)
  | _ => None
  end.

(** [write_message]; [w] is its result. *)
Definition sender_write (w : Result unit) (l : Link) : option Link :=
  match l_sender l with
  | Writing id ch mh buf =>
      let l := set_sender l Idle in
      Some (match w with
            | Ok _ => l
            | Err e => sender_fail id ch e l
            end)
  | _ => None
  end.

(** ** The receiver thread *)

Definition malformed (mh : MessageHeader) (buf : string) : Error :=
  Others ("Recver got malformed packet " +:+ header_debug mh +:+ " " +:+ buf).

(** [trans_resp]; [dbg] renders the payload or error for the message about a malformed packet. *)
Definition trans_resp (dbg : Result (list byte) -> string) (mh : MessageHeader)
    (buf : Result (list byte)) (l : Link) : Link :=
  match l_map l !! stream_id mh with
  | None => l
  | Some ch =>
      if decide (type_ mh <> MESSAGE_TYPE_RESPONSE)
      then deliver ch (Err (malformed mh (dbg buf))) l
      else
        let l := deliver ch buf l in
        set_map l (delete (stream_id mh) (l_map l))
  end.

(** A message that [read_message] gave: the inbound transform of its payload, then [trans_resp]. *)
Definition receiver_frame (dbg : Result (list byte) -> string) (mh : MessageHeader)
    (y : Result (list byte)) (l : Link) : Link :=
  let '(x', buf) := match y with
                    | Ok data => inbound_buf data (serialize_aad mh) false (l_ctx l)
                    | Err e => (l_ctx l, Err e)
                    end in
  trans_resp dbg mh buf (set_context l x').

Definition set_receiving (l : Link) b :=
  MkLink (l_next l) (l_map l) (l_ctx l) (l_calls l) (l_queue l) (l_sender l) b.

Definition lost_error (y : string) : Error := Socket ("socket error " +:+ y).

(** [read_message] failed with [Error::Socket(y)]: every pending call is told, the registry is
    cleared and the thread ends; [order] is the order in which the map yields its entries. *)
Definition receiver_lost (order : list (Z * chan_id)) (y : string) (l : Link) : Link :=
  let l := foldl (fun l '(_, ch) => deliver ch (Err (lost_error y)) l) l order in
  set_receiving (set_map l ∅) false.

(** [ready] failed: the thread ends. *)
Definition receiver_stop (l : Link) : Link := set_receiving l false.

(** ** The threads interleaved *)

Inductive Event :=
  | EvCall (ch : chan_id) (buf : list byte)
  | EvTaken (ch : chan_id)
  | EvWrite (mh : MessageHeader) (buf : list byte).

Inductive step (dbg : Result (list byte) -> string) : Link -> list Event -> Link -> Prop :=
  | StepCall l ch buf : l_calls l !! ch = None -> step dbg l [EvCall ch buf] (enqueue ch buf l)
  | StepGiveUp l ch : l_calls l !! ch = Some Waiting ->  (* the timeout elapses *)
      step dbg l [] (set_calls l (<[ch := GaveUp]> (l_calls l)))
  | StepTake l l' ch buf queue : l_queue l = (buf, ch) :: queue -> sender_take l = Some l' ->
      step dbg l [EvTaken ch] l'
  | StepTransform l l' : sender_transform l = Some l' -> step dbg l [] l'
  | StepWrite l l' id ch mh buf w : l_sender l = Writing id ch mh buf -> sender_write w l = Some l' ->
      step dbg l [EvWrite mh buf] l'
  | StepFrame l mh y : l_receiving l = true -> step dbg l [] (receiver_frame dbg mh y l)
  | StepLost l y order : l_receiving l = true -> order ≡ₚ map_to_list (l_map l) ->
      step dbg l [] (receiver_lost order y l)
  | StepStop l : l_receiving l = true -> step dbg l [] (receiver_stop l).

Inductive reachable (dbg : Result (list byte) -> string) (x : ConnectionContext D T)
  : list Event -> Link -> Prop :=
  | ReachInit : reachable dbg x [] (new_client x)
  | ReachStep evs l evs' l' :
      reachable dbg x evs l -> step dbg l evs' l' -> reachable dbg x (evs ++ evs') l'.

(** ** Invariant *)

(** The calls taken by the sender thread, in order: the [i]-th of them has the id [nth_id i]. *)
Definition taken (evs : list Event) : list chan_id :=
  omap (fun e => match e with EvTaken ch => Some ch | _ => None end) evs.
Definition unwrapped (evs : list Event) : Prop := Z.of_nat (length (taken evs)) <= U32 / 2.

(** The frame is the request of the [i]-th call taken, under that call's id. *)
Definition frame_of (evs : list Event) (i : nat) (mh : MessageHeader) (b : list byte) : Prop :=
  exists ch buf (x x' : ConnectionContext D T), taken evs !! i = Some ch /\ EvCall ch buf ∈ evs /\
    mh = header_new_request (nth_id i) (len_u32 b) /\
    outbound_buf buf (serialize_aad mh) false x = (x', Ok b).

Record inv (evs : list Event) (l : Link) : Prop := {
  inv_next : l_next l = nth_id (length (taken evs));
  inv_map : forall id ch, l_map l !! id = Some ch -> exists i, taken evs !! i = Some ch /\ id = nth_id i;
  inv_known : forall ch, ch ∈ taken evs ++ (l_queue l).*2 -> is_Some (l_calls l !! ch);
  inv_nodup : NoDup (taken evs ++ (l_queue l).*2);
  inv_queue : forall buf ch, (buf, ch) ∈ l_queue l -> EvCall ch buf ∈ evs;
  inv_sender : match l_sender l with
               | Idle => True
               | Registered id ch buf =>
                   EvCall ch buf ∈ evs /\ exists i, taken evs !! i = Some ch /\ id = nth_id i
               | Writing id ch mh b =>
                   exists i, taken evs !! i = Some ch /\ id = nth_id i /\ frame_of evs i mh b
               end;
  inv_waiting : unwrapped evs -> forall ch, l_calls l !! ch = Some Waiting ->
    ch ∈ (l_queue l).*2 \/ exists i, taken evs !! i = Some ch /\ l_map l !! nth_id i = Some ch;
  inv_written : forall mh b, EvWrite mh b ∈ evs -> exists i, frame_of evs i mh b }.

Lemma calls_taken_app evs evs' : taken (evs ++ evs') = taken evs ++ taken evs'.
Proof. unfold taken. by rewrite omap_app. Qed.

Lemma taken_lookup_mono evs evs' i ch :
  taken evs !! i = Some ch -> taken (evs ++ evs') !! i = Some ch.
Proof. rewrite calls_taken_app. apply lookup_app_l_Some. Qed.

Lemma frame_of_mono evs evs' i mh b : frame_of evs i mh b -> frame_of (evs ++ evs') i mh b.
Proof.
  intros (ch & buf & x & x' & Hi & He & Hf). exists ch, buf, x, x'.
  split_and!; [by apply taken_lookup_mono | apply elem_of_app; by left | apply Hf..].
Qed.

Lemma taken_index_inj evs l i j ch :
  inv evs l -> taken evs !! i = Some ch -> taken evs !! j = Some ch -> i = j.
Proof.
  intros Hinv Hi Hj. pose proof (inv_nodup _ _ Hinv) as [Hnd _]%NoDup_app. by eapply NoDup_lookup.
Qed.

Lemma taken_id_inj evs i j ch ch' :
  unwrapped evs -> taken evs !! i = Some ch -> taken evs !! j = Some ch' -> nth_id i = nth_id j -> i = j.
Proof.
  unfold unwrapped. intros Hu Hi%lookup_lt_Some Hj%lookup_lt_Some. apply nth_id_inj; lia.
Qed.

(** ** Deliveries *)

Definition answer (r : Result (list byte)) (c : Caller) : Caller :=
  match c with Waiting => Answered r | _ => c end.

Lemma deliver_spec ch r l : deliver ch r l = set_calls l (alter (answer r) ch (l_calls l)).
Proof.
  unfold deliver. destruct (l_calls l !! ch) as [c|] eqn:E.
  - assert (alter (answer r) ch (l_calls l) = <[ch := answer r c]> (l_calls l)) as ->.
    { apply map_eq. intros ch'. destruct (decide (ch = ch')) as [<-|].
      - by rewrite lookup_alter_eq, E, lookup_insert_eq.
      - by rewrite lookup_alter_ne, lookup_insert_ne. }
    destruct c; cbn; [done| |]; rewrite insert_id by done; by destruct l.
  - assert (alter (answer r) ch (l_calls l) = l_calls l) as ->; [|by destruct l].
    apply map_eq. intros ch'. destruct (decide (ch = ch')) as [<-|].
    + by rewrite lookup_alter_eq, E.
    + by rewrite lookup_alter_ne.
Qed.

Lemma answer_waiting r c : answer r c <> Waiting.
Proof. by destruct c. Qed.

Lemma alter_waiting r ch (cs : gmap chan_id Caller) ch' :
  alter (answer r) ch cs !! ch' = Some Waiting <-> cs !! ch' = Some Waiting /\ ch' <> ch.
Proof.
  destruct (decide (ch = ch')) as [<-|].
  - rewrite lookup_alter_eq. split; [|by intros [_ ?]].
    destruct (cs !! ch) as [c|]; [|done]. intros [= E]. by apply answer_waiting in E.
  - rewrite lookup_alter_ne by done. split; [done|by intros [? _]].
Qed.

(** Steps that only answer callers, or let them give up. *)
Lemma inv_calls evs l cs :
  inv evs l ->
  (forall ch, is_Some (l_calls l !! ch) -> is_Some (cs !! ch)) ->
  (forall ch, cs !! ch = Some Waiting -> l_calls l !! ch = Some Waiting) ->
  inv evs (set_calls l cs).
Proof. intros [] Hk Hw. split; cbn; auto. Qed.

Lemma inv_deliver evs l ch r : inv evs l -> inv evs (deliver ch r l).
Proof.
  intros Hinv. rewrite deliver_spec. apply inv_calls; [done| |].
  - intros ch' [c Hc]. destruct (decide (ch = ch')) as [<-|].
    + rewrite lookup_alter_eq, Hc. by eexists.
    + rewrite lookup_alter_ne by done. by eexists.
  - intros ch' Hc. by apply alter_waiting in Hc as [? _].
Qed.

(** An entry whose call no longer waits may be forgotten. *)
Lemma inv_delete evs l id i ch :
  inv evs l -> taken evs !! i = Some ch -> id = nth_id i -> l_calls l !! ch <> Some Waiting ->
  inv evs (set_map l (delete id (l_map l))).
Proof.
  intros Hinv Hi -> Hw. pose proof (taken_id_inj evs i) as Hinj.
  destruct Hinv as [I1 I2 I3 I4 I5 I6 I7 I8]. split; cbn; try done.
  - intros id ch' [_ Hm]%lookup_delete_Some. eauto.
  - intros Hu ch' Hc. destruct (I7 Hu _ Hc) as [?|(j & Hj & Hm)]; [by left|right].
    exists j. split; [done|]. rewrite lookup_delete_ne; [done|]. intros E.
    specialize (Hinj _ _ _ Hu Hi Hj E) as <-. congruence.
Qed.

Lemma inv_context evs l x : inv evs l -> inv evs (set_context l x).
Proof. intros []. by split. Qed.
Lemma inv_idle evs l : inv evs l -> inv evs (set_sender l Idle).
Proof. intros []. by split. Qed.
Lemma inv_receiving evs l b : inv evs l -> inv evs (set_receiving l b).
Proof. intros []. by split. Qed.

Lemma deliver_done ch r l : l_calls (deliver ch r l) !! ch <> Some Waiting.
Proof. rewrite deliver_spec. cbn. intros Hc. by apply alter_waiting in Hc as []. Qed.

Lemma deliver_map ch r l : l_map (deliver ch r l) = l_map l.
Proof. by rewrite deliver_spec. Qed.

(** A delivery followed by the removal of the call's entry. *)
Lemma inv_deliver_delete evs l id i ch r :
  inv evs l -> taken evs !! i = Some ch -> id = nth_id i ->
  inv evs (set_map (deliver ch r l) (delete id (l_map l))).
Proof.
  intros Hinv Hi Hid. rewrite <- (deliver_map ch r l).
  eapply inv_delete; [by apply inv_deliver|done|done|apply deliver_done].
Qed.

Lemma inv_sender_fail evs l id i ch e :
  inv evs l -> taken evs !! i = Some ch -> id = nth_id i -> inv evs (sender_fail id ch e l).
Proof.
  intros Hinv Hi Hid. unfold sender_fail.
  replace (deliver ch (Err e) (set_map l (delete id (l_map l))))
    with (set_map (deliver ch (Err e) l) (delete id (l_map l))) by (by rewrite !deliver_spec).
  by eapply inv_deliver_delete.
Qed.

Lemma inv_trans_resp evs l dbg mh buf : inv evs l -> inv evs (trans_resp dbg mh buf l).
Proof.
  intros Hinv. unfold trans_resp. destruct (l_map l !! stream_id mh) as [ch|] eqn:E; [|done].
  destruct (inv_map _ _ Hinv _ _ E) as (i & Hi & Hid).
  case_decide; [by apply inv_deliver|]. rewrite deliver_map. by eapply inv_deliver_delete.
Qed.

(** Telling every call of a list. *)
Lemma deliver_all_spec y (order : list (Z * chan_id)) l :
  exists cs, foldl (fun l '(_, ch) => deliver ch (Err (lost_error y)) l) l order = set_calls l cs /\
    forall ch, cs !! ch = (if decide (ch ∈ order.*2) then answer (Err (lost_error y)) else id)
                            <$> l_calls l !! ch.
Proof.
  revert l. induction order as [|[id0 ch0] order IH]; intros l; cbn [foldl].
  { exists (l_calls l). split; [by destruct l|]. intros ch. rewrite decide_False by apply not_elem_of_nil.
    by rewrite option_fmap_id. }
  destruct (IH (deliver ch0 (Err (lost_error y)) l)) as (cs & E & Hcs).
  rewrite deliver_spec in *. cbn [set_calls l_calls] in *. exists cs. split; [by rewrite E|].
  intros ch. rewrite Hcs, fmap_cons. cbn [snd]. destruct (decide (ch = ch0)) as [->|Hne].
  - rewrite lookup_alter_eq. destruct (decide (ch0 ∈ ch0 :: _)) as [_|[]]; [|by left].
    by case_decide; destruct (l_calls l !! ch0) as [[]|].
  - rewrite lookup_alter_ne by done. apply (f_equal (fun f => f <$> l_calls l !! ch)).
    apply decide_ext. rewrite elem_of_cons. tauto.
Qed.

Lemma inv_lost evs l y order :
  inv evs l -> order ≡ₚ map_to_list (l_map l) -> inv evs (receiver_lost order y l).
Proof.
  intros Hinv Ho. unfold receiver_lost. destruct (deliver_all_spec y order l) as (cs & -> & Hcs).
  assert (inv evs (set_calls l cs)) as Hinv'.
  { apply inv_calls; [done| |]; intros ch; rewrite Hcs.
    - intros [c ->]. by eexists.
    - case_decide; [|by rewrite option_fmap_id].
      destruct (l_calls l !! ch) as [c|]; [|done]. intros [= E]. by apply answer_waiting in E. }
  apply inv_receiving. destruct Hinv' as [I1 I2 I3 I4 I5 I6 I7 I8]. split; cbn in *; try done.
  intros Hu ch Hc. destruct (I7 Hu _ Hc) as [?|(i & Hi & Hm)]; [by left|exfalso].
  rewrite Hcs, decide_True in Hc.
  - destruct (l_calls l !! ch) as [c|]; [|done]. injection Hc as E. by apply answer_waiting in E.
  - rewrite Ho. apply list_elem_of_fmap. exists (nth_id i, ch). split; [done|].
    by apply elem_of_map_to_list.
Qed.

Lemma inv_mono evs evs' l :
  inv evs l -> taken evs' = [] -> (forall mh b, EvWrite mh b ∈ evs' -> exists i, frame_of evs i mh b) ->
  inv (evs ++ evs') l.
Proof.
  intros [I1 I2 I3 I4 I5 I6 I7 I8] Ht Hw.
  assert (taken (evs ++ evs') = taken evs) as E by (by rewrite calls_taken_app, Ht, app_nil_r).
  split; rewrite ?E; try done.
  - intros buf ch Hin. apply elem_of_app. eauto.
  - destruct (l_sender l) as [|id ch buf|id ch mh b]; [done| |].
    + destruct I6 as [? ?]. split; [apply elem_of_app; by left|done].
    + destruct I6 as (i & ? & ? & ?). exists i. split_and!; [done|done|by apply frame_of_mono].
  - unfold unwrapped. rewrite E. done.
  - intros mh b [Hin|Hin]%elem_of_app; [destruct (I8 _ _ Hin) as [i ?]|destruct (Hw _ _ Hin) as [i ?]];
      exists i; by apply frame_of_mono.
Qed.

Lemma inv_sender_take evs l l' ch buf queue :
  inv evs l -> l_queue l = (buf, ch) :: queue -> sender_take l = Some l' -> inv (evs ++ [EvTaken ch]) l'.
Proof.
  intros Hinv Hq E. unfold sender_take in E. rewrite Hq in E.
  destruct (l_sender l) eqn:Ep; [|done|done]. simplify_eq.
  pose proof (taken_id_inj (evs ++ [EvTaken ch])) as Hinj.
  destruct Hinv as [I1 I2 I3 I4 I5 I6 I7 I8]. rewrite Hq in *. rewrite fmap_cons in *. cbn [snd] in *.
  assert (taken (evs ++ [EvTaken ch]) = taken evs ++ [ch]) as Et by (by rewrite calls_taken_app).
  assert ((taken evs ++ [ch]) !! length (taken evs) = Some ch) as Hlast by (by apply list_lookup_middle).
  split; cbn [l_next l_map l_calls l_queue l_sender]; rewrite ?Et.
  - rewrite length_app, Nat.add_1_r, nth_id_S, I1. done.
  - intros id ch' [[<- <-]|[_ Hm]]%lookup_insert_Some.
    + exists (length (taken evs)). by rewrite I1.
    + destruct (I2 _ _ Hm) as (i & Hi & ->). exists i. split; [by apply lookup_app_l_Some|done].
  - intros ch'. rewrite <- app_assoc. apply I3.
  - by rewrite <- app_assoc.
  - intros buf' ch' Hin. apply elem_of_app. left. apply I5. by right.
  - split; [apply elem_of_app; left; apply I5; by left|].
    exists (length (taken evs)). by rewrite I1.
  - intros Hu ch' Hc. assert (unwrapped evs) as Hu'.
    { unfold unwrapped in *. rewrite Et, length_app in Hu. simpl in Hu. lia. }
    destruct (I7 Hu' _ Hc) as [Hin|(i & Hi & Hm)].
    + apply elem_of_cons in Hin as [->|?]; [right|by left].
      exists (length (taken evs)). split; [done|]. by rewrite I1, lookup_insert_eq.
    + right. exists i. assert ((taken evs ++ [ch]) !! i = Some ch') as Hi' by (by apply lookup_app_l_Some).
      split; [done|]. rewrite lookup_insert_ne; [done|]. rewrite I1. intros En.
      rewrite <- Et in Hi', Hlast. specialize (Hinj _ _ _ _ Hu Hlast Hi' En) as <-.
      apply lookup_lt_Some in Hi. lia.
  - intros mh b [Hin|Hin]%elem_of_app; [|by apply list_elem_of_singleton in Hin].
    destruct (I8 _ _ Hin) as [i ?]. exists i. by apply frame_of_mono.
Qed.

Lemma inv_transform evs l l' : inv evs l -> sender_transform l = Some l' -> inv evs l'.
Proof.
  intros Hinv E. unfold sender_transform in E. pose proof (inv_sender _ _ Hinv) as Hs.
  destruct (l_sender l) as [|id ch buf|] eqn:Ep; [done| |done].
  destruct Hs as (Hev & i & Hi & Hid).
  destruct (outbound_buf _ _ _ _) as [x' [b|e]] eqn:Eo; simplify_eq.
  - apply (inv_context _ _ x') in Hinv. destruct Hinv as [I1 I2 I3 I4 I5 I6 I7 I8].
    split; cbn in *; try done. exists i. split_and!; [done|done|].
    exists ch, buf, (l_ctx l), x'. split_and!; [done|done|done|].
    rewrite <- (serialize_aad_set_length _ (len_u32 b)) in Eo. exact Eo.
  - eapply inv_sender_fail; [by apply inv_idle, inv_context|done|done].
Qed.

Lemma client_step_inv dbg evs l evs' l' : inv evs l -> step dbg l evs' l' -> inv (evs ++ evs') l'.
Proof.
  intros Hinv Hs. destruct Hs as [l ch buf Hn|l ch Hw|l l' ch buf q Hq E|l l' E|l l' id ch mh b w Hp E|
    l mh y Hr|l y order Hr Ho|l Hr].
  - assert (ch ∉ taken evs ++ (l_queue l).*2) as Hnew.
    { intros Hin%(inv_known _ _ Hinv). rewrite Hn in Hin. by destruct Hin. }
    apply (inv_mono evs [EvCall ch buf]) in Hinv; [|done|by intros ? ? Hin%list_elem_of_singleton].
    assert (taken (evs ++ [EvCall ch buf]) = taken evs) as Et by (by rewrite calls_taken_app, app_nil_r).
    destruct Hinv as [I1 I2 I3 I4 I5 I6 I7 I8]. rewrite Et in *.
    split; cbn [enqueue l_next l_map l_calls l_queue l_sender]; rewrite ?Et; try done.
    + intros ch'. rewrite fmap_app, app_assoc. cbn. intros [Hin|Hin]%elem_of_app.
      * destruct (decide (ch = ch')) as [<-|]; [rewrite lookup_insert_eq; by eexists|].
        rewrite lookup_insert_ne by done. by apply I3.
      * apply list_elem_of_singleton in Hin as ->. rewrite lookup_insert_eq. by eexists.
    + rewrite fmap_app, app_assoc. apply NoDup_app. split_and!; [done| |apply NoDup_singleton].
      intros ch' Hin ->%list_elem_of_singleton. done.
    + intros buf' ch' [Hin|[= -> ->]%list_elem_of_singleton]%elem_of_app; [eauto|].
      apply elem_of_app. right. by left.
    + intros Hu ch' [[<- _]|[_ Hc]]%lookup_insert_Some.
      * left. rewrite fmap_app. apply elem_of_app. right. by left.
      * destruct (I7 Hu _ Hc) as [?|?]; [left|by right]. rewrite fmap_app. apply elem_of_app. by left.
  - rewrite app_nil_r. apply inv_calls; [done| |].
    + intros ch' Hc. destruct (decide (ch = ch')) as [<-|]; [rewrite lookup_insert_eq; by eexists|].
      by rewrite lookup_insert_ne.
    + by intros ch' [[_ ?]|[_ ?]]%lookup_insert_Some.
  - by eapply inv_sender_take.
  - rewrite app_nil_r. by eapply inv_transform.
  - pose proof (inv_sender _ _ Hinv) as Hsnd. rewrite Hp in Hsnd. destruct Hsnd as (i & Hi & Hid & Hf).
    apply (inv_mono _ [EvWrite mh b]) in Hinv; [|done|].
    2: { intros mh' b' [= -> ->]%list_elem_of_singleton. by exists i. }
    unfold sender_write in E. rewrite Hp in E. simplify_eq.
    destruct w as [[]|e]; [by apply inv_idle|].
    eapply inv_sender_fail; [by apply inv_idle|by apply taken_lookup_mono|done].
  - rewrite app_nil_r. unfold receiver_frame.
    destruct (match y with Ok _ => _ | Err _ => _ end) as [x' buf].
    by apply inv_trans_resp, inv_context.
  - rewrite app_nil_r. by apply inv_lost.
  - rewrite app_nil_r. by apply inv_receiving.
Qed.

Lemma client_threads_inv dbg x evs l : reachable dbg x evs l -> inv evs l.
Proof.
  induction 1 as [|evs l evs' l' _ IH Hs]; [|by eapply client_step_inv].
  split; cbn; try done.
  - intros ch Hin. by apply elem_of_nil in Hin.
  - constructor.
  - intros buf ch Hin. by apply elem_of_nil in Hin.
  - intros mh b Hin. by apply elem_of_nil in Hin.
Qed.

(** ** Properties *)

(** What the caller of the stream of [mh] is given for the message [(mh, y)]. *)
Definition inbound_result (x : ConnectionContext D T) (mh : MessageHeader) (y : Result (list byte))
  : Result (list byte) :=
  match y with
  | Ok data => (inbound_buf data (serialize_aad mh) false x).2
  | Err e => Err e
  end.

Lemma receiver_frame_spec dbg mh y l :
  exists x', receiver_frame dbg mh y l =
             trans_resp dbg mh (inbound_result (l_ctx l) mh y) (set_context l x').
Proof.
  unfold receiver_frame, inbound_result. destruct y as [data|e]; [|by eexists].
  destruct (inbound_buf data _ _ _) as [x' r]. by exists x'.
Qed.

(** C13: as long as the receiver thread of a synchronous client runs, and fewer than 2^31 requests were
    taken, a caller that waits is queued for the sender thread, or registered under the id of its
    request. A registered caller is answered by either of the receiver's next steps that concern it:
    the response frame with its id gives it the inbound payload and removes its registration, and
    the loss of the connection gives it the socket error; after which the callers that wait are
    those still queued. A receiver that ends on an error of [ready] answers nobody
    ([unanswered_without_receiver]), and is excluded. *)
Theorem sync_calls_accounted dbg (x : ConnectionContext D T) (evs : list Event) (l : Link)
    (ch : chan_id) (order : list (Z * chan_id)) (y : string) :
  reachable dbg x evs l -> unwrapped evs -> l_receiving l = true -> l_calls l !! ch = Some Waiting ->
  order ≡ₚ map_to_list (l_map l) ->
  step dbg l [] (receiver_lost order y l) /\
  (ch ∈ (l_queue l).*2 /\ l_calls (receiver_lost order y l) !! ch = Some Waiting \/
   exists i, taken evs !! i = Some ch /\ l_map l !! nth_id i = Some ch /\
     l_calls (receiver_lost order y l) !! ch = Some (Answered (Err (lost_error y))) /\
     forall mh d, stream_id mh = nth_id i -> type_ mh = MESSAGE_TYPE_RESPONSE ->
       let l' := receiver_frame dbg mh d l in
       step dbg l [] l' /\
       l_calls l' !! ch = Some (Answered (inbound_result (l_ctx l) mh d)) /\
       l_map l' !! nth_id i = None).
Proof.
  intros Hinv%client_threads_inv Hu Hrun Hc Ho. split; [by apply StepLost|]. unfold receiver_lost.
  destruct (deliver_all_spec y order l) as (cs & -> & Hcs). cbn. rewrite Hcs, Hc.
  destruct (inv_waiting _ _ Hinv Hu _ Hc) as [Hq|(i & Hi & Hm)].
  - left. split; [done|]. rewrite decide_False; [done|]. intros Hin.
    rewrite Ho in Hin. apply list_elem_of_fmap in Hin as ([id ch'] & -> & Hin).
    apply elem_of_map_to_list in Hin. destruct (inv_map _ _ Hinv _ _ Hin) as (j & Hj & _).
    destruct (proj1 (NoDup_app _ _) (inv_nodup _ _ Hinv)) as (_ & Hd & _).
    apply (Hd ch'); [by eapply list_elem_of_lookup_2|done].
  - right. exists i. split_and!; [done|done| |].
    + rewrite decide_True; [done|]. rewrite Ho. apply list_elem_of_fmap. exists (nth_id i, ch).
      split; [done|]. by apply elem_of_map_to_list.
    + intros mh d Hid Hty. split; [by apply StepFrame|]. destruct (receiver_frame_spec dbg mh d l) as (x' & ->).
      unfold trans_resp. cbn [set_context l_map]. rewrite Hid, Hm.
      rewrite decide_False by (rewrite Hty; intros Hn; by apply Hn).
      rewrite deliver_spec. cbn. rewrite lookup_alter_eq, Hc, lookup_delete_eq. done.
Qed.

(** Requests and responses of a synchronous client are matched by stream id, whatever the
    interleaving of the threads: every frame that is written is the request of one call, under the
    id 1, 3, 5, ... of its turn and with the authenticated data of that header; and a frame that
    arrives changes no caller but one that waits for the stream id it names, which is given the
    inbound payload when the frame is a response and an error otherwise. *)
Theorem sync_frames_matched dbg (x : ConnectionContext D T) (evs : list Event) (l : Link) :
  reachable dbg x evs l ->
  (forall mh b, EvWrite mh b ∈ evs -> exists i, frame_of evs i mh b) /\
  forall mh y ch, l_calls (receiver_frame dbg mh y l) !! ch <> l_calls l !! ch ->
    l_calls l !! ch = Some Waiting /\
    exists i r, taken evs !! i = Some ch /\ stream_id mh = nth_id i /\
      l_calls (receiver_frame dbg mh y l) !! ch = Some (Answered r) /\
      (type_ mh = MESSAGE_TYPE_RESPONSE -> r = inbound_result (l_ctx l) mh y) /\
      (type_ mh <> MESSAGE_TYPE_RESPONSE -> is_err r = true).
Proof.
  intros Hinv%client_threads_inv. split; [apply (inv_written _ _ Hinv)|].
  intros mh y ch Hne. destruct (receiver_frame_spec dbg mh y l) as (x' & E). rewrite E in *.
  unfold trans_resp in *. cbn [set_context l_map] in *.
  destruct (l_map l !! stream_id mh) as [ch'|] eqn:Em; [|by destruct Hne].
  destruct (inv_map _ _ Hinv _ _ Em) as (i & Hi & Hid).
  assert (forall r, alter (answer r) ch' (l_calls l) !! ch <> l_calls l !! ch ->
    ch' = ch /\ l_calls l !! ch = Some Waiting) as Hch.
  { intros r Hn. destruct (decide (ch' = ch)) as [->|]; [|by rewrite lookup_alter_ne in Hn].
    split; [done|]. rewrite lookup_alter_eq in Hn. by destruct (l_calls l !! ch) as [[]|]. }
  case_decide as Hty; rewrite deliver_spec in *; cbn in *;
    destruct (Hch _ Hne) as [-> Hw]; split; try done; exists i; eexists; rewrite lookup_alter_eq, Hw;
    split_and!; try done.
Qed.

(** Once the receiver thread has ended, nothing answers a registered call that the sender thread
    is done with: it waits until its timeout, if it has one. *)
Lemma unanswered_without_receiver dbg l evs l' ch :
  l_receiving l = false -> step dbg l evs l' -> l_calls l !! ch = Some Waiting ->
  (forall id buf, l_sender l <> Registered id ch buf) ->
  (forall id mh b, l_sender l <> Writing id ch mh b) ->
  l_calls l' !! ch = Some Waiting \/ l_calls l' !! ch = Some GaveUp.
Proof.
  intros Hr Hs Hc Hn1 Hn2.
  assert (forall id ch' e l0, ch' <> ch -> l_calls l0 = l_calls l ->
    l_calls (sender_fail id ch' e l0) !! ch = Some Waiting) as Hfail.
  { intros id ch' e l0 Hne E. unfold sender_fail. rewrite deliver_spec. cbn.
    rewrite lookup_alter_ne by done. by rewrite E. }
  destruct Hs as [l ch' buf Hn|l ch' Hw|l l' ch' buf q Hq E|l l' E|l l' id ch' mh b w Hp E|
    l mh y Hr'|l y order Hr' Ho|l Hr']; try congruence.
  - left. cbn. rewrite lookup_insert_ne by congruence. done.
  - destruct (decide (ch' = ch)) as [->|]; cbn; [rewrite lookup_insert_eq; by right|].
    left. by rewrite lookup_insert_ne.
  - left. unfold sender_take in E. rewrite Hq in E. destruct (l_sender l); by simplify_eq.
  - left. unfold sender_transform in E. destruct (l_sender l) as [|id ch' buf|] eqn:Ep; try done.
    destruct (outbound_buf _ _ _ _) as [x' [b|e]]; simplify_eq; [done|].
    apply Hfail; [|done]. intros ->. by eapply Hn1.
  - left. unfold sender_write in E. rewrite Hp in E. simplify_eq. destruct w; [done|].
    apply Hfail; [|done]. intros ->. by eapply Hn2.
Qed.

(** A frame of another type than RESPONSE leaves the registration of its call behind. *)
Lemma malformed_keeps_entry dbg mh buf l ch :
  l_map l !! stream_id mh = Some ch -> type_ mh <> MESSAGE_TYPE_RESPONSE ->
  l_map (trans_resp dbg mh buf l) !! stream_id mh = Some ch.
Proof.
  intros Hm Ht. unfold trans_resp. rewrite Hm, decide_True by done. by rewrite deliver_map.
Qed.
End SyncClient.

Section Witness.
Local Instance sync_client_texts : Texts :=
  {| status_debug := fun _ => ""; nix_display := pretty; nix_debug := pretty;
     tokio_send_error := "channel closed" |}.
Abbreviation ex_link := (@Link unit NonceTransform).

Definition ex_dbg : Result (list byte) -> string := fun _ => "".
Definition ex_sync_ctx : ConnectionContext unit NonceTransform := MkCtx tt (Some (MkNonce 0 0)).

(** Two calls: the first is written, the second queued. *)
Definition ex_link_trace : option ex_link :=
  let l := enqueue 1%nat [Byte.x02] (enqueue 0%nat [Byte.x01] (new_client ex_sync_ctx)) in
  l ← sender_take l; l ← sender_transform l; sender_write (Ok tt) l.
Definition ex_sync_frame : list byte := nonce_prefix 0 (serialize_aad (header_new_request 1 0)) ++ [Byte.x01].
Definition ex_link_evs : list Event :=
  [EvCall 0%nat [Byte.x01]; EvCall 1%nat [Byte.x02]; EvTaken 0%nat;
   EvWrite (header_new_request 1 (len_u32 ex_sync_frame)) ex_sync_frame].

Lemma ex_link_reachable l :
  ex_link_trace = Some l -> reachable ex_dbg ex_sync_ctx ex_link_evs l.
Proof.
  unfold ex_link_trace. set (l2 := enqueue 1%nat _ _). intros E.
  destruct (sender_take l2) as [l3|] eqn:E3; [|done].
  destruct (sender_transform l3) as [l4|] eqn:E4; [|by simpl in E; rewrite E4 in E].
  cbn in E. rewrite E4 in E. cbn in E.
  assert (reachable ex_dbg ex_sync_ctx [EvCall 0%nat [Byte.x01]; EvCall 1%nat [Byte.x02]] l2) as R.
  { apply (ReachStep _ _ [EvCall 0%nat [Byte.x01]] (enqueue 0%nat [Byte.x01] (new_client ex_sync_ctx)));
      [|by apply StepCall]. apply (ReachStep _ _ [] (new_client ex_sync_ctx)); [apply ReachInit|by apply StepCall]. }
  apply (ReachStep _ _ [EvCall 0%nat [Byte.x01]; EvCall 1%nat [Byte.x02]; EvTaken 0%nat] l4).
  - rewrite <- (app_nil_r [_; _; _]). eapply ReachStep; [|by eapply StepTransform].
    apply (ReachStep _ _ [EvCall 0%nat [Byte.x01]; EvCall 1%nat [Byte.x02]] l2); [done|].
    by eapply StepTake.
  - eapply StepWrite; [|exact E]. vm_compute in E3. injection E3 as <-. vm_compute in E4.
    injection E4 as <-. by vm_compute.
Qed.

Lemma sync_calls_accounted_witness :
  exists l, ex_link_trace = Some l /\
    l_calls (receiver_lost [(1, 0%nat)] "gone" l) !! 0%nat
      = Some (Answered (Err (Socket "socket error gone"))) /\
    l_calls (receiver_lost [(1, 0%nat)] "gone" l) !! 1%nat = Some Waiting.
Proof.
  destruct ex_link_trace as [l|] eqn:E; [|by vm_compute in E]. exists l. split; [done|].
  pose proof (ex_link_reachable l E) as Hr. vm_compute in E. injection E as <-.
  split.
  - destruct (sync_calls_accounted ex_dbg ex_sync_ctx ex_link_evs _ 0%nat [(1, 0%nat)] "gone" Hr)
      as [_ [[Hq _]|(i & _ & _ & Ha & _)]]; [by vm_compute|done|done|by vm_compute| |exact Ha].
    exfalso. apply list_elem_of_singleton in Hq. done.
  - destruct (sync_calls_accounted ex_dbg ex_sync_ctx ex_link_evs _ 1%nat [(1, 0%nat)] "gone" Hr)
      as [_ [[_ Hw]|(i & Hi & _)]]; [by vm_compute|done|done|by vm_compute|exact Hw|].
    exfalso. destruct i as [|[|i]]; by vm_compute in Hi.
Defined.

Lemma sync_frames_matched_witness :
  exists l, ex_link_trace = Some l /\
    exists i, frame_of (D := unit) (T := NonceTransform) ex_link_evs i
                (header_new_request 1 (len_u32 ex_sync_frame)) ex_sync_frame.
Proof.
  destruct ex_link_trace as [l|] eqn:E; [|by vm_compute in E]. exists l. split; [done|].
  destruct (sync_frames_matched ex_dbg ex_sync_ctx ex_link_evs l (ex_link_reachable l E)) as [Hw _].
  apply Hw. right; right; right; left.
Defined.
End Witness.
