(* ===== verification/SyncServer.v ===== *)
(** What a worker thread of the synchronous server does with one message
    (src/src/sync/server.rs, the loop body of [start_method_handler_thread]), the responses it sends
    and the generated handlers (src/src/sync/utils.rs). *)
From S2P Require Import Prelude Errors Wire Codec Frame Channel Extension Context Stream AsyncClient.
From S2P Require Import AsyncServer TypedRpc.

Section SyncServer.
Context {D T : Type} `{PayloadTransform T, Texts} `{Codec Request} `{Codec Response}.

(** What the workers of a connection share: its context and [res_tx]. *)
Abbreviation Wire := (ConnectionContext D T * StdChan (MessageHeader * list byte))%type.

(** ** Responses *)

(** [send_response(stream_id, res, tx, ctx)]. *)
Definition send_response (sid : Z) (res : Response) : st Wire Error unit := fun '(c, tx) =>
  (buf ← st_lift (map_err (err_to_others_err "") (codec_encode res));
   let max_len := max_raw_payload_len c in
   buf ← st_lift
     (if decide (len buf > max_len) then
        map_err (err_to_others_err "")
          (codec_encode (error_into_response
             (RpcStatus (get_status INVALID_ARGUMENT (oversize_response_msg (len buf) max_len)))))
      else Ok buf);
   send_response_sync buf (serialize_aad (header_new_response sid 0))
     (MkHeader 0 sid MESSAGE_TYPE_RESPONSE 0)) (c, tx).

(** [response_to_channel], deprecated: the default context has no transform. *)
Definition response_to_channel (data_default : D) (sid : Z) (res : Response)
    (tx : StdChan (MessageHeader * list byte)) : StdChan (MessageHeader * list byte) * Result unit :=
  let '((_, tx'), r) := send_response sid res (context_new data_default None, tx) in (tx', r).

(** [response_error_to_channel]. *)
Definition response_error_to_channel (sid : Z) (e : Error) : st Wire Error unit :=
  send_response sid (error_into_response e).

(** ** Handlers *)

(** [TtrpcContext], less the shared channels it carries. *)
Record SyncContext := MkSyncContext {
  sc_fd : Z;
  sc_mh : MessageHeader;
  sc_metadata : Metadata;
  sc_timeout_nano : Z }.

(** [MethodHandler::handler]: it answers through the context's channel. *)
Definition SyncHandler : Type := SyncContext -> Request -> st Wire Error unit.

(** [TtrpcContext::respond]. *)
Definition sync_respond (ctx : SyncContext) (sid : Z) (res : Response) : st Wire Error unit :=
  send_response sid res.

(** [request_handler!]; its first part is the one of [async_request_handler!]. *)
Definition request_handler {C R : Type} `{Codec C, Codec R} (req_fn : SyncContext -> C -> Result R)
    (ctx : SyncContext) (req : Request) : st Wire Error unit :=
  res ← st_lift (async_request_handler req_fn ctx req);
  sync_respond ctx (stream_id (sc_mh ctx)) res.

(** ** One message of the workload *)

(** The worker takes the next message, or makes the connection quit. *)
Inductive WorkerEnd := Continue | QuitConnection.

Definition worker_end {A} (r : Result A) : WorkerEnd :=
  match r with Ok _ => Continue | Err _ => QuitConnection end.

(** A handler call whose failure makes the connection quit. *)
Definition or_quit (m : st Wire Error unit) (w : Wire) : Wire * WorkerEnd :=
  let '(w', r) := m w in (w', worker_end r).

(** The loop body from the received message on; [None] stands for a closed workload channel. *)
Definition worker_handle (fd : Z) (methods : gmap string SyncHandler)
    (result : option (MessageHeader * Result (list byte))) (w : Wire) : Wire * WorkerEnd :=
  match result with
  | None => (w, QuitConnection)
  | Some (mh, Err e) => or_quit (response_error_to_channel (stream_id mh) e) w
  | Some (mh, Ok buf) =>
      if decide (type_ mh <> MESSAGE_TYPE_REQUEST) then (w, Continue)
      else
        match codec_decode buf with
        | Err x => or_quit (send_response (stream_id mh) (init_status (get_status INVALID_ARGUMENT x))) w
        | Ok req =>
            let path := "/" +:+ service req +:+ "/" +:+ method req in
            match methods !! path with
            | None =>
                or_quit (send_response (stream_id mh)
                  (init_status (get_status INVALID_ARGUMENT (path +:+ " does not exist")))) w
            | Some m =>
                or_quit (m (MkSyncContext fd mh (from_pb (metadata req)) (timeout_nano req)) req) w
            end
        end
  end.

(** The reader thread on a message [read_message] gave it: the inbound transform. *)
Definition reader_message (mh : MessageHeader) (y : Result (list byte))
  : st (ConnectionContext D T) Error (MessageHeader * Result (list byte)) := fun c =>
  match y with
  | Ok data =>
      let '(c', r) := inbound_buf data (serialize_aad mh) true c in
      (c', Ok (match r with Ok buf => set_length mh (len_u32 buf) | Err _ => mh end, r))
  | Err e => (c, Ok (mh, Err e))
  end.

(** ** Lemmas *)

Section Lemmas.
Context `{!CodecLaws Response}.

(** Without a transform a response that fits is queued as it is. *)
Lemma send_response_plain sid res b (c : ConnectionContext D T) tx :
  payload_transform c = None -> std_open tx = true -> codec_encode res = Ok b ->
  len b <= MESSAGE_LENGTH_MAX ->
  send_response sid res (c, tx) =
    ((c, MkStdChan (std_items tx ++ [(header_new_response sid (len_u32 b), b)]) true), Ok tt).
Proof.
  intros Hc Ho Hb Hl. unfold send_response, max_raw_payload_len. munfold. rewrite Hb, Hc. cbn.
  rewrite decide_False by lia. unfold send_response_sync, outbound_buf. munfold. rewrite Hc. cbn.
  rewrite (proj2 (check_oversize_ok (len b) true) Hl). cbn. unfold std_send. by rewrite Ho.
Qed.

(** What a response puts on the channel, if it is not lost with the channel or its encoding. *)
Lemma send_response_emits sid res (c c' : ConnectionContext D T) tx tx' r :
  payload_transform c = None -> send_response sid res (c, tx) = ((c', tx'), r) ->
  c' = c /\
  (tx' = tx \/ exists b, tx' = MkStdChan (std_items tx ++ [(header_new_response sid (len_u32 b), b)]) true /\
     forall b', codec_encode res = Ok b' -> len b' <= MESSAGE_LENGTH_MAX -> b = b').
Proof.
  intros Hc. unfold send_response, max_raw_payload_len. munfold. rewrite Hc.
  destruct (codec_encode res) as [b0|e] eqn:Eb; cbn; [|intros [= <- <- <-]; split; [done|by left]].
  assert (forall b x, outbound_buf b x true c = (c, b' ← (_ ← check_oversize (len b) true; mret b); mret b')) as Hout.
  { intros b x. unfold outbound_buf. munfold. rewrite Hc. cbn. by destruct (check_oversize (len b) true). }
  assert (forall b, (b = b0 \/ len b0 > MESSAGE_LENGTH_MAX) ->
    send_response_sync b (serialize_aad (header_new_response sid 0)) (MkHeader 0 sid MESSAGE_TYPE_RESPONSE 0) (c, tx)
      = ((c', tx'), r) ->
    c' = c /\ (tx' = tx \/ exists b, tx' = MkStdChan (std_items tx ++ [(header_new_response sid (len_u32 b), b)]) true /\
     forall b', Ok (E := string) b0 = Ok b' -> len b' <= MESSAGE_LENGTH_MAX -> b = b')) as Hsend.
  { intros b Hb. unfold send_response_sync. rewrite Hout. munfold.
    destruct (check_oversize (len b) true) as [[]|e]; cbn; [|intros [= <- <- <-]; split; [done|by left]].
    unfold std_send. destruct (std_open tx); intros [= <- <- <-]; split; try done; [right|by left].
    exists b. split; [done|]. intros b' [= <-] Hl. destruct Hb as [->|Hb]; [done|lia]. }
  case_decide as Hd; cbn.
  - destruct (codec_encode (error_into_response _)) as [b|e]; cbn; [|intros [= <- <- <-]; split; [done|by left]].
    apply Hsend. by right.
  - apply Hsend. by left.
Qed.

(** The response a message of the workload is specified to get, if any; [served]: what the
    generated handler of the path gives. *)
Definition served_response (served : string -> option (Request -> Result Response))
    (mh : MessageHeader) (y : Result (list byte)) : option (Result Response) :=
  match y with
  | Err e => Some (Ok (error_into_response e))
  | Ok buf =>
      if decide (type_ mh <> MESSAGE_TYPE_REQUEST) then None
      else Some
        match codec_decode buf with
        | Err x => Ok (init_status (get_status INVALID_ARGUMENT x))
        | Ok req =>
            let path := "/" +:+ service req +:+ "/" +:+ method req in
            match served path with
            | Some f => f req
            | None => Ok (init_status (get_status INVALID_ARGUMENT (path +:+ " does not exist")))
            end
        end
  end.


Lemma or_quit_emits sid res (m : st Wire Error unit) (c c' : ConnectionContext D T) tx tx' e :
  (forall w, m w = send_response sid res w) -> payload_transform c = None -> or_quit m (c, tx) = ((c', tx'), e) ->
  c' = c /\
  (tx' = tx \/ exists b, tx' = MkStdChan (std_items tx ++ [(header_new_response sid (len_u32 b), b)]) true /\
     forall b', codec_encode res = Ok b' -> len b' <= MESSAGE_LENGTH_MAX -> b = b').
Proof.
  intros Hm Hc. unfold or_quit. rewrite Hm. destruct (send_response sid res (c, tx)) as [[c1 tx1] r] eqn:E.
  intros [= <- <- <-]. by eapply send_response_emits.
Qed.

(** What the handling of a message puts on the channel: at most one response, on the message's stream,
    which is the specified one where that fits a frame. *)
Lemma worker_handle_emits {C R : Type} `{Codec C, Codec R} fd
    (fns : gmap string (SyncContext -> C -> Result R)) mh y (c c' : ConnectionContext D T) tx tx' e :
  let served path := (fun f req =>
    async_request_handler f (MkSyncContext fd mh (from_pb (metadata req)) (timeout_nano req)) req) <$> fns !! path in
  payload_transform c = None -> worker_handle fd (request_handler <$> fns) (Some (mh, y)) (c, tx) = ((c', tx'), e) ->
  c' = c /\
  (tx' = tx \/ exists b resp, tx' = MkStdChan (std_items tx ++ [(header_new_response (stream_id mh) (len_u32 b), b)]) true /\
     served_response served mh y = Some (Ok resp) /\
     forall b', codec_encode resp = Ok b' -> len b' <= MESSAGE_LENGTH_MAX -> b = b').
Proof.
  intros served Hc.
  assert (forall resp m, (forall w, m w = send_response (stream_id mh) resp w) ->
    served_response served mh y = Some (Ok resp) -> or_quit m (c, tx) = ((c', tx'), e) ->
    c' = c /\ (tx' = tx \/ exists b resp,
      tx' = MkStdChan (std_items tx ++ [(header_new_response (stream_id mh) (len_u32 b), b)]) true /\
      served_response served mh y = Some (Ok resp) /\
      forall b', codec_encode resp = Ok b' -> len b' <= MESSAGE_LENGTH_MAX -> b = b')) as Hsend.
  { intros resp m Hm Hs Eq. destruct (or_quit_emits _ _ _ _ _ _ _ _ Hm Hc Eq) as [-> [->|(b & -> & Hb)]];
      split; [done|by left|done|right]. by exists b, resp. }
  unfold worker_handle. destruct y as [buf|x]; [|by eapply Hsend].
  destruct (decide (type_ mh <> MESSAGE_TYPE_REQUEST)) as [Ht|Ht].
  { intros [= <- <- <-]. split; [done|by left]. }
  unfold served_response in Hsend. rewrite decide_False in Hsend by done. unfold served_response.
  rewrite decide_False by done.
  destruct (codec_decode buf) as [req|x]; [|by eapply Hsend]. cbn zeta in *. unfold served in *. rewrite lookup_fmap.
  destruct (fns !! _) as [f|]; cbn [fmap option_fmap option_map] in *; [|by eapply Hsend].
  destruct (async_request_handler f _ req) as [resp|x] eqn:Er.
  - apply (Hsend resp); [|done]. intros w. unfold request_handler. munfold. rewrite Er. done.
  - unfold or_quit, request_handler. munfold. rewrite Er. intros [= <- <- <-]. split; [done|by left].
Qed.
End Lemmas.

(** ** Properties *)

Section Properties.
Context `{!CodecLaws Request, !CodecLaws Response}.

(** A worker of the synchronous server answers every message of the workload exactly as
    specified, on the stream of the message and on a connection without a transform: a frame that
    could not be read or transformed with its error, an undecodable request and one for an unknown
    path with INVALID_ARGUMENT, any other with what the generated handler of its path gives on the
    decoded request, metadata and timeout; frames that are not requests are not answered. It goes
    on with the next message, except when a handler fails, which ends the connection without an
    answer. The response is assumed to be encodable within the frame limit. *)
Theorem sync_worker_answers {C R : Type} `{Codec C, Codec R} (fd : Z)
    (fns : gmap string (SyncContext -> C -> Result R)) (mh : MessageHeader) (y : Result (list byte))
    (c : ConnectionContext D T) (tx : StdChan (MessageHeader * list byte)) :
  let methods := request_handler <$> fns in
  let served path := (fun f req =>
    async_request_handler f (MkSyncContext fd mh (from_pb (metadata req)) (timeout_nano req)) req)
      <$> fns !! path in
  payload_transform c = None -> std_open tx = true ->
  match served_response served mh y with
  | None => worker_handle fd methods (Some (mh, y)) (c, tx) = ((c, tx), Continue)
  | Some (Err _) => worker_handle fd methods (Some (mh, y)) (c, tx) = ((c, tx), QuitConnection)
  | Some (Ok resp) =>
      forall b, codec_encode resp = Ok b -> len b <= MESSAGE_LENGTH_MAX ->
        worker_handle fd methods (Some (mh, y)) (c, tx) =
          ((c, MkStdChan (std_items tx ++ [(header_new_response (stream_id mh) (len_u32 b), b)]) true),
           Continue)
  end.
Proof.
  intros methods served Hc Ho. unfold served_response, worker_handle, or_quit, response_error_to_channel.
  destruct y as [buf|e].
  2: { intros b Hb Hl. by rewrite (send_response_plain _ _ _ _ _ Hc Ho Hb Hl). }
  destruct (decide (type_ mh <> MESSAGE_TYPE_REQUEST)); [done|].
  destruct (codec_decode buf) as [req|x].
  2: { intros b Hb Hl. by rewrite (send_response_plain _ _ _ _ _ Hc Ho Hb Hl). }
  unfold methods, served. rewrite lookup_fmap.
  destruct (fns !! _) as [f|]; cbn [fmap option_fmap option_map].
  2: { intros b Hb Hl. by rewrite (send_response_plain _ _ _ _ _ Hc Ho Hb Hl). }
  unfold request_handler. munfold. destruct (async_request_handler f _ req) as [resp|e]; [|done].
  intros b Hb Hl. unfold sync_respond. cbn [sc_mh].
  by rewrite (send_response_plain _ _ _ _ _ Hc Ho Hb Hl).
Qed.
End Properties.
End SyncServer.

Section Witness.
Local Instance sync_server_texts : Texts :=
  {| status_debug := fun _ => ""; nix_display := pretty; nix_debug := pretty;
     tokio_send_error := "channel closed" |}.
Local Instance sync_server_request_codec : Codec Request := request_codec.
Local Instance sync_server_response_codec : Codec Response := response_codec.
Local Instance sync_server_request_laws : CodecLaws Request := request_codec_laws.
Local Instance sync_server_response_laws : CodecLaws Response := response_codec_laws.

Definition ex_echo (ctx : SyncContext) (req : list byte) : Result (list byte) := Ok (req ++ req).
Definition ex_fns : gmap string (SyncContext -> list byte -> Result (list byte)) :=
  {["/svc/Echo" := ex_echo]}.
Definition ex_sync_req : list byte := countable_encode (MkRequest "svc" "Echo" [Byte.x05] 0 []).
Definition ex_sync_resp : Response := MkResponse (Some (MkStatus OK "" [])) [Byte.x05; Byte.x05].

Lemma sync_worker_answers_witness :
  worker_handle (D := unit) (T := NonceTransform) 7 (request_handler <$> ex_fns)
    (Some (header_new_request 3 (len ex_sync_req), Ok ex_sync_req)) (MkCtx tt None, MkStdChan [] true) =
  ((MkCtx tt None, MkStdChan [(header_new_response 3 (len_u32 (countable_encode ex_sync_resp)),
                               countable_encode ex_sync_resp)] true), Continue).
Proof.
  pose proof (sync_worker_answers (D := unit) (T := NonceTransform) 7 ex_fns
    (header_new_request 3 (len ex_sync_req)) (Ok ex_sync_req) (MkCtx tt None) (MkStdChan [] true)
    eq_refl eq_refl) as Hw.
  cbv zeta in Hw. match type of Hw with
    match ?served with _ => _ end => assert (served = Some (Ok ex_sync_resp)) as Hs by (vm_compute; reflexivity)
  end.
  rewrite Hs in Hw. apply Hw; [reflexivity|apply Z.leb_le; vm_compute; reflexivity].
Defined.
End Witness.
