(* ===== verification/SyncPool.v ===== *)
(** The threads of one connection of the synchronous server (src/src/sync/server.rs): the worker
    pool with its counter of waiting workers, the client handler that replenishes it, the reader
    and the end of the connection, interleaved. *)
From S2P Require Import Prelude Errors SyncServer.

Section Pool.
Context {A : Type}.

(** The thresholds of the server. *)
Record Limits := MkLimits { thread_count_default : Z; thread_count_min : Z; thread_count_max : Z }.

(** The validation of [Server::start]. *)
Definition start_check (lim : Limits) : Result unit :=
  if decide (thread_count_default lim >= thread_count_max lim) then
    Err (Others "thread_count_default should smaller than thread_count_max")
  else if decide (thread_count_default lim <= thread_count_min lim) then
    Err (Others "thread_count_default should bigger than thread_count_min")
  else Ok tt.

(** [Server::default()]. *)
Definition default_limits : Limits := MkLimits 3 1 5.

(** ** Threads

    A worker of [start_method_handler_thread] between its operations on shared objects; a message
    is [None] when the workload channel is closed. *)
Inductive WorkerPc :=
  | WCheck                       (* [while !quit.load()] *)
  | WAdd                         (* [wtc.fetch_add(1)] *)
  | WFull                        (* above the maximum: [wtc.fetch_sub(1)], then the end *)
  | WRecv                        (* [workload_rx.recv()] *)
  | WGot (m : option A)          (* [if quit.load()] *)
  | WQuitSend                    (* [control_tx.send(())], then the end *)
  | WDec (m : option A)          (* [wtc.fetch_sub(1)] *)
  | WNotify (m : option A)       (* [control_tx.send(())] *)
  | WHandle (m : option A)       (* the rest of the loop body *)
  | WLeave                       (* [quit_connection]: [quit.store(true)] *)
  | WLeaveSend                   (* [quit_connection]: [control_tx.send(())] *)
  | WExit (counted : bool).      (* ended; [counted]: without having taken itself off [wtc] *)

(** The client handler ("the connection dealing main thread"). *)
Inductive MainPc :=
  | MSpawn (n : nat) (starting : bool)  (* [start_method_handler_threads], [n] threads to go *)
  | MCheck                              (* [while !child_quit.load()] *)
  | MThreads                            (* [check_method_handler_threads] *)
  | MRecv                               (* [control_rx.recv()] *)
  | MEnd.                               (* [control_rx] is dropped *)

(** The reader thread: reading, about to send on [control_tx] after a socket error, ended (and the
    workload channel closed). *)
Inductive ReaderPc := RRun | RSend | REnd.

Record Pool := MkPool {
  quit : bool;
  wtc : Z;
  workers : gmap nat WorkerPc;
  main : MainPc;
  workload : list A;
  preader : ReaderPc }.

Definition set_main (s : Pool) m := MkPool (quit s) (wtc s) (workers s) m (workload s) (preader s).
Definition set_worker (s : Pool) t w :=
  MkPool (quit s) (wtc s) (<[t := w]> (workers s)) (main s) (workload s) (preader s).
Definition set_quit (s : Pool) := MkPool true (wtc s) (workers s) (main s) (workload s) (preader s).
Definition set_wtc (s : Pool) n := MkPool (quit s) n (workers s) (main s) (workload s) (preader s).
Definition set_workload (s : Pool) q := MkPool (quit s) (wtc s) (workers s) (main s) q (preader s).
Definition set_reader (s : Pool) r := MkPool (quit s) (wtc s) (workers s) (main s) (workload s) r.

Inductive Event := EvPush (m : A) | EvTake (t : nat) (m : A) | EvHandle (t : nat) (m : A).

(** The start of the connection: [start_method_handler_threads(default)] is next. *)
Definition pool_start (lim : Limits) : Pool :=
  MkPool false 0 ∅ (MSpawn (Z.to_nat (thread_count_default lim)) true) [] RRun.

(** [control_tx.send(())] on a channel without buffer: it completes when the client handler
    receives, or fails when the receiver is gone; otherwise the thread is blocked. *)
Definition control_send (s : Pool) : option Pool :=
  match main s with
  | MRecv => Some (set_main s MCheck)
  | MEnd => Some s
  | _ => None
  end.

Definition message_event (f : A -> Event) (m : option A) : list Event :=
  match m with Some m => [f m] | None => [] end.

(** The next operation of worker [t]; [handled] is how the handling of a message ends. *)
Definition worker_step (lim : Limits) (handled : WorkerEnd) (t : nat) (s : Pool)
  : option (Pool * list Event) :=
  match workers s !! t with
  | Some WCheck => Some (set_worker s t (if quit s then WExit false else WAdd), [])
  | Some WAdd =>
      let c := wtc s + 1 in
      Some (set_worker (set_wtc s c) t (if decide (c > thread_count_max lim) then WFull else WRecv), [])
  | Some WFull => Some (set_worker (set_wtc s (wtc s - 1)) t (WExit false), [])
  | Some WRecv =>
      match workload s, preader s with
      | m :: q, _ => Some (set_worker (set_workload s q) t (WGot (Some m)), [EvTake t m])
      | [], REnd => Some (set_worker s t (WGot None), [])
      | [], _ => None
      end
  | Some (WGot m) => Some (set_worker s t (if quit s then WQuitSend else WDec m), [])
  | Some WQuitSend => s ← control_send s; Some (set_worker s t (WExit true), [])
  | Some (WDec m) =>
      let c := wtc s - 1 in
      Some (set_worker (set_wtc s c) t
              (if decide (c < thread_count_min lim) then WNotify m else WHandle m), [])
  | Some (WNotify m) => s ← control_send s; Some (set_worker s t (WHandle m), [])
  | Some (WHandle m) =>
      Some (set_worker s t (match m, handled with
                            | Some _, Continue => WCheck
                            | _, _ => WLeave
                            end), message_event (EvHandle t) m)
  | Some WLeave => Some (set_worker (set_quit s) t WLeaveSend, [])
  | Some WLeaveSend => s ← control_send s; Some (set_worker s t (WExit false), [])
  | Some (WExit _) | None => None
  end.

(** The next operation of the client handler; [t] names the thread it spawns. *)
Definition main_step (lim : Limits) (t : nat) (s : Pool) : option Pool :=
  match main s with
  | MSpawn (S n) starting =>
      if quit s then Some (set_main s (if starting then MCheck else MRecv))
      else match workers s !! t with
           | None => Some (set_worker (set_main s (MSpawn n starting)) t WCheck)
           | Some _ => None
           end
  | MSpawn O starting => Some (set_main s (if starting then MCheck else MRecv))
  | MCheck => Some (set_main s (if quit s then MEnd else MThreads))
  | MThreads =>
      let c := wtc s in
      Some (set_main s (if decide (c < thread_count_min lim)
                        then MSpawn (Z.to_nat (thread_count_default lim - c)) false else MRecv))
  | MRecv | MEnd => None
  end.

(** What can happen next on the connection. *)
Inductive Act :=
  | AWorker (t : nat) (handled : WorkerEnd)
  | AMain (t : nat)
  | APush (m : A)             (* the reader thread sends a message to the workload *)
  | AReaderError              (* it gets a socket error: [quit.store(true)] *)
  | AReaderSend               (* its [control_tx.send(())], then it ends *)
  | AReaderQuit               (* it sees [quit] and ends *)
  | AWriteError               (* the response thread fails to write: [quit.store(true)] *)
  | AShutdown.                (* [Connection::shutdown]: [quit.store(true)] *)

Definition pool_step (lim : Limits) (a : Act) (s : Pool) : option (Pool * list Event) :=
  match a, preader s with
  | AWorker t handled, _ => worker_step lim handled t s
  | AMain t, _ => s ← main_step lim t s; Some (s, [])
  | APush m, RRun => Some (set_workload s (workload s ++ [m]), [EvPush m])
  | AReaderError, RRun => Some (set_reader (set_quit s) RSend, [])
  | AReaderSend, RSend => s ← control_send s; Some (set_reader s REnd, [])
  | AReaderQuit, RRun => if quit s then Some (set_reader s REnd, []) else None
  | (AWriteError | AShutdown), _ => Some (set_quit s, [])
  | _, _ => None
  end.

Inductive reachable (lim : Limits) : list Event -> Pool -> Prop :=
  | ReachStart : reachable lim [] (pool_start lim)
  | ReachStep evs s a s' evs' :
      reachable lim evs s -> pool_step lim a s = Some (s', evs') ->
      reachable lim (evs ++ evs') s'.

(** A schedule. *)
Fixpoint pool_run (lim : Limits) (acts : list Act) (s : Pool) : option (Pool * list Event) :=
  match acts with
  | [] => Some (s, [])
  | a :: acts' =>
      '(s1, evs1) ← pool_step lim a s;
      '(s2, evs2) ← pool_run lim acts' s1;
      Some (s2, evs1 ++ evs2)
  end.

Lemma pool_run_reachable lim acts evs s s' evs' :
  reachable lim evs s -> pool_run lim acts s = Some (s', evs') -> reachable lim (evs ++ evs') s'.
Proof.
  revert evs s evs'. induction acts as [|a acts IH]; intros evs s evs' Hr E; cbn in E.
  { simplify_eq. by rewrite app_nil_r. }
  apply bind_Some in E as ([s1 evs1] & E1 & E). apply bind_Some in E as ([s2 evs2] & E2 & E).
  simplify_eq. rewrite app_assoc. eapply IH; [|exact E2]. by eapply ReachStep.
Qed.

(** ** Counting workers *)

Definition count (p : WorkerPc -> bool) (ws : gmap nat WorkerPc) : Z :=
  Z.of_nat (size (filter (fun kv => p kv.2 = true) ws)).

Definition b2z (b : bool) : Z := if b then 1 else 0.

Lemma count_new p ws t w : ws !! t = None -> count p (<[t := w]> ws) = count p ws + b2z (p w).
Proof.
  intros Hn. unfold count, b2z. destruct (p w) eqn:E.
  - rewrite map_filter_insert_True by done. rewrite map_size_insert_None; [lia|].
    by rewrite map_lookup_filter, Hn.
  - rewrite map_filter_insert_False by (cbn; by rewrite E). rewrite delete_id by done. lia.
Qed.

Lemma count_step p ws t w w' :
  ws !! t = Some w -> count p (<[t := w']> ws) = count p ws - b2z (p w) + b2z (p w').
Proof.
  intros Hs. pose proof (lookup_delete_eq ws t) as Hd.
  rewrite <- (insert_delete_id ws t w Hs) at 2. rewrite <- (insert_delete_eq ws t w').
  rewrite !count_new by done. lia.
Qed.

Lemma count_nonneg p ws : 0 <= count p ws.
Proof. unfold count. lia. Qed.

Lemma count_pos p ws t w : ws !! t = Some w -> p w = true -> 1 <= count p ws.
Proof.
  intros Hs Hp. rewrite <- (insert_delete_id ws t w Hs), count_new by apply lookup_delete_eq.
  rewrite Hp. pose proof (count_nonneg p (delete t ws)). simpl. lia.
Qed.

(** The workers that [wtc] counts, and those of them that were admitted below the maximum. *)
Definition counted (w : WorkerPc) : bool :=
  match w with
  | WFull | WRecv | WGot _ | WQuitSend | WDec _ => true
  | WExit b => b
  | _ => false
  end.
Definition admitted (w : WorkerPc) : bool :=
  match w with WFull => false | _ => counted w end.
Definition waiting (w : WorkerPc) : bool := match w with WRecv => true | _ => false end.

(** The message a worker has in its hands. *)
Definition in_hand (w : WorkerPc) : option A :=
  match w with
  | WGot m | WDec m | WNotify m | WHandle m => m
  | _ => None
  end.

Lemma count_le p q ws : (forall w, p w = true -> q w = true) -> count p ws <= count q ws.
Proof.
  intros Hpq. induction ws as [|t w ws Hn IH] using map_ind; [done|].
  rewrite !count_new by done. specialize (Hpq w).
  destruct (p w); [rewrite Hpq by done; lia|]. destruct (q w); simpl; lia.
Qed.

(** ** Invariant *)

Definition pushed (evs : list Event) : list A :=
  omap (fun e => match e with EvPush m => Some m | _ => None end) evs.
Definition taken (evs : list Event) : list A :=
  omap (fun e => match e with EvTake _ m => Some m | _ => None end) evs.

Definition taken_by (t : nat) (evs : list Event) : list A :=
  omap (fun e => match e with EvTake u m => if decide (u = t) then Some m else None | _ => None end) evs.
Definition handled_by (t : nat) (evs : list Event) : list A :=
  omap (fun e => match e with EvHandle u m => if decide (u = t) then Some m else None | _ => None end) evs.

(** The message worker [t] has in its hands. *)
Definition hand (s : Pool) (t : nat) : list A := option_list (workers s !! t ≫= in_hand).

Record inv (lim : Limits) (evs : list Event) (s : Pool) : Prop := {
  inv_wtc : wtc s = count counted (workers s);
  inv_max : count admitted (workers s) <= Z.max 0 (thread_count_max lim);
  inv_fifo : pushed evs = taken evs ++ workload s;
  inv_hand : quit s = false -> forall t, taken_by t evs = handled_by t evs ++ hand s t }.

Lemma admitted_counted ws : count admitted ws <= count counted ws.
Proof. apply count_le. by intros []. Qed.

Lemma events_app evs evs' :
  pushed (evs ++ evs') = pushed evs ++ pushed evs' /\ taken (evs ++ evs') = taken evs ++ taken evs' /\
  forall t, taken_by t (evs ++ evs') = taken_by t evs ++ taken_by t evs' /\
            handled_by t (evs ++ evs') = handled_by t evs ++ handled_by t evs'.
Proof. split; [apply omap_app|]. split; [apply omap_app|]. intros t. split; apply omap_app. Qed.

(** A step of worker [t] from [w] to [w'] that emits [evs']. *)
Lemma inv_set_worker lim evs evs' s t w w' n q c m :
  inv lim evs s -> workers s !! t = Some w ->
  n = wtc s - b2z (counted w) + b2z (counted w') ->
  (admitted w' = true -> admitted w = true \/ n <= thread_count_max lim) ->
  pushed evs' = [] -> workload s = taken evs' ++ q ->
  (c = false -> quit s = false /\ (forall u, u <> t -> taken_by u evs' = [] /\ handled_by u evs' = []) /\
     option_list (in_hand w) ++ taken_by t evs' = handled_by t evs' ++ option_list (in_hand w')) ->
  inv lim (evs ++ evs') (MkPool c n (<[t := w']> (workers s)) m q (preader s)).
Proof.
  intros [I1 I2 I3 I4] Ew -> Hmax Hp Hq Hc. destruct (events_app evs evs') as (Ep & Et & Eb).
  split; cbn [wtc workers workload quit].
  - rewrite (count_step _ _ _ _ _ Ew), I1. lia.
  - rewrite (count_step _ _ _ _ _ Ew). pose proof (admitted_counted (workers s)).
    destruct (admitted w') eqn:Ea; cbn [b2z]; [|destruct (admitted w); cbn; lia].
    destruct (Hmax eq_refl) as [->|Hle]; cbn; [lia|]. rewrite I1 in Hle.
    assert (counted w' = true) as Hw' by (by destruct w'). rewrite Hw' in Hle. cbn in Hle.
    assert (b2z (counted w) <= b2z (admitted w) \/ w = WFull) as [Hwf| ->] by (destruct w; try (by right); left; cbn; lia).
    + pose proof (count_pos admitted (workers s) t w Ew) as Hpos.
      destruct (admitted w); cbn in *; [lia|]. destruct (counted w); cbn in *; lia.
    + assert (count admitted (workers s) + 1 <= count counted (workers s)) as Hf; [|cbn in *; lia].
      rewrite <- (insert_delete_id _ _ _ Ew). rewrite !count_new by apply lookup_delete_eq. cbn.
      pose proof (admitted_counted (delete t (workers s))). lia.
  - by rewrite Ep, Et, Hp, app_nil_r, I3, Hq, app_assoc.
  - intros Hcf u. destruct (Hc Hcf) as (Hquit & Hu & Ht). destruct (Eb u) as [-> ->].
    rewrite (I4 Hquit). unfold hand; cbn [workers]. destruct (decide (u = t)) as [->|Hne].
    + rewrite lookup_insert_eq, Ew, <- !app_assoc. f_equal. exact Ht.
    + rewrite lookup_insert_ne by done. destruct (Hu u Hne) as [-> ->]. by rewrite !app_nil_r.
Qed.

(** Discharges the side conditions of [inv_set_worker] at a concrete step. *)
Ltac worker_case Hinv Ew :=
  simplify_eq/=; refine (inv_set_worker _ _ _ _ _ _ _ _ _ _ _ Hinv Ew _ _ _ _ _); cbn;
    rewrite ?decide_True by done;
    try done; try lia; try (by intros; left); try (intros; congruence);
    try (by intros; rewrite ?app_nil_r; repeat split; done);
    try (intros; split_and!; [done|intros; by rewrite ?decide_False by congruence|done]).

Lemma control_send_cases s s' : control_send s = Some s' -> exists m, s' = set_main s m.
Proof.
  destruct s as [? ? ? mp ? ?]. unfold control_send. cbn.
  destruct mp; intros; simplify_eq; [by exists MCheck|by exists MEnd].
Qed.

Lemma inv_worker_step lim evs s handled t s' evs' :
  inv lim evs s -> worker_step lim handled t s = Some (s', evs') -> inv lim (evs ++ evs') s'.
Proof.
  intros Hinv E. unfold worker_step in E. destruct (workers s !! t) as [w|] eqn:Ew; [|done].
  destruct w as [| | | |m| |m|m|m| | |b].
  - destruct (quit s) eqn:Eq; worker_case Hinv Ew.
  - cbn zeta in E. case_decide; worker_case Hinv Ew.
  - worker_case Hinv Ew.
  - destruct (workload s) as [|m q] eqn:Eq; [destruct (preader s) eqn:Er; try done|]; worker_case Hinv Ew.
  - destruct (quit s) eqn:Eq; worker_case Hinv Ew.
  - apply bind_Some in E as (s1 & Es & E). apply control_send_cases in Es as [m ->]. worker_case Hinv Ew.
  - cbn zeta in E. case_decide; worker_case Hinv Ew.
  - apply bind_Some in E as (s1 & Es & E). apply control_send_cases in Es as [m' ->]. worker_case Hinv Ew.
  - destruct m as [m|]; [destruct handled|]; worker_case Hinv Ew.
  - worker_case Hinv Ew.
  - apply bind_Some in E as (s1 & Es & E). apply control_send_cases in Es as [m ->]. worker_case Hinv Ew.
  - done.
Qed.

Lemma inv_same lim evs evs' s c m q r :
  inv lim evs s -> (c = false -> quit s = false) -> pushed evs ++ pushed evs' = taken evs ++ q ->
  taken evs' = [] -> (forall t, taken_by t evs' = [] /\ handled_by t evs' = []) ->
  inv lim (evs ++ evs') (MkPool c (wtc s) (workers s) m q r).
Proof.
  intros [I1 I2 I3 I4] Hc Hp Ht Hb. destruct (events_app evs evs') as (Ep & Et & Eb).
  split; cbn; [done|done| |].
  - by rewrite Ep, Et, Ht, app_nil_r.
  - intros Hcf t. destruct (Eb t) as [-> ->]. destruct (Hb t) as [-> ->]. rewrite !app_nil_r.
    by apply I4, Hc.
Qed.

Lemma inv_spawn lim evs s t m :
  inv lim evs s -> workers s !! t = None ->
  inv lim evs (MkPool (quit s) (wtc s) (<[t := WCheck]> (workers s)) m (workload s) (preader s)).
Proof.
  intros [I1 I2 I3 I4] Hn. split; cbn; [| |done|].
  - rewrite count_new by done. cbn. lia.
  - rewrite count_new by done. cbn. lia.
  - intros Hq u. rewrite (I4 Hq). unfold hand. cbn. destruct (decide (t = u)) as [<-|].
    + by rewrite lookup_insert_eq, Hn.
    + by rewrite lookup_insert_ne.
Qed.

Lemma pool_step_inv lim a evs s s' evs' :
  inv lim evs s -> pool_step lim a s = Some (s', evs') -> inv lim (evs ++ evs') s'.
Proof.
  intros Hinv E. pose proof (inv_fifo _ _ _ Hinv) as Hf.
  assert (forall q, q = workload s -> pushed evs ++ pushed [] = taken evs ++ q) as Hq.
  { intros q ->. by rewrite app_nil_r. }
  destruct a as [t handled|t|m| | | | |]; cbn in E.
  - by eapply inv_worker_step.
  - apply bind_Some in E as (s1 & Em & E). simplify_eq. unfold main_step in Em.
    destruct (main s) as [[|n] st| | | |] eqn:Es; try done.
    2: { destruct (quit s) eqn:Eq; [|destruct (workers s !! t) eqn:Ew; [done|]]; simplify_eq.
         - apply (inv_same _ _ _ s); auto.
         - rewrite app_nil_r. exact (inv_spawn _ _ _ _ _ Hinv Ew). }
    all: cbn zeta in Em; simplify_eq; apply (inv_same _ _ _ s); auto.
  - destruct (preader s) eqn:Er; simplify_eq. apply (inv_same _ _ _ s); auto.
    cbn. by rewrite Hf, app_assoc.
  - destruct (preader s) eqn:Er; simplify_eq. apply (inv_same _ _ _ s); auto; done.
  - destruct (preader s) eqn:Er; try done. apply bind_Some in E as (s1 & Es & E).
    apply control_send_cases in Es as [m ->]. simplify_eq. apply (inv_same _ _ _ s); auto.
  - destruct (preader s) eqn:Er; try done. destruct (quit s) eqn:Eq; simplify_eq.
    apply (inv_same _ _ _ s); auto.
  - simplify_eq. apply (inv_same _ _ _ s); auto; done.
  - simplify_eq. apply (inv_same _ _ _ s); auto; done.
Qed.

Lemma pool_reachable_inv lim evs s : reachable lim evs s -> inv lim evs s.
Proof.
  induction 1 as [|evs s a s' evs' _ IH E]; [|by eapply pool_step_inv].
  split; cbn; try done. apply Z.le_max_l.
Qed.

(** *** Messages are handled at most once *)

Definition handled (evs : list Event) : list A :=
  omap (fun e => match e with EvHandle _ m => Some m | _ => None end) evs.

(** The messages that workers have in their hands. *)
Definition hands (ws : gmap nat WorkerPc) : list A :=
  concat ((fun kv => option_list (in_hand kv.2)) <$> map_to_list ws).

Lemma hands_new ws t w : ws !! t = None -> hands (<[t := w]> ws) ≡ₚ option_list (in_hand w) ++ hands ws.
Proof. intros Hn. unfold hands. by rewrite map_to_list_insert. Qed.

Lemma hands_step ws t w w' :
  ws !! t = Some w ->
  exists others, hands ws ≡ₚ option_list (in_hand w) ++ others /\
    hands (<[t := w']> ws) ≡ₚ option_list (in_hand w') ++ others.
Proof.
  intros Hs. exists (hands (delete t ws)).
  rewrite <- (insert_delete_id ws t w Hs) at 1. rewrite <- (insert_delete_eq ws t w').
  by rewrite !hands_new by apply lookup_delete_eq.
Qed.

(** A worker's step moves its message on, or drops it. *)
Lemma worker_step_hand lim ended t s s' evs :
  worker_step lim ended t s = Some (s', evs) ->
  exists w w', workers s !! t = Some w /\ workers s' = <[t := w']> (workers s) /\
    handled evs ++ option_list (in_hand w') ⊆+ option_list (in_hand w) ++ taken evs.
Proof.
  intros E. unfold worker_step in E. destruct (workers s !! t) as [w|] eqn:Ew; [|done]. exists w.
  destruct w as [| | | |m| |m|m|m| | |b]; try (apply bind_Some in E as (s1 & Es & E); apply control_send_cases in Es as [mp ->]).
  4: destruct (workload s) as [|m q]; [destruct (preader s); try done|].
  all: cbn zeta in E; simplify_eq; eexists; (split; [done|split; [done|]]);
    repeat case_decide; repeat case_match; simplify_eq; cbn; try reflexivity;
    try apply submseteq_nil_l; try (by destruct m; cbn; rewrite ?app_nil_r).
Qed.

(** The other threads take and handle nothing, and the workers they start hold nothing. *)
Lemma pool_step_hand lim a s s' evs :
  pool_step lim a s = Some (s', evs) ->
  (exists t ended, a = AWorker t ended) \/
  handled evs = [] /\ taken evs = [] /\ hands (workers s') ≡ₚ hands (workers s).
Proof.
  destruct a as [t ended|t|m| | | | |]; intros E; [left; by eauto|right..]; cbn in E.
  - apply bind_Some in E as (s1 & Em & E). simplify_eq. unfold main_step in Em.
    destruct (main s) as [[|n] st| | | |]; try done.
    2: { destruct (quit s); [|destruct (workers s !! t) eqn:Ew; [done|]]; simplify_eq; [done|].
         split_and!; [done|done|]. cbn. by rewrite hands_new. }
    all: cbn zeta in Em; by simplify_eq.
  - destruct (preader s); by simplify_eq.
  - destruct (preader s); by simplify_eq.
  - destruct (preader s); try done. apply bind_Some in E as (s1 & Es & E).
    apply control_send_cases in Es as [m ->]. by simplify_eq.
  - destruct (preader s); try done. destruct (quit s); by simplify_eq.
  - by simplify_eq.
  - by simplify_eq.
Qed.

(** Every message is handled at most once for each time it was taken, also while the connection quits. *)
Lemma pool_handled_taken lim evs s :
  reachable lim evs s -> handled evs ++ hands (workers s) ⊆+ taken evs.
Proof.
  induction 1 as [|evs s a s' evs' _ IH E]; [done|].
  assert (handled (evs ++ evs') = handled evs ++ handled evs') as -> by apply omap_app.
  destruct (events_app evs evs') as (_ & -> & _).
  destruct (pool_step_hand _ _ _ _ _ E) as [(t & ended & ->)|(-> & -> & Hh)].
  - cbn in E. apply worker_step_hand in E as (w & w' & Ew & Ews & Hsub). rewrite Ews.
    destruct (hands_step _ _ _ w' Ew) as (others & Eh & Eh'). rewrite Eh'. rewrite Eh in IH.
    transitivity ((handled evs ++ others) ++ (handled evs' ++ option_list (in_hand w'))).
    { apply Permutation_submseteq. rewrite <- !app_assoc. f_equiv.
      by rewrite (Permutation_app_comm others), <- app_assoc. }
    transitivity ((handled evs ++ others) ++ (option_list (in_hand w) ++ taken evs')); [by apply submseteq_skips_l|].
    transitivity ((handled evs ++ option_list (in_hand w) ++ others) ++ taken evs'); [|by apply submseteq_skips_r].
    apply Permutation_submseteq. rewrite <- !app_assoc. f_equiv. rewrite !app_assoc. f_equiv. apply Permutation_app_comm.
  - by rewrite !app_nil_r, Hh.
Qed.

(** ** Properties *)

(** C16: whatever the threads of a connection of a validated server do, the number of workers that
    wait for a request never exceeds the maximum; the counter of waiting workers is exact, so that
    none of its decrements underflows, and the number of threads the client handler starts when it
    finds the counter below the minimum is positive and at most the default; requests are taken
    from the workload in the order they were read, and while the connection is not quitting every
    request a worker has taken is handled by it, in the order it took them, or in its hands. *)
Theorem pool_bounds (lim : Limits) (evs : list Event) (s : Pool) :
  start_check lim = Ok tt -> 0 <= thread_count_min lim -> reachable lim evs s ->
  count waiting (workers s) <= thread_count_max lim /\
  wtc s = count counted (workers s) /\
  (forall t w, workers s !! t = Some w -> counted w = true -> 0 < wtc s) /\
  (wtc s < thread_count_min lim ->
     0 < thread_count_default lim - wtc s <= thread_count_default lim) /\
  pushed evs = taken evs ++ workload s /\
  (quit s = false -> forall t, taken_by t evs = handled_by t evs ++ hand s t).
Proof.
  intros Hc Hmin [I1 I2 I3 I4]%pool_reachable_inv. unfold start_check in Hc.
  case_decide; [done|]. case_decide; [done|].
  pose proof (count_nonneg counted (workers s)).
  assert (count waiting (workers s) <= count admitted (workers s)) by (apply count_le; by intros []).
  split_and!; [lia|done| |lia|done|done].
  intros t w Hw Hcnt. pose proof (count_pos counted _ _ _ Hw Hcnt). lia.
Qed.
End Pool.

Section Witness.
(** Six workers, of which the last finds the pool full; five requests are taken, a sixth waits. *)
Definition ex_pool_acts : list (@Act nat) :=
  (AMain <$> [0; 1; 2; 0; 0; 0; 3; 4; 5; 0])%nat ++
  ((fun t => AWorker t Continue) <$> [0; 1; 2; 3; 4; 5; 0; 1; 2; 3; 4; 5])%nat ++
  (APush <$> [10; 11; 12; 13; 14; 15])%nat ++
  ((fun t => AWorker t Continue) <$> [0; 1; 2; 3; 4; 0; 1; 2; 3; 4; 0; 1; 2; 3; 4; 5])%nat.

Definition ex_pool : option (@Pool nat * list (@Event nat)) :=
  pool_run default_limits ex_pool_acts (pool_start default_limits).

(** The counter can fall below the minimum without a notification: a worker that found the pool
    full still counts while the others take their requests, and takes itself off without telling
    the client handler. Here the handler waits, every worker is busy, and a request is left. *)
Lemma pool_can_starve :
  exists s evs, reachable default_limits evs s /\
    main s = MRecv /\ quit s = false /\ wtc s = 0 /\ wtc s < thread_count_min default_limits /\
    workload s = [15%nat] /\
    Forall (fun kv => match kv.2 with WExit false | WHandle (Some _) => True | _ => False end)
      (map_to_list (workers s)).
Proof.
  destruct ex_pool as [[s evs]|] eqn:E; [|by vm_compute in E]. exists s, evs.
  split; [by apply (pool_run_reachable _ ex_pool_acts [] _ _ evs (ReachStart _) E)|].
  vm_compute in E. injection E as <- <-. split_and!; try done.
  vm_compute. by repeat constructor.
Qed.

Lemma pool_bounds_witness :
  exists s evs, ex_pool = Some (s, evs) /\ pushed evs = taken evs ++ [15%nat] /\
    taken_by 2 evs = hand s 2.
Proof.
  destruct ex_pool as [[s evs]|] eqn:E; [|by vm_compute in E]. exists s, evs. split; [done|].
  destruct (pool_bounds default_limits evs s) as (_ & _ & _ & _ & Hf & Hh).
  - reflexivity.
  - done.
  - apply (pool_run_reachable _ ex_pool_acts [] _ _ evs (ReachStart _) E).
  - vm_compute in E. injection E as <- <-. split; [exact Hf|exact (Hh eq_refl 2%nat)].
Defined.
End Witness.
