(* ===== verification/SyncRpc.v ===== *)
(** A client and a server of the synchronous runtime on one connection: the calling, sender and
    receiver threads of client.rs, and the reader, worker, client handler and response threads of
    server.rs, with the two directions of the socket between them, over connections without a
    payload transform. *)
From S2P Require Import Prelude Errors Wire Codec Frame Channel Extension Context TypedRpc.
From S2P Require SyncClient SyncPool.
From S2P Require Import SyncServer.
Import SyncClient SyncPool.

Section SyncRpc.
Context {D T : Type} `{PayloadTransform T, Texts} `{Codec Request} `{Codec Response}.
Context {C R : Type} `{Codec C, Codec R}.
(** How a malformed packet is rendered, the limits of the server, and its generated handlers. *)
Context (dbg : Result (list byte) -> string) (lim : Limits) (fd : Z) (fns : gmap string (SyncContext -> C -> Result R)).

Abbreviation Client := (@SyncClient.Link D T).
Abbreviation Message := (MessageHeader * Result (list byte))%type.
Abbreviation RawFrame := (MessageHeader * list byte)%type.

(** ** The two sides together

    [up], the frames that the client's sender has written, of which the server's reader has taken
    [up_taken]; [down], those of the server's response thread, of which the client's receiver has
    taken [down_taken]; [wire], what the workers share. The histories and what each caller has asked
    are specification only. *)
Record SyncSystem := MkSync {
  client : Client;
  history : list SyncClient.Event;
  asked : gmap chan_id Request;
  up : list RawFrame;
  up_taken : nat;
  pool : @Pool Message;
  pool_history : list (@SyncPool.Event Message);
  wire : ConnectionContext D T * StdChan RawFrame;
  down : list RawFrame;
  down_taken : nat }.

Definition set_client (s : SyncSystem) (l : Client) (evs : list SyncClient.Event) : SyncSystem :=
  MkSync l (history s ++ evs) (asked s) (up s) (up_taken s) (pool s) (pool_history s) (wire s) (down s) (down_taken s).
Definition set_asked (s : SyncSystem) (ch : chan_id) (req : Request) : SyncSystem :=
  MkSync (client s) (history s) (<[ch := req]> (asked s)) (up s) (up_taken s) (pool s) (pool_history s) (wire s)
    (down s) (down_taken s).
Definition set_up (s : SyncSystem) (u : list RawFrame) (n : nat) : SyncSystem :=
  MkSync (client s) (history s) (asked s) u n (pool s) (pool_history s) (wire s) (down s) (down_taken s).
Definition set_pool (s : SyncSystem) (p : @Pool Message) (evs : list SyncPool.Event) : SyncSystem :=
  MkSync (client s) (history s) (asked s) (up s) (up_taken s) p (pool_history s ++ evs) (wire s) (down s) (down_taken s).
Definition set_wire (s : SyncSystem) (w : ConnectionContext D T * StdChan RawFrame) : SyncSystem :=
  MkSync (client s) (history s) (asked s) (up s) (up_taken s) (pool s) (pool_history s) w (down s) (down_taken s).
Definition set_down (s : SyncSystem) (d : list RawFrame) (n : nat) : SyncSystem :=
  MkSync (client s) (history s) (asked s) (up s) (up_taken s) (pool s) (pool_history s) (wire s) d n.

(** The step of the client opens no call, writes no frame, and gives no caller a payload. *)
Definition client_quiet (l l' : Client) (evs : list SyncClient.Event) : Prop :=
  (forall ch buf, EvCall ch buf ∉ evs) /\ (forall mh b, EvWrite mh b ∉ evs) /\
  forall ch b, l_calls l' !! ch = Some (Answered (Ok b)) -> l_calls l !! ch = Some (Answered (Ok b)).

(** The step of the pool reads no message and handles none. *)
Definition pool_quiet (evs : list (@SyncPool.Event Message)) : Prop :=
  (forall m, EvPush m ∉ evs) /\ forall t m, EvHandle t m ∉ evs.

Inductive sync_step : SyncSystem -> SyncSystem -> Prop :=
  | SyRequest s ch req buf :
      l_calls (client s) !! ch = None -> asked s !! ch = None -> request_buf req = Ok buf ->
      sync_step s (set_asked (set_client s (enqueue ch buf (client s)) [EvCall ch buf]) ch req)
  | SyClient s evs l' :
      SyncClient.step dbg (client s) evs l' -> client_quiet (client s) l' evs -> sync_step s (set_client s l' evs)
  | SyWrite s id ch mh buf w l' :  (* nothing of a frame that fails to be written is read as a frame *)
      l_sender (client s) = Writing id ch mh buf -> sender_write w (client s) = Some l' ->
      sync_step s (set_up (set_client s l' [EvWrite mh buf])
        (if w is Ok _ then up s ++ [(mh, buf)] else up s) (up_taken s))
  | SyRead s mh b x' m p' evs :
      up s !! up_taken s = Some (mh, b) -> reader_message mh (Ok b) (wire s).1 = (x', Ok m) ->
      pool_step lim (APush m) (pool s) = Some (p', evs) ->
      sync_step s (set_wire (set_pool (set_up s (up s) (S (up_taken s))) p' evs) (x', (wire s).2))
  | SyPool s a p' evs :
      pool_step lim a (pool s) = Some (p', evs) -> pool_quiet evs -> sync_step s (set_pool s p' evs)
  | SyHandle s t m w' ended p' evs :
      workers (pool s) !! t = Some (WHandle (Some m)) ->
      worker_handle fd (request_handler <$> fns) (Some m) (wire s) = (w', ended) ->
      pool_step lim (AWorker t ended) (pool s) = Some (p', evs) ->
      sync_step s (set_wire (set_pool s p' evs) w')
  | SyRespond s f rest :
      std_items (wire s).2 = f :: rest ->
      sync_step s (set_down (set_wire s ((wire s).1, MkStdChan rest (std_open (wire s).2))) (down s ++ [f]) (down_taken s))
  | SyRespondFail s p' evs :  (* the response thread ends, and drops its end of the channel *)
      std_items (wire s).2 <> [] -> pool_step lim AWriteError (pool s) = Some (p', evs) ->
      sync_step s (set_wire (set_pool s p' evs) ((wire s).1, MkStdChan [] false))
  | SyReceive s mh b :
      down s !! down_taken s = Some (mh, b) -> l_receiving (client s) = true ->
      sync_step s (set_down (set_client s (receiver_frame dbg mh (Ok b) (client s)) []) (down s) (S (down_taken s))).

(** A new connection. *)
Definition sync_initial (s : SyncSystem) : Prop :=
  exists d d', s = MkSync (new_client (MkCtx d None)) [] ∅ [] 0 (pool_start lim) [] (MkCtx d' None, MkStdChan [] true) [] 0.
Definition sync_reachable (s : SyncSystem) : Prop := exists s0, sync_initial s0 /\ rtc sync_step s0 s.

(** The response that a request is specified to get. *)
Definition sync_outcome (mh : MessageHeader) (req : Request) : Result Response :=
  let path := "/" +:+ service req +:+ "/" +:+ method req in
  match fns !! path with
  | Some f => async_request_handler f (MkSyncContext fd mh (from_pb (metadata req)) (timeout_nano req)) req
  | None => Ok (init_status (get_status INVALID_ARGUMENT (path +:+ " does not exist")))
  end.

(** What the caller makes of a response. *)
Definition sync_caller_sees (resp : Response) : Result Response :=
  match non_ok resp with Some status => Err (RpcStatus status) | None => Ok resp end.

(** ** The client's side *)

(** The frame is the request of a call, under the id of its turn. *)
Definition requests (hist : list SyncClient.Event) (f : RawFrame) : Prop :=
  exists i ch, SyncClient.taken hist !! i = Some ch /\ EvCall ch f.2 ∈ hist /\
    f.1 = header_new_request (nth_id i) (len_u32 f.2).

(** The sender works on the call that was taken last. *)
Definition working_on (hist : list SyncClient.Event) (id : Z) (ch : chan_id) (buf : list byte) : Prop :=
  let i := (length (SyncClient.taken hist) - 1)%nat in
  SyncClient.taken hist !! i = Some ch /\ EvCall ch buf ∈ hist /\ id = nth_id i.
Definition sender_last (hist : list SyncClient.Event) (l : Client) : Prop :=
  match l_sender l with
  | Idle => True
  | Registered id ch buf => working_on hist id ch buf
  | Writing id ch mh buf => working_on hist id ch buf /\ mh = header_new_request id (len_u32 buf)
  end.
Definition pending (l : Client) : nat := match l_sender l with Idle => 0 | _ => 1 end.
(** The turns whose frames can have been written. *)
Definition turns (hist : list SyncClient.Event) (l : Client) : nat := length (SyncClient.taken hist) - pending l.

Lemma requests_mono hist evs f : requests hist f -> requests (hist ++ evs) f.
Proof.
  intros (i & ch & Hi & Hc & Hf). exists i, ch.
  split_and!; [by apply taken_lookup_mono|apply elem_of_app; by left|done].
Qed.

Lemma sender_last_mono hist evs l :
  SyncClient.taken evs = [] -> sender_last hist l -> sender_last (hist ++ evs) l.
Proof.
  intros Ht. unfold sender_last, working_on. rewrite calls_taken_app, Ht, app_nil_r.
  destruct (l_sender l); [done|intros (? & ? & ?)|intros [(? & ? & ?) ?]]; split_and!; try done; apply elem_of_app; by left.
Qed.

(** Without a transform, what is sent and received is what was given, if it fits a frame. *)
Lemma outbound_buf_plain b aad e (c : ConnectionContext D T) :
  payload_transform c = None -> outbound_buf b aad e c = (c, _ ← check_oversize (len b) e; Ok b).
Proof. intros Hc. unfold outbound_buf. munfold. rewrite Hc. cbn. by destruct (check_oversize (len b) e). Qed.

Lemma inbound_buf_plain b aad e (c : ConnectionContext D T) :
  payload_transform c = None -> inbound_buf b aad e c = (c, _ ← check_oversize (len b) e; Ok b).
Proof.
  intros Hc. unfold inbound_buf, ctx_transform_inbound. munfold. rewrite Hc. cbn. by destruct (check_oversize (len b) e).
Qed.

(** The steps of the client, less the writing of a frame. *)
Lemma client_step_turns hist l evs l' :
  SyncClient.inv hist l -> SyncClient.step dbg l evs l' -> payload_transform (l_ctx l) = None -> sender_last hist l ->
  (forall mh b, EvWrite mh b ∉ evs) ->
  payload_transform (l_ctx l') = None /\ sender_last (hist ++ evs) l' /\ (turns hist l <= turns (hist ++ evs) l')%nat.
Proof.
  intros Hinv Hs Hc Hl Hw. unfold turns, pending.
  assert (forall evs' l1, SyncClient.taken evs' = [] -> l_sender l1 = l_sender l -> sender_last (hist ++ evs') l1 /\
    (length (SyncClient.taken hist) - pending l <= length (SyncClient.taken (hist ++ evs')) - pending l1)%nat) as Hsame.
  { intros evs' l1 Ht E. split.
    - apply sender_last_mono; [done|]. unfold sender_last. by rewrite E.
    - rewrite calls_taken_app, Ht, app_nil_r. unfold pending. by rewrite E. }
  destruct Hs as [l ch buf Hn|l ch Hw'|l l' ch buf q Hq E|l l' E|l l' id ch mh b w Hp E|
    l mh y Hr|l y order Hr Ho|l Hr].
  - split; [done|]. by apply Hsame.
  - split; [done|]. by apply Hsame.
  - unfold sender_take in E. rewrite Hq in E. destruct (l_sender l) eqn:Ep; simplify_eq. split; [done|].
    rewrite calls_taken_app, length_app. cbn. split; [|lia]. unfold sender_last. cbn.
    unfold working_on. rewrite calls_taken_app, length_app. cbn. rewrite Nat.add_sub. split_and!.
    + by apply list_lookup_middle.
    + apply elem_of_app. left. apply (inv_queue _ _ Hinv). rewrite Hq. by left.
    + apply (inv_next _ _ Hinv).
  - unfold sender_transform in E. destruct (l_sender l) as [|id ch buf|] eqn:Ep; try done. rewrite outbound_buf_plain in E by done.
    unfold sender_last in Hl. rewrite Ep in Hl. rewrite app_nil_r.
    destruct (check_oversize (len buf) false) as [[]|e]; cbn in E; simplify_eq.
    + split; [done|]. cbn. split; [|lia]. unfold sender_last. cbn. by split.
    + unfold sender_fail. rewrite deliver_spec. cbn. split; [done|]. split; [done|lia].
  - by destruct (Hw mh b); left.
  - destruct (receiver_frame_spec dbg mh y l) as (x' & E). split.
    + unfold receiver_frame. destruct y as [data|e]; [rewrite inbound_buf_plain by done|];
        unfold trans_resp; repeat case_match; try done; rewrite deliver_spec; done.
    + apply Hsame; [done|]. rewrite E. unfold trans_resp. repeat case_match; try done; by rewrite deliver_spec.
  - unfold receiver_lost. destruct (deliver_all_spec y order l) as (cs & -> & _). split; [done|]. by apply Hsame.
  - split; [done|]. by apply Hsame.
Qed.

(** A caller that was given an error, or nothing, was not given a payload. *)
Lemma deliver_err_ok ch e (l : Client) ch' b :
  l_calls (deliver ch (Err e) l) !! ch' = Some (Answered (Ok b)) -> l_calls l !! ch' = Some (Answered (Ok b)).
Proof.
  rewrite deliver_spec. cbn. destruct (decide (ch = ch')) as [<-|]; [|by rewrite lookup_alter_ne].
  rewrite lookup_alter_eq. by destruct (l_calls l !! ch) as [[]|].
Qed.

(** Writing the frame of the call that the sender works on. *)
Lemma client_write hist (l l' : Client) id ch mh buf w :
  l_sender l = Writing id ch mh buf -> sender_write w l = Some l' -> sender_last hist l ->
  l_ctx l' = l_ctx l /\ l_sender l' = Idle /\ requests hist (mh, buf) /\
  (exists n, turns hist l = n /\ turns (hist ++ [EvWrite mh buf]) l' = S n /\ stream_id mh = nth_id n) /\
  forall ch' b, l_calls l' !! ch' = Some (Answered (Ok b)) -> l_calls l !! ch' = Some (Answered (Ok b)).
Proof.
  intros Hp E. unfold sender_last, turns, pending. rewrite Hp. intros [(Hi & Hev & Hid) Hmh].
  unfold sender_write in E. rewrite Hp in E. simplify_eq.
  assert (requests hist (header_new_request (nth_id (length (SyncClient.taken hist) - 1)) (len_u32 buf), buf)) as Hreq
    by (by exists (length (SyncClient.taken hist) - 1)%nat, ch).
  pose proof (lookup_lt_Some _ _ _ Hi) as Hlt. rewrite calls_taken_app, length_app. cbn.
  destruct w as [[]|e].
  - split_and!; [done|done|done| |done]. eexists. split_and!; [done|cbn; lia|done].
  - unfold sender_fail. split_and!; [by rewrite deliver_spec|by rewrite deliver_spec|done| |].
    + eexists. rewrite deliver_spec. cbn. split_and!; [done|lia|done].
    + intros ch' b Hb. by apply deliver_err_ok in Hb.
Qed.

(** A frame gives its payload to the caller that is registered under its id. *)
Lemma receive_ok mh b (l : Client) ch b' :
  payload_transform (l_ctx l) = None ->
  l_calls (receiver_frame dbg mh (Ok b) l) !! ch = Some (Answered (Ok b')) ->
  l_calls l !! ch = Some (Answered (Ok b')) \/ l_map l !! stream_id mh = Some ch /\ b' = b.
Proof.
  intros Hc. unfold receiver_frame. rewrite inbound_buf_plain by done. unfold trans_resp. cbn [set_context l_map].
  destruct (l_map l !! stream_id mh) as [ch0|] eqn:Em; [|by left].
  case_decide; [intros Hb; left; by apply deliver_err_ok in Hb|].
  rewrite deliver_spec. cbn. destruct (decide (ch0 = ch)) as [->|]; [|rewrite lookup_alter_ne by done; by left].
  rewrite lookup_alter_eq. destruct (l_calls l !! ch) as [c|]; [|done]. cbn. intros [= Hb].
  destruct c as [|r|]; [|by left; f_equal|done]. cbn in Hb. injection Hb as Hb.
  right. split; [done|]. by destruct (check_oversize (len b) false); cbn in Hb; simplify_eq.
Qed.

(** ** The invariant *)

Abbreviation sid := (fun f : RawFrame => stream_id f.1).
Abbreviation read_as := (fun f : RawFrame => (f.1, Ok (E := Error) f.2)).
Abbreviation msg_sid := (fun m : Message => stream_id m.1).

(** The frame is the response to the message. *)
Definition responds (m : Message) (f : RawFrame) : Prop :=
  f.1 = header_new_response (stream_id m.1) (len_u32 f.2) /\
  exists resp, served_response (fun path => (fun g req =>
      async_request_handler g (MkSyncContext fd m.1 (from_pb (metadata req)) (timeout_nano req)) req) <$> fns !! path)
      m.1 m.2 = Some (Ok resp) /\
    forall b, codec_encode resp = Ok b -> len b <= MESSAGE_LENGTH_MAX -> f.2 = b.

Record sync_inv (s : SyncSystem) : Prop := {
  sy_client : exists d, SyncClient.reachable dbg (MkCtx d None) (history s) (client s);
  sy_ctx : payload_transform (l_ctx (client s)) = None;
  sy_asked ch buf : EvCall ch buf ∈ history s -> exists req, asked s !! ch = Some req /\ request_buf req = Ok buf;
  sy_sender : sender_last (history s) (client s);
  sy_up f : f ∈ up s -> requests (history s) f;
  sy_once : sublist (sid <$> up s) (nth_id <$> seq 0 (turns (history s) (client s)));
  sy_pool : SyncPool.reachable lim (pool_history s) (pool s);
  sy_wire : payload_transform (wire s).1 = None;
  sy_pushed : pushed (pool_history s) = read_as <$> take (up_taken s) (up s);
  sy_read : (up_taken s <= length (up s))%nat;
  sy_resp : sublist (sid <$> down s ++ std_items (wire s).2) (msg_sid <$> handled (pool_history s));
  sy_from f : f ∈ down s ++ std_items (wire s).2 -> exists m, m ∈ handled (pool_history s) /\ responds m f;
  sy_answer ch b : l_calls (client s) !! ch = Some (Answered (Ok b)) ->
    exists h i, (h, b) ∈ down s /\ SyncClient.taken (history s) !! i = Some ch /\ stream_id h = nth_id i }.

Lemma sync_initial_inv s : sync_initial s -> sync_inv s.
Proof.
  intros (d & d' & ->). split; cbn; try done.
  - exists d. constructor.
  - by intros ch buf ?%not_elem_of_nil.
  - by intros f ?%not_elem_of_nil.
  - constructor.
  - by intros f ?%not_elem_of_nil.
Qed.

Lemma seq_sublist (a b : nat) : (a <= b)%nat -> sublist (seq 0 a) (seq 0 b).
Proof. intros Hab. replace b with (a + (b - a))%nat by lia. rewrite seq_app. by apply sublist_inserts_r. Qed.

(** Reads the fields of an updated system. *)
Ltac sys_simpl :=
  unfold set_client, set_asked, set_up, set_pool, set_wire, set_down;
  cbn [client history asked up up_taken pool pool_history wire down down_taken fst snd].

(** A step of the client that writes nothing; [n] is what the receiver has taken afterwards. *)
Lemma sync_inv_client s l' evs asked' n :
  sync_inv s -> SyncClient.step dbg (client s) evs l' -> (forall mh b, EvWrite mh b ∉ evs) ->
  (forall ch buf, EvCall ch buf ∈ history s ++ evs -> exists req, asked' !! ch = Some req /\ request_buf req = Ok buf) ->
  (forall ch b, l_calls l' !! ch = Some (Answered (Ok b)) -> exists h i, (h, b) ∈ down s /\
     SyncClient.taken (history s) !! i = Some ch /\ stream_id h = nth_id i) ->
  sync_inv (MkSync l' (history s ++ evs) asked' (up s) (up_taken s) (pool s) (pool_history s) (wire s) (down s) n).
Proof.
  intros [[d I1] I2 I3 I4 I5 I6 I7 I8 I9 Ird I10 I11 I12] Hs Hw Ha Hans.
  destruct (client_step_turns _ _ _ _ (client_threads_inv _ _ _ _ I1) Hs I2 I4 Hw) as (Hc & Hl & Ht).
  split; sys_simpl; try done.
  - exists d. by eapply SyncClient.ReachStep.
  - intros f Hf. by apply requests_mono, I5.
  - etrans; [exact I6|]. apply fmap_sublist, seq_sublist. exact Ht.
  - intros ch b Hb. destruct (Hans ch b Hb) as (h & i & Hd & Hi & Hh). exists h, i.
    split_and!; [done|by apply taken_lookup_mono|done].
Qed.

Lemma sync_inv_write s id ch mh buf w l' :
  sync_inv s -> l_sender (client s) = Writing id ch mh buf -> sender_write w (client s) = Some l' ->
  sync_inv (set_up (set_client s l' [EvWrite mh buf]) (if w is Ok _ then up s ++ [(mh, buf)] else up s) (up_taken s)).
Proof.
  intros [[d I1] I2 I3 I4 I5 I6 I7 I8 I9 Ird I10 I11 I12] Hp Hw.
  destruct (client_write _ _ _ _ _ _ _ _ Hp Hw I4) as (Hctx & Hidle & Hreq & (n & Hn & Hn' & Hid) & Hok).
  split; sys_simpl; try done.
  - exists d. eapply SyncClient.ReachStep; [done|]. by eapply StepWrite.
  - by rewrite Hctx.
  - intros ch' buf' [Hin|Hin]%elem_of_app; [by apply I3|by apply list_elem_of_singleton in Hin].
  - unfold sender_last. by rewrite Hidle.
  - intros f Hf. apply requests_mono. destruct w as [u|e]; [|by apply I5].
    apply elem_of_app in Hf as [Hf| ->%list_elem_of_singleton]; [by apply I5|done].
  - rewrite Hn'. rewrite Hn in I6. rewrite seq_S, fmap_app. destruct w as [u|e]; [|by apply sublist_inserts_r].
    rewrite fmap_app. cbn [fmap list_fmap fst Nat.add]. rewrite Hid. by apply sublist_app.
  - rewrite I9. destruct w as [u|e]; [|done]. by rewrite take_app_le.
  - destruct w as [u|e]; [rewrite length_app|]; lia.
  - intros ch' b Hb%Hok%I12. destruct Hb as (h & i & Hd & Hi & Hh). exists h, i.
    split_and!; [done|by apply taken_lookup_mono|done].
Qed.

(** A step of the server. *)
Lemma sync_inv_server s u p' ph' w' d' n :
  sync_inv s -> SyncPool.reachable lim ph' p' -> payload_transform w'.1 = None ->
  (u <= length (up s))%nat -> pushed ph' = read_as <$> take u (up s) ->
  sublist (sid <$> d' ++ std_items w'.2) (msg_sid <$> handled ph') ->
  (forall f, f ∈ d' ++ std_items w'.2 -> exists m, m ∈ handled ph' /\ responds m f) ->
  (forall f, f ∈ down s -> f ∈ d') ->
  sync_inv (MkSync (client s) (history s) (asked s) (up s) u p' ph' w' d' n).
Proof.
  intros [I0 I2 I3 I4 I5 I6 I7 I8 I9 Ird I10 I11 I12] Hp Hw Hu Hpu Hsub Hfrom Hd. split; sys_simpl; try done.
  intros ch b Hb. destruct (I12 ch b Hb) as (h & i & Hin & Hi & Hh). exists h, i. by split_and!; [apply Hd|..].
Qed.

Lemma handled_app evs evs' : handled (A := Message) (evs ++ evs') = handled evs ++ handled evs'.
Proof. apply omap_app. Qed.

Lemma pushed_app evs evs' : pushed (A := Message) (evs ++ evs') = pushed evs ++ pushed evs'.
Proof. apply omap_app. Qed.

Lemma quiet_events evs : pool_quiet evs -> pushed evs = [] /\ handled evs = [].
Proof.
  intros [Hp Hh]. split.
  - destruct (pushed evs) as [|m ms] eqn:E; [done|]. assert (m ∈ pushed evs) as Hin by (rewrite E; left).
    apply list_elem_of_omap in Hin as ([m'|t m'|t m'] & Hin & [=]). by destruct (Hp m').
  - destruct (handled evs) as [|m ms] eqn:E; [done|]. assert (m ∈ handled evs) as Hin by (rewrite E; left).
    apply list_elem_of_omap in Hin as ([m'|t m'|t m'] & Hin & [=]). by destruct (Hh t m').
Qed.

(** The requests that are read are those that were written. *)
Lemma reader_takes s mh b x' m :
  sync_inv s -> (mh, b) ∈ up s -> reader_message mh (Ok b) (wire s).1 = (x', Ok m) ->
  x' = (wire s).1 /\ m = (mh, Ok b).
Proof.
  intros Hinv Hin. unfold reader_message. rewrite inbound_buf_plain by apply (sy_wire _ Hinv).
  destruct (sy_up _ Hinv _ Hin) as (i & ch & _ & Hev & Hmh). cbn in Hmh, Hev.
  destruct (sy_asked _ Hinv _ _ Hev) as (req & _ & Hbuf). unfold request_buf in Hbuf. munfold.
  destruct (codec_encode req) as [b0|e]; [|done].
  destruct (check_oversize (len b0) false) as [[]|e] eqn:Eo; [|done]. simplify_eq.
  apply check_oversize_ok in Eo. rewrite (proj2 (check_oversize_ok (len b) true) Eo). cbn. by intros [= <- <-].
Qed.

Lemma sync_step_inv s s' : sync_inv s -> sync_step s s' -> sync_inv s'.
Proof.
  intros Hinv Hs. pose proof (sy_pool _ Hinv) as Hpool. pose proof (sy_pushed _ Hinv) as Hpu.
  pose proof (sy_resp _ Hinv) as Hresp. pose proof (sy_from _ Hinv) as Hfrom. pose proof (sy_wire _ Hinv) as Hw.
  pose proof (sy_read _ Hinv) as Hrd.
  destruct Hs as [s ch req buf Hn Ha Hb|s evs l' Hs Hq|s id ch mh buf w l' Hp E|s mh b x' m p' evs Hu Er Ep|s a p' evs Ep Hq|
    s t m w' ended p' evs Hwk Eh Ep|s f rest Ei|s p' evs Hne Ep|s mh b Hd Hr].
  - sys_simpl. apply sync_inv_client; [done|by constructor|by intros mh b ?%list_elem_of_singleton| |].
    + intros ch' buf' [Hin|[= -> ->]%list_elem_of_singleton]%elem_of_app.
      * destruct (sy_asked _ Hinv _ _ Hin) as (req' & Hl & Hr). exists req'. split; [|done].
        rewrite lookup_insert_ne; [done|congruence].
      * exists req. by rewrite lookup_insert_eq.
    + intros ch' b Hl. cbn [enqueue l_calls] in Hl. apply lookup_insert_Some in Hl as [[_ [=]]|[_ Hl]].
      by apply (sy_answer _ Hinv).
  - destruct Hq as (Hc & Hwr & Hok). sys_simpl. apply sync_inv_client; [done|done|done| |].
    + intros ch buf [Hin|Hin]%elem_of_app; [by apply (sy_asked _ Hinv)|by destruct (Hc ch buf)].
    + intros ch b Hb%Hok. by apply (sy_answer _ Hinv).
  - by eapply sync_inv_write.
  - destruct (reader_takes _ _ _ _ _ Hinv (list_elem_of_lookup_2 _ _ _ Hu) Er) as [-> ->].
    assert (evs = [EvPush (mh, Ok b)]) as -> by (cbn in Ep; destruct (preader (pool s)); by simplify_eq).
    sys_simpl. apply sync_inv_server; sys_simpl; try done.
    + by eapply ReachStep.
    + by apply lookup_lt_Some in Hu.
    + rewrite (take_S_r _ _ _ Hu), fmap_app, <- Hpu. apply pushed_app.
    + by rewrite handled_app, app_nil_r.
    + by rewrite handled_app, app_nil_r.
  - destruct (quiet_events _ Hq) as [Hp Hh].
    sys_simpl. apply sync_inv_server; sys_simpl; try done.
    + by eapply ReachStep.
    + by rewrite <- Hpu, pushed_app, Hp, app_nil_r.
    + by rewrite handled_app, Hh, app_nil_r.
    + by rewrite handled_app, Hh, app_nil_r.
  - assert (evs = [EvHandle t m]) as -> by (cbn in Ep; unfold worker_step in Ep; rewrite Hwk in Ep; by simplify_eq).
    destruct m as [mh y]. destruct (wire s) as [c tx] eqn:Ew. destruct w' as [c' tx']. cbn [fst snd] in *.
    destruct (worker_handle_emits _ _ _ _ _ _ _ _ _ Hw Eh) as [-> Hem].
    sys_simpl. apply sync_inv_server; sys_simpl; try done.
    + by eapply ReachStep.
    + by rewrite <- Hpu, pushed_app, app_nil_r.
    + rewrite handled_app, (fmap_app msg_sid). destruct Hem as [->|(b & resp & -> & _)]; [by apply sublist_inserts_r|].
      cbn [std_items]. rewrite app_assoc, (fmap_app sid (_ ++ _)). by apply sublist_app.
    + intros f. rewrite handled_app. destruct Hem as [->|(b & resp & -> & Hs & Hb)].
      * intros (m & Hm & Hf)%Hfrom. exists m. split; [apply elem_of_app; by left|done].
      * cbn [std_items]. rewrite app_assoc. intros [(m & Hm & Hf)%Hfrom| ->%list_elem_of_singleton]%elem_of_app.
        -- exists m. split; [apply elem_of_app; by left|done].
        -- exists (mh, y). split; [apply elem_of_app; right; by left|]. split; [done|]. by exists resp.
  - assert (down s ++ std_items (wire s).2 = (down s ++ [f]) ++ rest) as E by (by rewrite Ei, <- app_assoc).
    rewrite E in Hresp, Hfrom. sys_simpl. apply sync_inv_server; sys_simpl; try done.
    intros g Hg. apply elem_of_app. by left.
  - assert (evs = []) as -> by (cbn in Ep; by simplify_eq).
    sys_simpl. apply sync_inv_server; sys_simpl; try done; cbn [std_items]; rewrite ?app_nil_r.
    + rewrite <- (app_nil_r (pool_history s)). by eapply ReachStep.
    + done.
    + etrans; [|exact Hresp]. rewrite fmap_app. by apply sublist_inserts_r.
    + intros f Hf. apply Hfrom, elem_of_app. by left.
  - sys_simpl. apply sync_inv_client; [done|by constructor|by intros ? ? ?%not_elem_of_nil| |].
    + intros ch buf. rewrite app_nil_r. apply (sy_asked _ Hinv).
    + intros ch b' Hb. apply receive_ok in Hb as [Hb|[Hm ->]]; [by apply (sy_answer _ Hinv)| |apply (sy_ctx _ Hinv)].
      destruct (sy_client _ Hinv) as (d & Hcl). destruct (inv_map _ _ (client_threads_inv _ _ _ _ Hcl) _ _ Hm) as (i & Hi & Hid).
      exists mh, i. split_and!; [by eapply list_elem_of_lookup_2|done|done].
Qed.

Lemma sync_reachable_inv s : sync_reachable s -> sync_inv s.
Proof.
  intros (s0 & Hi%sync_initial_inv & Hs). induction Hs as [|s1 s2 s3 H12 _ IH]; [done|]. apply IH. by eapply sync_step_inv.
Qed.

(** ** Lemmas on the answer of a call *)

Context `{!CodecLaws Request, !CodecLaws Response}.

(** Under ids that have not wrapped, every id is written at most once. *)
Lemma written_once s : sync_inv s -> SyncClient.unwrapped (history s) -> NoDup (sid <$> up s).
Proof.
  intros Hinv Hu. eapply sublist_NoDup; [|apply (sy_once _ Hinv)]. apply NoDup_fmap_2_strong; [|apply NoDup_seq].
  unfold SyncClient.unwrapped in Hu. intros i j Hi%elem_of_seq Hj%elem_of_seq. unfold turns in *.
  apply nth_id_inj; lia.
Qed.

Lemma filter_one {A} (key : A -> Z) id (l : list A) x :
  NoDup (key <$> l) -> x ∈ l -> key x = id -> length (filter (fun y => key y = id) l) = 1%nat.
Proof.
  intros Hnd Hx <-. induction l as [|y l IH]; [by apply not_elem_of_nil in Hx|].
  rewrite fmap_cons in Hnd. apply NoDup_cons in Hnd as [Hn Hnd]. apply elem_of_cons in Hx as [->|Hx].
  - rewrite filter_cons_True by done. cbn. f_equal. apply length_zero_iff_nil, elem_of_nil_inv. intros z [Hz Hin]%list_elem_of_filter.
    apply Hn. rewrite <- Hz. by apply list_elem_of_fmap_2.
  - rewrite filter_cons_False; [by apply IH|]. intros E. apply Hn. rewrite E. by apply list_elem_of_fmap_2.
Qed.

Lemma handled_in evs m : m ∈ handled (A := Message) evs <-> exists t, EvHandle t m ∈ evs.
Proof.
  unfold handled. rewrite list_elem_of_omap. split.
  - intros ([m'|t m'|t m'] & Hin & [=]); subst. by exists t.
  - intros [t Hin]. by exists (EvHandle t m).
Qed.

(** What is handled was read, under ids that are not handled twice. *)
Lemma handled_once s :
  sync_inv s -> SyncClient.unwrapped (history s) ->
  NoDup (msg_sid <$> handled (pool_history s)) /\
  forall m, m ∈ handled (pool_history s) -> exists f, f ∈ up s /\ m = read_as f.
Proof.
  intros Hinv Hu. pose proof (pool_handled_taken _ _ _ (sy_pool _ Hinv)) as Hsub.
  pose proof (inv_fifo _ _ _ (pool_reachable_inv _ _ _ (sy_pool _ Hinv))) as Hfifo.
  assert (handled (pool_history s) ⊆+ read_as <$> take (up_taken s) (up s)) as Hread.
  { rewrite <- (sy_pushed _ Hinv), Hfifo. apply submseteq_inserts_r.
    transitivity (handled (pool_history s) ++ hands (workers (pool s))); [by apply submseteq_inserts_r|done]. }
  split.
  - apply submseteq_Permutation in Hread as [rest E].
    assert (NoDup (msg_sid <$> (read_as <$> take (up_taken s) (up s)))) as Hnd.
    { rewrite <- list_fmap_compose. change (msg_sid ∘ read_as) with sid.
      eapply sublist_NoDup; [by apply written_once|]. apply fmap_sublist. apply sublist_take. }
    rewrite E, fmap_app in Hnd. by apply NoDup_app in Hnd as [? _].
  - intros m Hm. eapply elem_of_submseteq in Hread; [|exact Hm].
    apply list_elem_of_fmap in Hread as (f & -> & Hf). exists f. split; [|done].
    eapply elem_of_sublist; [exact Hf|apply sublist_take].
Qed.

Lemma handled_by_one (evs : list (@SyncPool.Event Message)) t t' m m' :
  NoDup (msg_sid <$> handled evs) -> EvHandle t m ∈ evs -> EvHandle t' m' ∈ evs -> msg_sid m = msg_sid m' ->
  t = t' /\ m = m'.
Proof.
  induction evs as [|e evs IH]; intros Hnd H1' H2' Hs; [by apply not_elem_of_nil in H1'|].
  assert (forall u n, EvHandle u n ∈ evs -> msg_sid n ∈ (msg_sid <$> handled evs)) as Hin.
  { intros u n Hn. apply list_elem_of_fmap. exists n. split; [done|]. apply handled_in. by exists u. }
  destruct e as [n|u n|u n]; cbn in Hnd.
  - apply elem_of_cons in H1' as [?|H1'], H2' as [?|H2']; try done. by apply IH.
  - apply elem_of_cons in H1' as [?|H1'], H2' as [?|H2']; try done. by apply IH.
  - apply NoDup_cons in Hnd as [Hn Hnd]. fold (handled evs) in Hn, Hnd.
    apply elem_of_cons in H1' as [E1|H1'], H2' as [E2|H2']; simplify_eq; [done| | |by apply IH].
    + destruct Hn. cbn in Hs. rewrite Hs. by eapply Hin.
    + destruct Hn. cbn in Hs. rewrite <- Hs. by eapply Hin.
Qed.

(** ** Properties *)

(** C2: calls on a connection of the synchronous runtime do not get mixed up, however the calling threads,
    the sender and the receiver of the client, and the reader, the workers and the response thread of
    the server interleave, also while callers give up, the connection quits, or writes fail: a caller
    that is given a payload was answered by exactly one worker, which handled the very request of the
    call under its id; the server has written one frame with that id; and what [Client::request]
    makes of the payload is what the request is specified to get, the handler's response or the
    status of its error, or the status that says that the path does not exist. The stream ids are
    assumed not to have wrapped, and the response to fit a frame. *)
Theorem sync_concurrent_calls (s : SyncSystem) (ch : chan_id) (b : list byte) :
  sync_reachable s -> SyncClient.unwrapped (history s) ->
  l_calls (client s) !! ch = Some (Answered (Ok b)) ->
  exists req buf i t, asked s !! ch = Some req /\ request_buf req = Ok buf /\
    SyncClient.taken (history s) !! i = Some ch /\
    let mh := header_new_request (nth_id i) (len_u32 buf) in
    EvHandle t (mh, Ok buf) ∈ pool_history s /\
    (forall t' m, EvHandle t' m ∈ pool_history s -> stream_id m.1 = nth_id i -> t' = t /\ m = (mh, Ok buf)) /\
    length (filter (fun f => stream_id f.1 = nth_id i) (down s)) = 1%nat /\
    exists resp, sync_outcome mh req = Ok resp /\
      forall b', codec_encode resp = Ok b' -> len b' <= MESSAGE_LENGTH_MAX ->
        request_end (timeout_nano req) (Received (Ok b)) = Some (sync_caller_sees resp).
Proof.
  intros Hr%sync_reachable_inv Hu Hb. destruct (sy_answer _ Hr _ _ Hb) as (h & i & Hd & Hi & Hh).
  destruct (handled_once _ Hr Hu) as [Hnd Hup].
  destruct (sy_from _ Hr (h, b)) as (m & Hm & Hhead & resp & Hserved & Henc); [apply elem_of_app; by left|].
  cbn [fst snd] in Hhead, Henc. destruct (Hup m Hm) as ([mh buf] & Hf & ->).
  destruct (sy_up _ Hr _ Hf) as (j & ch' & Hj & Hev & Hmh). cbn [fst snd] in Hmh, Hev, Hhead, Hserved.
  assert (i = j) as <-.
  { unfold SyncClient.unwrapped in Hu. pose proof (lookup_lt_Some _ _ _ Hi). pose proof (lookup_lt_Some _ _ _ Hj).
    apply nth_id_inj; [lia..|]. rewrite <- Hh, Hhead, Hmh. done. }
  assert (ch' = ch) as -> by congruence.
  destruct (sy_asked _ Hr _ _ Hev) as (req & Hreq & Hbuf). apply handled_in in Hm as [t Ht].
  exists req, buf, i, t. cbv zeta. rewrite <- Hmh. split_and!; [done|done|done|done| | |].
  - intros t' m' Ht' Hs. apply (handled_by_one (pool_history s)); [done|done|done|]. cbn. by rewrite Hs, Hmh.
  - apply (filter_one sid _ _ (h, b)); [|done|done].
    eapply sublist_NoDup; [exact Hnd|]. etrans; [|exact (sy_resp _ Hr)]. rewrite (fmap_app sid). by apply sublist_inserts_r.
  - assert (type_ mh = MESSAGE_TYPE_REQUEST) as Hty by (by rewrite Hmh).
    unfold served_response in Hserved. rewrite decide_False in Hserved by (intros Hn; by apply Hn).
    unfold request_buf in Hbuf. munfold. destruct (codec_encode req) as [b0|e] eqn:Ee; [|done].
    destruct (check_oversize (len b0) false); simplify_eq. rewrite (codec_decode_encode _ _ Ee) in Hserved.
    exists resp. split.
    + unfold sync_outcome. rewrite <- Hserved. by destruct (fns !! _).
    + intros b' Hb' Hl. rewrite (Henc b' Hb' Hl). unfold request_end.
      cbn [mbind option_bind]. munfold. rewrite (codec_decode_encode _ _ Hb'). unfold sync_caller_sees. by destruct (non_ok resp).
Qed.
End SyncRpc.

Section Witness.
Local Instance sync_rpc_texts : Texts :=
  {| status_debug := fun _ => ""; nix_display := pretty; nix_debug := pretty;
     tokio_send_error := "channel closed" |}.
Local Instance sync_rpc_request_codec : Codec Request := request_codec.
Local Instance sync_rpc_response_codec : Codec Response := response_codec.
Local Instance sync_rpc_request_laws : CodecLaws Request := request_codec_laws.
Local Instance sync_rpc_response_laws : CodecLaws Response := response_codec_laws.

Abbreviation ex_sync := (@SyncSystem unit NonceTransform).
Abbreviation ex_sync_step := (sync_step (fun _ => "") default_limits 7 ex_fns).
Abbreviation ex_sync_reachable := (sync_reachable (fun _ => "") default_limits 7 ex_fns).

(** A schedule of the threads of the two sides. *)
Inductive SyncChoice :=
  | ZAsk (ch : chan_id) (req : Request) | ZTake | ZTransform | ZWrite | ZRead | ZPool (t : nat) | ZMain (t : nat)
  | ZHandle (t : nat) | ZRespond | ZReceive.

Definition no_events (r : @Pool (MessageHeader * Result (list byte)) * list (@SyncPool.Event (MessageHeader * Result (list byte))))
  : bool :=
  match r.2 with [] | [EvTake _ _] => true | _ => false end.

Definition quiet_pool_step (a : @Act (MessageHeader * Result (list byte))) (s : ex_sync) : option ex_sync :=
  r ← pool_step default_limits a (pool s);
  if no_events r then Some (set_pool s r.1 r.2) else None.

Definition sync_choose (z : SyncChoice) (s : ex_sync) : option ex_sync :=
  match z with
  | ZAsk ch req =>
      match l_calls (client s) !! ch, asked s !! ch, request_buf req with
      | None, None, Ok buf => Some (set_asked (set_client s (enqueue ch buf (client s)) [EvCall ch buf]) ch req)
      | _, _, _ => None
      end
  | ZTake =>
      match l_queue (client s) with
      | (buf, ch) :: _ => l' ← sender_take (client s); Some (set_client s l' [EvTaken ch])
      | [] => None
      end
  | ZTransform =>
      match l_sender (client s), sender_transform (client s) with
      | Registered _ _ _, Some l' => if l_sender l' is Writing _ _ _ _ then Some (set_client s l' []) else None
      | _, _ => None
      end
  | ZWrite =>
      match l_sender (client s) with
      | Writing id ch mh buf =>
          l' ← sender_write (Ok tt) (client s);
          Some (set_up (set_client s l' [EvWrite mh buf]) (up s ++ [(mh, buf)]) (up_taken s))
      | _ => None
      end
  | ZRead =>
      '(mh, b) ← up s !! up_taken s;
      match reader_message mh (Ok b) (wire s).1 with
      | (x', Ok m) =>
          '(p', evs) ← pool_step default_limits (APush m) (pool s);
          Some (set_wire (set_pool (set_up s (up s) (S (up_taken s))) p' evs) (x', (wire s).2))
      | _ => None
      end
  | ZPool t => quiet_pool_step (AWorker t Continue) s
  | ZMain t => quiet_pool_step (AMain t) s
  | ZHandle t =>
      match workers (pool s) !! t with
      | Some (WHandle (Some m)) =>
          let '(w', ended) := worker_handle 7 (request_handler <$> ex_fns) (Some m) (wire s) in
          '(p', evs) ← pool_step default_limits (AWorker t ended) (pool s);
          Some (set_wire (set_pool s p' evs) w')
      | _ => None
      end
  | ZRespond =>
      match std_items (wire s).2 with
      | f :: rest =>
          Some (set_down (set_wire s ((wire s).1, MkStdChan rest (std_open (wire s).2))) (down s ++ [f]) (down_taken s))
      | [] => None
      end
  | ZReceive =>
      '(mh, b) ← down s !! down_taken s;
      if l_receiving (client s)
      then Some (set_down (set_client s (receiver_frame (fun _ => "") mh (Ok b) (client s)) []) (down s) (S (down_taken s)))
      else None
  end.

Lemma quiet_pool_step_sound a s s' : quiet_pool_step a s = Some s' -> ex_sync_step s s'.
Proof.
  unfold quiet_pool_step. intros ([p' evs] & Ep & E)%bind_Some.
  destruct (no_events _) eqn:Hq; simplify_eq. eapply SyPool; [exact Ep|]. cbn [fst snd] in *.
  unfold no_events in Hq. cbn [snd] in Hq. destruct evs as [|[m|t m|t m] [|e evs]]; try done; split;
    try (by intros ? ?%not_elem_of_nil); try (by intros ? ?%list_elem_of_singleton);
    try (by intros ? ? ?%not_elem_of_nil); by intros ? ? ?%list_elem_of_singleton.
Qed.

Lemma sync_choose_step z s s' : sync_choose z s = Some s' -> ex_sync_step s s'.
Proof.
  destruct z as [ch req| | | | |t|t|t| |]; cbn [sync_choose]; intros E.
  - destruct (l_calls (client s) !! ch) eqn:?, (asked s !! ch) eqn:?, (request_buf req) eqn:?; simplify_eq.
    by apply SyRequest.
  - destruct (l_queue (client s)) as [|[buf ch] q] eqn:Hq; [done|]. apply bind_Some in E as (l' & Et & E). simplify_eq.
    apply SyClient; [by eapply StepTake|]. split_and!; [by intros ? ? ?%list_elem_of_singleton..|].
    unfold sender_take in Et. rewrite Hq in Et. by destruct (l_sender (client s)); simplify_eq.
  - destruct (l_sender (client s)) as [|id ch buf|] eqn:Hp; try done.
    destruct (sender_transform (client s)) as [l'|] eqn:Et; [|done]. destruct (l_sender l') eqn:Hl'; simplify_eq.
    apply SyClient; [by apply StepTransform|]. split_and!; [by intros ? ? ?%not_elem_of_nil..|].
    unfold sender_transform in Et. rewrite Hp in Et. destruct (outbound_buf _ _ _ _) as [x' [b|e]]; simplify_eq; [done|].
    intros ch' b Hb. by apply deliver_err_ok in Hb.
  - destruct (l_sender (client s)) as [| |id ch mh buf] eqn:Hp; try done. apply bind_Some in E as (l' & Ew & E). simplify_eq.
    by apply (SyWrite _ _ _ _ s id ch mh buf (Ok tt)).
  - apply bind_Some in E as ([mh b] & Hu & E). destruct (reader_message _ _ _) as [x' [m|]] eqn:Er; [|done].
    apply bind_Some in E as ([p' evs] & Ep & E). simplify_eq. by eapply SyRead.
  - by eapply quiet_pool_step_sound.
  - by eapply quiet_pool_step_sound.
  - destruct (workers (pool s) !! t) as [[]|] eqn:Hw; try done. destruct m as [m|]; [|done].
    destruct (worker_handle _ _ _ _) as [w' ended] eqn:Eh. apply bind_Some in E as ([p' evs] & Ep & E). simplify_eq.
    by eapply SyHandle.
  - destruct (std_items (wire s).2) as [|f rest] eqn:Ei; [done|]. simplify_eq. by apply SyRespond.
  - apply bind_Some in E as ([mh b] & Hd & E). destruct (l_receiving (client s)) eqn:Hr; [|done]. simplify_eq.
    by apply SyReceive.
Qed.

Fixpoint sync_run (zs : list SyncChoice) (s : ex_sync) : option ex_sync :=
  match zs with [] => Some s | z :: zs' => sync_choose z s ≫= sync_run zs' end.

Lemma sync_run_reachable zs s s' : ex_sync_reachable s -> sync_run zs s = Some s' -> ex_sync_reachable s'.
Proof.
  revert s. induction zs as [|z zs IH]; intros s Hr E; cbn in E; [by simplify_eq|].
  apply bind_Some in E as (s1 & E1 & E). apply sync_choose_step in E1. destruct Hr as (s0 & Hi & Hr).
  eapply IH; [|exact E]. exists s0. split; [done|]. by eapply rtc_r.
Qed.

Definition sync_fresh : ex_sync :=
  MkSync (new_client (MkCtx tt None)) [] ∅ [] 0 (pool_start default_limits) [] (MkCtx tt None, MkStdChan [] true) [] 0.

(** Two callers at once, and two workers: the second worker takes the request of the first caller,
    the first worker that of the second caller, and answers it before the other. *)
Definition sync_ask (b : byte) : Request := MkRequest "svc" "Echo" [b] 0 [].
Definition sync_two_calls : option ex_sync :=
  sync_run ([ZAsk 0 (sync_ask Byte.x07); ZAsk 1 (sync_ask Byte.x08); ZTake; ZTransform; ZWrite; ZTake; ZTransform; ZWrite;
             ZMain 0; ZMain 1; ZMain 2] ++ (ZPool <$> [0; 1; 2; 0; 1; 2]) ++ [ZRead; ZRead] ++
            (ZPool <$> [1; 0; 0; 1; 0; 1]) ++ [ZHandle 0; ZHandle 1; ZRespond; ZReceive; ZRespond; ZReceive])%nat sync_fresh.

Lemma sync_two_calls_reachable s : sync_two_calls = Some s -> ex_sync_reachable s.
Proof.
  apply sync_run_reachable. exists sync_fresh. split; [|apply rtc_refl]. by exists tt, tt.
Qed.

Definition sync_observed (s : ex_sync) : option Request * option Caller * nat * list Z :=
  (asked s !! 0%nat, l_calls (client s) !! 0%nat, length (SyncClient.taken (history s)), stream_id ∘ fst <$> down s).

Lemma sync_concurrent_calls_witness :
  let resp := MkResponse (Some (MkStatus OK "" [])) [Byte.x07; Byte.x07] in
  exists s t m, sync_two_calls = Some s /\ asked s !! 0%nat = Some (sync_ask Byte.x07) /\
    l_calls (client s) !! 0%nat = Some (Answered (Ok (countable_encode resp))) /\
    EvHandle t m ∈ pool_history s /\ request_end 0 (Received (Ok (countable_encode resp))) = Some (Ok resp).
Proof.
  intros resp. destruct sync_two_calls as [s|] eqn:E; [|by vm_compute in E].
  assert (sync_observed <$> sync_two_calls =
    Some (Some (sync_ask Byte.x07), Some (Answered (Ok (countable_encode resp))), 2%nat, [3; 1])) as Ho
    by (clear E; vm_compute; reflexivity).
  rewrite E in Ho. cbn [fmap option_fmap option_map] in Ho. apply (inj Some) in Ho.
  unfold sync_observed in Ho. injection Ho as Ha Hb Hl _.
  destruct (sync_concurrent_calls (D := unit) (T := NonceTransform) (fun _ => "") default_limits 7 ex_fns s 0%nat
    (countable_encode resp)) as (req & buf & i & t & Hreq & _ & _ & Ht & _ & _ & resp' & Hout & Hend).
  - by apply sync_two_calls_reachable.
  - unfold SyncClient.unwrapped. rewrite Hl. done.
  - exact Hb.
  - assert (req = sync_ask Byte.x07) as -> by congruence.
    assert (resp' = resp) as -> by (vm_compute in Hout; by injection Hout as <-).
    exists s, t, (header_new_request (nth_id i) (len_u32 buf), Ok buf).
    split_and!; [done|done|exact Hb|exact Ht|].
    refine (Hend (countable_encode resp) _ _); [reflexivity|by apply Z.leb_le; vm_compute].
Defined.
End Witness.
