(* ===== verification/SyncListen.v ===== *)
(** The life of the synchronous server and of its connections (src/src/sync/server.rs): the
    configuration and the start and stop operations, the accept loop, and the interleaving of the
    listener, the client handlers and the reaper over the table of connections. *)
From S2P Require Import Prelude Errors Channel Extension SyncChannel SyncServer SyncPool.

(** ** The server object *)

Section Server.
Context {D T : Type} `{PayloadTransform T, Texts}.

(** [PipeListener], by its descriptor and whether the write end of its monitor pipe is closed. *)
Record Listener := MkListener { lst_fd : Z; lst_monitor_closed : bool }.

(** [Server]; the two background threads by whether they run. *)
Record Server := MkServer {
  srv_listeners : list Listener;
  srv_quit_flag : bool;
  srv_methods : gmap string (@SyncHandler D T);
  srv_handler : bool;
  srv_reaper : bool;
  srv_limits : Limits;
  srv_accept_retry : Z;
  srv_hook : option (Hook D T) }.

(** [Server::default()]. *)
Definition server_default : Server :=
  MkServer [] false ∅ false false default_limits 10000000000 None.

Definition one_sockaddr : Error := Others "ttrpc-rust just support 1 sockaddr now".

(** [bind] and [add_listener]; [listener] is what making the listener gave. *)
Definition sync_bind (listener : Result Listener) (s : Server) : Result Server :=
  if decide (srv_listeners s <> []) then Err one_sockaddr
  else
    l ← listener;
    mret (MkServer (srv_listeners s ++ [l]) (srv_quit_flag s) (srv_methods s) (srv_handler s)
            (srv_reaper s) (srv_limits s) (srv_accept_retry s) (srv_hook s)).

(** [register_service]: [HashMap::extend]; [None] is the panic of [Arc::get_mut] when the map is
    [shared] with a listener thread or a connection. *)
Definition sync_register_service (shared : bool) (methods : gmap string (@SyncHandler D T))
    (s : Server) : option Server :=
  if shared then None
  else Some (MkServer (srv_listeners s) (srv_quit_flag s) (methods ∪ srv_methods s) (srv_handler s)
               (srv_reaper s) (srv_limits s) (srv_accept_retry s) (srv_hook s)).

Definition set_limits (lim : Limits) (s : Server) : Server :=
  MkServer (srv_listeners s) (srv_quit_flag s) (srv_methods s) (srv_handler s) (srv_reaper s) lim
    (srv_accept_retry s) (srv_hook s).
Definition set_thread_count_default (n : Z) (s : Server) : Server :=
  set_limits (MkLimits n (thread_count_min (srv_limits s)) (thread_count_max (srv_limits s))) s.
Definition set_thread_count_min (n : Z) (s : Server) : Server :=
  set_limits (MkLimits (thread_count_default (srv_limits s)) n (thread_count_max (srv_limits s))) s.
Definition set_thread_count_max (n : Z) (s : Server) : Server :=
  set_limits (MkLimits (thread_count_default (srv_limits s)) (thread_count_min (srv_limits s)) n) s.
Definition set_accept_retry_interval (n : Z) (s : Server) : Server :=
  MkServer (srv_listeners s) (srv_quit_flag s) (srv_methods s) (srv_handler s) (srv_reaper s)
    (srv_limits s) n (srv_hook s).
Definition set_accept_hook (h : Hook D T) (s : Server) : Server :=
  MkServer (srv_listeners s) (srv_quit_flag s) (srv_methods s) (srv_handler s) (srv_reaper s)
    (srv_limits s) (srv_accept_retry s) (Some h).

(** [start_listen]: the reaper thread is made once, the listener thread anew. *)
Definition start_listen (s : Server) : Result Server :=
  if decide (srv_listeners s = []) then Err (Others "ttrpc-rust not bind")
  else Ok (MkServer (srv_listeners s) false (srv_methods s) true true (srv_limits s)
             (srv_accept_retry s) (srv_hook s)).

(** [start]. *)
Definition sync_start (s : Server) : Result Server :=
  _ ← start_check (srv_limits s);
  start_listen s.

(** [stop_listen]: [listeners[0].close()] closes the write end of the monitor pipe; [None] is the
    panic of the indexing. *)
Definition sync_stop_listen (s : Server) : option Server :=
  match srv_listeners s with
  | [] => None
  | l :: ls =>
      Some (MkServer (MkListener (lst_fd l) true :: ls) true (srv_methods s) false (srv_reaper s)
              (srv_limits s) (srv_accept_retry s) (srv_hook s))
  end.

(** ** The accept loop *)

Definition EMFILE : Z := 24.
Definition ENFILE : Z := 23.
Definition ENOBUFS : Z := 105.
Definition ENOMEM : Z := 12.

(** [is_resource_limit_error]. *)
Definition is_resource_limit_error (e : IoErr) : bool :=
  match raw_os_error e with
  | Some n => bool_decide (n ∈ [EMFILE; ENFILE; ENOBUFS; ENOMEM])
  | None => false
  end.

(** [connection_context_from_hook]. *)
Definition connection_context_from_hook (data_default : D) (fd : Z) (hook : option (Hook D T))
  : res HookError (ConnectionContext D T) :=
  match hook with
  | Some h => (fun o => context_new data_default (Some o)) <$> h fd
  | None => Ok (context_new data_default None)
  end.

(** One turn of the listener loop, up to the spawning of the client handler: it ends, goes on after
    sleeping so long, closes a rejected connection, or serves one. *)
Inductive AcceptTurn :=
  | LoopEnds
  | Again (sleep : Z)
  | RejectFd (fd : Z)
  | ServeFd (fd : Z) (ctx : ConnectionContext D T).

Definition sync_accept_turn (data_default : D) (s : Server) (quit_flag : bool) (p : PollResult)
    (accept4 : res Z Z) : AcceptTurn :=
  if quit_flag then LoopEnds
  else match listener_accept p accept4 with
       | Ok None => Again 0
       | Ok (Some fd) =>
           match connection_context_from_hook data_default fd (srv_hook s) with
           | Ok ctx => ServeFd fd ctx
           | Err _ => RejectFd fd
           end
       | Err e =>
           if decide (e = OsError EINTR) then Again 0
           else Again (if is_resource_limit_error e then srv_accept_retry s else 0)
       end.

(** After [stop_listen] a server can be started again, but never accepts: a poll that returns
    reports the closed monitor pipe ([POLLHUP]), so that every turn of the loop goes on at once. *)
Lemma restarted_never_accepts data_default s s1 s2 p accept4 :
  sync_stop_listen s = Some s1 -> sync_start s1 = Ok s2 ->
  (forall e, p <> PollError e) ->
  (forall m k, (exists l, head (srv_listeners s2) = Some l /\ lst_monitor_closed l = true) ->
     p = PollReady m k -> m <> 0) ->
  sync_accept_turn data_default s2 (srv_quit_flag s2) p accept4 = Again 0.
Proof.
  intros Hs Hs2 Hp Hm. unfold sync_stop_listen in Hs.
  destruct (srv_listeners s) as [|l ls] eqn:El; [done|]. simplify_eq.
  unfold sync_start in Hs2. munfold.
  destruct (start_check _) as [[]|]; cbn in Hs2; [|done]. unfold start_listen in Hs2.
  case_decide; [done|]. simplify_eq. unfold sync_accept_turn. cbn.
  destruct p as [e| |m k]; [by specialize (Hp e)|done|].
  cbn. rewrite decide_True; [done|]. left. eapply Hm; [|done]. cbn. by eexists.
Qed.
End Server.

(** ** Connections, their handlers and the reaper *)

(** The client handler of a connection: serving, waiting for the listener's [sync_tx.send(())],
    ended after it has told the reaper. *)
Inductive HandlerPc := HServe | HWait | HDone.

(** The listener thread: in [accept], with the hook of a new descriptor, about to spawn its
    handler, to insert it into the table, to let the handler go on, and ended. *)
Inductive ListenerPc :=
  | LAccept | LHook (fd : Z) | LSpawn (fd : Z) | LInsert (fd : Z) | LNotify (fd : Z) | LGone.

(** The reaper thread: waiting, joining the handler of an entry it has removed, closing the
    connection. *)
Inductive ReaperPc := RIdle | RJoin (fd : Z) | RClose (fd : Z).

Record Life := MkLife {
  open_fds : gset Z;              (* the descriptors the kernel will not hand out again *)
  conns : gset Z;                 (* the keys of [connections] *)
  hpcs : gmap Z HandlerPc;        (* the handlers, by the descriptor they serve *)
  go_ahead : gset Z;              (* whose [sync_tx] was sent to *)
  lpc : ListenerPc;
  reaper_rx : list Z;
  rpc : ReaperPc }.

Inductive LifeEvent := EvAccept (fd : Z) | EvClose (fd : Z) | EvLeak (fd : Z).

Inductive life_step : Life -> list LifeEvent -> Life -> Prop :=
  | LifeAccept o c h g q r fd : fd ∉ o ->
      life_step (MkLife o c h g LAccept q r) [EvAccept fd] (MkLife ({[fd]} ∪ o) c h g (LHook fd) q r)
  | LifeReject o c h g q r fd :   (* the hook fails: [pipe_connection.close()] *)
      life_step (MkLife o c h g (LHook fd) q r) [EvClose fd] (MkLife (o ∖ {[fd]}) c h g LAccept q r)
  | LifeAdmit o c h g q r fd :
      life_step (MkLife o c h g (LHook fd) q r) [] (MkLife o c h g (LSpawn fd) q r)
  | LifeSpawn o c h g q r fd :
      life_step (MkLife o c h g (LSpawn fd) q r) []
        (MkLife o c (<[fd := HServe]> h) (g ∖ {[fd]}) (LInsert fd) q r)
  | LifeSpawnFail o c h g q r fd :   (* the spawn fails: nobody closes the descriptor *)
      life_step (MkLife o c h g (LSpawn fd) q r) [EvLeak fd] (MkLife o c h g LAccept q r)
  | LifeInsert o c h g q r fd :
      life_step (MkLife o c h g (LInsert fd) q r) [] (MkLife o ({[fd]} ∪ c) h g (LNotify fd) q r)
  | LifeNotify o c h g q r fd :
      life_step (MkLife o c h g (LNotify fd) q r) [] (MkLife o c h ({[fd]} ∪ g) LAccept q r)
  | LifeServed o c h g l q r fd : h !! fd = Some HServe ->   (* the connection is over *)
      life_step (MkLife o c h g l q r) [] (MkLife o c (<[fd := HWait]> h) g l q r)
  | LifeEnd o c h g l q r fd : h !! fd = Some HWait -> fd ∈ g ->
      life_step (MkLife o c h g l q r) [] (MkLife o c (<[fd := HDone]> h) g l (q ++ [fd]) r)
  | LifeReap o c h g l q fd : fd ∈ c ->
      life_step (MkLife o c h g l (fd :: q) RIdle) [] (MkLife o (c ∖ {[fd]}) h g l q (RJoin fd))
  | LifeReapNone o c h g l q fd : fd ∉ c ->   (* no entry: the message is dropped *)
      life_step (MkLife o c h g l (fd :: q) RIdle) [] (MkLife o c h g l q RIdle)
  | LifeJoin o c h g l q fd : h !! fd = Some HDone ->
      life_step (MkLife o c h g l q (RJoin fd)) [] (MkLife o c h g l q (RClose fd))
  | LifeClose o c h g l q fd :
      life_step (MkLife o c h g l q (RClose fd)) [EvClose fd]
        (MkLife (o ∖ {[fd]}) c (delete fd h) g l q RIdle)
  | LifeStop o c h g q r :   (* [stop_listen] *)
      life_step (MkLife o c h g LAccept q r) [] (MkLife o c h g LGone q r).

Definition life_start : Life := MkLife ∅ ∅ ∅ ∅ LAccept [] RIdle.

Inductive life_reachable : list LifeEvent -> Life -> Prop :=
  | LifeInit : life_reachable [] life_start
  | LifeStep evs s evs' s' :
      life_reachable evs s -> life_step s evs' s' -> life_reachable (evs ++ evs') s'.

(** ** Invariant *)

(** What the listener is doing with a descriptor. *)
Inductive LMode := LmNone | LmHook | LmInsert | LmNotify.
Definition lmode (l : ListenerPc) (fd : Z) : LMode :=
  match l with
  | LAccept | LGone => LmNone
  | LHook fd' | LSpawn fd' => if decide (fd' = fd) then LmHook else LmNone
  | LInsert fd' => if decide (fd' = fd) then LmInsert else LmNone
  | LNotify fd' => if decide (fd' = fd) then LmNotify else LmNone
  end.
Definition rmode (r : ReaperPc) (fd : Z) : bool :=
  match r with RIdle => false | RJoin fd' | RClose fd' => bool_decide (fd' = fd) end.
Definition queued (q : list Z) (fd : Z) : nat := length (filter (eq fd) q).

(** The stages a descriptor goes through: whether it is open and in the table, its handler, whether
    that was let go on, what the listener does with it, how often it is queued for the reaper, and
    whether the reaper has it. *)
Definition valid (o c : bool) (h : option HandlerPc) (g : bool) (lm : LMode) (n : nat) (rm : bool)
  : bool :=
  match h, lm, n, rm with
  | None, LmNone, O, false => negb c
  | None, LmHook, O, false => o && negb c
  | Some (HServe | HWait), LmNone, O, false => o && c && g
  | Some (HServe | HWait), LmInsert, O, false => o && negb c && negb g
  | Some (HServe | HWait), LmNotify, O, false => o && c && negb g
  | Some HDone, LmNone, 1%nat, false => o && c
  | Some HDone, LmNone, O, true => o && negb c
  | _, _, _, _ => false
  end.

Definition fd_valid (s : Life) (fd : Z) : bool :=
  valid (bool_decide (fd ∈ open_fds s)) (bool_decide (fd ∈ conns s)) (hpcs s !! fd)
    (bool_decide (fd ∈ go_ahead s)) (lmode (lpc s) fd) (queued (reaper_rx s) fd) (rmode (rpc s) fd).

(** A descriptor that is open and in nobody's hands was leaked. *)
Definition accounted (evs : list LifeEvent) (s : Life) (fd : Z) : Prop :=
  fd ∈ open_fds s -> hpcs s !! fd = None -> lmode (lpc s) fd = LmNone -> EvLeak fd ∈ evs.

Definition life_inv (evs : list LifeEvent) (s : Life) : Prop :=
  forall fd, fd_valid s fd = true /\ accounted evs s fd.

Lemma added (fd : Z) (X : gset Z) : bool_decide (fd ∈ {[fd]} ∪ X) = true.
Proof. apply bool_decide_eq_true. rewrite elem_of_union, elem_of_singleton. by left. Qed.
Lemma removed (fd : Z) (X : gset Z) : bool_decide (fd ∈ X ∖ {[fd]}) = false.
Proof. apply bool_decide_eq_false. rewrite elem_of_difference, elem_of_singleton. tauto. Qed.
Lemma queued_snoc q fd fd' : queued (q ++ [fd']) fd = (queued q fd + if decide (fd = fd') then 1 else 0)%nat.
Proof.
  unfold queued. rewrite list.filter_app, length_app. f_equal. cbn. by case_decide.
Qed.
Lemma queued_cons q fd fd' : queued (fd' :: q) fd = ((if decide (fd = fd') then 1 else 0) + queued q fd)%nat.
Proof. unfold queued. cbn. by case_decide. Qed.

(** The descriptor a step is about. *)
Definition same_stage (s s' : Life) (fd : Z) : Prop :=
  lmode (lpc s') fd = lmode (lpc s) fd /\ rmode (rpc s') fd = rmode (rpc s) fd /\
  (fd ∈ open_fds s' <-> fd ∈ open_fds s) /\ (fd ∈ conns s' <-> fd ∈ conns s) /\
  (fd ∈ go_ahead s' <-> fd ∈ go_ahead s) /\ hpcs s' !! fd = hpcs s !! fd /\
  queued (reaper_rx s') fd = queued (reaper_rx s) fd.

Lemma same_stage_inv evs evs' s s' fd :
  same_stage s s' fd -> fd_valid s fd = true -> accounted evs s fd ->
  fd_valid s' fd = true /\ accounted (evs ++ evs') s' fd.
Proof.
  intros (El & Er & Eo & Ec & Eg & Eh & Eq) Hv Ha. split.
  - rewrite <- Hv. unfold fd_valid. rewrite El, Er, Eh, Eq. f_equal; by apply bool_decide_ext.
  - unfold accounted in *. rewrite El, Eh, Eo. intros. apply elem_of_app. left. by apply Ha.
Qed.

Ltac same_stage :=
  eapply same_stage_inv; [|eassumption..]; unfold same_stage; cbn -[queued]; split_and!;
    first
      [ done
      | by rewrite !decide_False by congruence
      | by rewrite bool_decide_eq_false_2 by congruence
      | by rewrite lookup_insert_ne by done
      | by rewrite lookup_delete_ne by done
      | by rewrite queued_snoc, decide_False, Nat.add_0_r by done
      | by rewrite queued_cons, decide_False by done
      | rewrite ?elem_of_union, ?elem_of_difference, ?elem_of_singleton; tauto ].

Lemma life_step_inv s evs' s' evs fd :
  life_step s evs' s' -> fd_valid s fd = true -> accounted evs s fd ->
  fd_valid s' fd = true /\ accounted (evs ++ evs') s' fd.
Proof.
  intros Hs Hv Ha.
  destruct Hs as [o c h g q r fd0 Hn|o c h g q r fd0|o c h g q r fd0|o c h g q r fd0|o c h g q r fd0|
    o c h g q r fd0|o c h g q r fd0|o c h g l q r fd0 Hh|o c h g l q r fd0 Hh Hg|o c h g l q fd0 Hc|
    o c h g l q fd0 Hc|o c h g l q fd0 Hh|o c h g l q fd0|o c h g q r].
  14: { by eapply same_stage_inv. }
  all: (destruct (decide (fd = fd0)) as [->|Hne]; [|same_stage]); unfold fd_valid, accounted in *;
    cbn -[queued] in *.
  all: rewrite ?added, ?removed, ?lookup_insert_eq, ?lookup_delete_eq, ?queued_snoc, ?queued_cons in *;
    rewrite ?(decide_True (P := fd0 = fd0)) in * by done;
    rewrite ?(bool_decide_eq_true_2 (fd0 = fd0)) in * by done.
  all: repeat match goal with
    | H : ?x ∈ _ |- _ => rewrite (bool_decide_eq_true_2 _ H) in *; clear H
    | H : ?x ∉ _ |- _ => rewrite (bool_decide_eq_false_2 _ H) in *; clear H
    | H : _ !! _ = Some _ |- _ => rewrite H in *; clear H
    end.
  all: split;
    [ clear Ha; revert Hv;
      destruct (bool_decide (fd0 ∈ o)), (bool_decide (fd0 ∈ c)), (bool_decide (fd0 ∈ g)),
        (queued q fd0) as [|[|n]]; try destruct (h !! fd0) as [[]|]; try destruct (rmode r fd0);
        try destruct (lmode l fd0); done
    | intros Ho Hnone Hl; try done ].
  - by apply elem_of_difference in Ho as [_ []%not_elem_of_singleton].
  - apply elem_of_app. right. by left.
  - rewrite Hnone in Hv. destruct (queued q fd0), (rmode r fd0); done.
  - rewrite app_nil_r. by apply Ha.
  - rewrite app_nil_r. by apply Ha.
  - by apply elem_of_difference in Ho as [_ []%not_elem_of_singleton].
Qed.

Lemma life_reachable_inv evs s : life_reachable evs s -> life_inv evs s.
Proof.
  induction 1 as [|evs s evs' s' _ IH Hs]; intros fd.
  - split; [|intros Ho; by apply elem_of_empty in Ho]. unfold fd_valid. cbn. done.
  - destruct (IH fd). by eapply life_step_inv.
Qed.

(** C14: connections of the synchronous server are recycled without loss or confusion, whatever the
    interleaving of the listener, the handlers and the reaper: a descriptor sent to the reaper has
    its entry in the table, since a handler only ends after its entry was inserted; an insertion
    never replaces an entry; a descriptor is closed only while it is open, by the reaper after its
    handler has ended and its entry is gone, so that the kernel cannot have handed it to another
    connection; a handler that waits for the listener is let go on by it; and a descriptor that
    stays open in nobody's hands is one whose handler thread could not be spawned. *)
Theorem reaper_recycles (evs : list LifeEvent) (s : Life) (fd : Z) :
  life_reachable evs s ->
  (forall q, reaper_rx s = fd :: q -> fd ∈ conns s /\ hpcs s !! fd = Some HDone) /\
  (lpc s = LInsert fd -> fd ∉ conns s) /\
  (rpc s = RClose fd -> fd ∈ open_fds s /\ (fd ∉ conns s) /\ hpcs s !! fd = Some HDone) /\
  (lpc s = LHook fd -> fd ∈ open_fds s /\ hpcs s !! fd = None) /\
  (hpcs s !! fd = Some HWait -> fd ∈ go_ahead s \/ lpc s = LInsert fd \/ lpc s = LNotify fd) /\
  (fd ∈ open_fds s -> hpcs s !! fd = None -> EvLeak fd ∈ evs \/ lpc s = LHook fd \/ lpc s = LSpawn fd).
Proof.
  intros Hr. destruct (life_reachable_inv _ _ Hr fd) as [Hv Ha].
  destruct s as [o c h g l q r]. unfold fd_valid, accounted in *. cbn -[queued] in *. split_and!.
  - intros q' ->. rewrite queued_cons, decide_True in Hv by done. cbn in Hv.
    destruct (h !! fd) as [[]|], (lmode l fd), (queued q' fd), (rmode r fd); try done.
    apply andb_prop in Hv as [_ Hc]. by apply bool_decide_eq_true in Hc.
  - intros ->. cbn in Hv. rewrite decide_True in Hv by done.
    destruct (h !! fd) as [[]|], (queued q fd), (rmode r fd); try done;
      intros Hc; rewrite (bool_decide_eq_true_2 _ Hc) in Hv; by destruct (bool_decide (fd ∈ o)).
  - intros ->. cbn in Hv. rewrite (bool_decide_eq_true_2 (fd = fd)) in Hv by done.
    destruct (h !! fd) as [[]|], (lmode l fd), (queued q fd) as [|[]]; try done.
    apply andb_prop in Hv as [Ho%bool_decide_eq_true Hc%negb_true_iff].
    by apply bool_decide_eq_false in Hc.
  - intros ->. cbn in Hv. rewrite decide_True in Hv by done.
    destruct (h !! fd) as [[]|], (queued q fd) as [|[]], (rmode r fd); try done.
    by apply andb_prop in Hv as [Ho%bool_decide_eq_true _].
  - intros Hw. rewrite Hw in Hv.
    destruct l as [|fd'|fd'|fd'|fd'|] eqn:El; cbn in Hv;
      destruct (queued q fd), (rmode r fd); try (case_decide; subst); try done; eauto;
      apply andb_prop in Hv as [_ Hg%bool_decide_eq_true]; by left.
  - intros Ho Hn. specialize (Ha Ho Hn).
    destruct l as [|fd'|fd'|fd'|fd'|]; cbn in *; try (case_decide; subst); auto;
      rewrite Hn in Hv; by destruct (queued q fd), (rmode r fd).
Qed.

(** A connection that is over before the listener has inserted it. *)
Definition ex_life : Life := MkLife {[5]} {[5]} {[5 := HWait]} ∅ (LNotify 5) [] RIdle.

Lemma ex_life_reachable : life_reachable [EvAccept 5] ex_life.
Proof.
  assert (life_reachable [EvAccept 5] (MkLife ({[5]} ∪ ∅) ∅ ∅ ∅ (LHook 5) [] RIdle)) as R1.
  { apply (LifeStep [] life_start); [apply LifeInit|]. apply LifeAccept. set_solver. }
  assert (life_reachable [EvAccept 5] (MkLife ({[5]} ∪ ∅) ∅ (<[5 := HServe]> ∅) (∅ ∖ {[5]}) (LInsert 5) [] RIdle)) as R2.
  { apply (LifeStep [EvAccept 5] (MkLife ({[5]} ∪ ∅) ∅ ∅ ∅ (LSpawn 5) [] RIdle) []).
    - apply (LifeStep [EvAccept 5] _ [] _ R1). apply LifeAdmit.
    - apply LifeSpawn. }
  assert (life_reachable [EvAccept 5]
    (MkLife ({[5]} ∪ ∅) ({[5]} ∪ ∅) (<[5 := HWait]> (<[5 := HServe]> ∅)) (∅ ∖ {[5]}) (LNotify 5) [] RIdle)) as R3.
  { apply (LifeStep [EvAccept 5] (MkLife ({[5]} ∪ ∅) ∅ (<[5 := HWait]> (<[5 := HServe]> ∅)) (∅ ∖ {[5]}) (LInsert 5) [] RIdle) []).
    - apply (LifeStep [EvAccept 5] _ [] _ R2). by apply LifeServed.
    - apply LifeInsert. }
  exact R3.
Qed.

Lemma reaper_recycles_witness :
  5 ∈ go_ahead ex_life \/ lpc ex_life = LInsert 5 \/ lpc ex_life = LNotify 5.
Proof.
  destruct (reaper_recycles [EvAccept 5] ex_life 5 ex_life_reachable) as (_ & _ & _ & _ & Hw & _).
  exact (Hw eq_refl).
Defined.
