(* ===== verification/SyncShutdown.v ===== *)
(** The shutdown of the synchronous server (src/src/sync/server.rs, [Server::disconnect]): how the
    client handler of a connection leaves its loop, and what the handlers and the reaper have left to do
    once the listener has stopped. *)
From S2P Require Import Prelude Errors SyncServer SyncPool SyncListen.

(** ** The client handler of a connection *)

Section ClientHandler.
Context {A : Type} (lim : Limits).

Abbreviation Pool := (@SyncPool.Pool A).

(** The connection is quitting, and the client handler is told, or is about to look. *)
Definition leaving (s : Pool) : Prop :=
  quit s = true /\ (preader s = RSend \/ main s = MCheck \/ main s = MEnd).

(** What the client handler has left to do. *)
Definition main_rank (m : MainPc) : nat :=
  match m with MThreads => 5 | MSpawn _ _ => 4 | MRecv => 3 | MCheck => 2 | MEnd => 0 end.

(** Steps that keep the connection leaving, without setting the client handler back. *)
Definition nearer (s s' : Pool) : Prop :=
  leaving s' /\ (main_rank (main s') <= main_rank (main s))%nat.

Lemma control_send_nearer (s s' : Pool) :
  leaving s -> control_send s = Some s' ->
  nearer s s' /\ quit s' = quit s /\ preader s' = preader s /\ (main s' = MCheck \/ main s' = MEnd).
Proof.
  unfold nearer, leaving, control_send. destruct s as [q n ws m wl r]. cbn.
  destruct m; intros [Hq Hr] E; simplify_eq; cbn; split_and!; auto.
Qed.

Lemma pool_step_nearer a (s s' : Pool) evs :
  leaving s -> pool_step lim a s = Some (s', evs) -> nearer s s'.
Proof.
  intros Hl E.
  assert (forall s' : Pool, quit s' = true -> preader s' = preader s -> main s' = main s -> nearer s s') as Hsame.
  { intros s2 Hq Hp Hm. unfold nearer, leaving in *. rewrite Hp, Hm. intuition auto. }
  pose proof Hl as [Hq Hr].
  destruct a as [t handled|t|m| | | | |]; cbn in E.
  - unfold worker_step in E. destruct (workers s !! t) as [w|]; [|done].
    destruct w; repeat case_match; cbn zeta in E; simplify_eq; try (by apply Hsame);
      apply bind_Some in E as (s1 & Es & E); simplify_eq;
      destruct (control_send_nearer _ _ Hl Es) as ((Hl1 & Hm) & _); by split.
  - apply bind_Some in E as (s1 & Em & E). simplify_eq. unfold main_step in Em. rewrite Hq in Em.
    destruct (main s) as [[|n] []| | | |] eqn:Es; cbn zeta in Em; simplify_eq;
      unfold nearer, leaving; cbn; rewrite ?Es; cbn; try case_decide; cbn; intuition (try done; try lia; auto).
  - destruct (preader s) eqn:Ep; simplify_eq. by apply Hsame.
  - destruct (preader s) eqn:Ep; simplify_eq. unfold nearer, leaving. cbn. split; [by auto|lia].
  - destruct (preader s) eqn:Ep; try done. apply bind_Some in E as (s1 & Es & E). simplify_eq.
    destruct (control_send_nearer _ _ Hl Es) as ([Hl1 Hm] & Hq1 & _ & Hmm). unfold nearer, leaving. cbn.
    split; [|done]. rewrite Hq1. auto.
  - destruct (preader s) eqn:Ep; try done. rewrite Hq in E. simplify_eq. unfold nearer, leaving. cbn.
    intuition (try done; auto).
  - simplify_eq. by apply Hsame.
  - simplify_eq. by apply Hsame.
Qed.

Lemma pool_run_nearer acts (s s' : Pool) evs :
  leaving s -> pool_run lim acts s = Some (s', evs) -> nearer s s'.
Proof.
  revert s evs. induction acts as [|a acts IH]; intros s evs Hl E; cbn in E; [by simplify_eq|].
  apply bind_Some in E as ([s1 evs1] & E1 & E). apply bind_Some in E as ([s2 evs2] & E2 & E). simplify_eq.
  destruct (pool_step_nearer _ _ _ _ Hl E1) as [Hl1 Hm1]. destruct (IH _ _ Hl1 E2) as [Hl2 Hm2].
  split; [done|lia].
Qed.

(** The client handler is never blocked while the connection is leaving. *)
Lemma leaving_goes_on (s : Pool) :
  leaving s -> main s = MEnd \/
  exists a s', (a = AReaderSend \/ exists t, a = AMain t) /\ pool_step lim a s = Some (s', []) /\
    (main_rank (main s') < main_rank (main s))%nat.
Proof.
  intros [Hq Hr]. destruct (main s) as [n st| | | |] eqn:Es; [| | | |by left]; right.
  - exists (AMain 0). cbn. unfold main_step. rewrite Es, Hq.
    destruct n, st; eexists; (split_and!; [by right; eexists|done|cbn; lia]).
  - exists (AMain 0). cbn. unfold main_step. rewrite Es, Hq.
    eexists; (split_and!; [by right; eexists|done|cbn; lia]).
  - exists (AMain 0). cbn. unfold main_step. rewrite Es. cbn zeta.
    eexists; (split_and!; [by right; eexists|done|]). cbn. case_decide; cbn; lia.
  - destruct Hr as [Hr|[?|?]]; [|done..]. exists AReaderSend. cbn. rewrite Hr. unfold control_send. rewrite Es.
    eexists; (split_and!; [by left|done|cbn; lia]).
Qed.

(** After a socket error the client handler of a connection leaves its loop, whatever its workers,
    its reader and its response thread do: from the moment the reader has met the error, and
    however the threads have been scheduled since, the handler has left its loop, or it or the
    reader that tells it has a step to take, which brings it nearer to its end; no step of any
    thread sets it back, so that at most five such steps are left. *)
Theorem client_handler_leaves (s s1 s2 : Pool) (evs evs' : list Event) (acts : list Act) :
  pool_step lim AReaderError s = Some (s1, evs) -> pool_run lim acts s1 = Some (s2, evs') ->
  (main_rank (main s2) <= main_rank (main s1) <= 5)%nat /\
  (main s2 = MEnd \/
   exists a s3, (a = AReaderSend \/ exists t, a = AMain t) /\ pool_step lim a s2 = Some (s3, []) /\
     (main_rank (main s3) < main_rank (main s2))%nat).
Proof.
  intros E Er. assert (leaving s1) as Hl.
  { cbn in E. destruct (preader s); simplify_eq. split; [done|by left]. }
  destruct (pool_run_nearer _ _ _ _ Hl Er) as [Hl2 Hm]. split; [|by apply leaving_goes_on].
  split; [done|]. destruct (main s1); cbn; lia.
Qed.

(** A client handler that waits with every other thread gone: no thread has a step left but the one
    that asks it to quit once more. *)
Definition stuck (s : Pool) : Prop :=
  main s = MRecv /\ preader s = REnd /\
  forall t w, workers s !! t = Some w -> exists b, w = WExit b.

Lemma stuck_forever a (s s' : Pool) evs :
  stuck s -> pool_step lim a s = Some (s', evs) -> s' = set_quit s /\ (a = AWriteError \/ a = AShutdown).
Proof.
  intros (Hm & Hr & Hw) E. destruct a as [t handled|t|m| | | | |]; cbn in E; rewrite ?Hr in E; try done;
    [| |simplify_eq; auto..].
  - unfold worker_step in E. destruct (workers s !! t) as [w|] eqn:Et; [|done].
    destruct (Hw _ _ Et) as [b ->]. done.
  - unfold main_step in E. by rewrite Hm in E.
Qed.
End ClientHandler.

(** ** The server once its listener has stopped *)

(** A step of the handlers or the reaper; and one that does not wait for a connection to be over. *)
Definition life_goes (s s' : Life) : Prop := exists evs, life_step s evs s'.
Definition keeps_serving (s s' : Life) : Prop := forall fd, hpcs s !! fd = Some HServe -> hpcs s' !! fd = Some HServe.

Definition handler_rank (h : HandlerPc) : nat := match h with HServe => 6 | HWait => 5 | HDone => 1 end.
Definition life_work (s : Life) : nat :=
  (map_sum handler_rank (hpcs s) + 3 * length (reaper_rx s) +
   match rpc s with RIdle => 0 | RJoin _ => 2 | RClose _ => 1 end)%nat.

Lemma life_goes_work s s' :
  lpc s = LGone -> life_goes s s' -> lpc s' = LGone /\ (life_work s' < life_work s)%nat.
Proof.
  intros Hl [evs Hs]. unfold life_work.
  destruct Hs as [| | | | | | |o c h g l q r fd Hh|o c h g l q r fd Hh Hg|o c h g l q fd Hc|
    o c h g l q fd Hc|o c h g l q fd Hh|o c h g l q fd|]; cbn in *; try done; (split; [done|]).
  - pose proof (map_sum_update handler_rank _ _ _ HWait Hh) as Hm. cbn in Hm. lia.
  - pose proof (map_sum_update handler_rank _ _ _ HDone Hh) as Hm. cbn in Hm.
    rewrite length_app. cbn. lia.
  - lia.
  - lia.
  - lia.
  - destruct (h !! fd) as [pc|] eqn:Hh; [pose proof (map_sum_delete handler_rank _ _ _ Hh)|rewrite delete_id by done]; lia.
Qed.

Lemma life_steps_reachable evs s s' n :
  life_reachable evs s -> nsteps life_goes n s s' -> exists evs', life_reachable (evs ++ evs') s'.
Proof.
  intros Hr Hn. revert evs Hr. induction Hn as [s|n s s1 s' [e Hs] Hn IH]; intros evs Hr.
  { exists []. by rewrite app_nil_r. }
  destruct (IH (evs ++ e)) as [evs' Hr']; [by eapply LifeStep|]. exists (e ++ evs'). by rewrite app_assoc.
Qed.

#[global] Instance HandlerPc_eq_dec : EqDecision HandlerPc.
Proof. solve_decision. Defined.

(** Nothing is left to do but to serve: the reaper waits, nothing is queued for it, and every handler
    that there is serves its connection. Without one of these the reaper's channel is closed, and
    [disconnect] returns from joining the reaper. *)
Definition life_rests (s : Life) : Prop :=
  (forall fd pc, hpcs s !! fd = Some pc -> pc = HServe) /\ reaper_rx s = [] /\ rpc s = RIdle.

Lemma life_progress evs s :
  life_reachable evs s -> lpc s = LGone -> life_rests s \/ exists s', life_goes s s' /\ keeps_serving s s'.
Proof.
  intros Hr Hl. pose proof (life_reachable_inv _ _ Hr) as Hi.
  destruct s as [o c h g l q r]. cbn in Hl. subst l. unfold keeps_serving.
  destruct r as [|fd|fd]; [destruct q as [|fd q]|..].
  - destruct (decide (map_Forall (fun _ pc => pc = HServe) h)) as [Ha|Hn].
    { left. split_and!; [|done|done]. intros fd pc. apply Ha. }
    right. apply map_not_Forall in Hn as (fd & pc & Hh & Hpc); [|apply _].
    destruct (Hi fd) as [Hv _]. unfold fd_valid in Hv. cbn -[queued] in Hv. rewrite Hh in Hv.
    destruct pc; [done| |done]. eexists. split; [eexists; apply (LifeEnd _ _ _ _ _ _ _ fd Hh)|].
    + cbn in Hv. apply andb_prop in Hv as [_ Hg]. by apply bool_decide_eq_true in Hg.
    + cbn. intros fd' Hs. rewrite lookup_insert_ne; [done|]. intros ->. congruence.
  - right. destruct (decide (fd ∈ c)) as [Hc|Hc]; eexists;
      [split; [eexists; by apply LifeReap|done]|split; [eexists; by apply LifeReapNone|done]].
  - right. destruct (Hi fd) as [Hv _]. unfold fd_valid in Hv.
    cbn -[queued] in Hv. rewrite (bool_decide_eq_true_2 (fd = fd)) in Hv by done.
    eexists. split; [eexists; apply LifeJoin|done]. destruct (h !! fd) as [[]|], (queued q fd) as [|[]]; done.
  - right. destruct (Hi fd) as [Hv _]. unfold fd_valid in Hv.
    cbn -[queued] in Hv. rewrite (bool_decide_eq_true_2 (fd = fd)) in Hv by done.
    eexists. split; [eexists; apply LifeClose|]. cbn. intros fd' Hs. rewrite lookup_delete_ne; [done|].
    intros ->. rewrite Hs in Hv. by destruct (queued q fd').
Qed.

(** C15: the end of the synchronous server: after [stop_listen], when the listener thread has ended, the
    handlers and the reaper can take at most [life_work] steps, those by which a handler finds its
    connection over included; and as long as none of them can go on without a connection being over,
    every descriptor of a connection is accounted for: the table holds exactly the connections that
    a handler still serves, the reaper has nothing to do, and an open descriptor of a connection is
    one of these or was leaked when its handler thread could not be spawned. So when no handler
    serves any more, all are closed. Whether a handler's connection is ever over is its own matter. *)
Theorem sync_shutdown (evs : list LifeEvent) (s s' : Life) (n : nat) :
  life_reachable evs s -> lpc s = LGone -> nsteps life_goes n s s' ->
  (n <= life_work s)%nat /\
  ((exists s'', life_goes s' s'' /\ keeps_serving s' s'') \/
   life_rests s' /\ (forall fd, fd ∈ conns s' <-> hpcs s' !! fd = Some HServe) /\
   exists evs', life_reachable (evs ++ evs') s' /\
     forall fd, fd ∈ open_fds s' -> hpcs s' !! fd = Some HServe \/ EvLeak fd ∈ evs ++ evs').
Proof.
  intros Hr Hl Hn.
  destruct (nsteps_measure _ (fun s => lpc s = LGone) life_work n s s' life_goes_work Hl Hn) as [Hl' Hle].
  split; [lia|]. destruct (life_steps_reachable _ _ _ _ Hr Hn) as [evs' Hr'].
  destruct (life_progress _ _ Hr' Hl') as [Ho|?]; [right|by left]. split; [done|].
  destruct Ho as (Hh & Hq & Hrr). pose proof (life_reachable_inv _ _ Hr') as Hi. split.
  - intros fd. destruct (Hi fd) as [Hv _]. unfold fd_valid in *. rewrite Hq, Hrr, Hl' in Hv. cbn in Hv.
    destruct (hpcs s' !! fd) as [pc|] eqn:E.
    + rewrite (Hh _ _ E) in Hv. apply andb_prop in Hv as [[_ Hc]%andb_prop _].
      apply bool_decide_eq_true in Hc. by rewrite (Hh _ _ E).
    + apply negb_true_iff, bool_decide_eq_false in Hv. by split.
  - exists evs'. split; [done|]. intros fd Ho. destruct (Hi fd) as [_ Ha]. unfold accounted in Ha.
    destruct (hpcs s' !! fd) as [pc|] eqn:E; [left; by rewrite (Hh _ _ E)|right]. apply Ha; [done|done|by rewrite Hl'].
Qed.

Section Witness.
(** The connection of [ex_pool], whose workers are all busy: [disconnect] sets the flag just before
    the reader looks at it, and the workers finish their requests. *)
Definition hang_acts : list (@Act nat) :=
  ex_pool_acts ++ [AShutdown; AReaderQuit] ++
  ((fun t => AWorker t Continue) <$> [0; 1; 2; 3; 4; 0; 1; 2; 3; 4])%nat.

(** The client handler then waits for ever, the reaper is never told of the connection, and
    [disconnect] never returns from joining the reaper. *)
Lemma disconnect_can_hang :
  exists (s : @Pool nat) evs, reachable default_limits evs s /\ quit s = true /\ stuck s.
Proof.
  destruct (pool_run default_limits hang_acts (pool_start default_limits)) as [[s evs]|] eqn:E;
    [|by vm_compute in E].
  exists s, evs. split; [by apply (pool_run_reachable _ hang_acts [] _ _ evs (ReachStart _) E)|].
  assert (quit s = true /\ main s = MRecv /\ preader s = REnd /\
    map_Forall (fun _ w => match w with WExit _ => true | _ => false end = true) (workers s)) as (? & ? & ? & Hw).
  { vm_compute in E. injection E as <- <-. split_and!; [done..|].
    apply (bool_decide_unpack _). by vm_compute. }
  clear E. split_and!; [done|]. split_and!; [done|done|]. intros t w Ht.
  pose proof (map_Forall_lookup_1 _ _ _ _ Hw Ht). destruct w; try done. by eexists.
Qed.

Lemma client_handler_leaves_witness :
  exists s1 s2 evs evs',
    pool_step default_limits AReaderError (pool_start (A := nat) default_limits) = Some (s1, evs) /\
    pool_run default_limits [AMain 0; AMain 0]%nat s1 = Some (s2, evs') /\ main s2 = MEnd.
Proof.
  destruct (pool_step default_limits AReaderError (pool_start (A := nat) default_limits)) as [[s1 evs]|] eqn:E1;
    [|by vm_compute in E1].
  destruct (pool_run default_limits [AMain 0; AMain 0]%nat s1) as [[s2 evs']|] eqn:E2;
    [|vm_compute in E1; injection E1 as <- <-; by vm_compute in E2].
  destruct (client_handler_leaves default_limits _ s1 s2 evs evs' _ E1 E2) as [_ [He|(a & s3 & _ & _ & Hlt)]].
  - exists s1, s2, evs, evs'. split_and!; [reflexivity|exact E2|exact He].
  - exfalso. vm_compute in E1. injection E1 as <- <-. vm_compute in E2. injection E2 as <- <-. cbn in Hlt. lia.
Defined.

(** The connection of [ex_life], once the listener has let it go and stopped. *)
Definition ex_stopped : Life := MkLife {[5]} {[5]} {[5 := HWait]} {[5]} LGone [] RIdle.

Lemma ex_stopped_reachable : life_reachable [EvAccept 5] ex_stopped.
Proof.
  pose proof (LifeStep _ _ _ _ ex_life_reachable (LifeNotify _ _ _ _ _ _ _)) as R1.
  pose proof (LifeStep _ _ _ _ R1 (LifeStop _ _ _ _ _ _)) as R2. exact R2.
Qed.

Lemma sync_shutdown_witness :
  lpc ex_stopped = LGone /\
  forall n s', nsteps life_goes n ex_stopped s' -> (n <= 5)%nat.
Proof.
  split; [done|]. intros n s' Hn.
  destruct (sync_shutdown [EvAccept 5] ex_stopped s' n ex_stopped_reachable eq_refl Hn) as [Hle _].
  exact Hle.
Defined.
End Witness.
