(* ===== verification/Addr.v ===== *)
(** Transport addresses (src/src/common.rs for the synchronous runtime,
    src/src/asynchronous/transport for the asynchronous one, as compiled for Linux): schemes, vsock
    addresses, and the creation, binding and connecting of sockets. *)
From S2P Require Import Prelude Errors.

(** ** Strings *)

(** The white space of ASCII; an address with other white space is outside of the model. *)
Definition is_space (c : Ascii.ascii) : bool :=
  bool_decide (ascii_num c = 32) || bool_decide (9 <= ascii_num c <= 13).

Fixpoint trim_start (s : string) : string :=
  match s with
  | String a s' => if is_space a then trim_start s' else s
  | EmptyString => EmptyString
  end.
(** [str::trim]: a character is dropped from the end when only white space follows it. *)
Fixpoint trim_end (s : string) : string :=
  match s with
  | EmptyString => EmptyString
  | String a s' =>
      match trim_end s' with
      | EmptyString => if is_space a then EmptyString else String a EmptyString
      | t => String a t
      end
  end.
Definition trim (s : string) : string := trim_end (trim_start s).

(** ** [u32::from_str] *)

Inductive IntErrorKind := Empty | InvalidDigit | PosOverflow.
#[global] Instance IntErrorKind_eq_dec : EqDecision IntErrorKind.
Proof. solve_decision. Defined.

(** The derived [Debug] of [ParseIntError]. *)
Definition parse_int_debug (e : IntErrorKind) : string :=
  "ParseIntError { kind: " +:+
  match e with Empty => "Empty" | InvalidDigit => "InvalidDigit" | PosOverflow => "PosOverflow" end
  +:+ " }".

Definition to_digit (c : Ascii.ascii) : option Z :=
  if decide (48 <= ascii_num c <= 57) then Some (ascii_num c - 48) else None.

(** The loop over the digits: an invalid digit is reported before an overflow. *)
Fixpoint parse_digits (acc : Z) (s : string) : res IntErrorKind Z :=
  match s with
  | EmptyString => Ok acc
  | String c s' =>
      match to_digit c with
      | None => Err InvalidDigit
      | Some d =>
          if decide (acc * 10 >= U32) then Err PosOverflow
          else if decide (acc * 10 + d >= U32) then Err PosOverflow
          else parse_digits (acc * 10 + d) s'
      end
  end.

(** A sign alone is an invalid digit; a leading plus sign is accepted, a minus sign is not. *)
Definition plus : Ascii.ascii := Ascii.ascii_of_nat 43.
Definition minus : Ascii.ascii := Ascii.ascii_of_nat 45.
Definition colon : Ascii.ascii := Ascii.ascii_of_nat 58.

Definition parse_u32 (s : string) : res IntErrorKind Z :=
  match s with
  | EmptyString => Err Empty
  | String c EmptyString =>
      if decide (c = plus \/ c = minus) then Err InvalidDigit else parse_digits 0 s
  | String c s' => if decide (c = plus) then parse_digits 0 s' else parse_digits 0 s
  end.

(** ** Vsock addresses *)

Definition VMADDR_CID_ANY : Z := 4294967295.

(** The two parsers differ only in their error type. *)
Section VsockParser.
Context {E : Type} (error : string -> E).

Definition parse_vsock (addr : string) : res E (Z * Z) :=
  match split_char colon addr with
  | [c; p] =>
      cid ← (if decide (trim c = "-1") then Ok VMADDR_CID_ANY
             else map_err (fun e => error ("failed to parse cid from " +:+ debug_str c +:+
                                           " error: " +:+ parse_int_debug e)) (parse_u32 c));
      port ← map_err (fun e => error ("failed to parse port from " +:+ debug_str p +:+
                                      " error: " +:+ parse_int_debug e)) (parse_u32 p);
      Ok (cid, port)
  | _ => Err (error ("sockaddr " +:+ addr +:+ " is not right for vsock"))
  end.
End VsockParser.

(** [parse_vscok] of the synchronous runtime, and [parse_vsock_addr] of the asynchronous one, which
    fails with [io::Error::other] of the text. *)
Definition parse_vscok (addr : string) : Result (Z * Z) := parse_vsock Others addr.
Definition parse_vsock_addr (addr : string) : res string (Z * Z) := parse_vsock id addr.

(** ** Schemes *)

Inductive Domain := Unix | Tcp | Vsock.
#[global] Instance Domain_eq_dec : EqDecision Domain.
Proof. solve_decision. Defined.

(** [parse_sockaddr]. *)
Definition parse_sockaddr (addr : string) : Result (Domain * string) :=
  match strip_prefix "unix://" addr with
  | Some addr => Ok (Unix, addr)
  | None =>
      match strip_prefix "vsock://" addr with
      | Some addr => Ok (Vsock, addr)
      | None =>
          match strip_prefix "tcp://" addr with
          | Some addr => Ok (Tcp, addr)
          | None => Err (Others ("Scheme " +:+ debug_str addr +:+ " is not supported"))
          end
      end
  end.

(** [parse_sockaddr] as compiled for other systems than Linux and Android. *)
Definition parse_sockaddr_other (addr : string) : Result (Domain * string) :=
  match strip_prefix "unix://" addr with
  | Some addr =>
      if strip_prefix "@" addr is Some _
      then Err (Others "Abstract unix domain socket is not support on this platform") else Ok (Unix, addr)
  | None =>
      match strip_prefix "tcp://" addr with
      | Some addr => Ok (Tcp, addr)
      | None => Err (Others ("Scheme " +:+ debug_str addr +:+ " is not supported"))
      end
  end.

(** There an address is accepted as on Linux, unless it is a vsock or abstract address. *)
Lemma other_platforms addr d rest :
  parse_sockaddr_other addr = Ok (d, rest) <->
  parse_sockaddr addr = Ok (d, rest) /\ d <> Vsock /\ (d = Unix -> strip_prefix "@" rest = None).
Proof.
  unfold parse_sockaddr_other, parse_sockaddr. destruct (strip_prefix "unix://" addr) as [u|] eqn:Eu.
  - destruct (strip_prefix "@" u) as [a|] eqn:Ea.
    + split; [done|]. intros (E & _ & Hu). simplify_eq. specialize (Hu eq_refl). congruence.
    + split; [intros [= <- <-]; by split_and!|by intros (E & _)].
  - destruct (strip_prefix "vsock://" addr) as [v|] eqn:Ev.
    + apply strip_prefix_Some in Ev as ->. split; [done|]. intros (E & Hv & _). by simplify_eq.
    + destruct (strip_prefix "tcp://" addr) as [t|].
      * split; [intros [= <- <-]; by split_and!|by intros (E & _)].
      * split; [done|by intros (E & _)].
Qed.

(** [Listener::bind] and [Socket::connect] of the asynchronous runtime up to the function of the
    transport, which the domain names. *)
Definition async_scheme (addr : string) : res string (Domain * string) :=
  match strip_prefix "unix://" addr with
  | Some addr => Ok (Unix, addr)
  | None =>
      match strip_prefix "tcp://" addr with
      | Some addr => Ok (Tcp, addr)
      | None =>
          match strip_prefix "vsock://" addr with
          | Some addr => Ok (Vsock, addr)
          | None => Err ("Scheme of " +:+ debug_str addr +:+ " is not supported")
          end
      end
  end.

(** ** Sockets *)

(** The address constructors of nix and of the standard library, by what they accept. *)
Class AddrMakers := {
  UnixAddr : Type; InetAddr : Type;
  unix_new : string -> res string UnixAddr;
  unix_new_abstract : string -> res string UnixAddr;
  inet_from_str : string -> res string InetAddr }.

(** The system calls on sockets: the descriptors that are open, and their outcomes. *)
Class SockCalls (K : Type) := {
  sys_socket : Domain -> st K Z Z;
  sys_setsockopt : Z -> string -> st K Z unit;
  sys_bind : Z -> st K Z unit;
  sys_connect : Z -> st K Z unit;
  sys_open : K -> gset Z }.

(** [socket] opens a descriptor when it succeeds; the other calls open and close nothing. *)
Class SockCallsLaws (K : Type) `{SockCalls K} : Prop := {
  socket_ok : forall d k k' fd, sys_socket d k = (k', Ok fd) ->
    (fd ∉ sys_open k) /\ sys_open k' = {[fd]} ∪ sys_open k;
  socket_err : forall d k k' e, sys_socket d k = (k', Err e) -> sys_open k' = sys_open k;
  setsockopt_open : forall fd o k k' r, sys_setsockopt fd o k = (k', r) -> sys_open k' = sys_open k;
  bind_open : forall fd k k' r, sys_bind fd k = (k', r) -> sys_open k' = sys_open k;
  connect_open : forall fd k k' r, sys_connect fd k = (k', r) -> sys_open k' = sys_open k }.

Section Sockets.
Context {K : Type} `{SockCalls K, Texts, AddrMakers}.

Inductive SockAddr :=
  | AddrUnix (a : UnixAddr)
  | AddrInet (a : InetAddr)
  | AddrVsock (cid port : Z).

(** [make_addr]. *)
Definition make_addr (domain : Domain) (sockaddr : string) : Result UnixAddr :=
  match domain with
  | Unix =>
      match strip_prefix "@" sockaddr with
      | Some sockaddr => map_err (err_to_others_err "") (unix_new_abstract sockaddr)
      | None => map_err (err_to_others_err "") (unix_new sockaddr)
      end
  | Vsock | Tcp => Err (Others "function make_addr does not support create vsock/tcp socket")
  end.

(** [parse_unix_addr] of the asynchronous runtime, over its own constructors. *)
Definition parse_unix_addr {A E} (from_abstract_name from_pathname : string -> res E A)
    (addr : string) : res E A :=
  match strip_prefix "@" addr with
  | Some addr => from_abstract_name addr
  | None => from_pathname addr
  end.

(** [make_socket]; a failed [socket] is an [Error::Socket]. *)
Definition make_socket (sockaddr : string) : st K Error (Z * Domain * SockAddr) :=
  '(domain, sockaddrv) ← st_lift (parse_sockaddr sockaddr);
  let socket d := sys_socket d ?: (Socket ∘ nix_display) in
  match domain with
  | Unix =>
      fd ← socket Unix;
      a ← st_lift (make_addr domain sockaddrv);
      mret (fd, domain, AddrUnix a)
  | Tcp =>
      fd ← socket Tcp;
      a ← st_lift (map_err (err_to_others_err "") (inet_from_str sockaddrv));
      mret (fd, domain, AddrInet a)
  | Vsock =>
      '(cid, port) ← st_lift (parse_vscok sockaddrv);
      fd ← socket Vsock;
      mret (fd, domain, AddrVsock cid port)
  end.

(** The value of [TTRPC_TCP_NODELAY_ENABLED] that enables the option. *)
Definition tcp_nodelay_enabled (env : option string) : bool :=
  match env with
  | Some v => bool_decide (v = "1") || bool_decide (to_ascii_lowercase v = "true")
  | None => false
  end.

(** [set_socket_opts]. *)
Definition set_socket_opts (env : option string) (fd : Z) (domain : Domain) (is_bind : bool)
  : st K Error unit :=
  if decide (domain <> Tcp) then mret tt
  else
    _ ← (if is_bind then sys_setsockopt fd "ReusePort" ?: Nix else mret tt);
    if tcp_nodelay_enabled env then sys_setsockopt fd "TcpNoDelay" ?: Nix else mret tt.

(** [do_bind]. *)
Definition do_bind (env : option string) (sockaddr : string) : st K Error (Z * Domain) :=
  '(fd, domain, a) ← make_socket sockaddr;
  _ ← set_socket_opts env fd domain true;
  _ ← sys_bind fd ?: (err_to_others_err "" ∘ nix_display);
  mret (fd, domain).

(** [client_connect]. *)
Definition client_connect (env : option string) (sockaddr : string) : st K Error Z :=
  '(fd, domain, a) ← make_socket sockaddr;
  _ ← set_socket_opts env fd domain false;
  _ ← sys_connect fd ?: Nix;
  mret fd.
End Sockets.

(** ** Lemmas on strings *)

Definition is_digit (c : Ascii.ascii) : bool := bool_decide (48 <= ascii_num c <= 57).

Lemma trim_start_all p s : string_all p s = true -> string_all p (trim_start s) = true.
Proof.
  induction s as [|a s IH]; cbn; [done|]. intros [Ha Hs]%andb_prop.
  destruct (is_space a); [by apply IH|]. cbn. by rewrite Ha.
Qed.

Lemma trim_end_all p s : string_all p s = true -> string_all p (trim_end s) = true.
Proof.
  induction s as [|a s IH]; cbn; [done|]. intros [Ha Hs]%andb_prop. specialize (IH Hs).
  destruct (trim_end s); [destruct (is_space a); [done|]|]; cbn in *; by rewrite Ha.
Qed.

Lemma trim_start_spaces a t :
  string_all is_space a = true -> trim_start (a +:+ t) = trim_start t.
Proof.
  induction a as [|c a IH]; [done|]. intros [Hc Ha]%andb_prop.
  rewrite string_cons_app. cbn [trim_start]. rewrite Hc. by apply IH.
Qed.

Lemma trim_end_spaces b : string_all is_space b = true -> trim_end b = "".
Proof.
  induction b as [|c b IH]; cbn; [done|]. intros [Hc Hb]%andb_prop. by rewrite IH, Hc.
Qed.

(** ** Lemmas on numbers *)

Lemma parse_digits_all acc s n : parse_digits acc s = Ok n -> string_all is_digit s = true.
Proof.
  revert acc. induction s as [|c s IH]; intros acc; cbn; [done|]. unfold to_digit, is_digit.
  case_decide as Hc; [|done]. case_decide; [done|]. case_decide; [done|].
  intros E. rewrite bool_decide_eq_true_2 by done. by eapply IH.
Qed.

Lemma parse_digits_range acc s n : 0 <= acc < U32 -> parse_digits acc s = Ok n -> is_u32 n.
Proof.
  revert acc. induction s as [|c s IH]; intros acc Ha; cbn; [by intros [= <-]|]. unfold to_digit.
  case_decide as Hc; [|done]. case_decide; [done|]. case_decide; [done|]. apply IH. lia.
Qed.

Lemma parse_u32_range s n : parse_u32 s = Ok n -> is_u32 n.
Proof.
  assert (0 <= 0 < U32) by done. destruct s as [|c [|d s]]; [done| |]; unfold parse_u32;
    case_decide; try done; by apply parse_digits_range.
Qed.

(** Parsing a decimal rendering. *)
Lemma digit_char (d : N) : (d < 10)%N -> to_digit (pretty_N_char d) = Some (Z.of_N d).
Proof.
  intros Hd. destruct d as [|p]; [done|].
  do 4 (destruct p as [p|p|]; try done; try (exfalso; lia)).
Qed.

Lemma parse_pretty_go n s :
  (Z.of_N n < U32) -> parse_digits 0 (pretty_N_go n s) = parse_digits (Z.of_N n) s.
Proof.
  revert s. induction (N.lt_wf_0 n) as [n _ IH]; intros s Hn.
  destruct (decide (n = 0)%N) as [->|Hnz]; [by rewrite pretty_N_go_0|].
  rewrite pretty_N_go_step by lia.
  assert (n `mod` 10 < 10)%N as Hm by (by apply N.mod_lt).
  assert (n `div` 10 < n)%N as Hlt by (apply N.div_lt; lia).
  pose proof (N.div_mod n 10 ltac:(done)) as Hdm.
  rewrite IH by lia. cbn [parse_digits]. rewrite digit_char by done.
  generalize dependent (n `div` 10)%N. intros q Hlt Hdm. generalize dependent (n `mod` 10)%N.
  intros r Hm Hdm. rewrite !decide_False by lia. f_equal. lia.
Qed.

Lemma parse_digits_pretty (n : Z) : is_u32 n -> parse_digits 0 (pretty n) = Ok n.
Proof.
  intros Hn. unfold is_u32 in Hn. destruct n as [|p|p]; [done| |lia].
  change (pretty (Z.pos p)) with (pretty_N_go (N.pos p) "").
  by rewrite parse_pretty_go by (cbn; lia).
Qed.

Lemma parse_u32_digits s n : s <> "" -> parse_digits 0 s = Ok n -> parse_u32 s = Ok n.
Proof.
  intros Hne E. pose proof (parse_digits_all _ _ _ E) as Hd. destruct s as [|c s]; [done|].
  cbn in Hd. apply andb_prop in Hd as [Hc%bool_decide_eq_true _].
  assert (c <> plus /\ c <> minus) as [? ?].
  { split; intros ->; cbv in Hc; by destruct Hc. }
  unfold parse_u32. destruct s; rewrite decide_False by tauto; done.
Qed.

Lemma pretty_nonempty (n : Z) : pretty n <> "".
Proof.
  intros E. destruct (decide (is_u32 n)) as [Hn|Hn].
  - pose proof (parse_digits_pretty n Hn) as Hp. rewrite E in Hp. injection Hp as <-. done.
  - destruct n as [|p|p]; [done| |done].
    change (pretty (Z.pos p)) with (pretty_N_go (N.pos p) "") in E.
    assert (forall m s, s <> "" -> pretty_N_go m s <> "") as Hgo.
    { intros m. induction (N.lt_wf_0 m) as [m _ IH]; intros s Hs.
      destruct (decide (m = 0)%N) as [->|]; [by rewrite pretty_N_go_0|].
      rewrite pretty_N_go_step by lia. apply IH; [apply N.div_lt; lia|done]. }
    rewrite pretty_N_go_step in E by done. by apply Hgo in E.
Qed.

Lemma parse_u32_pretty n : is_u32 n -> parse_u32 (pretty n) = Ok n.
Proof. intros Hn. apply parse_u32_digits; [apply pretty_nonempty|by apply parse_digits_pretty]. Qed.

(** The decimal rendering has neither a colon nor, once trimmed, the form of the wildcard. *)
Lemma pretty_no_colon n : is_u32 n -> no_char colon (pretty n) = true.
Proof.
  intros Hn. eapply string_all_mono; [|by eapply parse_digits_all, parse_digits_pretty].
  intros c Hc%bool_decide_eq_true. apply bool_decide_eq_true. intros ->. cbv in Hc. by destruct Hc.
Qed.

Lemma pretty_not_wildcard n : is_u32 n -> trim (pretty n) <> "-1".
Proof.
  intros Hn E.
  assert (string_all is_digit (trim (pretty n)) = true) as Hd.
  { apply trim_end_all, trim_start_all. by eapply parse_digits_all, parse_digits_pretty. }
  by rewrite E in Hd.
Qed.

Lemma trim_wildcard a b :
  string_all is_space a = true -> string_all is_space b = true -> trim (a +:+ "-1" +:+ b) = "-1".
Proof.
  intros Ha Hb. unfold trim. rewrite trim_start_spaces by done.
  change (trim_start ("-1" +:+ b)) with (String minus (String (Ascii.ascii_of_nat 49) b)).
  cbn [trim_end]. by rewrite trim_end_spaces.
Qed.

Lemma spaces_no_colon a : string_all is_space a = true -> no_char colon a = true.
Proof.
  apply string_all_mono. intros c Hc. apply bool_decide_eq_true. intros ->. by vm_compute in Hc.
Qed.

(** ** Properties *)

(** Vsock addresses: both runtimes parse the decimal form of every CID and port to those
    numbers, and [-1], in any white space, to the wildcard CID; they accept and reject the same
    strings, and what they accept has one colon and gives two numbers of 32 bits. *)
Theorem vsock_addresses (cid port : Z) (a b addr : string) :
  is_u32 cid -> is_u32 port -> string_all is_space a = true -> string_all is_space b = true ->
  parse_vscok (pretty cid +:+ ":" +:+ pretty port) = Ok (cid, port) /\
  parse_vsock_addr (pretty cid +:+ ":" +:+ pretty port) = Ok (cid, port) /\
  parse_vscok ((a +:+ "-1" +:+ b) +:+ ":" +:+ pretty port) = Ok (VMADDR_CID_ANY, port) /\
  parse_vscok addr = map_err Others (parse_vsock_addr addr) /\
  forall r, parse_vscok addr = Ok r ->
    is_u32 r.1 /\ is_u32 r.2 /\
    exists c p, addr = c +:+ ":" +:+ p /\ parse_u32 p = Ok r.2 /\
      (trim c = "-1" /\ r.1 = VMADDR_CID_ANY \/ parse_u32 c = Ok r.1).
Proof.
  intros Hcid Hport Ha Hb.
  assert (forall E (error : string -> E) c, no_char colon c = true ->
    split_char colon (c +:+ ":" +:+ pretty port) = [c; pretty port]) as Hsplit.
  { intros E error c Hc. change (":" +:+ pretty port) with (String colon (pretty port)).
    rewrite split_char_app by done. by rewrite split_char_none by (by apply pretty_no_colon). }
  unfold parse_vscok, parse_vsock_addr, parse_vsock. split_and!.
  - rewrite (Hsplit _ Others) by (by apply pretty_no_colon). munfold.
    rewrite decide_False by (by apply pretty_not_wildcard). by rewrite !parse_u32_pretty.
  - rewrite (Hsplit _ Others) by (by apply pretty_no_colon). munfold.
    rewrite decide_False by (by apply pretty_not_wildcard). by rewrite !parse_u32_pretty.
  - rewrite (Hsplit _ Others).
    2: { unfold no_char. rewrite !string_all_app. fold (no_char colon a) (no_char colon b).
         by rewrite !spaces_no_colon. }
    munfold. rewrite decide_True by (by apply trim_wildcard). by rewrite parse_u32_pretty.
  - munfold. destruct (split_char colon addr) as [|c [|p [|]]]; try done.
    case_decide; [|destruct (parse_u32 c); [|done]]; by destruct (parse_u32 p).
  - intros [r1 r2]. munfold. destruct (split_char colon addr) as [|c [|p [|]]] eqn:Es; try done.
    apply split_char_two in Es.
    destruct (parse_u32 p) as [m|] eqn:Ep; [|case_decide; [done|by destruct (parse_u32 c)]].
    pose proof (parse_u32_range _ _ Ep).
    case_decide as Ht; [|destruct (parse_u32 c) as [n|] eqn:Ec; [|done]]; intros [= <- <-]; cbn [fst snd].
    + split_and!; [done|done|]. exists c, p. split_and!; [done|done|by left].
    + split_and!; [by eapply parse_u32_range|done|]. exists c, p. split_and!; [done|done|by right].
Qed.

(** Addresses of the transports: the synchronous runtime takes an address apart exactly into
    one of the three schemes and the rest, and the asynchronous runtime, which tries the schemes in
    another order, into the same; every other address is refused by both. *)
Theorem address_schemes (addr rest : string) (d : Domain) :
  let scheme := match d with Unix => "unix://" | Tcp => "tcp://" | Vsock => "vsock://" end in
  (parse_sockaddr addr = Ok (d, rest) <-> addr = scheme +:+ rest) /\
  (async_scheme addr = Ok (d, rest) <-> addr = scheme +:+ rest) /\
  (is_err (parse_sockaddr addr) = is_err (async_scheme addr)).
Proof.
  intros scheme. unfold parse_sockaddr, async_scheme.
  assert (forall p q r s, strip_prefix p addr = Some r -> strip_prefix q addr = Some s ->
    String.get 0 p = String.get 0 q \/ p = "" \/ q = "") as Hdis.
  { intros p q r s Hp%strip_prefix_Some Hq%strip_prefix_Some.
    destruct p as [|x p]; [by right; left|]. destruct q as [|y q]; [by right; right|].
    left. rewrite Hp in Hq. rewrite !string_cons_app in Hq. by injection Hq as ->. }
  destruct (strip_prefix "unix://" addr) as [u|] eqn:Eu;
    destruct (strip_prefix "tcp://" addr) as [t|] eqn:Et;
    destruct (strip_prefix "vsock://" addr) as [v|] eqn:Ev;
    try (by destruct (Hdis _ _ _ _ Eu Et) as [?|[?|?]]);
    try (by destruct (Hdis _ _ _ _ Eu Ev) as [?|[?|?]]);
    try (by destruct (Hdis _ _ _ _ Et Ev) as [?|[?|?]]);
    unfold scheme; destruct d; rewrite <- strip_prefix_Some, ?Eu, ?Et, ?Ev;
    split_and!; try done; split; intros; by simplify_eq.
Qed.

Lemma vsock_addresses_witness :
  parse_vscok "3:1024" = Ok (3, 1024) /\ parse_vscok " -1 :1024" = Ok (VMADDR_CID_ANY, 1024) /\
  exists c p, "+7:080" = c +:+ ":" +:+ p /\ parse_u32 p = Ok 80.
Proof.
  destruct (vsock_addresses 3 1024 " " " " "+7:080") as (Hd & _ & Hw & _ & Hr);
    [done|done|done|done|].
  split_and!; [exact Hd|exact Hw|].
  destruct (Hr (7, 80)) as (_ & _ & c & p & E & Hp & _); [by vm_compute|]. by exists c, p.
Defined.

(** The descriptor that [make_socket] gives is fresh, and the options leave it open. *)
Lemma make_socket_opens {K} `{SockCallsLaws K, Texts, AddrMakers} addr (k k' : K) fd d a :
  make_socket addr k = (k', Ok (fd, d, a)) -> (fd ∉ sys_open k) /\ sys_open k' = {[fd]} ∪ sys_open k.
Proof.
  unfold make_socket. munfold. destruct (parse_sockaddr addr) as [[[] rest]|]; [| | |done].
  - destruct (sys_socket Unix k) as [k1 [fd'|]] eqn:Es; cbn -[make_addr]; [|done].
    destruct (make_addr Unix rest); [|done]. intros; simplify_eq/=. by eapply socket_ok.
  - destruct (sys_socket Tcp k) as [k1 [fd'|]] eqn:Es; cbn; [|done].
    destruct (inet_from_str rest); [|done]. intros; simplify_eq/=. by eapply socket_ok.
  - destruct (parse_vscok rest) as [[cid port]|]; cbn; [|done].
    destruct (sys_socket Vsock k) as [k1 [fd'|]] eqn:Es; intros; simplify_eq/=. by eapply socket_ok.
Qed.

Lemma set_socket_opts_open {K} `{SockCallsLaws K} env fd d b (k k' : K) r :
  set_socket_opts env fd d b k = (k', r) -> sys_open k' = sys_open k.
Proof.
  unfold set_socket_opts. munfold. case_decide; [intros; by simplify_eq|].
  destruct b; [destruct (sys_setsockopt fd "ReusePort" k) as [k1 [[]|e]] eqn:E1; apply setsockopt_open in E1;
    cbn; [|intros; by simplify_eq]|];
    (destruct (tcp_nodelay_enabled env); [|intros; by simplify_eq]);
    destruct (sys_setsockopt fd "TcpNoDelay" _) as [k2 r2] eqn:E2; apply setsockopt_open in E2;
    intros; simplify_eq; congruence.
Qed.

Lemma client_connect_opens {K} `{SockCallsLaws K, Texts, AddrMakers} env addr (k k' : K) fd :
  client_connect env addr k = (k', Ok fd) -> (fd ∉ sys_open k) /\ sys_open k' = {[fd]} ∪ sys_open k.
Proof.
  unfold client_connect. munfold. destruct (make_socket addr k) as [k1 [[[fd' d] a]|e]] eqn:E1; [|done].
  apply make_socket_opens in E1 as [Hf Ho].
  destruct (set_socket_opts env fd' d false k1) as [k2 [[]|e]] eqn:E2; [|done]. apply set_socket_opts_open in E2.
  destruct (sys_connect fd' k2) as [k3 [[]|e]] eqn:E3; cbn; [|done]. apply connect_open in E3.
  intros; simplify_eq. split; [done|congruence].
Qed.

Lemma do_bind_opens {K} `{SockCallsLaws K, Texts, AddrMakers} env addr (k k' : K) fd d :
  do_bind env addr k = (k', Ok (fd, d)) -> (fd ∉ sys_open k) /\ sys_open k' = {[fd]} ∪ sys_open k.
Proof.
  unfold do_bind. munfold. destruct (make_socket addr k) as [k1 [[[fd' d'] a]|e]] eqn:E1; [|done].
  apply make_socket_opens in E1 as [Hf Ho].
  destruct (set_socket_opts env fd' d' true k1) as [k2 [[]|e]] eqn:E2; [|done]. apply set_socket_opts_open in E2.
  destruct (sys_bind fd' k2) as [k3 [[]|e]] eqn:E3; cbn; [|done]. apply bind_open in E3.
  intros; simplify_eq. split; [done|congruence].
Qed.

(** A socket that cannot be connected stays open: nobody closes its descriptor. *)
Lemma failed_connect_leaks {K} `{SockCallsLaws K, Texts, AddrMakers} env addr (k k1 k2 k3 : K) fd d a e :
  make_socket addr k = (k1, Ok (fd, d, a)) -> set_socket_opts env fd d false k1 = (k2, Ok tt) ->
  sys_connect fd k2 = (k3, Err e) ->
  client_connect env addr k = (k3, Err (Nix e)) /\ sys_open k3 = {[fd]} ∪ sys_open k.
Proof.
  intros E1 E2 E3. split.
  { unfold client_connect. munfold. by rewrite E1, E2, E3. }
  apply make_socket_opens in E1 as [_ Ho].
  by rewrite (connect_open _ _ _ _ E3), (set_socket_opts_open _ _ _ _ _ _ _ E2), Ho.
Qed.
