(* ===== verification/AsyncTransport.v ===== *)
(** The transports of the asynchronous runtime (src/src/asynchronous/transport, as compiled for
    Linux): binding and connecting by address, the conversion of raw descriptors and of sockets of
    the application, and the accept stream; with the constructors of [Client] (client.rs). *)
From S2P Require Import Prelude Errors Channel Addr Extension AsyncClient AsyncListen.

(** The sockets of the standard library, of tokio and of tokio-vsock, by their descriptors: a value
    owns one, and closes it when it is dropped ([net_close]). Errors are [io::Error]s by their
    [Display]. [net_open] and [net_nonblocking] are the open descriptors and those in non-blocking
    mode (specification only). *)
Class NetCalls (K : Type) := {
  UnixSockAddr : Type;
  InetSockAddr : Type;
  from_abstract_name : string -> res string UnixSockAddr;
  from_pathname : string -> res string UnixSockAddr;
  inet_parse : string -> res string InetSockAddr;
  unix_bind_addr : UnixSockAddr -> st K string Z;
  unix_connect_addr : UnixSockAddr -> st K string Z;
  tcp_bind : InetSockAddr -> st K string Z;
  tcp_connect : InetSockAddr -> st K string Z;
  vsock_bind : Z -> Z -> st K string Z;
  vsock_connect : Z -> Z -> st K string Z;
  set_nonblocking : Z -> st K string unit;
  tokio_from_std : Z -> st K string unit;
  vsock_listener_from_raw : Z -> K -> K;
  net_accept : Z -> st K string Z;
  net_close : Z -> K -> K;
  net_open : K -> gset Z;
  net_nonblocking : K -> gset Z }.

(** A call that makes a socket opens a fresh descriptor when it succeeds, and nothing otherwise. *)
Definition opens `{NetCalls K} (m : st K string Z) : Prop :=
  forall k k' r, m k = (k', r) ->
    match r with
    | Ok fd => (fd ∉ net_open k) /\ net_open k' = {[fd]} ∪ net_open k
    | Err _ => net_open k' = net_open k
    end.

Class NetLaws (K : Type) `{NetCalls K} : Prop := {
  unix_bind_opens : forall a, opens (unix_bind_addr a);
  unix_connect_opens : forall a, opens (unix_connect_addr a);
  tcp_bind_opens : forall a, opens (tcp_bind a);
  tcp_connect_opens : forall a, opens (tcp_connect a);
  vsock_bind_opens : forall c p, opens (vsock_bind c p);
  vsock_connect_opens : forall c p, opens (vsock_connect c p);
  accept_opens : forall fd, opens (net_accept fd);
  (* the sockets of tokio-vsock, and those that tokio accepts, are made non-blocking *)
  vsock_bind_nonblocking : forall c p k k' fd, vsock_bind c p k = (k', Ok fd) -> fd ∈ net_nonblocking k';
  vsock_connect_nonblocking : forall c p k k' fd, vsock_connect c p k = (k', Ok fd) -> fd ∈ net_nonblocking k';
  accept_nonblocking : forall l k k' fd, net_accept l k = (k', Ok fd) -> fd ∈ net_nonblocking k';
  set_nonblocking_open : forall fd k k' r, set_nonblocking fd k = (k', r) -> net_open k' = net_open k;
  set_nonblocking_ok : forall fd k k', set_nonblocking fd k = (k', Ok tt) -> fd ∈ net_nonblocking k';
  from_std_open : forall fd k k' r, tokio_from_std fd k = (k', r) -> net_open k' = net_open k;
  from_std_nonblocking : forall fd k k' r, tokio_from_std fd k = (k', r) -> net_nonblocking k' = net_nonblocking k;
  vsock_raw_open : forall fd k, net_open (vsock_listener_from_raw fd k) = net_open k;
  close_open : forall fd k, net_open (net_close fd k) = net_open k ∖ {[fd]} }.

Section Transport.
(** [security_extension]: whether the feature is enabled; [C]: byte streams of the application. *)
Context {K : Type} `{NetCalls K, Texts} (security_extension : bool) {C : Type}.

(** A socket that the code owns: it is dropped, and so closed, when what follows fails. *)
Definition owning {A} (fd : Z) (m : st K string A) : st K string A := fun k =>
  match m k with
  | (k', Err e) => (net_close fd k', Err e)
  | (k', Ok a) => (k', Ok a)
  end.

(** ** Sockets and listeners *)

(** [Socket]: a byte stream whose type is erased, and its descriptor if it was captured. *)
Record Socket := MkSocket { inner : Z + C; raw_fd : option Z }.

Definition socket_new (socket : Z + C) : Socket := MkSocket socket None.
Definition with_raw_fd (socket : Z + C) (fd : Z) : Socket := MkSocket socket (Some fd).
Definition socket_as_raw_fd (s : Socket) : option Z := raw_fd s.

(** [from_fd_aware], and with it [From<UnixStream>], [From<TcpStream>] and [From<VsockStream>]. *)
Definition from_fd_aware (fd : Z) : Socket :=
  if security_extension then with_raw_fd (inl fd) fd else socket_new (inl fd).

(** [Listener]: the accept loop of a platform listener, or a stream of the application. *)
Inductive Listener :=
  | Platform (fd : Z)
  | Custom (items : list (res string C)).

(** [Listener::new]. *)
Definition listener_new (items : list (res string C)) : Listener := Custom items.

(** [Listener::poll_next]: the platform loops yield every result of [accept] and go on; a stream of
    the application has its items wrapped. *)
Definition listener_next (l : Listener) (k : K) : K * Listener * option (res string Socket) :=
  match l with
  | Platform fd => let '(k', r) := net_accept fd k in (k', l, Some (from_fd_aware <$> r))
  | Custom [] => (k, l, None)
  | Custom (i :: items) => (k, Custom items, Some ((fun c => socket_new (inr c)) <$> i))
  end.

(** [TryFrom<StdUnixListener>], [TryFrom<StdUnixStream>] and their TCP counterparts up to the
    conversion of tokio's value: the descriptor is made non-blocking and registered. *)
Definition try_from_std (fd : Z) : st K string Z :=
  owning fd (_ ← set_nonblocking fd; _ ← tokio_from_std fd; mret fd).

Definition listener_try_from (fd : Z) : st K string Listener := fd ← try_from_std fd; mret (Platform fd).
Definition socket_try_from (fd : Z) : st K string Socket := fd ← try_from_std fd; mret (from_fd_aware fd).

(** ** By address *)

Definition parse_tcp_addr (addr : string) : res string InetSockAddr :=
  map_err (fun e => "Failed to parse TCP address '" +:+ addr +:+ "': " +:+ e) (inet_parse addr).

Definition bind_unix (addr : string) : st K string Listener :=
  addr ← st_lift (parse_unix_addr from_abstract_name from_pathname addr);
  listener ← unix_bind_addr addr;
  listener_try_from listener.
Definition bind_tcp (addr : string) : st K string Listener :=
  addr ← st_lift (parse_tcp_addr addr);
  listener ← tcp_bind addr;
  listener_try_from listener.
Definition bind_vsock (addr : string) : st K string Listener :=
  '(cid, port) ← st_lift (parse_vsock_addr addr);
  fd ← vsock_bind cid port;
  mret (Platform fd).

Definition connect_unix (addr : string) : st K string Socket :=
  addr ← st_lift (parse_unix_addr from_abstract_name from_pathname addr);
  socket ← unix_connect_addr addr;
  socket_try_from socket.
Definition connect_tcp (addr : string) : st K string Socket :=
  addr ← st_lift (parse_tcp_addr addr);
  socket ← tcp_connect addr;
  socket_try_from socket.
Definition connect_vsock (addr : string) : st K string Socket :=
  '(cid, port) ← st_lift (parse_vsock_addr addr);
  fd ← vsock_connect cid port;
  mret (from_fd_aware fd).

(** [Listener::bind] and [Socket::connect]. *)
Definition listener_bind (addr : string) : st K string Listener :=
  '(d, addr) ← st_lift (async_scheme addr);
  match d with Unix => bind_unix addr | Tcp => bind_tcp addr | Vsock => bind_vsock addr end.
Definition socket_connect (addr : string) : st K string Socket :=
  '(d, addr) ← st_lift (async_scheme addr);
  match d with Unix => connect_unix addr | Tcp => connect_tcp addr | Vsock => connect_vsock addr end.

(** [from_raw_unix_listener_fd], [from_raw_tcp_listener_fd] and [from_raw_vsock_listener_fd];
    [from_raw_unix_socket_fd] and [from_raw_tcp_socket_fd]. The conversion of a vsock descriptor is
    tokio-vsock's. *)
Definition from_raw_unix_listener_fd : Z -> st K string Listener := listener_try_from.
Definition from_raw_tcp_listener_fd : Z -> st K string Listener := listener_try_from.
Definition from_raw_vsock_listener_fd (fd : Z) : st K string Listener := fun k =>
  (vsock_listener_from_raw fd k, Ok (Platform fd)).
Definition from_raw_unix_socket_fd : Z -> st K string Socket := socket_try_from.
Definition from_raw_tcp_socket_fd : Z -> st K string Socket := socket_try_from.

(** Dropping a socket. *)
Definition drop_socket (s : Socket) (k : K) : K := match inner s with inl fd => net_close fd k | inr _ => k end.

(** ** Clients *)

Section Clients.
Context {D T : Type} {Q : Type -> Type} `{PayloadTransform T, Mpsc Q} (data_default : D).

Abbreviation Conn := (@AsyncClient.Conn D T Q).

(** [Client::new_inner], which consumes the socket: the client's state with the socket that its
    connection task owns. *)
Definition client_new_inner (s : Socket) (hook : option (Hook D T)) : st K Error (Conn * Socket) := fun k =>
  match new_inner data_default (socket_as_raw_fd s) hook with
  | Ok c => (k, Ok (c, s))
  | Err e => (drop_socket s k, Err e)
  end.

(** [Client::connect]. *)
Definition client_connect (sockaddr : string) : st K Error (Conn * Socket) :=
  socket ← socket_connect sockaddr ?: err_to_others_err "Socket::connect error ";
  client_new_inner socket None.

(** [Client::new] and [Client::from_raw_unix_socket_fd]: [None] is a panic. *)
Definition client_new (s : Socket) (k : K) : option (K * (Conn * Socket)) :=
  match client_new_inner s None k with (k', Ok c) => Some (k', c) | (_, Err _) => None end.
Definition client_from_raw_unix_socket_fd (fd : Z) (k : K) : option (K * (Conn * Socket)) :=
  match from_raw_unix_socket_fd fd k with (k', Ok s) => client_new s k' | (_, Err _) => None end.

(** [Client::with_hook]. *)
Definition with_hook (s : Socket) (hook : Hook D T) : st K Error (Conn * Socket) := client_new_inner s (Some hook).
End Clients.

(** ** Lemmas *)

Context `{!NetLaws K}.

(** The value owns a fresh, non-blocking descriptor, or nothing is left open. *)
Definition opens_nonblocking {A} (owned : A -> Z -> Prop) (m : st K string A) : Prop :=
  forall k k' r, m k = (k', r) ->
    match r with
    | Ok a => exists fd, owned a fd /\ (fd ∉ net_open k) /\ net_open k' = {[fd]} ∪ net_open k /\ fd ∈ net_nonblocking k'
    | Err _ => net_open k' = net_open k
    end.

(** A descriptor that is given away is kept by the value that is made of it, and made non-blocking, or
    closed; nothing else is opened or closed. *)
Definition takes_over {A} (owned : A -> Z -> Prop) (m : Z -> st K string A) : Prop :=
  forall fd k k' r, m fd k = (k', r) ->
    match r with
    | Ok a => owned a fd /\ net_open k' = net_open k /\ fd ∈ net_nonblocking k'
    | Err _ => net_open k' = net_open k ∖ {[fd]}
    end.

Lemma open_close fd k : fd ∉ net_open k -> ({[fd]} ∪ net_open k) ∖ {[fd]} = net_open k.
Proof.
  intros Hf. apply set_eq. intros x. rewrite elem_of_difference, elem_of_union, elem_of_singleton.
  split; [tauto|]. intros Hx. split; [by right|]. by intros ->.
Qed.

Lemma try_from_std_spec fd k k' r :
  try_from_std fd k = (k', r) ->
  match r with
  | Ok fd' => fd' = fd /\ net_open k' = net_open k /\ fd ∈ net_nonblocking k'
  | Err _ => net_open k' = net_open k ∖ {[fd]}
  end.
Proof.
  unfold try_from_std, owning. munfold. destruct (set_nonblocking fd k) as [k1 [[]|e]] eqn:E1; cbn.
  - destruct (tokio_from_std fd k1) as [k2 [[]|e]] eqn:E2; cbn; intros [= <- <-].
    + rewrite (from_std_open _ _ _ _ E2), (from_std_nonblocking _ _ _ _ E2), (set_nonblocking_open _ _ _ _ E1).
      split_and!; [done|done|by eapply set_nonblocking_ok].
    + by rewrite close_open, (from_std_open _ _ _ _ E2), (set_nonblocking_open _ _ _ _ E1).
  - intros [= <- <-]. by rewrite close_open, (set_nonblocking_open _ _ _ _ E1).
Qed.

Lemma registered_takes_over {A} (owned : A -> Z -> Prop) (wrap : Z -> A) :
  (forall fd, owned (wrap fd) fd) -> takes_over owned (fun fd => fd ← try_from_std fd; mret (wrap fd)).
Proof.
  intros Hw fd k k' r. munfold. destruct (try_from_std fd k) as [k1 [fd'|e]] eqn:E; apply try_from_std_spec in E;
    intros [= <- <-]; [|done]. destruct E as (-> & ? & ?). by split_and!.
Qed.

(** A socket that is made, then made non-blocking and registered. *)
Lemma made_and_registered {A B} (owned : A -> Z -> Prop) (parsed : res string B) (make : B -> st K string Z)
    (wrap : Z -> A) :
  (forall b, opens (make b)) -> (forall fd, owned (wrap fd) fd) ->
  opens_nonblocking owned (b ← st_lift parsed; fd ← make b; fd ← try_from_std fd; mret (wrap fd)).
Proof.
  intros Hm Hw k k' r. munfold. destruct parsed as [b|e]; [|by intros [= <- <-]].
  destruct (make b k) as [k1 [fd|e]] eqn:E1; apply Hm in E1; [|by intros [= <- <-]].
  destruct E1 as [Hf Ho]. destruct (try_from_std fd k1) as [k2 [fd'|e]] eqn:E2; apply try_from_std_spec in E2;
    intros [= <- <-].
  - destruct E2 as (-> & Ho' & Hnb). exists fd. split_and!; [done|done|by rewrite Ho'|done].
  - rewrite E2, Ho. by apply open_close.
Qed.

Lemma made_nonblocking {A} (owned : A -> Z -> Prop) (parsed : res string (Z * Z)) (make : Z -> Z -> st K string Z)
    (wrap : Z -> A) :
  (forall c p, opens (make c p)) -> (forall c p k k' fd, make c p k = (k', Ok fd) -> fd ∈ net_nonblocking k') ->
  (forall fd, owned (wrap fd) fd) ->
  opens_nonblocking owned ('(c, p) ← st_lift parsed; fd ← make c p; mret (wrap fd)).
Proof.
  intros Hm Hn Hw k k' r. munfold. destruct parsed as [[c p]|e]; [|by intros [= <- <-]].
  destruct (make c p k) as [k1 [fd|e]] eqn:E1; pose proof (Hm _ _ _ _ _ E1) as Ho; intros [= <- <-]; [|done].
  destruct Ho as [Hf Ho]. exists fd. split_and!; [done|done|done|by eapply Hn].
Qed.

Definition listens_on (l : Listener) (fd : Z) : Prop := l = Platform fd.
Definition socket_on (s : Socket) (fd : Z) : Prop :=
  inner s = inl fd /\ raw_fd s = if security_extension then Some fd else None.

Lemma from_fd_aware_on fd : socket_on (from_fd_aware fd) fd.
Proof. unfold from_fd_aware, socket_on. by destruct security_extension. Qed.

Lemma listener_bind_opens addr : opens_nonblocking listens_on (listener_bind addr).
Proof.
  unfold listener_bind. destruct (async_scheme addr) as [[[] rest]|e].
  - apply made_and_registered; [apply unix_bind_opens|done].
  - apply made_and_registered; [apply tcp_bind_opens|done].
  - apply made_nonblocking; [apply vsock_bind_opens|apply vsock_bind_nonblocking|done].
  - intros k k' r. munfold. by intros [= <- <-].
Qed.

Lemma socket_connect_opens addr : opens_nonblocking socket_on (socket_connect addr).
Proof.
  unfold socket_connect. destruct (async_scheme addr) as [[[] rest]|e].
  - apply made_and_registered; [apply unix_connect_opens|apply from_fd_aware_on].
  - apply made_and_registered; [apply tcp_connect_opens|apply from_fd_aware_on].
  - apply made_nonblocking; [apply vsock_connect_opens|apply vsock_connect_nonblocking|apply from_fd_aware_on].
  - intros k k' r. munfold. by intros [= <- <-].
Qed.

Lemma drop_owned s fd k k' :
  socket_on s fd -> (fd ∉ net_open k) -> net_open k' = {[fd]} ∪ net_open k -> net_open (drop_socket s k') = net_open k.
Proof. intros [Hi _] Hf Ho. unfold drop_socket. rewrite Hi, close_open, Ho. by apply open_close. Qed.

(** ** Properties *)

Context {D T : Type} {Q : Type -> Type} `{PayloadTransform T, Mpsc Q} (data_default : D).

(** C22: descriptors of the asynchronous transports. Binding and connecting, for every address, either
    give a value that owns exactly one new descriptor, in non-blocking mode and, for a socket with
    the extension, exposed as its raw descriptor, or leave no descriptor open, whatever call failed.
    Each of the conversions of a raw Unix or TCP descriptor, listener or socket, gives a value that
    owns the very descriptor, made non-blocking, or closes it; that of a vsock listener owns the
    descriptor, whose mode is left to tokio-vsock. A connection that a platform listener accepts owns
    one new non-blocking descriptor. And a client that cannot be made, for want of a connection or
    because its hook fails, closes its socket. *)
Theorem transport_descriptors (addr : string) (h : Hook D T) :
  opens_nonblocking listens_on (listener_bind addr) /\
  opens_nonblocking socket_on (socket_connect addr) /\
  takes_over listens_on from_raw_unix_listener_fd /\ takes_over listens_on from_raw_tcp_listener_fd /\
  takes_over socket_on from_raw_unix_socket_fd /\ takes_over socket_on from_raw_tcp_socket_fd /\
  (forall fd k k' r, from_raw_vsock_listener_fd fd k = (k', r) -> r = Ok (Platform fd) /\ net_open k' = net_open k) /\
  (forall fd k k' l s, listener_next (Platform fd) k = (k', l, Some (Ok s)) ->
     exists c, socket_on s c /\ (c ∉ net_open k) /\ net_open k' = {[c]} ∪ net_open k /\ c ∈ net_nonblocking k') /\
  (forall k k' r, client_connect (T := T) (Q := Q) data_default addr k = (k', r) ->
     match r with
     | Ok (c, s) => exists fd, socket_on s fd /\ (fd ∉ net_open k) /\ net_open k' = {[fd]} ∪ net_open k
     | Err _ => net_open k' = net_open k
     end) /\
  (forall k k1 k2 s e, socket_connect addr k = (k1, Ok s) -> with_hook (Q := Q) data_default s h k1 = (k2, Err e) ->
     net_open k2 = net_open k).
Proof.
  pose proof (socket_connect_opens addr) as Hs.
  split_and!; [apply listener_bind_opens|done|by apply registered_takes_over|by apply registered_takes_over|
    apply registered_takes_over, from_fd_aware_on|apply registered_takes_over, from_fd_aware_on| | | |].
  - intros fd k k' r [= <- <-]. split; [done|apply vsock_raw_open].
  - intros fd k k' l s. cbn. destruct (net_accept fd k) as [k1 [c|e]] eqn:E; cbn; [|done]. intros [= <- <- <-].
    pose proof (accept_nonblocking _ _ _ _ E). apply accept_opens in E as [? ?]. exists c.
    split_and!; [apply from_fd_aware_on|done..].
  - intros k k' r. unfold client_connect, client_new_inner. munfold.
    destruct (socket_connect addr k) as [k1 [s|e]] eqn:E; apply Hs in E; cbn; intros [= <- <-]; [|done].
    destruct E as (fd & ? & ? & ? & _). eauto.
  - intros k k1 k2 s e E Eh. apply Hs in E as (fd & Ho & Hf & Hk & _). unfold with_hook, client_new_inner in Eh.
    destruct (new_inner _ _ _); simplify_eq. by eapply drop_owned.
Qed.

(** Connection hooks meet the descriptor of their own connection: with the extension, a socket
    connected by address gives the connect hook its descriptor and follows the hook's decision, the
    accept loop of a platform listener yields a socket whose descriptor the accept hook is given a
    duplicate of, and never comes to its end; sockets of the application, which expose no
    descriptor, are refused wherever a hook is set, before it runs. Without a hook the constructors
    of the client do not panic. *)
Theorem hooks_meet_descriptors (addr : string) (h : Hook D T) (k k' : K) :
  security_extension = true ->
  (forall s, socket_connect addr k = (k', Ok s) ->
     exists fd, fd ∈ net_open k' /\ with_hook (Q := Q) data_default s h k' =
       match h fd with
       | Ok out => (k', Ok (new_conn (context_new data_default (Some out)), s))
       | Err e => (net_close fd k', Err (Others ("client connect hook failed (fd=" +:+ pretty fd +:+ "): " +:+ hook_error_display e)))
       end) /\
  (forall fd l' o, listener_next (Platform fd) k = (k', l', o) ->
     l' = Platform fd /\
     match o with
     | None => False
     | Some (Err _) => net_open k' = net_open k
     | Some (Ok s) => exists c, (c ∉ net_open k) /\ net_open k' = {[c]} ∪ net_open k /\
         forall dup err, 0 <= dup c ->
           on_accept (MkExtConfig (Some h)) (socket_as_raw_fd s) dup err HookReturned = Some <$> h (dup c)
     end) /\
  (forall items l' s, listener_next (Custom items) k = (k', l', Some (Ok s)) ->
     is_err (with_hook (Q := Q) data_default s h k').2 = true /\
     forall dup err race, is_err (on_accept (MkExtConfig (Some h)) (socket_as_raw_fd s) dup err race) = true) /\
  (forall s, exists c, client_new (T := T) (Q := Q) data_default s k = Some (k, (c, s))).
Proof.
  intros Hext. split_and!.
  - intros s E. apply (socket_connect_opens addr) in E as (fd & [Hi Hr] & _ & Ho & _). exists fd.
    split; [rewrite Ho; apply elem_of_union; left; by apply elem_of_singleton|].
    unfold with_hook, client_new_inner, new_inner, socket_as_raw_fd. rewrite Hr, Hext.
    destruct (h fd); [done|]. unfold drop_socket. by rewrite Hi.
  - intros fd l' o. cbn. destruct (net_accept fd k) as [k1 r] eqn:E. intros [= <- <- <-]. split; [done|].
    apply accept_opens in E. destruct r as [c|e]; cbn; [|done]. destruct E as [Hf Ho]. exists c.
    split_and!; [done|done|]. intros dup err Hd. unfold from_fd_aware. rewrite Hext. cbn.
    unfold on_accept. cbn. munfold. by rewrite decide_False by lia.
  - intros items l' s E. destruct items as [|[c|e] items]; cbn in E; by simplify_eq.
  - intros s. eexists. done.
Qed.
End Transport.

Section Witness.
Local Instance net_texts : Texts :=
  {| status_debug := fun _ => ""; nix_display := pretty; nix_debug := pretty;
     tokio_send_error := "channel closed" |}.

(** A kernel on which the address [missing] cannot be connected, and nothing can be registered once
    ten descriptors are open. *)
Record SimNet := MkSimNet { sn_open : gset Z; sn_nonblocking : gset Z }.
Definition sim_make (nb : bool) : st SimNet string Z := fun k =>
  let fd := fresh (sn_open k) in
  (MkSimNet ({[fd]} ∪ sn_open k) (if nb then {[fd]} ∪ sn_nonblocking k else sn_nonblocking k), Ok fd).

Local Instance sim_net : NetCalls SimNet := {
  UnixSockAddr := string; InetSockAddr := string;
  from_abstract_name := Ok; from_pathname := Ok; inet_parse := Ok;
  unix_bind_addr := fun _ => sim_make false;
  unix_connect_addr := fun a => if decide (a = "missing") then st_fail "no such file" else sim_make false;
  tcp_bind := fun _ => sim_make false; tcp_connect := fun _ => sim_make false;
  vsock_bind := fun _ _ => sim_make true; vsock_connect := fun _ _ => sim_make true;
  set_nonblocking := fun fd k => (MkSimNet (sn_open k) ({[fd]} ∪ sn_nonblocking k), Ok tt);
  tokio_from_std := fun fd k => (k, if decide (10 < size (sn_open k))%nat then Err "no reactor" else Ok tt);
  vsock_listener_from_raw := fun fd k => MkSimNet (sn_open k) ({[fd]} ∪ sn_nonblocking k);
  net_accept := fun _ => sim_make true;
  net_close := fun fd k => MkSimNet (sn_open k ∖ {[fd]}) (sn_nonblocking k);
  net_open := sn_open; net_nonblocking := sn_nonblocking }.

Lemma sim_make_opens b : opens (sim_make b).
Proof. intros k k' r. unfold sim_make. intros [= <- <-]. split; [apply is_fresh|done]. Qed.

Lemma sim_make_nonblocking k k' fd : sim_make true k = (k', Ok fd) -> fd ∈ sn_nonblocking k'.
Proof. unfold sim_make. intros [= <- <-]. apply elem_of_union. left. by apply elem_of_singleton. Qed.

Local Instance sim_net_laws : NetLaws SimNet.
Proof.
  split; cbn; try (intros; apply sim_make_opens); try (intros; by eapply sim_make_nonblocking).
  - intros a. case_decide; [|apply sim_make_opens]. intros k k' r [= <- <-]. done.
  - by intros fd k k' r [= <- <-].
  - intros fd k k' [= <-]. apply elem_of_union. left. by apply elem_of_singleton.
  - by intros fd k k' r [= <- <-].
  - by intros fd k k' r [= <- <-].
  - done.
  - done.
Qed.

(** A hook that accepts even descriptors only. *)
Definition even_hook : Hook unit NonceTransform := fun fd =>
  if decide (fd mod 2 = 0) then Ok (MkHookOutput tt None) else Err (Rejected "odd").

Lemma hooks_meet_descriptors_witness :
  let k := MkSimNet {[0; 1; 2; 3]} ∅ in
  exists k' s, socket_connect true (C := unit) "unix:///run/svc" k = (k', Ok s) /\ raw_fd s <> None /\
    exists fd, fd ∈ net_open k' /\
      is_ok (with_hook (Q := ListChan) tt s even_hook k').2 = bool_decide (fd mod 2 = 0).
Proof.
  intros k. destruct (socket_connect true (C := unit) "unix:///run/svc" k) as [k' [s|e]] eqn:E;
    [|by vm_compute in E].
  exists k', s. split_and!; [done|by vm_compute in E; injection E as <- <-|].
  destruct (hooks_meet_descriptors (Q := ListChan) true (C := unit) tt "unix:///run/svc" even_hook k k' eq_refl)
    as (Hc & _). destruct (Hc s E) as (fd & Ho & Hh). exists fd. split; [exact Ho|]. rewrite Hh. unfold even_hook.
  destruct (decide (fd mod 2 = 0)); [by rewrite bool_decide_eq_true_2|by rewrite bool_decide_eq_false_2].
Defined.

Lemma transport_descriptors_witness :
  let k := MkSimNet {[0; 1; 2; 3]} ∅ in
  exists k' e, client_connect (Q := ListChan) (D := unit) (T := NonceTransform) true (C := unit) tt "unix://missing" k = (k', Err e) /\
    sn_open k' = sn_open k.
Proof.
  intros k. destruct (transport_descriptors (Q := ListChan) true (C := unit) tt "unix://missing" even_hook)
    as (_ & _ & _ & _ & _ & _ & _ & _ & Hc & _).
  destruct (client_connect (Q := ListChan) (D := unit) (T := NonceTransform) true (C := unit) tt "unix://missing" k)
    as [k' [c|e]] eqn:E; [by vm_compute in E|].
  exists k', e. split; [done|]. exact (Hc k k' (Err e) E).
Defined.
End Witness.
