(* ===== verification/AsyncPipe.v ===== *)
(** The asynchronous transport over Windows named pipes (src/src/asynchronous/transport/windows.rs): the accept
    stream, which keeps one instance listening, and connecting while all instances are busy. *)
From S2P Require Import Prelude SyncChannel.

Definition ERROR_PIPE_BUSY : Z := 231.

(** Tokio's named pipes by their handles: creating an instance, waiting for a client on one (the
    state when the wait is over), opening the client's end, and the timer. [pipe_open_handles] and
    [pipe_connected], the open handles and the instances that have a client, are specification only. *)
Class PipeCalls (K : Type) := {
  server_create : bool -> string -> st K IoErr Z;
  server_connect : Z -> st K IoErr unit;
  client_open : string -> st K IoErr Z;
  sleep_ms : Z -> K -> K;
  pipe_open_handles : K -> gset Z;
  pipe_connected : K -> gset Z }.

(** An instance is made with a fresh handle and without a client; waiting changes no handle, ends
    with a client or an error, and ends at once when there is a client. *)
Class PipeLaws (K : Type) `{PipeCalls K} : Prop := {
  server_create_opens : forall f a k k' r, server_create f a k = (k', r) ->
    pipe_connected k' = pipe_connected k /\
    match r with
    | Ok h => (h ∉ pipe_open_handles k) /\ (h ∉ pipe_connected k) /\ pipe_open_handles k' = {[h]} ∪ pipe_open_handles k
    | Err _ => pipe_open_handles k' = pipe_open_handles k
    end;
  server_connect_open : forall h k k' r, server_connect h k = (k', r) -> pipe_open_handles k' = pipe_open_handles k;
  server_connect_connects : forall h k k' r, server_connect h k = (k', r) ->
    pipe_connected k' = (if r is Ok _ then {[h]} else ∅) ∪ pipe_connected k;
  server_connect_connected : forall h k, h ∈ pipe_connected k -> server_connect h k = (k, Ok tt) }.

Section AsyncPipe.
Context {K : Type} `{PipeCalls K}.

(** ** Listening *)

(** [From<(NamedPipeServer, T)> for Listener]: the instance that waits for a client. *)
Record NamedPipes := MkNamedPipes { listening : Z; pipe_addr : string }.

(** [Listener::bind_named_pipe]. *)
Definition bind_named_pipe (addr : string) : st K IoErr NamedPipes :=
  listener ← server_create true addr; mret (MkNamedPipes listener addr).

(** One item of the stream: the instance with its client, once another instance could be made. *)
Definition pipes_next (l : NamedPipes) (k : K) : K * NamedPipes * res IoErr Z :=
  match server_connect (listening l) k with
  | (k, Err e) => (k, l, Err e)
  | (k, Ok _) =>
      match server_create false (pipe_addr l) k with
      | (k, Err e) => (k, l, Err e)
      | (k, Ok next) => (k, MkNamedPipes next (pipe_addr l), Ok (listening l))
      end
  end.

(** The items that the accept loop takes, one after the other. *)
Fixpoint pipes_items (n : nat) (l : NamedPipes) (k : K) : K * NamedPipes * list (res IoErr Z) :=
  match n with
  | O => (k, l, [])
  | S n =>
      let '(k, l, item) := pipes_next l k in
      let '(k, l, items) := pipes_items n l k in
      (k, l, item :: items)
  end.

(** ** Connecting *)

(** The loop of [Socket::connect_named_pipe]; [None] when it still goes on after [fuel] attempts. *)
Fixpoint connect_named_pipe (fuel : nat) (addr : string) (k : K) : option (K * res IoErr Z) :=
  match fuel with
  | O => None
  | S fuel =>
      match client_open addr k with
      | (k, Ok client) => Some (k, Ok client)
      | (k, Err e) =>
          if decide (raw_os_error e = Some ERROR_PIPE_BUSY) then connect_named_pipe fuel addr (sleep_ms 50 k)
          else Some (k, Err e)
      end
  end.

(** The state after a number of attempts that all found the pipe busy. *)
Fixpoint busy_for (attempts : nat) (addr : string) (k : K) : option K :=
  match attempts with
  | O => Some k
  | S n =>
      match client_open addr k with
      | (k, Err e) => if decide (raw_os_error e = Some ERROR_PIPE_BUSY) then busy_for n addr (sleep_ms 50 k) else None
      | (_, Ok _) => None
      end
  end.
Definition not_busy (r : res IoErr Z) : Prop := forall e, r = Err e -> raw_os_error e <> Some ERROR_PIPE_BUSY.

(** The instances that were handed out. *)
Definition handed_out (items : list (res IoErr Z)) : list Z :=
  omap (fun r => match r with Ok h => Some h | Err _ => None end) items.

(** ** Lemmas *)

Context `{!PipeLaws K}.

(** The listening instance is open, and no other open instance is one that was handed out. *)
Lemma pipes_next_spec l k k' l' r :
  listening l ∈ pipe_open_handles k -> pipes_next l k = (k', l', r) ->
  pipe_addr l' = pipe_addr l /\ listening l' ∈ pipe_open_handles k' /\
  match r with
  | Ok h => h = listening l /\ h ∈ pipe_connected k' /\ (listening l' ∉ pipe_open_handles k) /\
            (listening l' ∉ pipe_connected k') /\
            pipe_open_handles k' = {[listening l']} ∪ pipe_open_handles k
  | Err _ => l' = l /\ pipe_open_handles k' = pipe_open_handles k
  end.
Proof.
  intros Ho. unfold pipes_next. destruct (server_connect (listening l) k) as [k1 [u|e]] eqn:E1;
    pose proof (server_connect_open _ _ _ _ E1) as O1; pose proof (server_connect_connects _ _ _ _ E1) as C1.
  - destruct (server_create false (pipe_addr l) k1) as [k2 [h|e]] eqn:E2; apply server_create_opens in E2 as [C2 E2];
      intros [= <- <- <-]; cbn.
    + destruct E2 as (Hf & Hc & O2). rewrite O1 in Hf, O2. rewrite C2. split_and!; [done| |done| |done|done|done].
      * rewrite O2. apply elem_of_union. left. by apply elem_of_singleton.
      * rewrite C1. apply elem_of_union. left. by apply elem_of_singleton.
    + rewrite E2, O1. by split_and!.
  - intros [= <- <- <-]. rewrite O1. by split_and!.
Qed.

Lemma pipes_items_spec n l k k' l' items :
  listening l ∈ pipe_open_handles k -> pipes_items n l k = (k', l', items) ->
  length items = n /\ listening l' ∈ pipe_open_handles k' /\
  let handed := handed_out items in
  pipe_open_handles k' = {[listening l']} ∪ list_to_set handed ∪ pipe_open_handles k /\
  (handed = [] -> l' = l) /\
  (handed <> [] -> head handed = Some (listening l) /\ NoDup (handed ++ [listening l']) /\
     forall h, h ∈ tail handed ++ [listening l'] -> h ∉ pipe_open_handles k).
Proof.
  revert l k items. induction n as [|n IH]; intros l k items Ho; cbn [pipes_items].
  - intros [= <- <- <-]. cbn. split_and!; [done|done| |done|done]. apply set_eq. intros x.
    rewrite !elem_of_union, elem_of_singleton. split; [auto|]. intros [[->|Hx]|Hx]; [done|by apply not_elem_of_empty in Hx|done].
  - destruct (pipes_next l k) as [[k1 l1] r] eqn:E1. destruct (pipes_items n l1 k1) as [[k2 l2] its] eqn:E2.
    intros [= <- <- <-]. apply pipes_next_spec in E1 as (_ & Ho1 & Hr); [|done].
    destruct (IH _ _ _ Ho1 E2) as (Hl & Ho2 & Hop & Hnil & Hcons). cbn [length].
    replace (handed_out (r :: its)) with (match r with Ok h => h :: handed_out its | Err _ => handed_out its end)
      by (by destruct r).
    set (handed := handed_out its) in *. split; [by rewrite Hl|]. split; [done|].
    destruct r as [h|e]; cbv zeta.
    + destruct Hr as (-> & _ & Hfresh & _ & O1). rewrite O1 in Hop.
      assert (listening l1 = listening l2 \/ listening l1 ∈ handed) as Hin.
      { destruct (decide (handed = [])) as [E|E]; [left; by rewrite Hnil|right].
        destruct (Hcons E) as (Hh & _). destruct handed; [done|]. cbn in Hh. simplify_eq. left. }
      split_and!; [|done|].
      * rewrite Hop. apply set_eq. intros x. cbn [list_to_set].
        rewrite !elem_of_union, !elem_of_singleton, elem_of_list_to_set. split; [|intros [[->|[->|?]]|?]; tauto].
        intros [[->|?]|[->|?]]; [tauto|tauto| |tauto]. destruct Hin as [->|?]; tauto.
      * intros _. cbn [head tail app]. split; [done|].
        assert (forall h, h ∈ handed ++ [listening l2] -> h ∉ pipe_open_handles k) as Hall.
        { intros h Hh Hk. destruct (decide (handed = [])) as [E|E].
          - rewrite E in Hh. cbn in Hh. apply list_elem_of_singleton in Hh as ->. by rewrite (Hnil E) in Hk.
          - destruct (Hcons E) as (Hhd & _ & Hf). destruct handed as [|h0 hs]; [done|]. cbn in Hhd, Hh. simplify_eq.
            apply elem_of_cons in Hh as [->|Hh]; [done|]. apply (Hf h Hh). rewrite O1. apply elem_of_union. by right. }
        split; [|exact Hall]. constructor; [by intros Hh; apply (Hall _ Hh)|].
        destruct (decide (handed = [])) as [E|E]; [|by destruct (Hcons E) as (_ & ? & _)].
        rewrite E. cbn. apply NoDup_singleton.
    + destruct Hr as [-> O1]. rewrite O1 in *. split_and!; [exact Hop|exact Hnil|exact Hcons].
Qed.

(** ** Properties *)

(** A listener on a named pipe never stops listening and never loses a client: however many items
    the accept loop takes, and whichever of them are errors, exactly one instance waits, the
    instances handed out are distinct, were opened by the listener, and stay open with it; and an
    instance whose client was there when no further instance could be made is handed out by the next
    item that can make one. Connecting repeats while the pipe is busy, and returns the first other
    result. *)
Theorem named_pipes (addr : string) (n : nat) (k k1 k2 : K) (l l' : NamedPipes) (items : list (res IoErr Z)) :
  bind_named_pipe addr k = (k1, Ok l) -> pipes_items n l k1 = (k2, l', items) ->
  let opened := handed_out items ++ [listening l'] in
  NoDup opened /\ (forall h, h ∈ opened -> h ∉ pipe_open_handles k) /\
  pipe_open_handles k2 = list_to_set opened ∪ pipe_open_handles k /\
  (forall ka k3 e, server_connect (listening l') k2 = (ka, Ok tt) -> server_create false (pipe_addr l') ka = (k3, Err e) ->
     pipes_next l' k2 = (k3, l', Err e) /\
     forall next k4, server_create false (pipe_addr l') k3 = (k4, Ok next) ->
       pipes_next l' k3 = (k4, MkNamedPipes next (pipe_addr l'), Ok (listening l'))) /\
  forall fuel k3 k4 r, connect_named_pipe fuel addr k3 = Some (k4, r) <->
    exists attempts k', (attempts < fuel)%nat /\ busy_for attempts addr k3 = Some k' /\
      client_open addr k' = (k4, r) /\ not_busy r.
Proof.
  unfold bind_named_pipe. munfold. destruct (server_create true addr k) as [k0 [h0|e]] eqn:E0; [|done].
  intros [= <- <-] Ei. apply server_create_opens in E0 as [_ (Hf & _ & O0)].
  pose proof (pipes_items_spec n (MkNamedPipes h0 addr) k0 k2 l' items) as Hs. cbn [listening] in Hs.
  destruct Hs as (_ & _ & O2 & Hnil & Hcons); [rewrite O0; apply elem_of_union; left; by apply elem_of_singleton|done|].
  cbv zeta. set (handed := handed_out items) in *.
  assert (h0 ∈ handed ++ [listening l']) as Hh0.
  { destruct (decide (handed = [])) as [E|E]; [rewrite E, Hnil by done; left|].
    destruct (Hcons E) as (Hh & _). destruct handed; [done|]. cbn in Hh. simplify_eq. left. }
  split_and!.
  - destruct (decide (handed = [])) as [E|E]; [rewrite E; apply NoDup_singleton|by destruct (Hcons E) as (_ & ? & _)].
  - intros h Hh Hk. destruct (decide (handed = [])) as [E|E].
    + rewrite E, Hnil in Hh by done. by apply list_elem_of_singleton in Hh as ->.
    + destruct (Hcons E) as (Hhd & _ & Hfr). destruct handed as [|x xs]; [done|]. cbn in Hhd, Hh. simplify_eq.
      apply elem_of_cons in Hh as [->|Hh]; [done|]. apply (Hfr h Hh). rewrite O0. apply elem_of_union. by right.
  - rewrite O2, O0. apply set_eq. intros x. revert Hh0. rewrite !elem_of_union, !elem_of_singleton, !elem_of_list_to_set.
    rewrite !elem_of_app, !list_elem_of_singleton. intros Hh0.
    split; [intros [?|[->|?]]; tauto|tauto].
  - intros ka k3 e Hc He. split; [unfold pipes_next; by rewrite Hc, He|]. intros next k4 Hn. unfold pipes_next.
    apply server_create_opens in He as [Hk3 _]. apply server_connect_connects in Hc.
    rewrite server_connect_connected; [by rewrite Hn|]. rewrite Hk3, Hc. apply elem_of_union. left. by apply elem_of_singleton.
  - induction fuel as [|fuel IH]; intros k3 k4 r; cbn [connect_named_pipe].
    { split; [done|]. intros (m & _ & Hm & _). lia. }
    split.
    + destruct (client_open addr k3) as [k5 [c|e]] eqn:E5.
      * intros [= <- <-]. exists 0%nat, k3. split_and!; [lia|done|done|by intros e].
      * case_decide as Hb.
        -- intros (m & k' & Hm & Hbusy & Hr)%IH. exists (S m), k'. cbn [busy_for]. rewrite E5, decide_True by done.
           split_and!; [lia|done|apply Hr|apply Hr].
        -- intros [= <- <-]. exists 0%nat, k3. split_and!; [lia|done|done|by intros ? [= <-]].
    + intros (m & k' & Hm & Hbusy & Ho & Hr). destruct m as [|m]; cbn [busy_for] in Hbusy.
      * simplify_eq. rewrite Ho. destruct r as [c|e]; [done|]. rewrite decide_False by (by apply Hr). done.
      * destruct (client_open addr k3) as [k5 [c|e]] eqn:E5; [done|]. case_decide as Hb; [|done].
        apply IH. exists m, k'. split_and!; [lia|done|done|done].
Qed.
End AsyncPipe.

Section Witness.
(** A system whose clients find the pipe busy a number of times, and whose instances have a client at
    once. *)
Record Pipes := MkPipes { p_open : gset Z; p_connected : gset Z; p_busy : nat }.
Local Instance pipes_calls : PipeCalls Pipes := {
  server_create := fun _ _ k =>
    let h := fresh (p_open k ∪ p_connected k) in (MkPipes ({[h]} ∪ p_open k) (p_connected k) (p_busy k), Ok h);
  server_connect := fun h k => (MkPipes (p_open k) ({[h]} ∪ p_connected k) (p_busy k), Ok tt);
  client_open := fun _ k => match p_busy k with
                            | O => (k, Ok 7)
                            | S n => (MkPipes (p_open k) (p_connected k) n, Err (OsError ERROR_PIPE_BUSY))
                            end;
  sleep_ms := fun _ k => k;
  pipe_open_handles := p_open;
  pipe_connected := p_connected }.

Local Instance pipes_laws : PipeLaws Pipes.
Proof.
  split; cbn.
  - intros f a k k' r [= <- <-]. cbn. pose proof (is_fresh (p_open k ∪ p_connected k)) as Hf.
    rewrite elem_of_union in Hf. split_and!; [done|tauto|tauto|done].
  - by intros h k k' r [= <- <-].
  - by intros h k k' r [= <- <-].
  - intros h [o c b] Hc. cbn in *. do 2 f_equal. apply set_eq. intros x. rewrite elem_of_union, elem_of_singleton.
    split; [intros [->|?]; done|tauto].
Qed.

Lemma named_pipes_witness :
  exists k1 l k2 l' items, bind_named_pipe "pipe" (MkPipes ∅ ∅ 3) = (k1, Ok l) /\
    pipes_items 2 l k1 = (k2, l', items) /\ length (handed_out items) = 2%nat /\
    NoDup (handed_out items ++ [listening l']) /\
    is_Some (connect_named_pipe 4 "pipe" (MkPipes ∅ ∅ 3)) /\ connect_named_pipe 3 "pipe" (MkPipes ∅ ∅ 3) = None.
Proof.
  destruct (bind_named_pipe "pipe" (MkPipes ∅ ∅ 3)) as [k1 [l|e]] eqn:E; [|done].
  destruct (pipes_items 2 l k1) as [[k2 l'] items] eqn:Ei.
  destruct (named_pipes "pipe" 2 _ k1 k2 l l' items E Ei) as (Hd & _ & _ & _ & Hc).
  exists k1, l, k2, l', items.
  assert (length (handed_out items) = 2%nat) as Hl by (cbn in E; simplify_eq; cbn in Ei; by simplify_eq).
  split_and!; [done|done|exact Hl|exact Hd| |reflexivity].
  exists (MkPipes ∅ ∅ 0, Ok 7). apply Hc. exists 3%nat, (MkPipes ∅ ∅ 0). split_and!; [lia|done|done|done].
Defined.
End Witness.
