(* ===== verification/SyncSockets.v ===== *)
(** The descriptors of the synchronous runtime (src/src/sync/sys/unix/net.rs, with the constructors of
    client.rs and [do_listen] of common.rs): which are opened and closed by listeners, connections
    and clients, on every path. *)
From S2P Require Import Prelude Errors Addr Extension SyncClient.

(** The other system calls on descriptors. *)
Class FdCalls (K : Type) := {
  sys_set_nonblock : Z -> st K Z unit;
  sys_listen : Z -> st K Z unit;
  sys_pipe2 : st K Z (Z * Z);
  sys_socketpair : st K Z (Z * Z);
  sys_close : Z -> st K Z unit }.

(** A pair is made of two fresh descriptors. *)
Definition opens_pair `{SockCalls K} (m : st K Z (Z * Z)) : Prop :=
  forall k k' r, m k = (k', r) ->
    match r with
    | Ok (a, b) => (a ∉ sys_open k) /\ (b ∉ sys_open k) /\ a <> b /\ sys_open k' = {[a; b]} ∪ sys_open k
    | Err _ => sys_open k' = sys_open k
    end.

(** [close] releases the descriptor also when it reports an error. *)
Class FdLaws (K : Type) `{SockCalls K, FdCalls K} : Prop := {
  set_nonblock_open : forall fd k k' r, sys_set_nonblock fd k = (k', r) -> sys_open k' = sys_open k;
  listen_open : forall fd k k' r, sys_listen fd k = (k', r) -> sys_open k' = sys_open k;
  pipe2_opens : opens_pair sys_pipe2;
  socketpair_opens : opens_pair sys_socketpair;
  close_releases : forall fd k k' r, sys_close fd k = (k', r) -> sys_open k' = sys_open k ∖ {[fd]} }.

Section SyncSockets.
Context {K : Type} `{SockCalls K, FdCalls K, Texts, AddrMakers} (env : option string).

(** [do_listen]. *)
Definition do_listen (listener : Z) : st K Error unit :=
  _ ← sys_set_nonblock listener ?: (fun e => Others ("failed to set listener fd: " +:+ pretty listener +:+
                                                     " as non block: " +:+ nix_display e));
  sys_listen listener ?: (Socket ∘ nix_display).

(** ** Listeners *)

Record PipeListener := MkPipeListener { listener_fd : Z; monitor_fd : Z * Z }.

Definition new_monitor_fd : st K Error (Z * Z) := sys_pipe2 ?: Nix.

(** [PipeListener::new]. *)
Definition listener_new (sockaddr : string) : st K Error PipeListener :=
  '(fd, _) ← do_bind env sockaddr;
  _ ← do_listen fd;
  fds ← new_monitor_fd;
  mret (MkPipeListener fd fds).

(** [PipeListener::new_from_fd]. *)
Definition listener_new_from_fd (fd : Z) : st K Error PipeListener :=
  fds ← new_monitor_fd; mret (MkPipeListener fd fds).

Definition as_raw_fd (l : PipeListener) : Z := listener_fd l.

(** [PipeListener::close]: the write end of the monitor pipe; a failure is logged. *)
Definition listener_close (l : PipeListener) : st K Error unit := fun k =>
  ((sys_close (monitor_fd l).2 k).1, Ok tt).

(** ** Connections *)

(** [PipeConnection] is its descriptor. *)
Definition PipeConnection : Type := Z.
Definition pipe_new (fd : Z) : PipeConnection := fd.
Definition pipe_id (c : PipeConnection) : Z := c.

Record ClientConnection := MkClientConnection { cc_fd : Z; socket_pair : Z * Z }.

(** [ClientConnection::new] and [ClientConnection::client_connect]. *)
Definition client_connection_new (fd : Z) : st K Error ClientConnection :=
  '(recver_fd, close_fd) ← sys_socketpair ?: Nix;
  mret (MkClientConnection fd (recver_fd, close_fd)).
Definition client_connection_connect (sockaddr : string) : st K Error ClientConnection :=
  fd ← client_connect env sockaddr;
  client_connection_new fd.

Definition get_pipe_connection (c : ClientConnection) : Result PipeConnection := Ok (pipe_new (cc_fd c)).

(** [ClientConnection::close_receiver] and [ClientConnection::close]. *)
Definition close_receiver (c : ClientConnection) : st K Error unit := sys_close (socket_pair c).1 ?: Nix.
Definition close_connection (c : ClientConnection) : st K Error unit :=
  _ ← sys_close (socket_pair c).2 ?: Nix;
  sys_close (cc_fd c) ?: Nix.

(** [Drop for ClientConnection]; an error is a panic of an [unwrap]. *)
Definition drop_connection (c : ClientConnection) : st K Error unit :=
  _ ← close_connection c;
  close_receiver c.

(** ** Clients *)

Section Clients.
Context {D T : Type} (data_default : D).

Abbreviation Link := (@SyncClient.Link D T).

(** [Client::connect], [Client::new] and [Client::with_hook], with the connection that the client
    shares with its threads; what fails after the connection was made drops it. *)
Definition sync_connect (sockaddr : string) : st K Error (ClientConnection * Link) :=
  conn ← client_connection_connect sockaddr;
  mret (conn, new_client (context_new data_default None)).

Definition sync_new (fd : Z) : st K Error (ClientConnection * Link) :=
  conn ← client_connection_new fd ?: (err_to_others_err "new ClientConnection" ∘ error_display);
  mret (conn, new_client (context_new data_default None)).

Definition run_hook (conn : ClientConnection) (hook : Hook D T) : st K Error (ClientConnection * Link) := fun k =>
  match SyncClient.with_hook data_default (cc_fd conn) (Ok tt) hook with
  | Ok l => (k, Ok (conn, l))
  | Err e => ((drop_connection conn k).1, Err e)
  end.
Definition sync_with_hook (fd : Z) (hook : Hook D T) : st K Error (ClientConnection * Link) :=
  conn ← client_connection_new fd ?: (err_to_others_err "new ClientConnection" ∘ error_display);
  run_hook conn hook.
End Clients.

(** ** Lemmas *)

Context `{!SockCallsLaws K, !FdLaws K}.

(** The descriptors of a client. *)
Definition client_fds (c : ClientConnection) : gset Z := {[cc_fd c; (socket_pair c).1; (socket_pair c).2]}.

Lemma client_connection_new_opens fd k k' r :
  client_connection_new fd k = (k', r) ->
  match r with
  | Ok c => cc_fd c = fd /\ ((socket_pair c).1 ∉ sys_open k) /\ ((socket_pair c).2 ∉ sys_open k) /\
            (socket_pair c).1 <> (socket_pair c).2 /\
            sys_open k' = {[(socket_pair c).1; (socket_pair c).2]} ∪ sys_open k
  | Err _ => sys_open k' = sys_open k
  end.
Proof.
  unfold client_connection_new. munfold. destruct (sys_socketpair k) as [k1 [[a b]|e]] eqn:E; apply socketpair_opens in E;
    intros [= <- <-]; [|done]. cbn. by destruct E as (? & ? & ? & ?).
Qed.

(** Where [close] reports no error, a dropped client has closed its three descriptors. *)
Lemma drop_connection_closes c k k' r :
  (forall fd k, is_ok (sys_close fd k).2 = true) -> drop_connection c k = (k', r) ->
  r = Ok tt /\ sys_open k' = sys_open k ∖ client_fds c.
Proof.
  intros Hok. unfold drop_connection, close_connection, close_receiver. munfold.
  assert (forall fd k, exists k', sys_close fd k = (k', Ok tt) /\ sys_open k' = sys_open k ∖ {[fd]}) as Hc.
  { intros fd k0. pose proof (Hok fd k0) as Hk. destruct (sys_close fd k0) as [k1 [[]|e]] eqn:E; [|done].
    exists k1. split; [done|by eapply close_releases]. }
  destruct (Hc (socket_pair c).2 k) as (k1 & -> & O1). cbn.
  destruct (Hc (cc_fd c) k1) as (k2 & -> & O2). cbn. destruct (Hc (socket_pair c).1 k2) as (k3 & -> & O3). cbn.
  intros [= <- <-]. split; [done|]. rewrite O3, O2, O1. unfold client_fds.
  apply set_eq. intros x. rewrite !elem_of_difference, !elem_of_union, !elem_of_singleton. tauto.
Qed.

Lemma close_all_restores (l k : gset Z) : l ## k -> (l ∪ k) ∖ l = k.
Proof. intros Hd. apply set_eq. intros x. specialize (Hd x). rewrite elem_of_difference, elem_of_union. tauto. Qed.

(** ** Properties *)

(** C23: the descriptors of a synchronous client: [Client::connect] opens three, the socket and the pair
    that wakes the receiver, and dropping the client closes exactly these. [Client::with_hook] owns
    the descriptor it is given as soon as the pair is made: where the pair cannot be made it fails
    and leaves the descriptor to the caller; where the pair is made and the hook rejects the
    connection, it fails and has closed the descriptor and the pair; and otherwise it succeeds with
    the context of the hook and the three descriptors open. [close] is assumed to report no error: the
    [unwrap] of the destructor panics otherwise. *)
Theorem sync_client_descriptors {D T : Type} (data_default : D) (sockaddr : string) (fd : Z) (h : Hook D T) (k : K) :
  (forall fd k, is_ok (sys_close fd k).2 = true) ->
  (forall k' c l, sync_connect data_default (T := T) sockaddr k = (k', Ok (c, l)) ->
     client_fds c ## sys_open k /\ size (client_fds c) = 3%nat /\ sys_open k' = client_fds c ∪ sys_open k /\
     exists k2, drop_connection c k' = (k2, Ok tt) /\ sys_open k2 = sys_open k) /\
  (fd ∈ sys_open k -> forall k' r, sync_with_hook data_default fd h k = (k', r) ->
     match (sys_socketpair k).2, h fd with
     | Err _, _ => is_err r = true /\ sys_open k' = sys_open k
     | Ok _, Err _ => is_err r = true /\ sys_open k' = sys_open k ∖ {[fd]}
     | Ok fds, Ok out => r = Ok (MkClientConnection fd fds, new_client (context_new data_default (Some out))) /\
         sys_open k' = client_fds (MkClientConnection fd fds) ∪ sys_open k
     end).
Proof.
  intros Hok. split.
  - intros k' c l. unfold sync_connect, client_connection_connect. munfold.
    destruct (client_connect env sockaddr k) as [k1 [fd1|e]] eqn:E1; [|done].
    apply client_connect_opens in E1 as [Hf Ho].
    destruct (client_connection_new fd1 k1) as [k2 [c1|e]] eqn:E2; [|done].
    apply client_connection_new_opens in E2 as (Hc & Ha & Hb & Hab & Ho2). intros; simplify_eq.
    rewrite Ho in Ha, Hb, Ho2. rewrite elem_of_union, elem_of_singleton in Ha, Hb.
    assert (client_fds c ## sys_open k) as Hd.
    { intros x. unfold client_fds. rewrite !elem_of_union, !elem_of_singleton. intros [[->| ->]| ->] Hx; tauto. }
    assert (sys_open k' = client_fds c ∪ sys_open k) as Hk'.
    { rewrite Ho2. unfold client_fds. apply set_eq. intros x. rewrite !elem_of_union, !elem_of_singleton. tauto. }
    split_and!; [done| |done|].
    + assert ((socket_pair c).1 <> cc_fd c /\ (socket_pair c).2 <> cc_fd c) as [? ?] by tauto.
      unfold client_fds. rewrite size_union by (intros x; rewrite elem_of_union, !elem_of_singleton; intros [->| ->]; congruence).
      rewrite size_union by (intros x; rewrite !elem_of_singleton; congruence). by rewrite !size_singleton.
    + destruct (drop_connection c k') as [k3 r] eqn:E3. apply drop_connection_closes in E3 as [-> Ho3]; [|done].
      exists k3. split; [done|]. rewrite Ho3, Hk'. by apply close_all_restores.
  - intros Hfd k' r. unfold sync_with_hook, run_hook, client_connection_new. munfold.
    destruct (sys_socketpair k) as [k1 [[a b]|e]] eqn:E1; apply socketpair_opens in E1; cbn [snd map_err];
      [|by intros [= <- <-]].
    destruct E1 as (Ha & Hb & _ & Ho). unfold SyncClient.with_hook. munfold. cbn [cc_fd].
    destruct (h fd) as [out|e]; cbn [map_err].
    + intros [= <- <-]. split; [done|]. rewrite Ho. unfold client_fds. cbn. apply set_eq. intros x.
      rewrite !elem_of_union, !elem_of_singleton. split; [tauto|]. intros [[[->|?]|?]|?]; auto.
    + destruct (drop_connection _ k1) as [k2 r2] eqn:E2. apply drop_connection_closes in E2 as [_ Ho2]; [|done].
      intros [= <- <-]. split; [done|]. cbn. rewrite Ho2, Ho. unfold client_fds. cbn. apply set_eq. intros x.
      rewrite !elem_of_difference, !elem_of_union, !elem_of_singleton. split; [tauto|]. intros [Hx Hne].
      split; [by right|]. intros [[?|Hx1]|Hx1]; subst; tauto.
Qed.

(** A listener that was bound by address and closed is still listening: [PipeListener::close] closes
    the write end of its monitor pipe, and no destructor closes the other two descriptors. *)
Lemma closed_listener_stays_open sockaddr k k1 k2 l :
  listener_new sockaddr k = (k1, Ok l) -> listener_close l k1 = (k2, Ok tt) ->
  (listener_fd l ∉ sys_open k) /\ sys_open k1 = {[listener_fd l; (monitor_fd l).1; (monitor_fd l).2]} ∪ sys_open k /\
  sys_open k2 = {[listener_fd l; (monitor_fd l).1]} ∪ sys_open k.
Proof.
  unfold listener_new, do_listen, new_monitor_fd. munfold.
  destruct (do_bind env sockaddr k) as [k3 [[fd d]|e]] eqn:E1; [|done]. apply do_bind_opens in E1 as [Hf Ho].
  destruct (sys_set_nonblock fd k3) as [k4 [[]|e]] eqn:E2; [|done]. apply set_nonblock_open in E2. cbn.
  destruct (sys_listen fd k4) as [k5 [[]|e]] eqn:E3; [|done]. apply listen_open in E3. cbn.
  destruct (sys_pipe2 k5) as [k6 [[a b]|e]] eqn:E4; [|done]. apply pipe2_opens in E4 as (Ha & Hb & Hab & Ho4).
  intros; simplify_eq/=. rewrite E3, E2, Ho in Ha, Hb, Ho4. rewrite elem_of_union, elem_of_singleton in Ha, Hb.
  split; [done|]. rewrite Ho4. split; [apply set_eq; intros x; rewrite !elem_of_union, !elem_of_singleton; tauto|].
  unfold listener_close in *. cbn in *. destruct (sys_close b k1) as [k7 r] eqn:E5. apply close_releases in E5. simplify_eq/=.
  rewrite E5, Ho4. apply set_eq. intros x. rewrite elem_of_difference, !elem_of_union, !elem_of_singleton.
  assert (b <> fd) by tauto. split; [intros [[[?|?]|?] ?]; tauto|]. intros [[->| ->]|Hx]; (split; [tauto|]); [congruence..|].
  intros ->. tauto.
Qed.

(** A connected socket for which the pair cannot be made is lost. *)
Lemma client_without_pair_leaks sockaddr k k1 k2 fd e :
  client_connect env sockaddr k = (k1, Ok fd) -> sys_socketpair k1 = (k2, Err e) ->
  client_connection_connect sockaddr k = (k2, Err (Nix e)) /\ sys_open k2 = {[fd]} ∪ sys_open k.
Proof.
  intros E1 E2. split; [by unfold client_connection_connect, client_connection_new; munfold; rewrite E1, E2|].
  apply client_connect_opens in E1 as [_ Ho]. apply socketpair_opens in E2. congruence.
Qed.
End SyncSockets.

Section Witness.
Local Instance fd_texts : Texts :=
  {| status_debug := fun _ => ""; nix_display := pretty; nix_debug := pretty;
     tokio_send_error := "channel closed" |}.

(** A kernel that is the set of its open descriptors, on which every call succeeds. *)
Definition fd_open : st (gset Z) Z Z := fun k => ({[fresh k]} ∪ k, Ok (fresh k)).
Definition fd_open_pair : st (gset Z) Z (Z * Z) := a ← fd_open; b ← fd_open; mret (a, b).
Definition fd_nop : st (gset Z) Z unit := fun k => (k, Ok tt).

Local Instance fd_sock_calls : SockCalls (gset Z) := {
  sys_socket := fun _ => fd_open; sys_setsockopt := fun _ _ => fd_nop; sys_bind := fun _ => fd_nop;
  sys_connect := fun _ => fd_nop; sys_open := id }.
Local Instance fd_addr_makers : AddrMakers := {
  UnixAddr := string; InetAddr := string; unix_new := Ok; unix_new_abstract := Ok; inet_from_str := Ok }.
Local Instance fd_calls : FdCalls (gset Z) := {
  sys_set_nonblock := fun _ => fd_nop; sys_listen := fun _ => fd_nop; sys_pipe2 := fd_open_pair;
  sys_socketpair := fd_open_pair; sys_close := fun fd k => (k ∖ {[fd]}, Ok tt) }.

Local Instance fd_sock_laws : SockCallsLaws (gset Z).
Proof.
  split; cbn.
  - intros d k k' fd [= <- <-]. split; [apply is_fresh|done].
  - intros d k k' e. done.
  - by intros fd o k k' r [= <- <-].
  - by intros fd k k' r [= <- <-].
  - by intros fd k k' r [= <- <-].
Qed.

Lemma fd_pair_opens : opens_pair fd_open_pair.
Proof.
  intros k k' r. unfold fd_open_pair, fd_open. munfold. cbn. intros [= <- <-].
  pose proof (is_fresh k) as Ha. pose proof (is_fresh ({[fresh k]} ∪ k)) as Hb.
  rewrite elem_of_union, elem_of_singleton in Hb. split_and!; [done|tauto|congruence || (intros E; apply Hb; by left)|].
  apply set_eq. intros x. rewrite !elem_of_union, !elem_of_singleton. tauto.
Qed.

Local Instance fd_laws : FdLaws (gset Z).
Proof.
  split; cbn; try apply fd_pair_opens.
  - by intros fd k k' r [= <- <-].
  - by intros fd k k' r [= <- <-].
  - by intros fd k k' r [= <- <-].
Qed.

Lemma sync_client_descriptors_witness :
  (exists k' c l, sync_connect None tt (D := unit) (T := NonceTransform) "unix:///run/svc" ({[0; 1; 2]} : gset Z) = (k', Ok (c, l)) /\
     size (client_fds c) = 3%nat /\ exists k2, drop_connection c k' = (k2, Ok tt) /\ k2 = {[0; 1; 2]}) /\
  (sync_with_hook (D := unit) (T := NonceTransform) tt 0 (fun _ => Err Timeout) ({[0; 1; 2]} : gset Z)).1
    = ({[0; 1; 2]} : gset Z) ∖ {[0]}.
Proof.
  destruct (sync_client_descriptors None tt "unix:///run/svc" 0 (fun _ => Err Timeout : res HookError (HookOutput unit NonceTransform))
    ({[0; 1; 2]} : gset Z)) as (Hc & Hh); [done|]. split.
  - destruct (sync_connect None tt (D := unit) (T := NonceTransform) "unix:///run/svc" ({[0; 1; 2]} : gset Z))
      as [k' [[c l]|e]] eqn:E; [|by vm_compute in E].
    exists k', c, l. split; [done|]. destruct (Hc k' c l eq_refl) as (_ & Hs & _ & Hd). by split.
  - assert (0 ∈ ({[0; 1; 2]} : gset Z)) as Hin by (apply (bool_decide_unpack _); by vm_compute).
    destruct (sync_with_hook (D := unit) (T := NonceTransform) tt 0 (fun _ => Err Timeout) ({[0; 1; 2]} : gset Z)) as [k' r] eqn:E.
    destruct (Hh Hin k' r eq_refl) as [_ Ho]. exact Ho.
Defined.
End Witness.
