(* ===== verification/WindowsPipe.v ===== *)
(** The named pipes of the synchronous runtime on Windows (src/src/sync/sys/windows/net.rs, with the
    destructor of client.rs): instances, events and their handles, the shutdown of a listener, and
    overlapped reads and writes. Errors of the operating system are [SyncChannel.IoErr]s. *)
From S2P Require Import Prelude Errors SyncChannel.

Definition ERROR_IO_PENDING : Z := 997.
Definition ERROR_PIPE_CONNECTED : Z := 535.

(** [crate::Error] with the variant it has on Windows. *)
Inductive WinError := Windows (code : Z) | Common (e : Error).

(** The functions of the operating system, with [io::Error::last_os_error()] after a failure as their
    error, and [File::open]. [GetOverlappedResult] waits for the event: [None] while it does; for a read
    the bytes are those that are in the caller's buffer when it returns. [os_debug] and [os_display] are
    the texts of an error; [win_open] and [signaled], the open handles and the state of an event, are
    specification only. *)
Class Win32 (K : Type) := {
  CreateEventW : st K Z Z;
  SetEvent : Z -> st K Z unit;
  CloseHandle : Z -> st K Z unit;
  CreateNamedPipeW : string -> bool -> st K Z Z;
  ConnectNamedPipe : Z -> Z -> st K Z unit;
  DisconnectNamedPipe : Z -> st K Z unit;
  GetOverlappedConnect : Z -> Z -> K -> option (K * res Z unit);
  ReadFile : Z -> Z -> Z -> K -> K * (bool * list byte);
  GetOverlappedRead : Z -> Z -> K -> option (K * res Z (list byte));
  WriteFile : Z -> Z -> list byte -> K -> K * (bool * Z);
  GetOverlappedWrite : Z -> Z -> K -> option (K * res Z Z);
  last_os_error : K -> Z;
  file_open : string -> st K IoErr Z;
  os_debug : Z -> string;
  os_display : Z -> string;
  win_open : K -> gset Z;
  signaled : K -> Z -> bool }.

Definition opens_handle `{Win32 K} (m : st K Z Z) : Prop :=
  forall k k' r, m k = (k', r) ->
    match r with
    | Ok h => (h ∉ win_open k) /\ win_open k' = {[h]} ∪ win_open k
    | Err _ => win_open k' = win_open k
    end.

(** Handles are opened and closed by these calls only; an overlapped operation that starts resets its
    event, [SetEvent] sets it, and a wait for an event that is set returns. *)
Class Win32Laws (K : Type) `{Win32 K} : Prop := {
  create_event_opens : opens_handle CreateEventW;
  create_pipe_opens : forall a f, opens_handle (CreateNamedPipeW a f);
  set_event_open : forall h k k' r, SetEvent h k = (k', r) -> win_open k' = win_open k;
  set_event_signals : forall h k k', SetEvent h k = (k', Ok tt) -> signaled k' h = true;
  connect_pipe_open : forall p h k k' r, ConnectNamedPipe p h k = (k', r) -> win_open k' = win_open k;
  connect_pending_resets : forall p h k k', ConnectNamedPipe p h k = (k', Err ERROR_IO_PENDING) -> signaled k' h = false;
  wait_open : forall p h k k' r, GetOverlappedConnect p h k = Some (k', r) -> win_open k' = win_open k;
  wait_signaled : forall p h k, signaled k h = true -> is_Some (GetOverlappedConnect p h k);
  close_handle_open : forall h k k' r, CloseHandle h k = (k', r) ->
    win_open k' = win_open k ∖ (if r is Ok _ then {[h]} else ∅);
  close_handle_ok : forall h k, h ∈ win_open k -> is_ok (CloseHandle h k).2 = true }.

Section WindowsPipe.
Context {K : Type} `{Win32 K, Texts}.

(** ** Errors, events and handles *)

(** [handle_windows_error]; the display of an error without a code is its text. *)
Definition handle_windows_error (e : IoErr) : WinError :=
  match raw_os_error e with
  | Some code => Windows code
  | None => Common (Others (match e with OtherError text => text | OsError n => os_display n end))
  end.

Definition windows_error {A} (m : st K Z A) : st K WinError A := m ?: (handle_windows_error ∘ OsError).

Definition close_handle (h : Z) : st K WinError unit := windows_error (CloseHandle h).
Definition create_event : st K WinError Z := windows_error CreateEventW.
Definition set_event (h : Z) : st K WinError unit := windows_error (SetEvent h).

(** ** Connections *)

Record PipeConnection := MkPipe { named_pipe : Z; read_event : Z; write_event : Z }.

(** [PipeConnection::new]. *)
Definition pipe_connection_new (h : Z) : st K WinError PipeConnection :=
  r ← create_event;
  w ← create_event;
  mret (MkPipe h r w).

(** [PipeConnection::id]: the low 32 bits, as a signed number. *)
Definition pipe_id (c : PipeConnection) : Z := (named_pipe c + 2147483648) mod U32 - 2147483648.

(** [PipeConnection::close], which gives up at the first error, and the destructor, which logs it. *)
Definition pipe_connection_close (c : PipeConnection) : st K WinError unit :=
  _ ← close_handle (named_pipe c);
  _ ← close_handle (read_event c);
  close_handle (write_event c).
Definition drop_pipe (c : PipeConnection) (k : K) : K := (pipe_connection_close c k).1.

(** [PipeConnection::shutdown]. *)
Definition pipe_connection_shutdown (c : PipeConnection) : st K WinError unit :=
  windows_error (DisconnectNamedPipe (named_pipe c)).

(** [buf.len()] as the [u32] the system takes. *)
Definition io_len (n : nat) : Z := Z.min (Z.of_nat n) (U32 - 1).

(** What follows a call that has transferred nothing: the pending operation is waited for. *)
Definition finish_io {A} (what : string) (k : K) (wait : K -> option (K * res Z A)) : option (K * res WinError A) :=
  let e := last_os_error k in
  if decide (e = ERROR_IO_PENDING) then
    '(k', r) ← wait k;
    Some (k', map_err (handle_windows_error ∘ OsError) r)
  else Some (k, Err (Common (Others ("failed to " +:+ what +:+ " pipe: " +:+ os_debug e)))).

(** [PipeConnection::read], into a buffer of [n] bytes, and [write]; [None] while they wait. *)
Definition pipe_read (c : PipeConnection) (n : nat) (k : K) : option (K * res WinError (list byte)) :=
  let '(k', (ok, bytes)) := ReadFile (named_pipe c) (read_event c) (io_len n) k in
  if ok && bool_decide (bytes <> []) then Some (k', Ok bytes)
  else finish_io "read from" k' (GetOverlappedRead (named_pipe c) (read_event c)).

Definition pipe_write (c : PipeConnection) (buf : list byte) (k : K) : option (K * res WinError Z) :=
  let '(k', (ok, n)) := WriteFile (named_pipe c) (write_event c) (take (Z.to_nat (io_len (length buf))) buf) k in
  if ok && bool_decide (0 < n) then Some (k', Ok n)
  else finish_io "write to" k' (GetOverlappedWrite (named_pipe c) (write_event c)).

(** ** Listeners *)

Record PipeListener := MkPipeListener {
  first_instance : bool;
  shutting_down : bool;
  address : string;
  connection_event : Z }.

(** [PipeListener::new]. *)
Definition pipe_listener_new (sockaddr : string) : st K WinError PipeListener :=
  ev ← create_event; mret (MkPipeListener true false sockaddr ev).

(** [new_instance]: the flag is taken down whether or not the instance can be created. *)
Definition new_instance (l : PipeListener) (k : K) : K * PipeListener * res Z Z :=
  let '(k', r) := CreateNamedPipeW (address l) (first_instance l) k in
  (k', MkPipeListener false (shutting_down l) (address l) (connection_event l), r).

(** [handle_shutdown]; [down] is the flag as it reads it. *)
Definition handle_shutdown (down : bool) (np : PipeConnection) (k : K) : K * option IoErr :=
  if down then ((pipe_connection_close np k).1, Some (OtherError "closing pipe")) else (k, None).

(** [accept] up to the point where it returns or waits for a client. What it returns is dropped with
    its instance when it is an error. *)
Inductive AcceptPoint := Returns (r : res IoErr PipeConnection) | Waits (np : PipeConnection).

Definition win_error_debug (e : WinError) : string :=
  match e with Windows code => "Windows(" +:+ pretty code +:+ ")" | Common e => error_debug e end.

(** A connection that [accept] hands out, unless the listener is shutting down. *)
Definition hand_out (down : bool) (np : PipeConnection) (k : K) : K * res IoErr PipeConnection :=
  match handle_shutdown down np k with
  | (k', Some e) => (drop_pipe np k', Err e)
  | (k', None) => (k', Ok np)
  end.

Definition accept_begin (down : bool) (l : PipeListener) (k : K) : K * PipeListener * AcceptPoint :=
  match new_instance l k with
  | (k, l, Err e) => (k, l, Returns (Err (OsError e)))
  | (k, l, Ok instance) =>
      match pipe_connection_new instance k with
      | (k, Err e) => (k, l, Returns (Err (OtherError ("failed to create new pipe instance: " +:+ win_error_debug e))))
      | (k, Ok np) =>
          match ConnectNamedPipe (named_pipe np) (connection_event l) k with
          | (k, Ok _) =>
              match handle_shutdown down np k with
              | (k, Some e) => (drop_pipe np k, l, Returns (Err e))
              | (k, None) => (drop_pipe np k, l, Returns (Err (OsError (last_os_error k))))
              end
          | (k, Err e) =>
              if decide (e = ERROR_IO_PENDING) then (k, l, Waits np)
              else if decide (e = ERROR_PIPE_CONNECTED) then
                let '(k, r) := hand_out down np k in (k, l, Returns r)
              else (drop_pipe np k, l, Returns (Err (OtherError ("failed to connect pipe: " +:+ os_debug e))))
          end
      end
  end.

(** The rest of [accept]; [None] while it waits. *)
Definition accept_end (down : bool) (l : PipeListener) (np : PipeConnection) (k : K)
  : option (K * res IoErr PipeConnection) :=
  '(k, r) ← GetOverlappedConnect (named_pipe np) (connection_event l) k;
  Some (match r with
        | Err e => (drop_pipe np k, Err (OsError e))
        | Ok _ => hand_out down np k
        end).

(** [PipeListener::close]: the flag, then the event, which is set and closed. *)
Definition close_flag (l : PipeListener) : PipeListener :=
  MkPipeListener (first_instance l) true (address l) (connection_event l).
Definition pipe_listener_close (l : PipeListener) (k : K) : K * PipeListener * res WinError unit :=
  let l := close_flag l in
  match set_event (connection_event l) k with
  | (k, Err e) => (k, l, Err e)
  | (k, Ok _) => let '(k, r) := close_handle (connection_event l) k in (k, l, r)
  end.

(** ** Clients *)

(** [ClientConnection], by its address. *)
Record ClientConnection := MkClient { client_address : string }.
Definition win_client_new (sockaddr : string) : ClientConnection := MkClient sockaddr.
Definition win_client_connect (sockaddr : string) : res WinError ClientConnection := Ok (win_client_new sockaddr).
Definition win_client_ready (c : ClientConnection) : res IoErr (option unit) := Ok (Some tt).

(** [get_pipe_connection]: the file's handle is given away. *)
Definition win_get_pipe_connection (c : ClientConnection) : st K WinError PipeConnection :=
  h ← file_open (client_address c) ?: handle_windows_error;
  pipe_connection_new h.

(** [close_receiver] and [close]: the pipe is closed by its connection. *)
Definition win_close_receiver (c : ClientConnection) : res WinError unit := Ok tt.
Definition win_client_close (c : ClientConnection) : res WinError unit := Ok tt.

(** ** Lemmas *)

Context `{!Win32Laws K}.

Definition pipe_handles (c : PipeConnection) : gset Z := {[named_pipe c; read_event c; write_event c]}.

(** Three handles that are open and differ. *)
Definition pipe_open (c : PipeConnection) (k : K) : Prop :=
  pipe_handles c ⊆ win_open k /\ named_pipe c <> read_event c /\ named_pipe c <> write_event c /\
  read_event c <> write_event c.

Lemma close_handle_spec h k k' r :
  close_handle h k = (k', r) ->
  win_open k' = win_open k ∖ (if r is Ok _ then {[h]} else ∅) /\ (h ∈ win_open k -> r = Ok tt).
Proof.
  unfold close_handle, windows_error. munfold. destruct (CloseHandle h k) as [k1 r1] eqn:E. intros [= <- <-].
  pose proof (close_handle_open _ _ _ _ E) as ->. split; [by destruct r1|]. intros Hin.
  apply close_handle_ok in Hin. rewrite E in Hin. by destruct r1 as [[]|].
Qed.

Lemma close_handle_opened h k k' r :
  h ∈ win_open k -> close_handle h k = (k', r) -> r = Ok tt /\ win_open k' = win_open k ∖ {[h]}.
Proof. intros Hh E. apply close_handle_spec in E as [-> Hr]. rewrite (Hr Hh). by split. Qed.

(** Closing a connection that is open closes its handles; what is closed already stays closed. *)
Lemma drop_pipe_open c k : pipe_open c k -> win_open (drop_pipe c k) = win_open k ∖ pipe_handles c.
Proof.
  intros (Hsub & H1 & H2 & H3). unfold drop_pipe, pipe_connection_close. munfold.
  assert (named_pipe c ∈ win_open k /\ read_event c ∈ win_open k /\ write_event c ∈ win_open k) as (Hn & Hr & Hw)
    by (split_and!; apply Hsub; unfold pipe_handles; rewrite !elem_of_union, !elem_of_singleton; tauto).
  destruct (close_handle (named_pipe c) k) as [k1 r1] eqn:E1. apply close_handle_opened in E1 as [-> O1]; [|done].
  destruct (close_handle (read_event c) k1) as [k2 r2] eqn:E2. apply close_handle_opened in E2 as [-> O2];
    [|rewrite O1, elem_of_difference, elem_of_singleton; split; congruence].
  destruct (close_handle (write_event c) k2) as [k3 r3] eqn:E3. apply close_handle_opened in E3 as [-> O3];
    [|rewrite O2, O1, !elem_of_difference, !elem_of_singleton; split_and!; congruence].
  cbn in *. rewrite O3, O2, O1. unfold pipe_handles. apply set_eq. intros x.
  rewrite !elem_of_difference, !elem_of_union, !elem_of_singleton. tauto.
Qed.

Lemma drop_pipe_closed c k : pipe_handles c ## win_open k -> win_open (drop_pipe c k) = win_open k.
Proof.
  intros Hd. unfold drop_pipe, pipe_connection_close. munfold.
  assert (forall h k' r, h ∈ pipe_handles c -> pipe_handles c ## win_open k' -> win_open k' = win_open k ->
    forall k2, close_handle h k' = (k2, r) -> win_open k2 = win_open k) as Hc.
  { intros h k' r Hh Hd' Ho k2 E. apply close_handle_spec in E as [-> _]. rewrite Ho. destruct r; [|apply difference_empty_L].
    apply difference_disjoint_L. intros x Hx Hy. apply elem_of_singleton in Hy as ->. by apply (Hd h). }
  assert (named_pipe c ∈ pipe_handles c /\ read_event c ∈ pipe_handles c /\ write_event c ∈ pipe_handles c) as (Hn & Hr & Hw)
    by (split_and!; unfold pipe_handles; rewrite !elem_of_union, !elem_of_singleton; tauto).
  destruct (close_handle (named_pipe c) k) as [k1 [u|e]] eqn:E1; apply Hc in E1; try done.
  destruct (close_handle (read_event c) k1) as [k2 [u'|e]] eqn:E2; apply Hc in E2; try done; try (by rewrite E1).
  destruct (close_handle (write_event c) k2) as [k3 r] eqn:E3. apply Hc in E3; try done. by rewrite E2.
Qed.

Lemma pipe_connection_new_spec h k k' r :
  h ∈ win_open k -> pipe_connection_new h k = (k', r) ->
  match r with
  | Ok np => named_pipe np = h /\ pipe_open np k' /\ (read_event np ∉ win_open k) /\ (write_event np ∉ win_open k) /\
             win_open k' = {[read_event np; write_event np]} ∪ win_open k
  | Err _ => exists lost, (size lost <= 1)%nat /\ win_open k' = lost ∪ win_open k
  end.
Proof.
  intros Hh. unfold pipe_connection_new, create_event, windows_error. munfold.
  destruct (CreateEventW k) as [k1 [r1|e]] eqn:E1; apply create_event_opens in E1; cbn.
  2: { intros [= <- <-]. exists ∅. rewrite E1, union_empty_l_L. split; [by rewrite size_empty; lia|done]. }
  destruct E1 as [F1 O1]. destruct (CreateEventW k1) as [k2 [r2|e]] eqn:E2; apply create_event_opens in E2; cbn;
    intros [= <- <-].
  - destruct E2 as [F2 O2]. rewrite O1, elem_of_union, elem_of_singleton in F2. cbn.
    assert (h <> r1 /\ h <> r2) as [? ?] by (split; intros ->; tauto).
    split_and!; [done| |done|tauto|rewrite O2, O1; apply set_eq; intros x; rewrite !elem_of_union, !elem_of_singleton; tauto].
    split_and!; cbn; [|done|done|intros ->; tauto]. unfold pipe_handles. cbn. intros x.
    rewrite O2, O1, !elem_of_union, !elem_of_singleton. intros [[->|?]|?]; auto.
  - exists {[r1]}. rewrite size_singleton, E2, O1. split; [lia|done].
Qed.

Lemma hand_out_spec down np k k' r :
  pipe_open np k -> hand_out down np k = (k', r) ->
  match r with
  | Ok np' => np' = np /\ down = false /\ k' = k
  | Err e => down = true /\ e = OtherError "closing pipe" /\ win_open k' = win_open k ∖ pipe_handles np
  end.
Proof.
  intros Ho. unfold hand_out, handle_shutdown. destruct down; intros [= <- <-]; [|done]. split_and!; [done|done|].
  pose proof (drop_pipe_open _ _ Ho) as Hd. unfold drop_pipe in Hd at 1.
  rewrite drop_pipe_closed; [done|]. rewrite Hd. intros x Hx Hy. by apply elem_of_difference in Hy as [_ ?].
Qed.

Lemma pipe_open_kept np k k' : win_open k' = win_open k -> pipe_open np k -> pipe_open np k'.
Proof. unfold pipe_open. by intros ->. Qed.

(** An instance whose events cannot be created is never closed: [accept] only has its handle. *)
Lemma failed_events_leak down l l' k k1 k2 inst e :
  new_instance l k = (k1, l', Ok inst) -> pipe_connection_new inst k1 = (k2, Err e) ->
  (exists text, accept_begin down l k = (k2, l', Returns (Err (OtherError text)))) /\ inst ∈ win_open k2.
Proof.
  intros En Ec. split; [exists ("failed to create new pipe instance: " +:+ win_error_debug e); unfold accept_begin; by rewrite En, Ec|].
  unfold new_instance in En. destruct (CreateNamedPipeW _ _ k) as [k3 [i|e']] eqn:E1; simplify_eq.
  apply create_pipe_opens in E1 as [_ O1]. assert (inst ∈ win_open k1) as Hin 
    by (rewrite O1; apply elem_of_union; left; by apply elem_of_singleton).
  apply pipe_connection_new_spec in Ec as (lost & _ & ->); [apply elem_of_union; by right|done].
Qed.

(** At a shutdown a connection is closed by [handle_shutdown] and again by its destructor: where another
    thread was given the handle's value in between, the destructor closes that thread's handle. *)
Lemma double_close_hits_another np (k k' : K) :
  hand_out true np k = (drop_pipe np (drop_pipe np k), Err (OtherError "closing pipe")) /\
  (win_open k' = {[named_pipe np]} ∪ win_open (drop_pipe np k) -> named_pipe np ∉ win_open (drop_pipe np k')).
Proof.
  split; [done|]. intros Ho. unfold drop_pipe, pipe_connection_close. munfold.
  destruct (close_handle (named_pipe np) k') as [k1 r1] eqn:E1. apply close_handle_opened in E1 as [-> O1];
    [|rewrite Ho; apply elem_of_union; left; by apply elem_of_singleton].
  assert (named_pipe np ∉ win_open k1) as Hk1
    by (rewrite O1; intros [_ Hx]%elem_of_difference; apply Hx; by apply elem_of_singleton).
  destruct (close_handle (read_event np) k1) as [k2 [u|e]] eqn:E2; apply close_handle_spec in E2 as [O2 _];
    [|cbn; rewrite O2; by intros [? _]%elem_of_difference].
  destruct (close_handle (write_event np) k2) as [k3 r3] eqn:E3. apply close_handle_spec in E3 as [O3 _].
  cbn. rewrite O3, O2. by intros [[? _]%elem_of_difference _]%elem_of_difference.
Qed.

(** ** Properties *)

(** The handles that [accept] has opened. *)
Definition accept_leaves (before after : K) (np : option PipeConnection) : Prop :=
  match np with
  | Some np => pipe_open np after /\ pipe_handles np ## win_open before /\
               win_open after = pipe_handles np ∪ win_open before
  | None => win_open after = win_open before
  end.

(** The new instance is made, but not its events. *)
Definition events_fail (l : PipeListener) (k : K) : Prop :=
  exists k1 inst, CreateNamedPipeW (address l) (first_instance l) k = (k1, Ok inst) /\
    is_err (pipe_connection_new inst k1).2 = true.

(** C24: the handles of the Windows listener, and its shutdown: [accept] hands out a connection only when
    the listener is not shutting down, and then exactly the three handles of the connection are open
    besides those that were; while it waits it owns these three; and when it returns an error it has
    closed what it opened, except exactly where the events of the new instance could not be created:
    there the instance, and at most one handle more, stays open with nobody left to close it. Handles
    of other threads are out of the picture (see [double_close_hits_another]). [close] sets the event
    that [accept] waits for: from then on the wait returns, no connection is handed out, and its three
    handles are closed. *)
Theorem windows_accept (down : bool) (l l' : PipeListener) (k k' : K) (p : AcceptPoint) :
  accept_begin down l k = (k', l', p) ->
  (connection_event l' = connection_event l /\ first_instance l' = false) /\
  match p with
  | Returns (Ok np) => down = false /\ accept_leaves k k' (Some np)
  | Returns (Err e) =>
      (~ events_fail l k -> accept_leaves k k' None) /\
      (events_fail l k -> exists inst lost, (inst ∉ win_open k) /\ inst ∈ lost /\ (size lost <= 2)%nat /\
         win_open k' = lost ∪ win_open k /\
         exists text, e = OtherError ("failed to create new pipe instance: " +:+ text))
  | Waits np => accept_leaves k k' (Some np) /\
      (forall d k2 k3 r, pipe_open np k2 -> accept_end d l' np k2 = Some (k3, r) ->
         match r with
         | Ok np' => np' = np /\ d = false /\ win_open k3 = win_open k2
         | Err _ => win_open k3 = win_open k2 ∖ pipe_handles np
         end) /\
      (forall k2 k3, pipe_open np k2 -> SetEvent (connection_event l) k2 = (k3, Ok tt) ->
         exists k4 e, accept_end true l' np k3 = Some (k4, Err e) /\ win_open k4 = win_open k2 ∖ pipe_handles np)
  end.
Proof.
  unfold accept_begin, new_instance.
  destruct (CreateNamedPipeW (address l) (first_instance l) k) as [k1 [inst|e]] eqn:E0;
    pose proof (create_pipe_opens _ _ _ _ _ E0) as E1; cbn in E1.
  2: { intros [= <- <- <-]. split; [done|]. split; [done|]. intros (k2 & inst & E & _). congruence. }
  destruct E1 as [Hf O1]. set (l1 := MkPipeListener false _ _ _).
  assert (inst ∈ win_open k1) as Hin by (rewrite O1; apply elem_of_union; left; by apply elem_of_singleton).
  destruct (pipe_connection_new inst k1) as [k2 [np|e]] eqn:Ec;
    pose proof (pipe_connection_new_spec _ _ _ _ Hin Ec) as E2; cbn in E2.
  2: { intros [= <- <- <-]. split; [done|]. destruct E2 as (lost & Hs & O2). split.
       { intros Hnf. destruct Hnf. exists k1, inst. by rewrite E0, Ec. }
       intros _. exists inst, (lost ∪ {[inst]}).
       split_and!; [done|apply elem_of_union; right; by apply elem_of_singleton| | |by eexists].
       - pose proof (size_union_alt lost {[inst]}) as ->. pose proof (size_singleton (C := gset Z) inst) as Hone.
         assert (size ({[inst]} ∖ lost) <= size ({[inst]} : gset Z))%nat
           by (apply subseteq_size; by intros x [? _]%elem_of_difference). lia.
       - rewrite O2, O1. apply set_eq. intros x. rewrite !elem_of_union. tauto. }
  assert (~ events_fail l k) as Hev by (intros (k3 & i & E & Hi); rewrite E0 in E; simplify_eq; by rewrite Ec in Hi).
  destruct E2 as (Hn & Ho & Hr & Hw & O2).
  assert (pipe_handles np ## win_open k /\ win_open k2 = pipe_handles np ∪ win_open k) as [Hd Hk2].
  { rewrite O1, elem_of_union, elem_of_singleton in Hr, Hw. unfold pipe_handles. rewrite O2, O1, Hn. split.
    - intros x. rewrite !elem_of_union, !elem_of_singleton. intros [[->| ->]| ->] Hx; tauto.
    - apply set_eq. intros x. rewrite !elem_of_union, !elem_of_singleton. tauto. }
  assert (forall k3, win_open k3 = win_open k2 -> accept_leaves k k3 (Some np)) as Hsome.
  { intros k3 E. cbn. rewrite E. split_and!; [by eapply pipe_open_kept|done|done]. }
  assert (forall k3, win_open k3 = win_open k2 ∖ pipe_handles np -> accept_leaves k k3 None) as Hnone.
  { intros k3 E. cbn. rewrite E, Hk2. apply set_eq. intros x. rewrite elem_of_difference, elem_of_union.
    specialize (Hd x). tauto. }
  destruct (ConnectNamedPipe (named_pipe np) (connection_event l1) k2) as [k3 [u|e]] eqn:E3;
    pose proof (connect_pipe_open _ _ _ _ _ E3) as O3; pose proof (pipe_open_kept _ _ _ O3 Ho) as Ho3.
  - destruct (handle_shutdown down np k3) as [k4 [e|]] eqn:E4; intros [= <- <- <-]; (split; [done|]); (split; [intros _; apply Hnone|done]).
    + assert (hand_out down np k3 = (drop_pipe np k4, Err e)) as Eh by (unfold hand_out; by rewrite E4).
      apply hand_out_spec in Eh as (_ & _ & ->); [|done]. by rewrite O3.
    + assert (k4 = k3) as -> by (unfold handle_shutdown in E4; destruct down; by simplify_eq).
      by rewrite drop_pipe_open, O3.
  - case_decide as Hp; [|case_decide as Hc].
    + intros [= <- <- <-]. split; [done|]. split_and!; [by apply Hsome| |].
      * intros d k4 k5 r Ho4 Ew. unfold accept_end in Ew. apply bind_Some in Ew as ([k6 r6] & Ew & E5).
        apply (inj Some) in E5.
        pose proof (wait_open _ _ _ _ _ Ew) as O6. pose proof (pipe_open_kept _ _ _ O6 Ho4) as Ho6.
        destruct r6 as [u|e']; [|simplify_eq; by rewrite drop_pipe_open, O6].
        apply hand_out_spec in E5; [|done].
        destruct r; [destruct E5 as (-> & -> & ->); by rewrite O6|destruct E5 as (_ & _ & ->); by rewrite O6].
      * intros k4 k5 Ho4 Es. pose proof (set_event_open _ _ _ _ Es) as O5. apply set_event_signals in Es.
        destruct (wait_signaled (named_pipe np) _ _ Es) as [[k6 r6] Ew].
        pose proof (wait_open _ _ _ _ _ Ew) as O6. rewrite O5 in O6. pose proof (pipe_open_kept _ _ _ O6 Ho4) as Ho6.
        unfold accept_end. change (connection_event l1) with (connection_event l). rewrite Ew.
        cbn [mbind option_bind]. destruct r6 as [u|e'].
        -- destruct (hand_out true np k6) as [k7 [np'|e']] eqn:Eh;
             (apply hand_out_spec in Eh; [|done]); [by destruct Eh as (_ & ? & _)|].
           exists k7, e'. split; [done|]. destruct Eh as (_ & _ & ->). by rewrite O6.
        -- eexists _, _. split; [done|]. by rewrite drop_pipe_open, O6.
    + destruct (hand_out down np k3) as [k4 r4] eqn:Eh. intros [= <- <- <-]. split; [done|].
      apply hand_out_spec in Eh; [|done]. destruct r4 as [np'|e'].
      * destruct Eh as (-> & -> & ->). split; [done|]. by apply Hsome.
      * split; [|done]. intros _. apply Hnone. destruct Eh as (_ & _ & ->). by rewrite O3.
    + intros [= <- <- <-]. split; [done|]. split; [|done]. intros _. apply Hnone. by rewrite drop_pipe_open, O3.
Qed.
End WindowsPipe.

Section Witness.
Local Instance pipe_texts : Texts :=
  {| status_debug := fun _ => ""; nix_display := pretty; nix_debug := pretty;
     tokio_send_error := "channel closed" |}.

(** A system on which every call succeeds and no client comes: its open handles, and the events that are set. *)
Record Sys := MkSys { handles : gset Z; events : gset Z }.
Definition sys_create : st Sys Z Z := fun k => (MkSys ({[fresh (handles k)]} ∪ handles k) (events k), Ok (fresh (handles k))).
Definition sys_wait {A} (a : A) (ev : Z) (k : Sys) : option (Sys * res Z A) :=
  if decide (ev ∈ events k) then Some (k, Ok a) else None.

Local Instance sys_win32 : Win32 Sys := {
  CreateEventW := sys_create;
  SetEvent := fun h k => (MkSys (handles k) ({[h]} ∪ events k), Ok tt);
  CloseHandle := fun h k => if decide (h ∈ handles k) then (MkSys (handles k ∖ {[h]}) (events k), Ok tt) else (k, Err 6);
  CreateNamedPipeW := fun _ _ => sys_create;
  ConnectNamedPipe := fun _ ev k => (MkSys (handles k) (events k ∖ {[ev]}), Err ERROR_IO_PENDING);
  DisconnectNamedPipe := fun _ k => (k, Ok tt);
  GetOverlappedConnect := fun _ => sys_wait tt;
  ReadFile := fun _ _ _ k => (k, (false, []));
  GetOverlappedRead := fun _ => sys_wait [];
  WriteFile := fun _ _ _ k => (k, (false, 0));
  GetOverlappedWrite := fun _ => sys_wait 0;
  last_os_error := fun _ => ERROR_IO_PENDING;
  file_open := fun _ k => (k, Err (OsError 2));
  os_debug := pretty;
  os_display := pretty;
  win_open := handles;
  signaled := fun k h => bool_decide (h ∈ events k) }.

Local Instance sys_laws : Win32Laws Sys.
Proof.
  assert (opens_handle (K := Sys) sys_create) as Hc by (intros k k' r [= <- <-]; split; [apply is_fresh|done]).
  split; cbn; try done.
  - by intros h k k' r [= <- <-].
  - intros h k k' [= <-]. cbn. apply bool_decide_eq_true, elem_of_union. left. by apply elem_of_singleton.
  - by intros p h k k' r [= <- <-].
  - intros p h k k' [= <-]. cbn. apply bool_decide_eq_false. intros [_ Hx]%elem_of_difference. apply Hx. by apply elem_of_singleton.
  - unfold sys_wait. intros p h k k' r E. case_decide; by simplify_eq.
  - unfold sys_wait. intros p h k E%bool_decide_eq_true. rewrite decide_True by done. by eexists.
  - intros h k k' r E. case_decide; simplify_eq; cbn; [done|]. by rewrite difference_empty_L.
  - intros h k Hin. by rewrite decide_True.
Qed.

(** A listener whose connection event is handle 1 waits for a client, is woken up, and closes. *)
Lemma windows_accept_witness :
  let l := MkPipeListener true false "pipe" 1 in let k := MkSys {[1]} {[1]} in
  exists k' l' np, accept_begin false l k = (k', l', Waits np) /\ size (win_open k') = 4%nat /\
    accept_end false l' np k' = None /\
    exists k4 e, accept_end true l' np (SetEvent 1 k').1 = Some (k4, Err e) /\ win_open k4 = {[1]}.
Proof.
  intros l k. destruct (accept_begin false l k) as [[k' l'] p] eqn:E.
  pose proof (windows_accept false l l' k k' p E) as [_ Hp].
  assert (exists np, p = Waits np) as [np ->] by (vm_compute in E; simplify_eq; by eexists).
  exists k', l', np. destruct Hp as ((Ho & Hd & Hk) & _ & Hs).
  split; [done|]. assert (size (win_open k') = 4%nat) as Hsz by (vm_compute in E; simplify_eq; vm_compute; done).
  assert (accept_end false l' np k' = None) as Hn by (vm_compute in E; simplify_eq; vm_compute; done).
  split; [done|]. split; [done|].
  assert (SetEvent (connection_event l) k' = ((SetEvent 1 k').1, Ok tt)) as Hev by reflexivity.
  destruct (Hs k' _ Ho Hev) as (k4 & e & He & Hw). exists k4, e. split; [done|].
  rewrite Hw, Hk. apply set_eq. intros x. change (win_open k) with ({[1]} : gset Z).
  specialize (Hd x). change (win_open k) with ({[1]} : gset Z) in Hd.
  rewrite elem_of_difference, elem_of_union. tauto.
Defined.
End Witness.
