(* ===== verification/Names.v ===== *)
(** Names of generated items (src/compiler/src/util/mod.rs and src/ttrpc-codegen-prost/src/util.rs):
    the division of a protobuf name into words, and its snake and camel case forms. The two crates
    have the same splitter, except for what it does once only underscores are left, so the
    iteration and its lemmas are written once over the [next] of either. Protobuf identifiers are
    ASCII, so upper and lower case are those of ASCII. *)
From S2P Require Import Prelude.

Definition underscore : Ascii.ascii := Ascii.ascii_of_nat 95.

(** Names as byte strings. *)
Abbreviation chars := (list Ascii.ascii).

(** The [for] loop of [NameSpliter::next]: where the next word of [name[pos..]] ends, [i] bytes
    having been looked at. *)
Fixpoint word_end (upper_len : nat) (meet_lower : bool) (i : nat) (l : chars) : nat :=
  match l with
  | [] => i
  | c :: l' =>
      if is_ascii_uppercase c then
        if meet_lower then i else word_end (S upper_len) meet_lower (S i) l'
      else if decide (c = underscore) then i
      else if decide (1 < upper_len)%nat then (i - 1)%nat
      else word_end upper_len true (S i) l'
  end.

(** The [while] loop that skips underscores. *)
Fixpoint skip_underscores (l : chars) : chars :=
  match l with
  | c :: l' => if decide (c = underscore) then skip_underscores l' else l
  | [] => []
  end.

(** [NameSpliter::next], on the bytes from [self.pos] on. *)
Definition next_word (l : chars) : option (chars * chars) :=
  match l with
  | [] => None
  | _ => let l := skip_underscores l in
         let n := word_end 0 false 0 l in
         Some (take n l, drop n l)
  end.

(** [NameSpliter::next] of the prost crate: it stops where only underscores are left. *)
Definition next_word_prost (l : chars) : option (chars * chars) :=
  match skip_underscores l with
  | [] => None
  | l => let n := word_end 0 false 0 l in
         Some (take n l, drop n l)
  end.

(** The iteration of a splitter. *)
Fixpoint words_from (next : chars -> option (chars * chars)) (fuel : nat) (l : chars) :
    list chars :=
  match fuel with
  | O => []
  | S fuel' =>
      match next l with
      | None => []
      | Some (w, l') => w :: words_from next fuel' l'
      end
  end.

(** The words of a name; a word but an empty last one takes a character (see [splitter_ends]). *)
Definition words_of (next : chars -> option (chars * chars)) (name : string) : list chars :=
  let l := String.list_ascii_of_string name in words_from next (S (length l)) l.

(** The loop of [to_snake_case]: every word is followed by an underscore, the last one of which is
    popped. *)
Definition snake_words (ws : list chars) : chars :=
  removelast (concat ((fun w => (ascii_lower <$> w) ++ [underscore]) <$> ws)).

Definition to_snake_case (name : string) : string :=
  String.string_of_list_ascii (snake_words (words_of next_word name)).

(** The loop of [to_camel_case]; [None] is the panic of [unwrap] on an empty word. *)
Fixpoint camel_words (ws : list chars) : option chars :=
  match ws with
  | [] => Some []
  | [] :: _ => None
  | (c :: w) :: ws' =>
      rest ← camel_words ws';
      Some ((ascii_upper c :: (ascii_lower <$> w)) ++ rest)
  end.

Definition to_camel_case (name : string) : option string :=
  String.string_of_list_ascii <$> camel_words (words_of next_word name).

(** The prost crate's, which skips empty words. *)
Definition to_snake_case_prost (name : string) : string :=
  String.string_of_list_ascii
    (snake_words (filter (fun w => w <> []) (words_of next_word_prost name))).

Definition to_camel_case_prost (name : string) : string :=
  default ""
    (String.string_of_list_ascii <$>
       camel_words (filter (fun w => w <> []) (words_of next_word_prost name))).

(** ** Lemmas *)

Lemma word_end_bounds u b i l :
  (u <= i)%nat -> (i <= word_end u b i l + 1 /\ (u <= 1 -> i <= word_end u b i l) /\
  word_end u b i l <= i + length l)%nat.
Proof.
  revert u b i. induction l as [|c l IH]; intros u b i Hu; cbn; [lia|].
  destruct (is_ascii_uppercase c); [destruct b; [lia|]|].
  - destruct (IH (S u) false (S i) ltac:(lia)) as (? & ? & ?). lia.
  - case_decide; [lia|]. case_decide; [lia|].
    destruct (IH u true (S i) ltac:(lia)) as (? & ? & ?). lia.
Qed.

(** The first word of a text that does not start with an underscore is not empty. *)
Lemma word_end_pos c l : c <> underscore -> (1 <= word_end 0 false 0 (c :: l))%nat.
Proof.
  intros Hc. cbn. destruct (is_ascii_uppercase c).
  - pose proof (word_end_bounds 1 false 1 l ltac:(lia)). lia.
  - rewrite decide_False by done. rewrite decide_False by lia.
    pose proof (word_end_bounds 0 true 1 l ltac:(lia)). lia.
Qed.

Lemma skip_underscores_length l : (length (skip_underscores l) <= length l)%nat.
Proof. induction l as [|c l IH]; cbn; [lia|]. case_decide; cbn; lia. Qed.

Lemma skip_underscores_head l c l' : skip_underscores l = c :: l' -> c <> underscore.
Proof. induction l as [|a l IH]; cbn; [done|]. case_decide; [done|]. by intros [= <- _]. Qed.

(** The letters of a name, underscores left out. *)
Definition letters (l : chars) : chars := filter (fun c => c <> underscore) l.

Lemma letters_skip l : letters (skip_underscores l) = letters l.
Proof.
  unfold letters. induction l as [|c l IH]; cbn [skip_underscores]; [done|]. case_decide; [|done].
  rewrite filter_cons_False; [done|]. by intros ?.
Qed.

Lemma letters_app l k : letters (l ++ k) = letters l ++ letters k.
Proof. apply list.filter_app. Qed.

Lemma letters_idemp l : letters (letters l) = letters l.
Proof.
  unfold letters. induction l as [|c l IH]; [done|]. destruct (decide (c = underscore)) as [->|Hc].
  - rewrite (filter_cons_False _ underscore) by tauto. done.
  - rewrite !(filter_cons_True _ c) by done. by rewrite IH.
Qed.

(** A word stops before the first underscore. *)
Lemma word_no_underscore u b i l n :
  (n + i <= word_end u b i l)%nat -> letters (take n l) = take n l.
Proof.
  revert u b i n. induction l as [|c l IH]; intros u b i n Hn; [by rewrite take_nil|].
  destruct n as [|n]; [done|]. cbn in Hn.
  assert (c <> underscore /\ letters (take n l) = take n l) as [Hc Hl].
  { destruct (is_ascii_uppercase c) eqn:Eu.
    - destruct b; [lia|]. split; [by intros -> | apply (IH (S u) false (S i)); lia].
    - case_decide; [lia|]. case_decide; [lia|]. split; [done|apply (IH u true (S i)); lia]. }
  unfold letters in *. cbn [take]. rewrite filter_cons_True by done. by rewrite Hl.
Qed.

(** What a step of a splitter does: it takes a word of letters from the front, and an empty one
    only at the end of the name. *)
Record split_step (l w l' : chars) : Prop := {
  step_progress : (length l' < length l)%nat;
  step_letters : letters l = w ++ letters l';
  step_word : letters w = w;
  step_empty : w = [] -> l' = []
}.

Lemma take_word_step l s :
  l <> [] -> s = skip_underscores l ->
  let n := word_end 0 false 0 s in split_step l (take n s) (drop n s).
Proof.
  intros Hl Hs n. pose proof (skip_underscores_length l) as Hlen. rewrite <- Hs in Hlen.
  assert (s = [] \/ 1 <= n)%nat as Hn.
  { destruct s as [|c s']; [by left|right]. apply word_end_pos. by eapply skip_underscores_head. }
  assert (letters (take n s) = take n s) as Hw by (apply (word_no_underscore 0 false 0); fold n; lia).
  split; [| |done|].
  - rewrite length_drop. destruct Hn as [->|]; [destruct l; cbn; [done|lia]|].
    destruct l; [done|]. cbn in *. lia.
  - rewrite <- Hw, <- letters_app, take_drop, Hs. symmetry. apply letters_skip.
  - destruct Hn as [->|]; [by rewrite drop_nil|]. destruct s; [by rewrite drop_nil|].
    destruct n; [lia|done].
Qed.

Lemma next_word_step l w l' : next_word l = Some (w, l') -> split_step l w l'.
Proof. destruct l as [|a l]; [done|]. intros [= <- <-]. by apply take_word_step. Qed.

Lemma next_word_prost_step l w l' :
  next_word_prost l = Some (w, l') -> split_step l w l' /\ w <> [].
Proof.
  unfold next_word_prost. pose proof (take_word_step l (skip_underscores l)) as Hs.
  destruct (skip_underscores l) as [|c s] eqn:E; [done|]. cbv zeta in *.
  pose proof (word_end_pos c s (skip_underscores_head _ _ _ E)) as Hp.
  set (n := word_end 0 false 0 (c :: s)) in *. intros [= <- <-].
  split; [apply Hs; [by intros ->|done]|]. by destruct n; [lia|].
Qed.

(** ** Termination *)

(** A run of a splitter, to the end of the name. *)
Inductive splits (next : chars -> option (chars * chars)) : chars -> list chars -> Prop :=
| splits_end l : next l = None -> splits next l []
| splits_word l w l' ws : next l = Some (w, l') -> splits next l' ws -> splits next l (w :: ws).

Section Splitter.
Context (next : chars -> option (chars * chars)).
Context (next_step : forall l w l', next l = Some (w, l') -> split_step l w l').

Lemma words_from_splits fuel l : (length l < fuel)%nat -> splits next l (words_from next fuel l).
Proof using next_step.
  revert l. induction fuel as [|fuel IH]; intros l Hl; [lia|]. cbn [words_from].
  destruct (next l) as [[w l']|] eqn:E; [|by constructor].
  econstructor; [done|]. apply IH. pose proof (step_progress _ _ _ (next_step _ _ _ E)). lia.
Qed.

Lemma splits_unique l ws ws' : splits next l ws -> splits next l ws' -> ws = ws'.
Proof using Type.
  intros H. revert ws'. induction H; inversion 1; simplify_eq; [done|]. f_equal; auto.
Qed.

(** The words are the letters of the name, in order. *)
Lemma splits_letters l ws :
  splits next l ws -> next [] = None -> (forall l, next l = None -> letters l = []) ->
  concat ws = letters l /\ Forall (fun w => letters w = w) ws.
Proof using next_step.
  intros H Hnil Hend. induction H as [l E|l w l' ws E _ [IH1 IH2]]; [by rewrite Hend|].
  destruct (next_step _ _ _ E) as [_ Hl Hw _]. cbn [concat]. rewrite IH1, <- Hl. by split; [|constructor].
Qed.
End Splitter.

Lemma next_word_none l : next_word l = None -> l = [].
Proof. by destruct l. Qed.

Lemma next_word_prost_none l : next_word_prost l = None -> letters l = [].
Proof.
  unfold next_word_prost. rewrite <- letters_skip. by destruct (skip_underscores l).
Qed.

(** The two splitters find the same words, but for an empty last one. *)
Lemma splits_prost l ws :
  splits next_word l ws -> splits next_word_prost l (filter (fun w => w <> []) ws).
Proof.
  induction 1 as [l E|l w l' ws E H IH]; [apply next_word_none in E as ->; by constructor|].
  pose proof (next_word_step _ _ _ E) as Hs. destruct (decide (w = [])) as [->|Hw].
  - rewrite filter_cons_False by tauto. rewrite (step_empty _ _ _ Hs) in * by done.
    inversion H; subst; [|done]. constructor. unfold next_word_prost.
    destruct (skip_underscores l) as [|c s] eqn:Es; [done|].
    destruct l as [|a l]; [done|]. unfold next_word in E. rewrite Es in E.
    pose proof (word_end_pos c s (skip_underscores_head _ _ _ Es)).
    destruct (word_end 0 false 0 (c :: s)); [lia|done].
  - rewrite filter_cons_True by done. econstructor; [|done].
    unfold next_word_prost. destruct l as [|a l]; [done|]. unfold next_word in E.
    destruct (skip_underscores (a :: l)) as [|c s]; [|done].
    cbn in E. congruence.
Qed.

Lemma words_of_splits name :
  splits next_word (String.list_ascii_of_string name) (words_of next_word name).
Proof. apply words_from_splits; [exact next_word_step|lia]. Qed.

Lemma words_of_prost_splits name :
  splits next_word_prost (String.list_ascii_of_string name) (words_of next_word_prost name).
Proof. apply words_from_splits; [|lia]. intros l w l' E. by apply next_word_prost_step. Qed.

(** The words of the prost crate are those of the compiler, empty ones left out. *)
Lemma words_of_prost name :
  words_of next_word_prost name = filter (fun w => w <> []) (words_of next_word name).
Proof.
  eapply splits_unique; [apply words_of_prost_splits|apply splits_prost, words_of_splits].
Qed.

(** Both name splitters end on every name, the fuel of the model being enough: there is exactly
    one run of the iterator from the start of the name to where [next] answers [None], and it
    yields the words the case functions use. Put together, the words are the characters of the
    name without its underscores, in order; and the splitter of the prost crate yields exactly the
    non-empty words of the compiler's. *)
Theorem splitter_ends (name : string) :
  let l := String.list_ascii_of_string name in
  (forall ws, splits next_word l ws <-> ws = words_of next_word name) /\
  (forall ws, splits next_word_prost l ws <-> ws = words_of next_word_prost name) /\
  concat (words_of next_word name) = letters l /\
  Forall (fun w => letters w = w) (words_of next_word name) /\
  words_of next_word_prost name = filter (fun w => w <> []) (words_of next_word name).
Proof.
  intros l. subst l.
  destruct (splits_letters next_word next_word_step _ _ (words_of_splits name)) as [Hc Hf];
    [done|by intros l ->%next_word_none|].
  split_and!; [| |done..|apply words_of_prost].
  - intros ws. split; [|intros ->; apply words_of_splits].
    intros H. eapply splits_unique; [done|apply words_of_splits].
  - intros ws. split; [|intros ->; apply words_of_prost_splits].
    intros H. eapply splits_unique; [done|apply words_of_prost_splits].
Qed.

(** ** Snake case *)

(** Words put together with single underscores. *)
Fixpoint join_words (ws : list chars) : chars :=
  match ws with
  | [] => []
  | [w] => w
  | w :: ws' => w ++ underscore :: join_words ws'
  end.

Definition lower_words (ws : list chars) : list chars :=
  (fun w : chars => fmap (M:=list) ascii_lower w) <$> ws.

Lemma snake_words_join ws : snake_words ws = join_words (lower_words ws).
Proof.
  unfold snake_words. induction ws as [|w [|w' ws] IH]; [done| |].
  - cbn. by rewrite app_nil_r, removelast_last.
  - unfold lower_words in *. rewrite 2!(fmap_cons _ w (w' :: ws)), concat_cons, removelast_app.
    + rewrite IH. cbn. by rewrite <- app_assoc.
    + cbn. by destruct (ascii_lower <$> w').
Qed.

Lemma ascii_lower_underscore c : ascii_lower c = underscore <-> c = underscore.
Proof. destruct c as [[] [] [] [] [] [] [] []]; vm_compute; split; congruence. Qed.

Lemma ascii_lower_not_upper c : is_ascii_uppercase (ascii_lower c) = false.
Proof. by destruct c as [[] [] [] [] [] [] [] []]. Qed.

Lemma letters_lower w : letters (ascii_lower <$> w) = ascii_lower <$> letters w.
Proof.
  unfold letters. induction w as [|c w IH]; [done|]. rewrite fmap_cons.
  destruct (decide (c = underscore)) as [->|Hn].
  - rewrite !filter_cons_False by (by intros ?). done.
  - rewrite !filter_cons_True by (rewrite ?ascii_lower_underscore; done).
    rewrite fmap_cons. by rewrite IH.
Qed.

Lemma letters_self l : letters l = l -> Forall (fun c => c <> underscore) l.
Proof.
  unfold letters. intros <-. apply Forall_forall. intros c [Hc _]%list_elem_of_filter. exact Hc.
Qed.

Lemma letters_join ws : letters (join_words ws) = letters (concat ws).
Proof.
  induction ws as [|w [|w' ws] IH]; [done|cbn; by rewrite app_nil_r|].
  change (letters (w ++ [underscore] ++ join_words (w' :: ws)) = letters (w ++ concat (w' :: ws))).
  rewrite !letters_app, IH. done.
Qed.

(** Lower case letters, without underscores. *)
Definition lower_word (w : chars) : Prop :=
  Forall (fun c => c <> underscore /\ is_ascii_uppercase c = false) w.

Lemma word_end_lower w l b i :
  lower_word w -> (match l with [] => True | c :: _ => c = underscore end) ->
  word_end 0 b i (w ++ l) = (i + length w)%nat.
Proof.
  intros Hw Hl. revert b i. induction Hw as [|c w [Hc Hu] Hw IH]; intros b i; cbn.
  - destruct l as [|c l]; cbn; [lia|]. subst c. change (is_ascii_uppercase underscore) with false. cbn iota.
    rewrite decide_True by done. lia.
  - rewrite Hu, decide_False by done. rewrite decide_False by lia. rewrite IH. lia.
Qed.

Lemma next_word_lower w l :
  lower_word w -> (match l with [] => True | c :: _ => c = underscore end) -> w <> [] ->
  next_word (w ++ l) = Some (w, l) /\ next_word (underscore :: w ++ l) = Some (w, l).
Proof.
  intros Hw Hl Hn.
  assert (skip_underscores (w ++ l) = w ++ l) as Hs.
  { destruct Hw as [|c w [Hc _] _]; [done|]. cbn. by rewrite decide_False. }
  unfold next_word. change (skip_underscores (underscore :: w ++ l)) with (skip_underscores (w ++ l)).
  rewrite Hs, word_end_lower by done. cbn. rewrite take_app_length, drop_app_length.
  by destruct w.
Qed.

(** Words as the splitter yields them: only the last one may be empty. *)
Inductive good_words : list chars -> Prop :=
| good_last w : lower_word w -> good_words [w]
| good_cons w ws : lower_word w -> w <> [] -> good_words ws -> good_words (w :: ws).

Lemma splits_good l ws :
  splits next_word l ws -> ws = [] \/ good_words (lower_words ws).
Proof.
  induction 1 as [|l w l' ws E H IH]; [by left|right].
  pose proof (next_word_step _ _ _ E) as Hs.
  assert (lower_word (ascii_lower <$> w)) as Hw.
  { apply Forall_fmap, (Forall_impl _ _ _ (letters_self _ (step_word _ _ _ Hs))).
    intros c Hc. cbn. split; [by rewrite ascii_lower_underscore|apply ascii_lower_not_upper]. }
  destruct IH as [->|IH]; [by apply good_last|].
  apply good_cons; [done| |done]. intros E'%fmap_nil_inv.
  rewrite (step_empty _ _ _ Hs E') in H. inversion H; subst; [inversion IH|done].
Qed.

Lemma join_words_cons w ws : ws <> [] -> join_words (w :: ws) = w ++ underscore :: join_words ws.
Proof. by destruct ws. Qed.

Lemma good_words_splits ws : good_words ws -> splits next_word (underscore :: join_words ws) ws.
Proof.
  induction 1 as [w Hw|w ws Hw Hn Hg IH].
  - destruct (decide (w = [])) as [->|Hn];
      apply (splits_word _ _ _ []); [done|by constructor| |by constructor].
    cbn [join_words]. rewrite <- (app_nil_r w) at 1. by apply (next_word_lower w []).
  - rewrite join_words_cons by (by intros ->; inversion Hg). econstructor; [|done].
    by apply next_word_lower.
Qed.

Lemma good_words_split_join ws :
  good_words ws -> ws <> [[]] -> splits next_word (join_words ws) ws.
Proof.
  intros Hg Hne. destruct Hg as [w Hw|w ws Hw Hn Hg].
  - apply (splits_word _ _ _ []); [|by constructor]. cbn [join_words].
    rewrite <- (app_nil_r w) at 1. apply next_word_lower; [done..|congruence].
  - rewrite join_words_cons by (by intros ->; inversion Hg).
    econstructor; [by apply next_word_lower|by apply good_words_splits].
Qed.

Lemma list_ascii_snake name :
  String.list_ascii_of_string (to_snake_case name) =
  join_words (lower_words (words_of next_word name)).
Proof.
  unfold to_snake_case. by rewrite String.list_ascii_of_string_of_list_ascii, snake_words_join.
Qed.

Lemma lower_words_idemp ws : lower_words (lower_words ws) = lower_words ws.
Proof.
  unfold lower_words. rewrite <- list_fmap_compose. apply list_fmap_ext. intros _ w _. cbn.
  rewrite <- list_fmap_compose. apply list_fmap_ext. intros _ c _. apply ascii_lower_idemp.
Qed.

Lemma concat_lower_words ws : concat (lower_words ws) = ascii_lower <$> concat ws.
Proof.
  induction ws as [|w ws IH]; [done|].
  unfold lower_words in *. rewrite fmap_cons, !concat_cons, IH. by rewrite fmap_app.
Qed.

Lemma join_words_not_upper ws :
  Forall (Forall (fun c => is_ascii_uppercase c = false)) ws ->
  Forall (fun c => is_ascii_uppercase c = false) (join_words ws).
Proof.
  induction 1 as [|w [|w' ws] Hw H IH]; [constructor|done|].
  cbn [join_words]. apply Forall_app. by repeat constructor.
Qed.

(** The snake case form of any name has the name's characters, underscores apart, in order and
    in lower case, and no upper case letter; and the function leaves a name that is already its
    result as it is. *)
Theorem snake_case_correct (name : string) :
  let s := String.list_ascii_of_string (to_snake_case name) in
  letters s = ascii_lower <$> letters (String.list_ascii_of_string name) /\
  Forall (fun c => is_ascii_uppercase c = false) s /\
  to_snake_case (to_snake_case name) = to_snake_case name.
Proof.
  intros s. subst s. rewrite list_ascii_snake.
  pose proof (words_of_splits name) as Hsp.
  destruct (splits_letters next_word next_word_step _ _ Hsp) as [Hc _];
    [done|by intros l ->%next_word_none|].
  split_and!.
  - rewrite letters_join, <- Hc. rewrite concat_lower_words.
    rewrite letters_lower. f_equal. rewrite Hc. apply letters_idemp.
  - apply join_words_not_upper, Forall_fmap, Forall_true. intros w. cbn.
    apply Forall_fmap, Forall_true. intros c. apply ascii_lower_not_upper.
  - unfold to_snake_case at 1 3. f_equal. rewrite !snake_words_join.
    assert (lower_words (words_of next_word name) = [] \/
            good_words (lower_words (words_of next_word name))) as [E|Hg]
      by (destruct (splits_good _ _ Hsp) as [->|]; auto).
    + unfold words_of at 1. by rewrite list_ascii_snake, E.
    + destruct (decide (lower_words (words_of next_word name) = [[]])) as [E|E].
      * unfold words_of at 1. by rewrite list_ascii_snake, E.
      * pose proof (good_words_split_join _ Hg E) as H. rewrite <- list_ascii_snake in H.
        rewrite (splits_unique _ _ _ _ (words_of_splits _) H). by rewrite lower_words_idemp.
Qed.

(** The characters of the results come from the name. *)
Lemma words_chars (P : Ascii.ascii -> Prop) next name :
  concat (words_of next name) = letters (String.list_ascii_of_string name) ->
  Forall P (String.list_ascii_of_string name) -> Forall (Forall P) (words_of next name).
Proof.
  intros Hc H. apply Forall_concat. rewrite Hc. apply Forall_forall. intros c [_ Hin]%list_elem_of_filter.
  by apply (proj1 (Forall_forall _ _) H).
Qed.

Lemma words_of_letters name :
  concat (words_of next_word name) = letters (String.list_ascii_of_string name).
Proof.
  apply (splits_letters next_word next_word_step); [apply words_of_splits|done|].
  by intros l ->%next_word_none.
Qed.

Lemma snake_case_chars (P : Ascii.ascii -> Prop) name :
  (forall c, P c -> P (ascii_lower c)) -> P underscore ->
  Forall P (String.list_ascii_of_string name) ->
  Forall P (String.list_ascii_of_string (to_snake_case name)).
Proof.
  intros Hl Hu H. rewrite list_ascii_snake.
  pose proof (words_chars P next_word name (words_of_letters name) H) as Hw.
  induction Hw as [|w [|w' ws] Hw Hws IH]; [constructor| |].
  - apply Forall_fmap. eapply Forall_impl; [exact Hw|exact Hl].
  - change (lower_words (w :: w' :: ws)) with ((ascii_lower <$> w) :: lower_words (w' :: ws)).
    rewrite join_words_cons by done. apply Forall_app. split; [|by constructor].
    apply Forall_fmap. eapply Forall_impl; [exact Hw|exact Hl].
Qed.

Lemma camel_case_chars (P : Ascii.ascii -> Prop) name s :
  (forall c, P c -> P (ascii_lower c)) -> (forall c, P c -> P (ascii_upper c)) ->
  Forall P (String.list_ascii_of_string name) -> to_camel_case name = Some s ->
  Forall P (String.list_ascii_of_string s).
Proof.
  intros Hl Hu H. unfold to_camel_case.
  pose proof (words_chars P next_word name (words_of_letters name) H) as Hw.
  destruct (camel_words (words_of next_word name)) as [l|] eqn:E; [|done]. intros [= <-].
  rewrite String.list_ascii_of_string_of_list_ascii. revert l E.
  induction Hw as [|w ws Hw Hws IH]; cbn; [intros l [= <-]; constructor|].
  destruct w as [|c w]; [done|]. destruct (camel_words ws) as [r|]; [|done]. intros l [= <-].
  apply Forall_cons in Hw as [Hc Hw]. constructor; [by apply Hu|].
  apply Forall_app. split; [|by apply IH]. apply Forall_fmap. eapply Forall_impl; [exact Hw|exact Hl].
Qed.

Example snake_case_examples :
  to_snake_case <$> ["AsyncRequest"; "asyncRequest"; "async_request"; "createID"; "AsyncRClient";
                     "CreateIDForReq"; "Create_ID_For_Req"; "Create_ID_For__Req"; "ID"; "id"] =
  ["async_request"; "async_request"; "async_request"; "create_id"; "async_r_client";
   "create_id_for_req"; "create_id_for_req"; "create_id_for_req"; "id"; "id"].
Proof. reflexivity. Qed.

Example camel_case_examples :
  to_camel_case <$> ["AsyncRequest"; "asyncRequest"; "async_request"; "createID"; "AsyncRClient";
                     "async_r_client"; "CreateIDForReq"; "Create_ID_For__Req"; "ID"; "id"] =
  Some <$> ["AsyncRequest"; "AsyncRequest"; "AsyncRequest"; "CreateId"; "AsyncRClient";
            "AsyncRClient"; "CreateIdForReq"; "CreateIdForReq"; "Id"; "Id"].
Proof. reflexivity. Qed.

Example prost_case_examples :
  (to_camel_case_prost <$> ["___"; "foo_"; "__init__"; "health_check"]) =
    [""; "Foo"; "Init"; "HealthCheck"] /\
  (to_snake_case_prost <$> ["___"; "foo_"; "__init__"; "HealthCheck"]) =
    [""; "foo"; "init"; "health_check"].
Proof. split; reflexivity. Qed.

(** A name that ends in an underscore has an empty last word, on which [to_camel_case] of the
    compiler panics; its [to_snake_case] keeps one underscore for it. *)
Lemma trailing_underscore :
  to_camel_case "Get_" = None /\ to_snake_case "Get_" = "get_".
Proof. done. Qed.
