(* ===== verification/Scope.v ===== *)
(** Message types by their protobuf names (src/compiler/src/util/scope.rs): the search of a fully
    qualified name in the file descriptors, and the Rust path of the message found. The descriptors
    are those of the protobuf crate, with the fields the generator reads. *)
From S2P Require Import Prelude Names.

(** ** Descriptors *)

#[warnings="-register-all"]
Inductive DescriptorProto := MkDescriptor (msg_name : string) (nested_type : list DescriptorProto).
Definition msg_name (m : DescriptorProto) : string := let '(MkDescriptor n _) := m in n.
Definition nested_type (m : DescriptorProto) : list DescriptorProto :=
  let '(MkDescriptor _ l) := m in l.

Record MethodDescriptorProto := MkMethod {
  method_name : string; input_type : string; output_type : string;
  client_streaming : bool; server_streaming : bool }.

Record ServiceDescriptorProto := MkService {
  service_name : string; methods : list MethodDescriptorProto }.

Record FileDescriptorProto := MkFile {
  file_name : string; package : string;
  message_type : list DescriptorProto; service : list ServiceDescriptorProto }.

(** ** The scope *)

Definition DESCRIPTOR_PROTO_FILE : string := "google/protobuf/descriptor.proto".

Definition WELL_KNOWN_TYPE_PROTO_FILES : list string :=
  ["google/protobuf/any.proto"; "google/protobuf/api.proto"; "google/protobuf/duration.proto";
   "google/protobuf/empty.proto"; "google/protobuf/field_mask.proto";
   "google/protobuf/source_context.proto"; "google/protobuf/struct.proto";
   "google/protobuf/timestamp.proto"; "google/protobuf/type.proto";
   "google/protobuf/wrappers.proto"].

Definition RUST_KEYWORDS : list string :=
  ["_"; "as"; "async"; "await"; "break"; "crate"; "dyn"; "else"; "enum"; "extern"; "false"; "fn";
   "for"; "if"; "impl"; "in"; "let"; "loop"; "match"; "mod"; "move"; "mut"; "pub"; "ref"; "return";
   "static"; "self"; "Self"; "struct"; "super"; "true"; "trait"; "type"; "unsafe"; "use"; "while";
   "continue"; "box"; "const"; "where"; "virtual"; "proc"; "alignof"; "become"; "offsetof"; "priv";
   "pure"; "sizeof"; "typeof"; "unsized"; "yield"; "do"; "abstract"; "final"; "override"; "macro"].

Definition is_rust_keyword (ident : string) : bool := bool_decide (ident ∈ RUST_KEYWORDS).

(** [RootScope] and [ScopedMessage]. *)
Record RootScope := MkScope {
  file_descriptors : list FileDescriptorProto; files_to_generate : list string }.
Record ScopedMessage := MkScoped {
  fd : FileDescriptorProto; path : list DescriptorProto; msg : DescriptorProto }.

Definition dot : Ascii.ascii := Ascii.ascii_of_nat 46.

(** [ScopedMessage::prefix] and the names made from it. *)
Definition prefix (m : ScopedMessage) : string :=
  foldl (fun p d => p +:+ msg_name d +:+ ".") "" (path m).

Definition rust_prefix (m : ScopedMessage) : string :=
  string_map (fun c => if decide (c = dot) then underscore else c) (prefix m).

Definition rust_name (m : ScopedMessage) : string :=
  let r := rust_prefix m in
  let r := if bool_decide (r = "") && is_rust_keyword (msg_name (msg m))
           then r +:+ "message_" else r in
  r +:+ msg_name (msg m).

Definition protobuf_runtime_path (m : ScopedMessage) : string :=
  foldl (fun p d => p +:+ to_snake_case (msg_name d) +:+ "::") "" (path m) +:+ msg_name (msg m).

(** [RustType] and its [Display]. *)
Inductive RustType :=
  | Generated (module name : string)
  | ProtobufRuntime (path : string).

Definition rust_type_display (t : RustType) : string :=
  match t with
  | Generated module name => "super::" +:+ module +:+ "::" +:+ name
  | ProtobufRuntime path => path
  end.

(** *** [find_message] *)

(** One message of the [for] loop: [continue], the end of the [while] loop without a message, or
    the message found. *)
Inductive found :=
  | Skip
  | Stop
  | Found (path : list DescriptorProto) (msg : DescriptorProto).

(** The loop body on [msg], with the rest of the loops once it is entered. *)
Fixpoint find_in (fqn2 : string) (path : list DescriptorProto) (msg : DescriptorProto) : found :=
  match msg with
  | MkDescriptor name nested =>
      match strip_prefix name fqn2 with
      | Some EmptyString => Found path msg
      | Some (String c rest) =>
          if decide (c = dot) then
            (fix go msgs :=
               match msgs with
               | [] => Stop
               | m :: ms => match find_in rest (path ++ [msg]) m with Skip => go ms | r => r end
               end) nested
          else Skip
      | None => Skip
      end
  end.

(** The [for] loop. *)
Fixpoint find_msgs (fqn2 : string) (path : list DescriptorProto) (msgs : list DescriptorProto)
  : found :=
  match msgs with
  | [] => Stop
  | m :: ms => match find_in fqn2 path m with Skip => find_msgs fqn2 path ms | r => r end
  end.

(** What is left of a name after a file's package; [None] is [continue]. *)
Definition strip_package (package fqn1 : string) : option string :=
  match strip_prefix package fqn1 with
  | Some rest =>
      if decide (package = "") then Some rest
      else match rest with
           | String c rest' => if decide (c = dot) then Some rest' else None
           | EmptyString => None
           end
  | None => None
  end.

(** The loop over the files; [None] is a panic, of the assertion or of the end. *)
Fixpoint find_files (fqn1 : string) (fds : list FileDescriptorProto) : option ScopedMessage :=
  match fds with
  | [] => None
  | fd :: fds' =>
      match strip_package (package fd) fqn1 with
      | None => find_files fqn1 fds'
      | Some fqn2 =>
          if decide (String.get 0 fqn2 = Some dot) then None
          else match find_msgs fqn2 [] (message_type fd) with
               | Found path msg => Some (MkScoped fd path msg)
               | _ => find_files fqn1 fds'
               end
      end
  end.

Definition find_message (sc : RootScope) (fqn : string) : option ScopedMessage :=
  fqn1 ← strip_prefix "." fqn;
  find_files fqn1 (file_descriptors sc).

(** [RootScope::rust_type]; [proto_path_to_rust_mod] takes the extension off what the protobuf
    crate answers, which is a parameter. *)
Section RustType.
Context (proto_name_to_rs : string -> string).

Definition strip_suffix (suffix s : string) : option string :=
  let n := (String.length s - String.length suffix)%nat in
  if decide (String.substring n (String.length suffix) s = suffix /\
             String.length suffix <= String.length s)%nat
  then Some (String.substring 0 n s) else None.

Definition proto_path_to_rust_mod (path : string) : option string :=
  strip_suffix ".rs" (proto_name_to_rs path).

Definition rust_type (sc : RootScope) (fqn : string) : option RustType :=
  message ← find_message sc fqn;
  let file := file_name (fd message) in
  module ← proto_path_to_rust_mod file;
  let name := rust_name message in
  Some
    (if bool_decide (file ∈ files_to_generate sc) then Generated module name
     else if decide (file = DESCRIPTOR_PROTO_FILE) then
       ProtobufRuntime ("::protobuf::descriptor::" +:+ protobuf_runtime_path message)
     else if bool_decide (file ∈ WELL_KNOWN_TYPE_PROTO_FILES) then
       ProtobufRuntime ("::protobuf::well_known_types::" +:+ module +:+ "::" +:+
                        protobuf_runtime_path message)
     else Generated module name).
End RustType.

(** ** Full names *)

Fixpoint join_dots (ns : list string) : string :=
  match ns with
  | [] => ""
  | [n] => n
  | n :: ns' => n +:+ String dot (join_dots ns')
  end.

(** The name protoc gives a message: its package, the messages around it and its own name. *)
Definition full_name (r : ScopedMessage) : string :=
  "." +:+ (if decide (package (fd r) = "") then "" else package (fd r) +:+ ".") +:+
  join_dots (msg_name <$> (path r ++ [msg r])).

(** [m] is declared among [ms], inside the messages of [p]. *)
Inductive declared : list DescriptorProto -> list DescriptorProto -> DescriptorProto -> Prop :=
| declared_here ms m : m ∈ ms -> declared ms [] m
| declared_in ms p m x : m ∈ ms -> declared (nested_type m) p x -> declared ms (m :: p) x.

Definition in_scope (sc : RootScope) (r : ScopedMessage) : Prop :=
  (fd r ∈ file_descriptors sc) /\ declared (message_type (fd r)) (path r) (msg r).

(** What protoc guarantees: names are not empty and have no dots, messages declared side by side
    have different names, and no part of a package name is empty. *)
Inductive wf_msgs : list DescriptorProto -> Prop :=
| wf_msgs_intro ms :
    Forall (fun m => msg_name m <> "" /\ no_char dot (msg_name m) = true) ms ->
    NoDup (msg_name <$> ms) ->
    (forall m, m ∈ ms -> wf_msgs (nested_type m)) ->
    wf_msgs ms.

Definition wf_file (f : FileDescriptorProto) : Prop :=
  wf_msgs (message_type f) /\ (package f = "" \/ ("" ∉ split_char dot (package f))).

(** ** Lemmas *)

Lemma descriptor_ind' (P : DescriptorProto -> Prop) :
  (forall n l, Forall P l -> P (MkDescriptor n l)) -> forall m, P m.
Proof.
  intros Hstep. fix IH 1. intros [n l]. apply Hstep.
  induction l as [|m l IHl]; constructor; [apply IH|exact IHl].
Qed.

Lemma find_in_unfold fqn2 path name nested :
  find_in fqn2 path (MkDescriptor name nested) =
  match strip_prefix name fqn2 with
  | Some EmptyString => Found path (MkDescriptor name nested)
  | Some (String c rest) =>
      if decide (c = dot) then find_msgs rest (path ++ [MkDescriptor name nested]) nested else Skip
  | None => Skip
  end.
Proof.
  cbn. destruct (strip_prefix name fqn2) as [[|c rest]|]; [done| |done]. case_decide; [|done].
  generalize (path ++ [MkDescriptor name nested]). intros p.
  induction nested as [|m ms IH]; cbn; [done|]. by rewrite IH.
Qed.

Lemma join_dots_cons n ns : ns <> [] -> join_dots (n :: ns) = n +:+ String dot (join_dots ns).
Proof. by destruct ns. Qed.

Lemma names_snoc_nonempty p x : msg_name <$> (p ++ [x]) <> [].
Proof. by destruct p. Qed.

(** What a search finds is declared there, under the name searched. *)
Definition sound (fqn2 : string) (path : list DescriptorProto) (ms : list DescriptorProto)
    (f : found) : Prop :=
  forall path' x, f = Found path' x ->
  exists p, path' = path ++ p /\ declared ms p x /\ fqn2 = join_dots (msg_name <$> (p ++ [x])).

Lemma declared_mono ms ms' p x : ms ⊆ ms' -> declared ms p x -> declared ms' p x.
Proof. intros Hs. destruct 1; econstructor; eauto. Qed.

Lemma find_msgs_sound_aux fqn2 path ms :
  Forall (fun m => forall fqn2 path, sound fqn2 path [m] (find_in fqn2 path m)) ms ->
  sound fqn2 path ms (find_msgs fqn2 path ms).
Proof.
  induction 1 as [|m ms Hm Hms IH]; intros path' x; cbn; [done|].
  destruct (find_in fqn2 path m) as [| |p' x'] eqn:E; [|done|].
  - intros (p & ? & ? & ?)%IH. exists p. split_and!; [done| |done].
    eapply declared_mono; [|done]. by apply list_subseteq_cons.
  - intros [= <- <-]. destruct (Hm fqn2 path p' x' E) as (p & ? & ? & ?). exists p.
    split_and!; [done| |done]. eapply declared_mono; [|done].
    intros y ->%list_elem_of_singleton. by left.
Qed.

Lemma find_in_sound m : forall fqn2 path, sound fqn2 path [m] (find_in fqn2 path m).
Proof.
  induction m as [name nested IH] using descriptor_ind'. intros fqn2 path path' x.
  rewrite find_in_unfold. set (m := MkDescriptor name nested).
  destruct (strip_prefix name fqn2) as [[|c rest]|] eqn:Es; [| |done];
    apply strip_prefix_Some in Es as ->.
  - intros [= <- <-]. exists []. rewrite app_nil_r. split_and!; [done|by constructor; left|].
    by rewrite string_app_nil_r.
  - case_decide; [subst c|done]. intros E.
    destruct (find_msgs_sound_aux rest (path ++ [m]) nested IH path' x E) as (p & -> & Hd & ->).
    exists (m :: p). rewrite <- app_assoc. split_and!; [done|by econstructor; [by left|]|].
    rewrite <- app_comm_cons, fmap_cons, join_dots_cons by apply names_snoc_nonempty. done.
Qed.

Lemma find_msgs_sound fqn2 path ms : sound fqn2 path ms (find_msgs fqn2 path ms).
Proof. apply find_msgs_sound_aux, Forall_true. intros m. apply find_in_sound. Qed.

(** A message whose name is not the first part of the name searched is passed over. *)
Lemma find_in_skip fqn2 path m :
  no_char dot (msg_name m) = true -> head (split_char dot fqn2) <> Some (msg_name m) ->
  find_in fqn2 path m = Skip.
Proof.
  destruct m as [name nested]. cbn [msg_name]. intros Hn Hh. rewrite find_in_unfold.
  destruct (strip_prefix name fqn2) as [[|c rest]|] eqn:Es; [| |done];
    apply strip_prefix_Some in Es as ->.
  - by rewrite string_app_nil_r, split_char_none in Hh.
  - case_decide; [subst c|done]. by rewrite split_char_app in Hh.
Qed.

Lemma find_msgs_at fqn2 path ms m :
  Forall (fun m => msg_name m <> "" /\ no_char dot (msg_name m) = true) ms ->
  NoDup (msg_name <$> ms) -> m ∈ ms -> head (split_char dot fqn2) = Some (msg_name m) ->
  find_in fqn2 path m <> Skip -> find_msgs fqn2 path ms = find_in fqn2 path m.
Proof.
  intros Hf Hnd Hm Hh Hns. induction Hm as [m ms|m m' ms Hm IH]; cbn.
  - by destruct (find_in fqn2 path m).
  - inversion Hf as [|? ? [_ Hdot] Hf']; subst. rewrite fmap_cons in Hnd.
    apply NoDup_cons in Hnd as [Hnin Hnd]. rewrite find_in_skip; [by apply IH|done|].
    rewrite Hh. intros [= E]. apply Hnin. rewrite <- E. by apply list_elem_of_fmap_2.
Qed.

Lemma strip_prefix_self n s : strip_prefix n (n +:+ s) = Some s.
Proof. by apply strip_prefix_Some. Qed.

Lemma find_msgs_complete ms p x path :
  wf_msgs ms -> declared ms p x ->
  find_msgs (join_dots (msg_name <$> (p ++ [x]))) path ms = Found (path ++ p) x.
Proof.
  intros Hwf Hd. revert path Hwf. induction Hd as [ms m Hm|ms p m x Hm Hd IH];
    intros path Hwf; inversion Hwf as [? Hf Hnd Hn]; subst;
    destruct (proj1 (Forall_forall _ _) Hf m Hm) as [Hne Hdot].
  - cbn [app fmap list_fmap map join_dots].
    assert (find_in (msg_name m) path m = Found path m) as E.
    { destruct m as [name nested]. rewrite find_in_unfold. cbn [msg_name] in *.
      rewrite <- (string_app_nil_r name) at 2. by rewrite strip_prefix_self. }
    rewrite app_nil_r, <- E. apply find_msgs_at; [done..| |by rewrite E].
    by rewrite split_char_none.
  - rewrite <- app_comm_cons, fmap_cons, join_dots_cons by apply names_snoc_nonempty.
    set (rest := join_dots _) in *.
    assert (find_in (msg_name m +:+ String dot rest) path m = Found (path ++ m :: p) x) as E.
    { destruct m as [name nested]. rewrite find_in_unfold. cbn [msg_name nested_type] in *.
      rewrite strip_prefix_self, decide_True by done. rewrite IH by (by apply Hn in Hm).
      by rewrite <- app_assoc. }
    rewrite <- E. apply find_msgs_at; [done..| |by rewrite E].
    by rewrite split_char_app.
Qed.

Lemma declared_names ms p x :
  wf_msgs ms -> declared ms p x ->
  Forall (fun n => n <> "" /\ no_char dot n = true) (msg_name <$> (p ++ [x])).
Proof.
  intros Hwf Hd. revert Hwf. induction Hd as [ms m Hm|ms p m x Hm Hd IH]; intros Hwf;
    inversion Hwf as [? Hf Hnd Hn]; subst;
    pose proof (proj1 (Forall_forall _ _) Hf m Hm).
  - by apply Forall_singleton.
  - rewrite <- app_comm_cons, fmap_cons. constructor; [done|]. by apply IH, Hn.
Qed.

Lemma split_join_dots ns :
  ns <> [] -> Forall (fun n => n <> "" /\ no_char dot n = true) ns ->
  split_char dot (join_dots ns) = ns.
Proof.
  intros Hne. induction 1 as [|n [|n' ns] [_ Hn] Hns IH]; [done|by apply split_char_none|].
  rewrite join_dots_cons, split_char_app by done. by rewrite IH.
Qed.

(** The name without its first dot. *)
Definition full_name1 (r : ScopedMessage) : string :=
  (if decide (package (fd r) = "") then "" else package (fd r) +:+ ".") +:+
  join_dots (msg_name <$> (path r ++ [msg r])).

Lemma strip_package_names f names :
  strip_package (package f) ((if decide (package f = "") then "" else package f +:+ ".") +:+ names)
  = Some names.
Proof.
  unfold strip_package. case_decide as E.
  - rewrite E. done.
  - rewrite string_app_assoc, strip_prefix_self. change ("." +:+ names) with (String dot names).
    cbv iota. by rewrite decide_True.
Qed.

Lemma strip_package_sound f fqn1 fqn2 :
  strip_package (package f) fqn1 = Some fqn2 ->
  fqn1 = (if decide (package f = "") then "" else package f +:+ ".") +:+ fqn2.
Proof.
  unfold strip_package. destruct (strip_prefix (package f) fqn1) as [rest|] eqn:E; [|done].
  apply strip_prefix_Some in E as ->. case_decide as Hp; [rewrite Hp; by intros [= ->]|].
  destruct rest as [|c rest]; [done|]. case_decide; [subst c|done]. intros [= <-].
  by rewrite string_app_assoc.
Qed.

Lemma strip_package_no_dot f fqn1 fqn2 :
  ("" ∉ split_char dot fqn1) -> strip_package (package f) fqn1 = Some fqn2 ->
  String.get 0 fqn2 <> Some dot.
Proof.
  intros Hne ->%strip_package_sound Hd. destruct fqn2 as [|c s]; [done|]. injection Hd as ->.
  apply Hne. assert ("" ∈ split_char dot (String dot s)) as Hs by (cbn; left).
  case_decide; [exact Hs|]. rewrite string_app_assoc.
  change ("." +:+ String dot s) with (String dot (String dot s)). rewrite split_char_app_list.
  apply elem_of_app. by right.
Qed.

Lemma find_files_sound fqn1 fds r :
  find_files fqn1 fds = Some r ->
  fd r ∈ fds /\ declared (message_type (fd r)) (path r) (msg r) /\ fqn1 = full_name1 r.
Proof.
  induction fds as [|f fds IH]; cbn; [done|].
  destruct (strip_package (package f) fqn1) as [fqn2|] eqn:Es; [|intros (? & ? & ?)%IH; by split_and!; [right|..]].
  destruct (decide (String.get 0 fqn2 = Some dot)); [done|].
  apply strip_package_sound in Es as ->.
  destruct (find_msgs fqn2 [] (message_type f)) as [| |p x] eqn:Em;
    [intros (? & ? & ?)%IH; by split_and!; [right|..]..|].
  intros [= <-]. destruct (find_msgs_sound _ _ _ _ _ Em) as (q & -> & Hd & ->).
  split_and!; [by left|done|done].
Qed.

Lemma find_files_complete fds r :
  ("" ∉ split_char dot (full_name1 r)) -> fd r ∈ fds -> wf_msgs (message_type (fd r)) ->
  declared (message_type (fd r)) (path r) (msg r) -> is_Some (find_files (full_name1 r) fds).
Proof.
  intros Hne Hin Hwf Hd. induction fds as [|f fds IH]; [by apply not_elem_of_nil in Hin|]. cbn.
  destruct (strip_package (package f) (full_name1 r)) as [fqn2|] eqn:Es.
  - rewrite decide_False by (by eapply strip_package_no_dot).
    destruct (find_msgs fqn2 [] (message_type f)) as [| |p x] eqn:Em; [| |done];
      apply elem_of_cons in Hin as [<-|Hin]; try (by apply IH);
      unfold full_name1 in Es; rewrite strip_package_names in Es; injection Es as <-;
      by rewrite (find_msgs_complete _ _ _ []) in Em.
  - apply elem_of_cons in Hin as [<-|Hin]; [|by apply IH].
    unfold full_name1 in Es. by rewrite strip_package_names in Es.
Qed.

Lemma full_name1_parts r :
  wf_file (fd r) -> declared (message_type (fd r)) (path r) (msg r) ->
  "" ∉ split_char dot (full_name1 r).
Proof.
  intros [Hwf Hp] Hd. pose proof (declared_names _ _ _ Hwf Hd) as Hn. unfold full_name1.
  assert ("" ∉ split_char dot (join_dots (msg_name <$> (path r ++ [msg r])))) as Hj.
  { rewrite split_join_dots by (done || apply names_snoc_nonempty).
    intros Hin. by apply (proj1 (Forall_forall _ _) Hn) in Hin as []. }
  case_decide as Hpk; [exact Hj|]. destruct Hp as [?|Hp]; [done|].
  rewrite string_app_assoc.
  change ("." +:+ join_dots (msg_name <$> (path r ++ [msg r])))
    with (String dot (join_dots (msg_name <$> (path r ++ [msg r])))).
  rewrite split_char_app_list. by intros [?|?]%elem_of_app.
Qed.

Lemma find_message_sound sc fqn r :
  find_message sc fqn = Some r -> in_scope sc r /\ full_name r = fqn.
Proof.
  unfold find_message. destruct (strip_prefix "." fqn) as [fqn1|] eqn:E; [|done].
  apply strip_prefix_Some in E as ->. intros (? & ? & ->)%find_files_sound. done.
Qed.

(** ** Properties *)

(** The search of a message by its full name. What [find_message] answers is declared in one of
    the files, under exactly the name searched. And when names are as protoc guarantees, the search
    of the full name of any declared message, however nested and whatever other packages share a
    part of its name, ends without a panic with a message of that name: the message itself when
    full names are unique. *)
Theorem find_message_correct (sc : RootScope) :
  Forall wf_file (file_descriptors sc) ->
  (forall fqn r, find_message sc fqn = Some r -> in_scope sc r /\ full_name r = fqn) /\
  (forall r, in_scope sc r ->
     exists r', find_message sc (full_name r) = Some r' /\ full_name r' = full_name r) /\
  ((forall r r', in_scope sc r -> in_scope sc r' -> full_name r = full_name r' -> r = r') ->
   forall r, in_scope sc r -> find_message sc (full_name r) = Some r).
Proof.
  intros Hwf.
  pose proof (find_message_sound sc) as Hs.
  assert (forall r, in_scope sc r ->
    exists r', find_message sc (full_name r) = Some r' /\ full_name r' = full_name r) as Hc.
  { intros r [Hin Hd]. pose proof (proj1 (Forall_forall _ _) Hwf _ Hin) as Hf.
    destruct (find_files_complete (file_descriptors sc) r) as [r' Hr'];
      [by apply full_name1_parts|done|apply Hf|done|].
    assert (find_message sc (full_name r) = Some r') as E.
    { unfold find_message. change (full_name r) with ("." +:+ full_name1 r).
      by rewrite strip_prefix_self. }
    exists r'. split; [exact E|]. by apply Hs in E as []. }
  split_and!; [exact Hs|exact Hc|]. intros Hu r Hr. destruct (Hc r Hr) as (r' & E & En).
  rewrite E. f_equal. apply Hu; [by apply Hs in E as []|done..].
Qed.

(** Two files of packages that share a part of their names, and a nested message. *)
Definition example_inner : DescriptorProto := MkDescriptor "Inner" [].
Definition example_outer : DescriptorProto := MkDescriptor "Outer" [example_inner].
Definition example_scope : RootScope :=
  MkScope [MkFile "a.proto" "pkg" [MkDescriptor "Out" []] [];
           MkFile "b.proto" "pkg.sub" [example_inner; example_outer] []] ["b.proto"].

Lemma find_message_correct_witness :
  (exists r, find_message example_scope ".pkg.sub.Outer.Inner" = Some r /\
             full_name r = ".pkg.sub.Outer.Inner") /\
  in_scope example_scope (MkScoped (MkFile "a.proto" "pkg" [MkDescriptor "Out" []] []) []
                                   (MkDescriptor "Out" [])).
Proof.
  assert (Forall wf_file (file_descriptors example_scope)) as Hwf.
  { assert (wf_msgs []) as H0.
    { constructor; [constructor|constructor|]. by intros m Hm%not_elem_of_nil. }
    assert (wf_msgs [example_inner]) as H1.
    { constructor; [by repeat constructor|by vm_compute; repeat constructor; inversion 1|].
      by intros m ->%list_elem_of_singleton. }
    repeat apply Forall_cons_2; [| |constructor].
    - split; [|right; by apply (bool_decide_unpack _); vm_compute].
      constructor; [by repeat constructor|by repeat constructor; inversion 1|].
      by intros m ->%list_elem_of_singleton.
    - split; [|right; by apply (bool_decide_unpack _); vm_compute].
      constructor; [by repeat constructor| |].
      + by apply (bool_decide_unpack _); vm_compute.
      + intros m [->|[->|Hm%not_elem_of_nil]%elem_of_cons]%elem_of_cons; done. }
  destruct (find_message_correct example_scope Hwf) as (Hs & Hc & _). split.
  - apply (Hc (MkScoped (MkFile "b.proto" "pkg.sub" [example_inner; example_outer] [])
                        [example_outer] example_inner)).
    split; [right; left|]. apply (declared_in _ _ example_outer); [by right; left|by constructor; left].
  - by apply (Hs ".pkg.Out"); vm_compute.
Defined.

(** The paths of runtime types, for the module names the protobuf crate gives these files. *)
Section Examples.
Let to_rs (path : string) : string :=
  if decide (path = "google/protobuf/type.proto") then "type_.rs"
  else if decide (path = "google/protobuf/descriptor.proto") then "descriptor.rs"
  else "timestamp.rs".
Let scope f m gen := MkScope [MkFile f "google.protobuf" [m] []] gen.

Example well_known_dependencies_use_protobuf_runtime :
  rust_type_display <$>
    rust_type to_rs (scope "google/protobuf/type.proto" (MkDescriptor "Type" []) ["service.proto"])
              ".google.protobuf.Type" = Some "::protobuf::well_known_types::type_::Type".
Proof. by vm_compute. Qed.

Example explicitly_generated_well_known_type_uses_local_module :
  rust_type_display <$>
    rust_type to_rs (scope "google/protobuf/timestamp.proto" (MkDescriptor "Timestamp" [])
                           ["google/protobuf/timestamp.proto"])
              ".google.protobuf.Timestamp" = Some "super::timestamp::Timestamp".
Proof. by vm_compute. Qed.

Example nested_descriptor_dependency_uses_protobuf_runtime :
  rust_type_display <$>
    rust_type to_rs (scope DESCRIPTOR_PROTO_FILE
                           (MkDescriptor "DescriptorProto" [MkDescriptor "ExtensionRange" []])
                           ["service.proto"])
              ".google.protobuf.DescriptorProto.ExtensionRange" =
    Some "::protobuf::descriptor::descriptor_proto::ExtensionRange".
Proof. by vm_compute. Qed.
End Examples.
