(* ===== verification/Writer.v ===== *)
(** The writer of generated code (src/compiler/src/util/writer.rs), with the lexical structure of
    what it writes: a scanner of Rust text that nests brackets and collects string literals, and the
    rules by which an operation of the writer adds text of a known structure. *)
From S2P Require Import Prelude.

(** ** [CodeWriter] *)

Record CodeWriter := MkWriter { writer : string; indent : string }.

Definition new_writer : CodeWriter := MkWriter "" "".

Definition nl : string := String newline EmptyString.

(** An operation of the writer, [None] being a panic; [FnOnce(&mut CodeWriter)] for callbacks. *)
Definition op := CodeWriter -> option CodeWriter.

Definition seq_op (a b : op) : op := fun w => w' ← a w; b w'.
Definition skip_op : op := fun w => Some w.

(** The value of an expression that may panic, for an operation. *)
Definition with_value {A} (e : option A) (k : A -> op) : op := fun w => x ← e; k x w.

(** [for x in l]. *)
Fixpoint each {A} (f : A -> op) (l : list A) : op :=
  match l with
  | [] => skip_op
  | x :: l' => seq_op (f x) (each f l')
  end.

Declare Scope op_scope.
Delimit Scope op_scope with op.
Notation "a ;; b" := (seq_op a b) (at level 100, b at level 200, right associativity) : op_scope.
Notation "'let!' x := e 'in' k" := (with_value e (fun x => k))
  (at level 10, x name, k at level 200) : op_scope.

Definition write_line (line : string) : op := fun w =>
  Some (if decide (line = "") then MkWriter (writer w +:+ nl) (indent w)
        else MkWriter (writer w +:+ indent w +:+ line +:+ nl) (indent w)).

(** The callback may change the indent; the subtraction of [truncate] panics when it underflows. *)
Definition indented (cb : op) : op := fun w =>
  w' ← cb (MkWriter (writer w) (indent w +:+ "    "));
  let n := String.length (indent w') in
  if decide (n < 4)%nat then None
  else Some (MkWriter (writer w') (String.substring 0 (n - 4) (indent w'))).

Section Blocks.
Local Open Scope op_scope.

Definition block (first_line last_line : string) (cb : op) : op :=
  write_line first_line;; indented cb;; write_line last_line.

Definition expr_block (prefix : string) (cb : op) : op := block (prefix +:+ " {") "}" cb.
Definition pub_fn (sig : string) (cb : op) : op := expr_block ("pub fn " +:+ sig) cb.
Definition def_fn (sig : string) (cb : op) : op := expr_block ("fn " +:+ sig) cb.
Definition pub_struct (name : string) (cb : op) : op := expr_block ("pub struct " +:+ name) cb.
Definition field_decl (name field_type : string) : op :=
  write_line (name +:+ ": " +:+ field_type +:+ ",").
Definition impl_self_block (name : string) (cb : op) : op := expr_block ("impl " +:+ name) cb.
Definition pub_trait (name : string) (cb : op) : op := expr_block ("pub trait " +:+ name) cb.

(** The asynchronous functions of src/compiler/src/util/mod.rs. *)
Definition async_fn_block (public : bool) (sig : string) (cb : op) : op :=
  if public then expr_block ("pub async fn " +:+ sig) cb else expr_block ("async fn " +:+ sig) cb.
Definition pub_async_fn (sig : string) (cb : op) : op := async_fn_block true sig cb.
Definition def_async_fn (sig : string) (cb : op) : op := async_fn_block false sig cb.
End Blocks.

(** ** The scanner *)

Definition quoted (s : string) : string := String dquote (s +:+ String dquote EmptyString).

(** The brackets that are open, innermost first, the literal being read, and those read. *)
Record lex := MkLex { opens : list Ascii.ascii; lit : option string; lits : list string }.

Definition closing_of (c : Ascii.ascii) : option Ascii.ascii :=
  let n := ascii_num c in
  if decide (n = 40) then Some (Ascii.ascii_of_nat 41)
  else if decide (n = 91) then Some (Ascii.ascii_of_nat 93)
  else if decide (n = 123) then Some (Ascii.ascii_of_nat 125)
  else None.
Definition is_closing (c : Ascii.ascii) : bool :=
  let n := ascii_num c in bool_decide (n = 41 \/ n = 93 \/ n = 125).

(** One character; an escape in a literal, which no generated text has, is refused. *)
Definition lex_char (c : Ascii.ascii) (s : lex) : option lex :=
  match lit s with
  | Some cur =>
      if decide (c = dquote) then Some (MkLex (opens s) None (lits s ++ [cur]))
      else if decide (c = backslash) then None
      else Some (MkLex (opens s) (Some (cur +:+ String c EmptyString)) (lits s))
  | None =>
      if decide (c = dquote) then Some (MkLex (opens s) (Some "") (lits s))
      else if is_closing c then
        match opens s with
        | o :: os => if decide (closing_of o = Some c) then Some (MkLex os None (lits s)) else None
        | [] => None
        end
      else match closing_of c with
           | Some _ => Some (MkLex (c :: opens s) None (lits s))
           | None => Some s
           end
  end.

Fixpoint scan (t : string) (s : lex) : option lex :=
  match t with
  | EmptyString => Some s
  | String c t' => s' ← lex_char c s; scan t' s'
  end.

(** A whole text: its brackets nest, its literals end, and they are [ls]. *)
Definition well_lexed (t : string) (ls : list string) : Prop :=
  scan t (MkLex [] None []) = Some (MkLex [] None ls).

(** ** Fragments *)

(** [t] turns the innermost open brackets [o] into [o'], and has the literals [ls]. *)
Definition lexes (o o' : list Ascii.ascii) (ls : list string) (t : string) : Prop :=
  forall base ls0, scan t (MkLex (o ++ base) None ls0) = Some (MkLex (o' ++ base) None (ls0 ++ ls)).

Lemma scan_app s t x : scan (s +:+ t) x = (y ← scan s x; scan t y).
Proof.
  revert x. induction s as [|c s IH]; intros x; [done|].
  rewrite string_cons_app. cbn [scan]. destruct (lex_char c x) as [y|]; [apply IH|done].
Qed.

Lemma lexes_app o o1 o' ls1 ls2 s t :
  lexes o o1 ls1 s -> lexes o1 o' ls2 t -> lexes o o' (ls1 ++ ls2) (s +:+ t).
Proof.
  intros Hs Ht base ls. rewrite scan_app, Hs. cbn. by rewrite Ht, app_assoc.
Qed.

(** Scanning is local: brackets further out and literals before do not matter. *)
Lemma lex_char_frame c o l ls o' l' ls' base ls0 :
  lex_char c (MkLex o l ls) = Some (MkLex o' l' ls') ->
  lex_char c (MkLex (o ++ base) l (ls0 ++ ls)) = Some (MkLex (o' ++ base) l' (ls0 ++ ls')).
Proof.
  unfold lex_char. cbn [lit opens lits]. destruct l as [cur|].
  - case_decide; [intros [= <- <- <-]; by rewrite app_assoc|].
    case_decide; [done|]. by intros [= <- <- <-].
  - case_decide; [by intros [= <- <- <-]|]. destruct (is_closing c).
    + destruct o as [|x os]; [done|]. cbn. case_decide; [|done]. by intros [= <- <- <-].
    + destruct (closing_of c); by intros [= <- <- <-].
Qed.

Lemma scan_frame t : forall o l ls o' l' ls' base ls0,
  scan t (MkLex o l ls) = Some (MkLex o' l' ls') ->
  scan t (MkLex (o ++ base) l (ls0 ++ ls)) = Some (MkLex (o' ++ base) l' (ls0 ++ ls')).
Proof.
  induction t as [|c t IH]; intros o l ls o' l' ls' base ls0; [by intros [= <- <- <-]|].
  cbn [scan]. destruct (lex_char c (MkLex o l ls)) as [[o1 l1 ls1]|] eqn:E; [|done].
  cbn. intros Ht. rewrite (lex_char_frame _ _ _ _ _ _ _ base ls0 E). by apply IH.
Qed.

Lemma lexes_const o o' ls t :
  scan t (MkLex o None []) = Some (MkLex o' None ls) -> lexes o o' ls t.
Proof. intros H base ls0. rewrite <- (app_nil_r ls0) at 1. by apply scan_frame. Qed.

Lemma lexes_eq o o' ls ls' t : lexes o o' ls t -> ls = ls' -> lexes o o' ls' t.
Proof. by intros H <-. Qed.

(** Characters with no meaning to the scanner, and characters a literal can hold. *)
Definition plain_char (c : Ascii.ascii) : bool :=
  bool_decide (c <> dquote) && bool_decide (c <> backslash) && negb (is_closing c) &&
  bool_decide (closing_of c = None).
Definition plain : string -> bool := string_all plain_char.

Definition lit_char (c : Ascii.ascii) : bool :=
  bool_decide (c <> dquote) && bool_decide (c <> backslash).
Definition lit_text : string -> bool := string_all lit_char.

Lemma plain_lit s : plain s = true -> lit_text s = true.
Proof.
  apply string_all_mono. intros c. unfold plain_char, lit_char.
  by destruct (bool_decide (c <> dquote)), (bool_decide (c <> backslash)).
Qed.

Lemma lexes_plain o t : plain t = true -> lexes o o [] t.
Proof.
  intros H base ls. rewrite app_nil_r. induction t as [|c t IH]; [done|]. cbn [scan].
  apply andb_prop in H as [Hc Ht]. unfold plain_char in Hc.
  repeat (apply andb_prop in Hc as [Hc ?]).
  assert (lex_char c (MkLex (o ++ base) None ls) = Some (MkLex (o ++ base) None ls)) as ->.
  { unfold lex_char. cbn [lit opens lits].
    rewrite decide_False by (by apply (bool_decide_eq_true _)).
    destruct (is_closing c); [done|]. by destruct (closing_of c). }
  by apply IH.
Qed.

Lemma scan_literal s t o cur ls :
  lit_text s = true ->
  scan (s +:+ String dquote t) (MkLex o (Some cur) ls) = scan t (MkLex o None (ls ++ [cur +:+ s])).
Proof.
  revert cur. induction s as [|c s IH]; intros cur H.
  - by rewrite string_app_nil_r.
  - rewrite string_cons_app. apply andb_prop in H as [[H1 H2]%andb_prop Hs].
    apply bool_decide_eq_true in H1, H2. cbn [scan]. unfold lex_char at 1. cbn [lit opens lits].
    rewrite !decide_False by done. cbn. rewrite IH by done. by rewrite string_app_assoc.
Qed.

Lemma lexes_quoted o s : lit_text s = true -> lexes o o [s] (quoted s).
Proof.
  intros H base ls. unfold quoted. cbn [scan]. unfold lex_char at 1. cbn [lit opens lits].
  rewrite decide_True by done. cbn [mbind option_bind]. by rewrite scan_literal.
Qed.

(** ** Operations *)

Definition space : Ascii.ascii := Ascii.ascii_of_nat 32.
Definition blank : string -> bool := string_all (fun c => bool_decide (c = space)).

Lemma blank_plain s : blank s = true -> plain s = true.
Proof. apply string_all_mono. by intros c ->%bool_decide_eq_true. Qed.

(** The operation does not panic, leaves the indent as it was, and appends a text that turns the
    open brackets [o] into [o'] and has the literals [ls]. *)
Definition writes (o o' : list Ascii.ascii) (ls : list string) (f : op) : Prop :=
  forall w, blank (indent w) = true ->
  exists w' t, f w = Some w' /\ indent w' = indent w /\ writer w' = writer w +:+ t /\
               lexes o o' ls t.

Lemma writes_skip o : writes o o [] skip_op.
Proof.
  intros w _. exists w, "". split_and!; [done|done|by rewrite string_app_nil_r|by apply lexes_plain].
Qed.

Lemma ops_seq o o1 o' ls1 ls2 f g :
  writes o o1 ls1 f -> writes o1 o' ls2 g -> writes o o' (ls1 ++ ls2) (seq_op f g).
Proof.
  intros Hf Hg w Hw. destruct (Hf w Hw) as (w1 & t1 & E1 & Hi1 & Ht1 & Hl1).
  rewrite <- Hi1 in Hw. destruct (Hg w1 Hw) as (w2 & t2 & E2 & Hi2 & Ht2 & Hl2).
  exists w2, (t1 +:+ t2). unfold seq_op. rewrite E1. cbn. split_and!; [done|congruence| |].
  - by rewrite Ht2, Ht1, string_app_assoc.
  - by eapply lexes_app.
Qed.

Lemma writes_eq o o' ls ls' f : writes o o' ls f -> ls = ls' -> writes o o' ls' f.
Proof. by intros H <-. Qed.

Lemma writes_line o o' ls s : lexes o o' ls s -> writes o o' ls (write_line s).
Proof.
  intros Hs w Hw. unfold write_line. assert (plain nl = true) as Hnl by done. case_decide as E.
  - eexists _, nl. split_and!; [done..|]. subst s. intros base ls0. specialize (Hs base ls0).
    injection Hs as E1 E2. rewrite <- E2. by rewrite E1, lexes_plain, app_nil_r.
  - eexists _, (indent w +:+ s +:+ nl). split_and!; [done..|].
    apply (lexes_app o o o' [] ls); [by apply lexes_plain, blank_plain|].
    rewrite <- (app_nil_r ls). eapply lexes_app; [done|by apply lexes_plain].
Qed.

Lemma writes_value {A} o o' ls (e : option A) x k :
  e = Some x -> writes o o' ls (k x) -> writes o o' ls (with_value e k).
Proof. intros -> H. exact H. Qed.

Lemma substring_app_length s t : String.substring 0 (String.length s) (s +:+ t) = s.
Proof.
  induction s as [|c s IH]; [by destruct t|]. rewrite string_cons_app. cbn. by rewrite IH.
Qed.

Lemma string_length_app s t : String.length (s +:+ t) = (String.length s + String.length t)%nat.
Proof. induction s as [|c s IH]; [done|]. rewrite string_cons_app. cbn. by rewrite IH. Qed.

Lemma writes_indented o o' ls cb : writes o o' ls cb -> writes o o' ls (indented cb).
Proof.
  intros H w Hw. destruct (H (MkWriter (writer w) (indent w +:+ "    "))) as (w' & t & E & Hi & Ht & Hl).
  { cbn. unfold blank in *. by rewrite string_all_app, Hw. }
  cbn [indent writer] in *. eexists _, t. unfold indented. rewrite E. cbn [mbind option_bind].
  rewrite Hi, string_length_app. change (String.length "    ") with 4%nat.
  rewrite decide_False by lia. split_and!; [done| |done|done]. cbn [indent].
  rewrite Nat.add_sub. apply substring_app_length.
Qed.

Lemma writes_block o o1 ls1 ls2 ls3 first last cb :
  lexes o o1 ls1 first -> writes o1 o1 ls2 cb -> lexes o1 o ls3 last ->
  writes o o (ls1 ++ ls2 ++ ls3) (block first last cb).
Proof.
  intros Hf Hc Hl. unfold block. eapply ops_seq; [by apply writes_line|].
  eapply ops_seq; [by apply writes_indented|by apply writes_line].
Qed.

Definition brace : Ascii.ascii := Ascii.ascii_of_nat 123.

Lemma writes_expr_block o ls1 ls2 prefix cb :
  lexes o o ls1 prefix -> writes (brace :: o) (brace :: o) ls2 cb ->
  writes o o (ls1 ++ ls2) (expr_block prefix cb).
Proof.
  intros Hp Hc. unfold expr_block. rewrite <- (app_nil_r ls2).
  eapply writes_block; [|exact Hc|].
  - rewrite <- (app_nil_r ls1). eapply lexes_app; [exact Hp|]. intros base ls0. by rewrite app_nil_r.
  - intros base ls0. by rewrite app_nil_r.
Qed.

Lemma writes_each {A} o (f : A -> op) (g : A -> list string) l :
  (forall x, x ∈ l -> writes o o (g x) (f x)) -> writes o o (concat (map g l)) (each f l).
Proof.
  induction l as [|x l IH]; intros H; [apply writes_skip|].
  apply (ops_seq o o); [apply H; by left|apply IH]. intros y Hy. apply H. by right.
Qed.

(** What an operation writes from an empty writer. *)
Lemma writes_run ls f : writes [] [] ls f ->
  exists t, f new_writer = Some (MkWriter t "") /\ well_lexed t ls.
Proof.
  intros H. destruct (H new_writer eq_refl) as ([t i] & t' & E & Hi & Ht & Hl).
  cbn in Hi, Ht. subst. exists t'. split; [exact E|]. specialize (Hl [] []). by rewrite app_nil_r in Hl.
Qed.

(** Reads the structure of a line: constants by evaluation, names and literals by hypotheses. *)
Ltac lex_const o t :=
  let r := eval vm_compute in (scan t (MkLex o None [])) in
  lazymatch r with
  | Some (MkLex ?o' None ?ls) => exact (lexes_const o o' ls t eq_refl)
  end.
Ltac lex_side := solve [done | by eauto 3 with lexing].
Ltac lex_text :=
  lazymatch goal with
  | |- lexes _ _ _ (_ +:+ _) => eapply lexes_app; [lex_text|lex_text]
  | |- lexes _ _ _ (quoted _) => eapply lexes_quoted; lex_side
  | |- lexes ?o _ _ (String ?c ?t) => lex_const o (String c t)
  | |- lexes ?o _ _ EmptyString => lex_const o EmptyString
  | |- lexes ?o _ _ nl => lex_const o nl
  | H : forall o, lexes o o _ ?t |- lexes _ _ _ ?t => apply H
  | |- _ => eapply lexes_plain; lex_side
  end.
Create HintDb lexing.
#[export] Hint Resolve plain_lit : lexing.
#[export] Hint Extern 0 (plain (String _ _) = true) => exact eq_refl : lexing.
#[export] Hint Extern 0 (lit_text (String _ _) = true) => exact eq_refl : lexing.
