(* ===== verification/Codegen.v ===== *)
(** The service generator of the compiler crate (src/compiler/src/codegen.rs): what it writes for
    every method, service and file, and what this text makes the client send and the server
    register. *)
From S2P Require Import Prelude Names Scope Writer.

(** [Customize] (src/compiler/src/lib.rs). *)
Record Customize := MkCustomize {
  async_all : bool; async_client : bool; async_server : bool; gen_mod : bool }.

Definition async_on (customize : Customize) (type : string) : bool :=
  if decide (type = "server") then async_all customize || async_server customize
  else async_all customize || async_client customize.

Definition fq_grpc (item : string) : string := "::ttrpc::" +:+ item.

Inductive MethodType := Unary | ClientStreaming | ServerStreaming | Duplex.
#[global] Instance MethodType_eq_dec : EqDecision MethodType.
Proof. solve_decision. Defined.

Definition method_type_display (t : MethodType) : string :=
  match t with
  | Unary => "MethodType::Unary"
  | ClientStreaming => "MethodType::ClientStreaming"
  | ServerStreaming => "MethodType::ServerStreaming"
  | Duplex => "MethodType::Duplex"
  end.

Record MethodGen := MkMethodGen {
  proto : MethodDescriptorProto;
  package_name : string;
  service_name : string;
  root_scope : RootScope;
  customize : Customize }.

Definition is_unary (t : MethodType) : bool := bool_decide (t = Unary).

Section Generator.
Local Open Scope op_scope.
Context (proto_name_to_rs : string -> string).

(** ** [MethodGen] *)

Section Method.
Context (g : MethodGen).

Definition input : option string :=
  rust_type_display <$> rust_type proto_name_to_rs (root_scope g) (input_type (proto g)).

Definition output : option string :=
  rust_type_display <$> rust_type proto_name_to_rs (root_scope g) (output_type (proto g)).

Definition method_type : MethodType * string :=
  match client_streaming (proto g), server_streaming (proto g) with
  | false, false => (Unary, fq_grpc "MethodType::Unary")
  | true, false => (ClientStreaming, fq_grpc "MethodType::ClientStreaming")
  | false, true => (ServerStreaming, fq_grpc "MethodType::ServerStreaming")
  | true, true => (Duplex, fq_grpc "MethodType::Duplex")
  end.

Definition method_service_name : string := to_snake_case (service_name g).
Definition name : string := to_snake_case (method_name (proto g)).
Definition struct_name : option string := to_camel_case (method_name (proto g)).
Definition const_method_name : string :=
  "METHOD_" +:+ to_ascii_uppercase method_service_name +:+ "_" +:+ to_ascii_uppercase name.

Definition request_handler_call (macro_name request : string) : option string :=
  t ← rust_type proto_name_to_rs (root_scope g) (input_type (proto g));
  Some match t with
       | Generated module type =>
           "::ttrpc::" +:+ macro_name +:+ "!(self, ctx, " +:+ request +:+ ", " +:+ module +:+ ", " +:+
           type +:+ ", " +:+ name +:+ ");"
       | ProtobufRuntime _ =>
           "::ttrpc::" +:+ macro_name +:+ "!(self, ctx, " +:+ request +:+ ", " +:+
           rust_type_display t +:+ ", " +:+ name +:+ ");"
       end.

Definition write_handler_impl : op :=
  let! struct_name := struct_name in
  block ("impl ::ttrpc::MethodHandler for " +:+ struct_name +:+ "Method {") "}"
    (block "fn handler(&self, ctx: ::ttrpc::TtrpcContext, req: ::ttrpc::Request) -> ::ttrpc::Result<()> {" "}"
       (let! call := request_handler_call "request_handler" "req" in
        write_line call;;
        write_line "Ok(())")).

Definition write_handler_impl_async : op :=
  write_line "#[async_trait]";;
  let! struct_name := struct_name in
  match method_type.1 with
  | Unary =>
      block ("impl ::ttrpc::r#async::MethodHandler for " +:+ struct_name +:+ "Method {") "}"
        (block "async fn handler(&self, ctx: ::ttrpc::r#async::TtrpcContext, req: ::ttrpc::Request) -> ::ttrpc::Result<::ttrpc::Response> {" "}"
           (let! call := request_handler_call "async_request_handler" "req" in write_line call))
  | ClientStreaming =>
      block ("impl ::ttrpc::r#async::StreamHandler for " +:+ struct_name +:+ "Method {") "}"
        (block "async fn handler(&self, ctx: ::ttrpc::r#async::TtrpcContext, inner: ::ttrpc::r#async::StreamInner) -> ::ttrpc::Result<Option<::ttrpc::Response>> {" "}"
           (write_line ("::ttrpc::async_client_streamimg_handler!(self, ctx, inner, " +:+ name +:+ ");")))
  | ServerStreaming =>
      block ("impl ::ttrpc::r#async::StreamHandler for " +:+ struct_name +:+ "Method {") "}"
        (block "async fn handler(&self, ctx: ::ttrpc::r#async::TtrpcContext, mut inner: ::ttrpc::r#async::StreamInner) -> ::ttrpc::Result<Option<::ttrpc::Response>> {" "}"
           (let! call := request_handler_call "async_server_streamimg_handler" "inner" in
            write_line call))
  | Duplex =>
      block ("impl ::ttrpc::r#async::StreamHandler for " +:+ struct_name +:+ "Method {") "}"
        (block "async fn handler(&self, ctx: ::ttrpc::r#async::TtrpcContext, inner: ::ttrpc::r#async::StreamInner) -> ::ttrpc::Result<Option<::ttrpc::Response>> {" "}"
           (write_line ("::ttrpc::async_duplex_streamimg_handler!(self, ctx, inner, " +:+ name +:+ ");")))
  end.

Definition write_handler : op :=
  let! struct_name := struct_name in
  block ("struct " +:+ struct_name +:+ "Method {") "}"
    (write_line ("service: Arc<dyn " +:+ service_name g +:+ " + Send + Sync>,"));;
  write_line "";;
  if async_on (customize g) "server" then write_handler_impl_async else write_handler_impl.

(** Signatures. *)
Definition unary (method_name : string) : option string :=
  input ← input; output ← output;
  Some (method_name +:+ "(&self, ctx: ttrpc::context::Context, req: &" +:+ input +:+ ") -> " +:+
        fq_grpc "Result" +:+ "<" +:+ output +:+ ">").

Definition client_streaming (method_name : string) : option string :=
  input ← input; output ← output;
  Some (method_name +:+ "(&self, ctx: ttrpc::context::Context) -> " +:+ fq_grpc "Result" +:+ "<" +:+
        fq_grpc "r#async::ClientStreamSender" +:+ "<" +:+ input +:+ ", " +:+ output +:+ ">>").

Definition server_streaming (method_name : string) : option string :=
  input ← input; output ← output;
  Some (method_name +:+ "(&self, ctx: ttrpc::context::Context, req: &" +:+ input +:+ ") -> " +:+
        fq_grpc "Result" +:+ "<" +:+ fq_grpc "r#async::ClientStreamReceiver" +:+ "<" +:+ output +:+
        ">>").

Definition duplex_streaming (method_name : string) : option string :=
  input ← input; output ← output;
  Some (method_name +:+ "(&self, ctx: ttrpc::context::Context) -> " +:+ fq_grpc "Result" +:+ "<" +:+
        fq_grpc "r#async::ClientStream" +:+ "<" +:+ input +:+ ", " +:+ output +:+ ">>").

(** The service name and the method name a client macro is given. *)
Definition client_target : string :=
  quoted (package_name g +:+ "." +:+ service_name g) +:+ ", " +:+ quoted (method_name (proto g)).

Definition write_client : op :=
  match method_type.1 with
  | Unary =>
      let! sig := unary name in
      pub_fn sig
        (let! output := output in
         write_line ("let mut cres = " +:+ output +:+ "::new();");;
         write_line ("::ttrpc::client_request!(self, ctx, req, " +:+ client_target +:+ ", cres);");;
         write_line "Ok(cres)")
  | _ => skip_op
  end.

Definition write_async_client : op :=
  match method_type.1 with
  | Unary =>
      let! sig := unary name in
      pub_async_fn sig
        (let! output := output in
         write_line ("let mut cres = " +:+ output +:+ "::new();");;
         write_line ("::ttrpc::async_client_request!(self, ctx, req, " +:+ client_target +:+ ", cres);"))
  | ClientStreaming =>
      let! sig := client_streaming name in
      pub_async_fn sig
        (write_line ("::ttrpc::async_client_stream_send!(self, ctx, " +:+ client_target +:+ ");"))
  | ServerStreaming =>
      let! sig := server_streaming name in
      pub_async_fn sig
        (write_line ("::ttrpc::async_client_stream_receive!(self, ctx, req, " +:+ client_target +:+
                     ");"))
  | Duplex =>
      let! sig := duplex_streaming name in
      pub_async_fn sig
        (write_line ("::ttrpc::async_client_stream!(self, ctx, " +:+ client_target +:+ ");"))
  end.

(** The request and response types of the trait's method. *)
Definition service_types : option (string * string) :=
  input ← input; output ← output;
  Some match method_type.1 with
       | Unary => (input, output)
       | ClientStreaming => ("::ttrpc::r#async::ServerStreamReceiver<" +:+ input +:+ ">", output)
       | ServerStreaming =>
           (input +:+ ", _: " +:+ "::ttrpc::r#async::ServerStreamSender" +:+ "<" +:+ output +:+ ">", "()")
       | Duplex =>
           ("::ttrpc::r#async::ServerStream" +:+ "<" +:+ output +:+ ", " +:+ input +:+ ">", "()")
       end.

(** The path of the method, as the runtimes write it. *)
Definition method_path : string :=
  "/" +:+ package_name g +:+ "." +:+ service_name g +:+ "/" +:+ method_name (proto g).

Definition write_service : op :=
  let! types := service_types in
  let get_sig context_name :=
    name +:+ "(&self, _ctx: &" +:+ fq_grpc context_name +:+ ", _: " +:+ types.1 +:+
    ") -> ::ttrpc::Result<" +:+ types.2 +:+ ">" in
  let cb :=
    write_line ("Err(::ttrpc::Error::RpcStatus(::ttrpc::get_status(::ttrpc::Code::NOT_FOUND, " +:+
                quoted (method_path +:+ " is not supported") +:+ ".to_string())))") in
  if async_on (customize g) "server" then def_async_fn (get_sig "r#async::TtrpcContext") cb
  else def_fn (get_sig "TtrpcContext") cb.

Definition write_bind : op :=
  let! struct_name := struct_name in
  write_line ("methods.insert(" +:+ quoted method_path +:+ ".to_string()," +:+ nl +:+
              "                    Box::new(" +:+ struct_name +:+
              "Method{service: service.clone()}) as Box<dyn " +:+ "::ttrpc::MethodHandler" +:+
              " + Send + Sync>);").

Definition write_async_bind : op :=
  let! struct_name := struct_name in
  write_line
    (if is_unary method_type.1 then
       "methods.insert(" +:+ quoted (method_name (proto g)) +:+ ".to_string()," +:+ nl +:+
       "                    Box::new(" +:+ struct_name +:+ "Method{service: service.clone()}) as " +:+
       "Box<dyn ::ttrpc::r#async::MethodHandler + Send + Sync>" +:+ ");"
     else
       "streams.insert(" +:+ quoted (method_name (proto g)) +:+ ".to_string()," +:+ nl +:+
       "                    Arc::new(" +:+ struct_name +:+ "Method{service: service.clone()}) as " +:+
       "Arc<dyn ::ttrpc::r#async::StreamHandler + Send + Sync>" +:+ ");").
End Method.

(** ** [ServiceGen] *)

Record ServiceGen := MkServiceGen {
  service_proto : ServiceDescriptorProto;
  method_gens : list MethodGen;
  service_customize : Customize;
  service_package : string }.

Definition service_gen_new (proto : ServiceDescriptorProto) (file : FileDescriptorProto)
    (root_scope : RootScope) (customize : Customize) : option ServiceGen :=
  methods ← mapM (fun m => service ← to_camel_case (Scope.service_name proto);
                           Some (MkMethodGen m (package file) service root_scope customize))
                 (methods proto);
  Some (MkServiceGen proto methods customize (package file)).

Section Service.
Context (s : ServiceGen).

Definition service_camel_name : option string := to_camel_case (Scope.service_name (service_proto s)).

Definition service_path : option string :=
  service ← service_camel_name; Some (service_package s +:+ "." +:+ service).

Definition client_name : option string :=
  service ← service_camel_name; Some (service +:+ "Client").

Definition has_stream_method : bool :=
  existsb (fun g => negb (is_unary (method_type g).1)) (method_gens s).
Definition has_normal_method : bool :=
  existsb (fun g => is_unary (method_type g).1) (method_gens s).

(** The client struct of either runtime, over its type and its methods. *)
Definition write_client_of (client_type : string) (write_client : MethodGen -> op) : op :=
  let! client_name := client_name in
  write_line "#[derive(Clone)]";;
  pub_struct client_name (field_decl "client" client_type);;
  write_line "";;
  impl_self_block client_name
    (pub_fn ("new(client: " +:+ client_type +:+ ") -> Self")
       (expr_block client_name (write_line "client,"));;
     each (fun method => write_line "";; write_client method) (method_gens s)).

Definition write_sync_client : op := write_client_of "::ttrpc::Client" write_client.
Definition write_service_async_client : op :=
  write_client_of "::ttrpc::r#async::Client" write_async_client.
Definition write_service_client : op :=
  if async_on (service_customize s) "client" then write_service_async_client
  else write_sync_client.

Definition write_sync_server_create : op :=
  let! service := service_camel_name in
  pub_fn ("create_" +:+ to_snake_case service +:+ "(service: Arc<dyn " +:+ service +:+
          " + Send + Sync>) -> HashMap<String, Box<dyn " +:+ "::ttrpc::MethodHandler" +:+
          " + Send + Sync>>")
    ((if has_normal_method then write_line "let mut methods = HashMap::new();"
      else write_line "let methods = HashMap::new();");;
     each (fun method => write_line "";; write_bind method) (method_gens s);;
     write_line "";;
     write_line "methods").

Definition write_async_server_create : op :=
  let! service := service_camel_name in
  let! service_path := service_path in
  pub_fn ("create_" +:+ to_snake_case service +:+ "(service: Arc<dyn " +:+ service +:+
          " + Send + Sync>) -> HashMap<String, " +:+ "::ttrpc::r#async::Service" +:+ ">")
    (write_line "let mut ret = HashMap::new();";;
     (if has_normal_method then write_line "let mut methods = HashMap::new();"
      else write_line "let methods = HashMap::new();");;
     (if has_stream_method then write_line "let mut streams = HashMap::new();"
      else write_line "let streams = HashMap::new();");;
     each (fun method => write_line "";; write_async_bind method) (method_gens s);;
     write_line "";;
     write_line ("ret.insert(" +:+ quoted service_path +:+ ".to_string(), " +:+
                 "::ttrpc::r#async::Service{ methods, streams }" +:+ ");");;
     write_line "ret").

Definition write_server : op :=
  let! service := service_camel_name in
  (if async_on (service_customize s) "server" then write_line "#[async_trait]" else skip_op);;
  let trait_name := if async_on (service_customize s) "server" then service +:+ ": Sync"
                    else service in
  pub_trait trait_name (each write_service (method_gens s));;
  write_line "";;
  if async_on (service_customize s) "server" then write_async_server_create
  else write_sync_server_create.

(** The handlers, with an empty line between two of them. *)
Definition write_method_handlers : op :=
  each (fun '(i, method) => (if decide (i <> 0%nat) then write_line "" else skip_op);;
                            write_handler method)
       (imap pair (method_gens s)).

Definition write : op :=
  write_service_client;;
  write_line "";;
  write_method_handlers;;
  write_line "";;
  write_server.
End Service.

(** ** Files *)

Definition write_generated_common : op :=
  each write_line
    ["// @generated"; ""; "#![cfg_attr(rustfmt, rustfmt_skip)]"; "#![allow(unknown_lints)]";
     "#![allow(clipto_camel_casepy)]"; "#![allow(dead_code)]"; "#![allow(missing_docs)]";
     "#![allow(non_camel_case_types)]"; "#![allow(non_snake_case)]";
     "#![allow(non_upper_case_globals)]"; "#![allow(trivial_casts)]"; "#![allow(unsafe_code)]";
     "#![allow(unused_imports)]"; "#![allow(unused_results)]"; "#![allow(clippy::all)]"].

Definition write_generated_by (pkg version : string) : op :=
  write_line ("// This file is generated by " +:+ pkg +:+ " " +:+ version +:+ ". Do not edit");;
  write_generated_common.

(** The version of the crate is fixed when it is compiled. *)
Context (CARGO_PKG_VERSION : string).

(** [CodeGeneratorResponse_File] and [CodeGeneratorResponse]. *)
Record ResponseFile := MkResponseFile { response_name : string; content : string }.

Definition file_ops (file : FileDescriptorProto) (root_scope : RootScope) (customize : Customize)
  : op :=
  write_generated_by "ttrpc-compiler" CARGO_PKG_VERSION;;
  write_line "use protobuf::{CodedInputStream, CodedOutputStream, Message};";;
  write_line "use std::collections::HashMap;";;
  write_line "use std::sync::Arc;";;
  (if async_all customize || async_client customize || async_server customize then
     write_line "use async_trait::async_trait;" else skip_op);;
  each (fun service =>
          write_line "";;
          let! s := service_gen_new service file root_scope customize in write s)
       (service file).

(** A panic is [None]; a file without services gives no output, [Some None]. *)
Definition gen_file (file : FileDescriptorProto) (root_scope : RootScope) (customize : Customize)
  : option (option ResponseFile) :=
  match service file with
  | [] => Some None
  | _ =>
      base ← proto_path_to_rust_mod proto_name_to_rs (file_name file);
      w ← file_ops file root_scope customize new_writer;
      Some (Some (MkResponseFile (base +:+ "_ttrpc.rs") (writer w)))
  end.

(** [files_map]: the last file of a name. *)
Definition files_map (fds : list FileDescriptorProto) : gmap string FileDescriptorProto :=
  foldl (fun m f => <[file_name f := f]> m) ∅ fds.

(** The loop over [files_to_generate]. *)
Definition gen (fds : list FileDescriptorProto) (to_generate : list string) (customize : Customize)
  : option (list ResponseFile) :=
  let root_scope := MkScope fds to_generate in
  results ← mapM (fun file_name =>
                    file ← files_map fds !! file_name;
                    gen_file file root_scope customize) to_generate;
  Some (omap id results).
End Generator.
