(* ===== verification/GeneratedText.v ===== *)
(** What the generated files hold: every file the compiler crate writes nests its brackets and ends
    its literals, and the literals, which are the wire names, make the generated client and the
    generated server meet. *)
From S2P Require Import Prelude AsyncServer Names Scope Writer Codegen.

(** ** Plain names *)

Lemma plain_app s t : plain s = true -> plain t = true -> plain (s +:+ t) = true.
Proof. unfold plain. rewrite string_all_app. by intros -> ->. Qed.

Lemma lit_text_app s t : lit_text s = true -> lit_text t = true -> lit_text (s +:+ t) = true.
Proof. unfold lit_text. rewrite string_all_app. by intros -> ->. Qed.

Lemma plain_fq i : plain i = true -> plain (fq_grpc i) = true.
Proof. by apply plain_app. Qed.

#[export] Hint Resolve plain_app lit_text_app plain_fq : lexing.

Lemma string_all_Forall p s :
  string_all p s = true <-> Forall (fun c => p c = true) (String.list_ascii_of_string s).
Proof.
  induction s as [|c s IH]; cbn; [by split; [constructor|]|].
  rewrite andb_true_iff, IH. by rewrite Forall_cons.
Qed.

Lemma plain_snake s : plain s = true -> plain (to_snake_case s) = true.
Proof.
  unfold plain. rewrite !string_all_Forall. apply snake_case_chars; [|done].
  by intros [[] [] [] [] [] [] [] []].
Qed.

Lemma plain_camel s t : plain s = true -> to_camel_case s = Some t -> plain t = true.
Proof.
  unfold plain. rewrite !string_all_Forall. apply camel_case_chars;
    by intros [[] [] [] [] [] [] [] []].
Qed.

#[export] Hint Resolve plain_snake plain_camel : lexing.

(** ** Types *)

Section Text.
Context (to_rs : string -> string).

(** Names of messages and modules without brackets, quotes and escapes, as identifiers are. *)
Definition plain_scope (sc : RootScope) : Prop :=
  (forall r, in_scope sc r -> Forall (fun m => plain (msg_name m) = true) (path r ++ [msg r])) /\
  (forall f m, proto_path_to_rust_mod to_rs f = Some m -> plain m = true).

Lemma plain_foldl {A} (f : A -> string) l p :
  plain p = true -> Forall (fun x => plain (f x) = true) l ->
  plain (foldl (fun p x => p +:+ f x) p l) = true.
Proof. intros Hp H. revert p Hp. induction H; intros p Hp; cbn; [done|]. auto with lexing. Qed.

Lemma plain_string_map f s :
  (forall c, plain_char c = true -> plain_char (f c) = true) ->
  plain s = true -> plain (string_map f s) = true.
Proof.
  intros Hf. unfold plain. induction s as [|c s IH]; cbn; [done|].
  intros [Hc Hs]%andb_prop. by rewrite Hf, IH.
Qed.

Lemma plain_rust_name m :
  Forall (fun m => plain (msg_name m) = true) (path m ++ [msg m]) -> plain (rust_name m) = true.
Proof.
  intros [Hp Hm]%Forall_app. rewrite Forall_singleton in Hm. unfold rust_name. cbv zeta.
  assert (plain (rust_prefix m) = true) as Hr.
  { apply plain_string_map; [by intros [[] [] [] [] [] [] [] []]|]. unfold prefix.
    apply (plain_foldl (fun d => msg_name d +:+ ".")); [done|]. eapply Forall_impl; [exact Hp|].
    intros d Hd. by apply plain_app. }
  destruct (_ && _); auto with lexing.
Qed.

Lemma plain_runtime_path m :
  Forall (fun m => plain (msg_name m) = true) (path m ++ [msg m]) ->
  plain (protobuf_runtime_path m) = true.
Proof.
  intros [Hp Hm]%Forall_app. rewrite Forall_singleton in Hm. apply plain_app; [|done].
  apply (plain_foldl (fun d => to_snake_case (msg_name d) +:+ "::")); [done|].
  eapply Forall_impl; [exact Hp|]. intros d Hd. apply plain_app; auto with lexing.
Qed.

Lemma plain_rust_type sc fqn t :
  plain_scope sc -> rust_type to_rs sc fqn = Some t ->
  plain (rust_type_display t) = true /\
  match t with Generated m n => plain m = true /\ plain n = true | _ => True end.
Proof.
  intros [Hn Hm] H. unfold rust_type in H.
  destruct (find_message sc fqn) as [r|] eqn:Er; [|done]. apply find_message_sound in Er as [Er _].
  pose proof (plain_rust_name r (Hn r Er)). pose proof (plain_runtime_path r (Hn r Er)).
  cbn -[protobuf_runtime_path rust_name] in H.
  destruct (proto_path_to_rust_mod to_rs (file_name (fd r))) as [m|] eqn:Em; [|done].
  apply Hm in Em. injection H as <-.
  repeat case_match; cbn [rust_type_display]; auto 6 with lexing.
Qed.

(** ** Methods *)

(** A method the generator can write: its types are found, its handler's name can be made, and
    names are plain. *)
Record ok_method (g : MethodGen) : Prop := {
  ok_scope : plain_scope (root_scope g);
  ok_input : is_Some (rust_type to_rs (root_scope g) (input_type (proto g)));
  ok_output : is_Some (rust_type to_rs (root_scope g) (output_type (proto g)));
  ok_struct : is_Some (to_camel_case (method_name (proto g)));
  ok_package : plain (package_name g) = true;
  ok_service : plain (service_name g) = true;
  ok_name : plain (method_name (proto g)) = true }.

(** The structure of an operation, from that of its parts. *)
Ltac write_step :=
  lazymatch goal with
  | |- writes _ _ _ (with_value _ _) => eapply writes_value; [eassumption|]
  | |- writes _ _ _ (seq_op _ _) => eapply ops_seq
  | |- writes _ _ _ skip_op => apply writes_skip
  | |- writes _ _ _ (write_line _) => apply writes_line; lex_text
  | |- writes _ _ _ (block _ _ _) => eapply writes_block; [lex_text| |lex_text]
  | |- writes _ _ _ (expr_block _ _) => eapply writes_expr_block; [lex_text|]
  | |- writes _ _ _ (pub_fn _ _) => unfold pub_fn
  | |- writes _ _ _ (def_fn _ _) => unfold def_fn
  | |- writes _ _ _ (pub_struct _ _) => unfold pub_struct
  | |- writes _ _ _ (field_decl _ _) => unfold field_decl
  | |- writes _ _ _ (impl_self_block _ _) => unfold impl_self_block
  | |- writes _ _ _ (pub_trait _ _) => unfold pub_trait
  | |- writes _ _ _ (pub_async_fn _ _) => unfold pub_async_fn, async_fn_block
  | |- writes _ _ _ (def_async_fn _ _) => unfold def_async_fn, async_fn_block
  end.
Ltac write_text := eapply writes_eq; [repeat write_step|].

Section Method.
Context (g : MethodGen) (Hg : ok_method g).

Lemma input_ok : exists i, input to_rs g = Some i /\ plain i = true.
Proof using Hg.
  destruct (ok_input g Hg) as [t Ht]. unfold input. rewrite Ht. eexists. split; [done|].
  eapply plain_rust_type; [apply Hg|done].
Qed.

Lemma output_ok : exists i, output to_rs g = Some i /\ plain i = true.
Proof using Hg.
  destruct (ok_output g Hg) as [t Ht]. unfold output. rewrite Ht. eexists. split; [done|].
  eapply plain_rust_type; [apply Hg|done].
Qed.

Lemma struct_ok : exists s, struct_name g = Some s /\ plain s = true.
Proof using Hg.
  destruct (ok_struct g Hg) as [s Hs]. exists s. split; [done|].
  exact (plain_camel _ _ (ok_name g Hg) Hs).
Qed.

Lemma plain_name : plain (name g) = true.
Proof using Hg. exact (plain_snake _ (ok_name g Hg)). Qed.

Lemma request_handler_call_ok macro req :
  plain macro = true -> plain req = true ->
  exists c, request_handler_call to_rs g macro req = Some c /\ forall o, lexes o o [] c.
Proof using Hg.
  intros Hm Hr. pose proof plain_name. destruct (ok_input g Hg) as [t Ht].
  destruct (plain_rust_type _ _ _ (ok_scope g Hg) Ht) as [Hd Hs].
  unfold request_handler_call. rewrite Ht. cbn [mbind option_bind]. eexists. split; [done|].
  intros o. destruct t as [m n|p]; [destruct Hs|]; (eapply lexes_eq; [lex_text|done]).
Qed.

(** The wire names of the method. *)
Definition client_lits : list string :=
  [package_name g +:+ "." +:+ service_name g; method_name (proto g)].

Lemma lit_path : lit_text (method_path g) = true.
Proof using Hg.
  pose proof (plain_lit _ (ok_package g Hg)). pose proof (plain_lit _ (ok_service g Hg)).
  pose proof (plain_lit _ (ok_name g Hg)). unfold method_path. auto 10 with lexing.
Qed.

Lemma lexes_target o : lexes o o client_lits (client_target g).
Proof using Hg.
  pose proof (plain_lit _ (ok_package g Hg)). pose proof (plain_lit _ (ok_service g Hg)).
  pose proof (plain_lit _ (ok_name g Hg)). unfold client_target. eapply lexes_eq; [lex_text|done].
Qed.

Lemma writes_handler_impl o : writes o o [] (write_handler_impl to_rs g).
Proof using Hg.
  destruct struct_ok as (s & Es & Hs).
  destruct (request_handler_call_ok "request_handler" "req") as (c & Ec & Hc); [done..|].
  unfold write_handler_impl. by write_text.
Qed.

Lemma writes_handler_impl_async o : writes o o [] (write_handler_impl_async to_rs g).
Proof using Hg.
  destruct struct_ok as (s & Es & Hs). pose proof plain_name as Hn.
  destruct (request_handler_call_ok "async_request_handler" "req") as (c1 & Ec1 & Hc1); [done..|].
  destruct (request_handler_call_ok "async_server_streamimg_handler" "inner")
    as (c2 & Ec2 & Hc2); [done..|].
  unfold write_handler_impl_async. destruct (method_type g).1; by write_text.
Qed.

Lemma writes_handler o : writes o o [] (write_handler to_rs g).
Proof using Hg.
  destruct struct_ok as (s & Es & Hs). pose proof (ok_service g Hg).
  pose proof writes_handler_impl. pose proof writes_handler_impl_async.
  unfold write_handler. write_text; [|done]. destruct (async_on _ _); auto.
Qed.

(** A signature over its method's types. *)
Lemma signature_ok (sig : MethodGen -> string -> option string) :
  sig = unary to_rs \/ sig = client_streaming to_rs \/ sig = server_streaming to_rs \/
  sig = duplex_streaming to_rs ->
  exists s, sig g (name g) = Some s /\ forall o, lexes o o [] s.
Proof using Hg.
  destruct input_ok as (i & Ei & Hi), output_ok as (t & Et & Ht). pose proof plain_name.
  intros [->|[->|[->| ->]]];
    unfold unary, client_streaming, server_streaming, duplex_streaming; rewrite Ei, Et;
    (eexists; split; [reflexivity|]; intros o; eapply lexes_eq; [lex_text|done]).
Qed.

Lemma writes_client o :
  writes o o (if is_unary (method_type g).1 then client_lits else []) (write_client to_rs g).
Proof using Hg.
  destruct output_ok as (t & Et & Ht). pose proof lexes_target.
  destruct (signature_ok (unary to_rs)) as (s & Es & Hs); [by left|].
  unfold write_client. destruct (method_type g).1; by write_text.
Qed.

Lemma writes_async_client o : writes o o client_lits (write_async_client to_rs g).
Proof using Hg.
  destruct output_ok as (t & Et & Ht). pose proof lexes_target.
  destruct (signature_ok (unary to_rs)) as (s1 & Es1 & Hs1); [by left|].
  destruct (signature_ok (client_streaming to_rs)) as (s2 & Es2 & Hs2); [by right; left|].
  destruct (signature_ok (server_streaming to_rs)) as (s3 & Es3 & Hs3); [by right; right; left|].
  destruct (signature_ok (duplex_streaming to_rs)) as (s4 & Es4 & Hs4); [by do 3 right|].
  unfold write_async_client. destruct (method_type g).1; by write_text.
Qed.

Lemma service_types_ok :
  exists req resp, service_types to_rs g = Some (req, resp) /\
  (forall o, lexes o o [] req) /\ (forall o, lexes o o [] resp).
Proof using Hg.
  destruct input_ok as (i & Ei & Hi), output_ok as (t & Et & Ht).
  unfold service_types. rewrite Ei, Et. cbn [mbind option_bind].
  destruct (method_type g).1; eexists _, _; (split; [reflexivity|]);
    split; intros o; (eapply lexes_eq; [lex_text|done]).
Qed.

(** The text of the trait's default methods. *)
Definition unsupported : string := method_path g +:+ " is not supported".

Lemma writes_service o : writes o o [unsupported] (write_service to_rs g).
Proof using Hg.
  destruct service_types_ok as (req & resp & Et & Hreq & Hresp). pose proof plain_name.
  pose proof lit_path as Hp. unfold write_service. write_step. cbn [fst snd].
  assert (lit_text unsupported = true) by (by apply lit_text_app). unfold unsupported in *.
  destruct (async_on _ _); by write_text.
Qed.

Lemma writes_bind o : writes o o [method_path g] (write_bind g).
Proof using Hg.
  destruct struct_ok as (s & Es & Hs). pose proof lit_path. unfold write_bind. by write_text.
Qed.

Lemma writes_async_bind o : writes o o [method_name (proto g)] (write_async_bind g).
Proof using Hg.
  destruct struct_ok as (s & Es & Hs). pose proof (plain_lit _ (ok_name g Hg)).
  unfold write_async_bind. destruct (is_unary _); by write_text.
Qed.
End Method.

(** ** Services *)

(** What the generator needs of a service and its methods. *)
Record ok_rpc (sc : RootScope) (m : MethodDescriptorProto) : Prop := {
  rpc_input : is_Some (rust_type to_rs sc (input_type m));
  rpc_output : is_Some (rust_type to_rs sc (output_type m));
  rpc_struct : is_Some (to_camel_case (method_name m));
  rpc_name : plain (method_name m) = true }.

Record ok_service_of (sc : RootScope) (s : ServiceDescriptorProto) : Prop := {
  svc_name : plain (Scope.service_name s) = true;
  svc_camel : is_Some (to_camel_case (Scope.service_name s));
  svc_methods : Forall (ok_rpc sc) (methods s) }.

Definition type_of (m : MethodDescriptorProto) : MethodType :=
  match Scope.client_streaming m, Scope.server_streaming m with
  | false, false => Unary
  | true, false => ClientStreaming
  | false, true => ServerStreaming
  | true, true => Duplex
  end.

(** The name under which a service is called. *)
Definition wire_service (file : FileDescriptorProto) (s : ServiceDescriptorProto) : string :=
  package file +:+ "." +:+ default "" (to_camel_case (Scope.service_name s)).

(** The literals of a generated service: what each of the client's methods calls, the messages of
    the trait's default methods, and the keys the server registers. *)
Definition client_calls (async : bool) (svc : string) (ms : list MethodDescriptorProto)
  : list string :=
  concat (map (fun m => if async || is_unary (type_of m) then [svc; method_name m] else []) ms).

Definition server_keys (async : bool) (svc : string) (ms : list MethodDescriptorProto)
  : list string :=
  if async then map method_name ms ++ [svc] else map (fun m => get_path svc (method_name m)) ms.

Definition service_lits (customize : Customize) (file : FileDescriptorProto)
    (s : ServiceDescriptorProto) : list string :=
  let svc := wire_service file s in
  client_calls (async_on customize "client") svc (methods s) ++
  map (fun m => get_path svc (method_name m) +:+ " is not supported") (methods s) ++
  server_keys (async_on customize "server") svc (methods s).

Section Service.
Context (sc : RootScope) (Hsc : plain_scope sc) (customize : Customize).
Context (file : FileDescriptorProto) (Hpkg : plain (package file) = true).
Context (s : ServiceDescriptorProto) (Hs : ok_service_of sc s).
Context (camel : string) (Hcamel : to_camel_case (Scope.service_name s) = Some camel).

(** The generator of the service. *)
Definition method_gen (m : MethodDescriptorProto) : MethodGen :=
  MkMethodGen m (package file) camel sc customize.
Definition service_gen : ServiceGen :=
  MkServiceGen s (map method_gen (methods s)) customize (package file).

Lemma service_gen_ok : service_gen_new s file sc customize = Some service_gen.
Proof using Hcamel.
  unfold service_gen_new, service_gen. rewrite Hcamel.
  set (f := fun m : MethodDescriptorProto => _ : option MethodGen).
  assert (mapM f (methods s) = Some (map method_gen (methods s))) as ->; [|done].
  induction (methods s) as [|m ms IH]; [done|]. cbn. by rewrite IH.
Qed.

Lemma plain_camel_name : plain camel = true.
Proof using Hs Hcamel. exact (plain_camel _ _ (svc_name _ _ Hs) Hcamel). Qed.

Lemma method_gen_ok m : m ∈ methods s -> ok_method (method_gen m).
Proof using Hsc Hpkg Hs Hcamel.
  intros Hm. destruct (proj1 (Forall_forall _ _) (svc_methods _ _ Hs) m Hm).
  pose proof plain_camel_name. by split.
Qed.

Lemma type_of_method m : (method_type (method_gen m)).1 = type_of m.
Proof using Type.
  unfold method_type, type_of. cbn.
  by destruct (Scope.client_streaming m), (Scope.server_streaming m).
Qed.

Lemma method_path_eq m : method_path (method_gen m) = get_path (package file +:+ "." +:+ camel) (method_name m).
Proof using Type.
  unfold method_path, get_path, method_gen. cbn [package_name service_name proto].
  by rewrite !string_app_assoc.
Qed.

(** An operation on each method. *)
Lemma writes_methods o f h :
  (forall m, ok_method (method_gen m) -> writes o o (h m) (f (method_gen m))) ->
  writes o o (concat (map h (methods s))) (each f (map method_gen (methods s))).
Proof using Hsc Hpkg Hs Hcamel.
  intros Hf. pose proof method_gen_ok as Hok. induction (methods s) as [|m ms IH].
  - apply writes_skip.
  - apply (ops_seq o o); [apply Hf, Hok; by left|]. apply IH. intros m' Hm'. apply Hok. by right.
Qed.

(** The same after an empty line. *)
Lemma writes_methods_sep o f h :
  (forall m, ok_method (method_gen m) -> writes o o (h m) (f (method_gen m))) ->
  writes o o (concat (map h (methods s)))
    (each (fun g => seq_op (write_line "") (f g)) (map method_gen (methods s))).
Proof using Hsc Hpkg Hs Hcamel.
  intros Hf. apply writes_methods. intros m Hm. apply (ops_seq o o _ []); [by write_text|auto].
Qed.

Lemma service_camel_ok : service_camel_name service_gen = Some camel.
Proof using Hcamel. exact Hcamel. Qed.

Lemma client_name_ok : client_name service_gen = Some (camel +:+ "Client").
Proof using Hcamel. unfold client_name. by rewrite service_camel_ok. Qed.

Lemma service_path_ok : service_path service_gen = Some (package file +:+ "." +:+ camel).
Proof using Hcamel. unfold service_path. by rewrite service_camel_ok. Qed.

Lemma writes_client_of o type f h :
  plain type = true ->
  (forall o m, ok_method (method_gen m) -> writes o o (h m) (f (method_gen m))) ->
  writes o o (concat (map h (methods s))) (write_client_of service_gen type f).
Proof using Hsc Hpkg Hs Hcamel.
  intros Ht Hf. pose proof plain_camel_name. pose proof client_name_ok.
  unfold write_client_of. write_text; [by apply writes_methods_sep; eauto|].
  cbn [app]. by rewrite ?app_nil_r.
Qed.

Local Abbreviation svc := (package file +:+ "." +:+ camel).

Lemma writes_service_client o :
  writes o o (client_calls (async_on customize "client") svc (methods s))
    (write_service_client to_rs service_gen).
Proof using Hsc Hpkg Hs Hcamel.
  unfold write_service_client, client_calls. cbn [service_customize service_gen].
  destruct (async_on customize "client").
  - apply writes_client_of; [done|]. intros o' m Hm. by apply writes_async_client.
  - apply writes_client_of; [done|]. intros o' m Hm. cbn [orb]. rewrite <- type_of_method.
    by apply writes_client.
Qed.

Lemma concat_singletons {A} (h : A -> string) l : concat (map (fun x => [h x]) l) = map h l.
Proof. induction l as [|x l IH]; cbn; [done|]. by rewrite IH. Qed.

Lemma writes_sync_server_create o :
  writes o o (server_keys false svc (methods s)) (write_sync_server_create service_gen).
Proof using Hsc Hpkg Hs Hcamel.
  pose proof plain_camel_name. pose proof service_camel_ok. unfold write_sync_server_create, server_keys.
  write_text.
  - destruct (has_normal_method _); write_text; reflexivity.
  - apply (writes_methods_sep _ _ (fun m => [get_path svc (method_name m)])).
    intros m Hm. cbv beta. rewrite <- method_path_eq. by apply writes_bind.
  - cbn [app]. rewrite ?app_nil_r. apply concat_singletons.
Qed.

Lemma writes_async_server_create o :
  writes o o (server_keys true svc (methods s)) (write_async_server_create service_gen).
Proof using Hsc Hpkg Hs Hcamel.
  pose proof plain_camel_name. pose proof service_camel_ok. pose proof service_path_ok.
  pose proof (plain_lit _ Hpkg). assert (lit_text camel = true) by (by apply plain_lit).
  unfold write_async_server_create, server_keys. write_text.
  - destruct (has_normal_method _); write_text; reflexivity.
  - destruct (has_stream_method _); write_text; reflexivity.
  - apply (writes_methods_sep _ _ (fun m => [method_name m])). intros m Hm.
    by apply (writes_async_bind (method_gen m)).
  - cbn [app]. by rewrite ?app_nil_r, concat_singletons.
Qed.

Lemma writes_server o :
  writes o o
    (map (fun m => get_path svc (method_name m) +:+ " is not supported") (methods s) ++
     server_keys (async_on customize "server") svc (methods s))
    (write_server to_rs service_gen).
Proof using Hsc Hpkg Hs Hcamel.
  pose proof plain_camel_name. pose proof service_camel_ok.
  assert (forall o, writes o o (map (fun m => get_path svc (method_name m) +:+ " is not supported")
                                  (methods s))
                      (each (write_service to_rs) (method_gens service_gen))) as Ht.
  { intros o'. rewrite <- concat_singletons. apply writes_methods. intros m Hm. cbv beta.
    rewrite <- method_path_eq. by apply writes_service. }
  unfold write_server. cbn [service_customize service_gen].
  destruct (async_on customize "server"); write_text;
    try apply Ht; try apply writes_async_server_create; try apply writes_sync_server_create;
    cbn [app]; by rewrite ?app_nil_r.
Qed.

Lemma writes_handlers_from o i ms :
  (forall m, m ∈ ms -> ok_method (method_gen m)) ->
  writes o o []
    (each (fun '(i, method) => seq_op (if decide (i <> 0%nat) then write_line "" else skip_op)
                                      (write_handler to_rs method))
          (imap (fun k m => (i + k, m)%nat) (map method_gen ms))).
Proof using Type.
  revert i. induction ms as [|m ms IH]; intros i Hok; [apply writes_skip|].
  cbn [map]. rewrite imap_cons. apply (ops_seq o o _ [] []).
  - apply (ops_seq o o _ [] []); [destruct (decide _); write_text; reflexivity|].
    apply writes_handler, Hok. by left.
  - rewrite (imap_ext _ (fun k m => (S i + k, m)%nat)) 
      by (intros k g' _; cbn; by rewrite Nat.add_succ_r).
    apply IH. intros m' Hm'. apply Hok. by right.
Qed.

Lemma writes_whole_service o : writes o o (service_lits customize file s) (write to_rs service_gen).
Proof using Hsc Hpkg Hs Hcamel.
  unfold write, service_lits, wire_service. rewrite Hcamel. cbn [default id].
  apply (ops_seq o o); [apply writes_service_client|].
  apply (ops_seq o o _ []); [by write_text|].
  apply (ops_seq o o _ []).
  { unfold write_method_handlers. cbn [method_gens service_gen].
    rewrite (imap_ext pair (fun k m => (0 + k, m)%nat)) by done.
    apply writes_handlers_from. intros m. apply method_gen_ok. }
  apply (ops_seq o o _ []); [by write_text|apply writes_server].
Qed.
End Service.

(** ** Files *)

Section Files.
Context (version : string) (Hversion : plain version = true).
Context (sc : RootScope) (Hsc : plain_scope sc) (customize : Customize).

Record ok_file (f : FileDescriptorProto) : Prop := {
  file_package : plain (package f) = true;
  file_services : Forall (ok_service_of sc) (service f);
  file_base : is_Some (proto_path_to_rust_mod to_rs (file_name f)) }.

Definition file_lits (f : FileDescriptorProto) : list string :=
  concat (map (service_lits customize f) (service f)).

Lemma writes_header o : writes o o [] (write_generated_by "ttrpc-compiler" version).
Proof using Hversion.
  unfold write_generated_by, write_generated_common. cbn [each].
  apply (ops_seq o o _ [] []); [by write_text|].
  repeat (apply (ops_seq o o _ [] []); [by write_text|]). apply writes_skip.
Qed.

Lemma writes_file f : ok_file f -> writes [] [] (file_lits f) (file_ops to_rs version f sc customize).
Proof using Hversion Hsc.
  intros [Hpkg Hserv _]. unfold file_ops, file_lits.
  apply (ops_seq [] [] _ []); [apply writes_header|].
  do 3 (apply (ops_seq [] [] _ []); [by write_text|]).
  apply (ops_seq [] [] _ []); [by destruct (_ || _); write_text|].
  apply writes_each. intros s Hin. pose proof (proj1 (Forall_forall _ _) Hserv s Hin) as Hs.
  destruct (svc_camel _ _ Hs) as [camel Hc].
  apply (ops_seq [] [] _ []); [by write_text|].
  eapply writes_value; [by apply service_gen_ok|]. by apply writes_whole_service.
Qed.

(** The text of a file with services. *)
Definition generated (f : FileDescriptorProto) (r : ResponseFile) : Prop :=
  (exists base, proto_path_to_rust_mod to_rs (file_name f) = Some base /\
                response_name r = base +:+ "_ttrpc.rs") /\
  well_lexed (content r) (file_lits f).

Lemma gen_file_ok f :
  ok_file f ->
  gen_file to_rs version f sc customize = Some None /\ service f = [] \/
  service f <> [] /\
  exists r, gen_file to_rs version f sc customize = Some (Some r) /\ generated f r.
Proof using Hversion Hsc.
  intros Hf. destruct (file_base f Hf) as [base Hb].
  destruct (writes_run _ _ (writes_file f Hf)) as (t & Ew & Hl). revert Ew. unfold gen_file.
  generalize (file_ops to_rs version f sc customize). intros ops Ew.
  destruct (service f) as [|s ss]; [by left|right]. split; [done|].
  exists (MkResponseFile (base +:+ "_ttrpc.rs") t). split; [|split; [by exists base|exact Hl]].
  rewrite Hb. cbn [mbind option_bind]. by rewrite Ew.
Qed.
End Files.
End Text.

(** ** Properties *)

(** C34: The generated files. When every file asked for is known, its types are found and its names
    are plain, the generator does not panic, and writes exactly one file for each of them that has
    services, in order. Each generated text is lexically well formed, its brackets nest and its
    literals end; and its literals are exactly the wire names: what each client method calls (only
    unary methods in a synchronous client), the messages of the trait's default methods, and the
    keys the server registers, which for the synchronous server are the paths the runtime builds
    from what the client calls, and for the asynchronous server the method and service names it
    looks up. *)
Theorem generated_files (to_rs : string -> string) (version : string)
    (fds : list FileDescriptorProto) (to_generate : list string) (customize : Customize)
    (files : list FileDescriptorProto) :
  let sc := MkScope fds to_generate in
  plain version = true -> plain_scope to_rs sc ->
  Forall2 (fun name f => files_map fds !! name = Some f /\ ok_file to_rs sc f) to_generate files ->
  exists results,
    gen to_rs version fds to_generate customize = Some results /\
    Forall2 (generated to_rs customize) (filter (fun f => service f <> []) files) results.
Proof.
  intros sc Hv Hsc Hf. unfold gen. fold sc. clearbody sc.
  set (gen_one := fun file_name => file ← files_map fds !! file_name; gen_file to_rs version file sc customize).
  assert (exists rs, mapM gen_one to_generate = Some rs /\
    Forall2 (generated to_rs customize) (filter (fun f => service f <> []) files) (omap id rs))
    as (rs & E & Hr); [|exists (omap id rs); by rewrite E].
  induction Hf as [|name f names files [Hlook Hok] Hf (rs & IHe & IHr)]; [by exists []|].
  assert (gen_one name = gen_file to_rs version f sc customize) as E1.
  { unfold gen_one. by rewrite Hlook. }
  clearbody gen_one. destruct (gen_file_ok to_rs version Hv sc Hsc customize f Hok)
    as [[E2 Es]|(Es & r & E2 & Hg)]; rewrite E2 in E1.
  - exists (None :: rs). split; [cbn; by rewrite E1, IHe|].
    by rewrite filter_cons_False by (intros Hne; by apply Hne).
  - exists (Some r :: rs). split; [cbn; by rewrite E1, IHe|].
    rewrite filter_cons_True by done. by constructor.
Qed.

(** A file with a unary and a streaming method. *)
Definition example_file : FileDescriptorProto :=
  MkFile "greeter.proto" "grpc" [MkDescriptor "HelloRequest" []; MkDescriptor "HelloReply" []]
    [MkService "Greeter"
       [MkMethod "SayHello" ".grpc.HelloRequest" ".grpc.HelloReply" false false;
        MkMethod "Watch" ".grpc.HelloRequest" ".grpc.HelloReply" false true]].
Definition example_to_rs (path : string) : string := "greeter.rs".

Lemma generated_files_witness :
  exists t,
    gen example_to_rs "0.8.0" [example_file] ["greeter.proto"] (MkCustomize false false true false)
    = Some [MkResponseFile "greeter_ttrpc.rs" t] /\
    well_lexed t ["grpc.Greeter"; "SayHello";
                  "/grpc.Greeter/SayHello is not supported"; "/grpc.Greeter/Watch is not supported";
                  "SayHello"; "Watch"; "grpc.Greeter"].
Proof.
  set (sc := MkScope [example_file] ["greeter.proto"]).
  assert (plain_scope example_to_rs sc) as Hsc.
  { split; [|by intros f m [= <-]]. intros [f p m] [Hin Hd]. cbn in *.
    apply list_elem_of_singleton in Hin as ->. cbn in Hd.
    inversion Hd as [? ? Hm|? ? x ? Hx Hy]; subst.
    - apply elem_of_cons in Hm as [->|Hm]; [|apply list_elem_of_singleton in Hm as ->];
        by repeat constructor.
    - apply elem_of_cons in Hx as [->|Hx]; [|apply list_elem_of_singleton in Hx as ->];
        inversion Hy as [? ? Hz|? ? ? ? Hz]; subst; by apply not_elem_of_nil in Hz. }
  destruct (generated_files example_to_rs "0.8.0" [example_file] ["greeter.proto"]
              (MkCustomize false false true false) [example_file]) as (rs & E & H).
  - reflexivity.
  - exact Hsc.
  - repeat constructor; vm_compute; eauto.
  - change (filter (fun f => service f <> []) [example_file]) with [example_file] in H.
    inversion H as [|? [n t] ? ? [(base & Eb & En) Hl] Hnil]; subst. inversion Hnil; subst.
    exists t. injection Eb as <-. cbn [response_name] in En. subst n. split; [exact E|exact Hl].
Defined.

(** A service with streaming methods only has a synchronous server whose table is declared without
    [mut] and then inserted into, which Rust refuses. *)
Lemma stream_only_sync_table :
  let g := MkMethodGen (MkMethod "Watch" ".a" ".a" false true) "p" "S" (MkScope [] [])
             (MkCustomize false false false false) in
  let s := MkServiceGen (MkService "S" [proto g]) [g] (customize g) "p" in
  has_normal_method s = false /\
  exists before after,
    write_sync_server_create s new_writer =
    Some (MkWriter (before +:+ "let methods = HashMap::new();" +:+ nl +:+ nl +:+ "    " +:+
                    "methods.insert(" +:+ quoted "/p.S/Watch" +:+ after) "").
Proof.
  split; [done|].
  exists ("pub fn create_s(service: Arc<dyn S + Send + Sync>) -> HashMap<String, Box<dyn ::ttrpc::MethodHandler + Send + Sync>> {" +:+ nl +:+ "    ").
  exists (".to_string()," +:+ nl +:+ "                    Box::new(WatchMethod{service: service.clone()}) as Box<dyn ::ttrpc::MethodHandler + Send + Sync>);" +:+ nl +:+ nl +:+ "    methods" +:+ nl +:+ "}" +:+ nl).
  vm_compute. reflexivity.
Qed.
