(* ===== verification/ModRs.v ===== *)
(** The files of a generator run (src/compiler/src/codegen.rs, [gen_and_write]): the module index
    [mod.rs], which keeps what is there and adds the modules that are missing, and the writing of
    the generated texts. Files are named relative to the output directory. *)
From stdpp Require Import sorting strings.
From S2P Require Import Prelude Names Scope Writer Codegen.

(** ** Lines *)

Definition carriage_return : Ascii.ascii := Ascii.ascii_of_nat 13.

Fixpoint strip_cr (s : string) : string :=
  match s with
  | EmptyString => EmptyString
  | String c EmptyString => if decide (c = carriage_return) then EmptyString else s
  | String c s' => String c (strip_cr s')
  end.

(** [BufRead::lines]: a line loses its line feed and one carriage return before it; text after the
    last line feed is a line when it is not empty, and is left as it is. *)
Fixpoint buf_lines (pieces : list string) : list string :=
  match pieces with
  | [] => []
  | [p] => if decide (p = "") then [] else [p]
  | p :: ps => strip_cr p :: buf_lines ps
  end.
Definition read_lines (s : string) : list string := buf_lines (split_char newline s).

(** [writeln!] of every line. *)
Definition write_lines (lines : list string) : string :=
  foldr (fun l s => l +:+ nl +:+ s) "" lines.

(** ** [mod.rs] *)

Definition generated_line : string := "// @generated".
Definition rustfmt_skip : string := "#![cfg_attr(rustfmt, rustfmt::skip)]".
Definition header : list string := [generated_line; rustfmt_skip].

(** The loop over the lines of the existing file. *)
Fixpoint keep_lines (file : list string) (st : gset string * list string)
  : gset string * list string :=
  match file with
  | [] => st
  | line :: file' =>
      if decide (line = generated_line \/ line = rustfmt_skip) then keep_lines file' st
      else keep_lines file' ({[line]} ∪ st.1, st.2 ++ [line])
  end.

(** The loop over the modules: [HashSet::insert] answers whether the module is new. *)
Fixpoint add_modules (modules : list string) (st : gset string * list string)
  : gset string * list string :=
  match modules with
  | [] => st
  | m :: modules' =>
      if decide (m ∈ st.1) then add_modules modules' st
      else add_modules modules' ({[m]} ∪ st.1, st.2 ++ [m])
  end.

Definition module_line (file_name : string) : string :=
  "pub mod " +:+ default "" (head (split_char dot file_name)) +:+ ";".

Definition mod_lines (existing : option (list string)) (names : list string) : list string :=
  let lines := header in
  let set : gset string := list_to_set lines in
  let st := match existing with Some file => keep_lines file (set, lines) | None => (set, lines) end in
  let modules := merge_sort String.le (map module_line names) in
  (add_modules modules st).2.

(** ** [gen_and_write] *)

(** The calls on files: opening one to read it, what is read or an error, and creating one with a
    content. *)
Class FileSys (K : Type) := {
  fs_read : string -> K -> option (res string string);
  fs_write : string -> string -> st K string unit }.

Section Write.
Context {K : Type} `{FileSys K}.

Definition write_mod_rs (names : list string) : st K string unit := fun k =>
  match fs_read "mod.rs" k with
  | Some (Err e) => (k, Err e)
  | Some (Ok text) => fs_write "mod.rs" (write_lines (mod_lines (Some (read_lines text)) names)) k
  | None => fs_write "mod.rs" (write_lines (mod_lines None names)) k
  end.

Fixpoint write_files (results : list ResponseFile) : st K string unit :=
  match results with
  | [] => mret tt
  | r :: results' => _ ← fs_write (response_name r) (content r); write_files results'
  end.

(** [None] is a panic of [gen]. *)
Definition gen_and_write (proto_name_to_rs : string -> string) (version : string)
    (fds : list FileDescriptorProto) (to_generate : list string) (customize : Customize)
  : option (st K string unit) :=
  results ← gen proto_name_to_rs version fds to_generate customize;
  Some (_ ← (if gen_mod customize then write_mod_rs (map response_name results) else mret tt);
        write_files results).
End Write.

(** ** Lemmas *)

(** A line that reading gives back as it was written. *)
Definition clean_line (s : string) : Prop := no_char newline s = true /\ strip_cr s = s.

Lemma read_write_lines lines : Forall clean_line lines -> read_lines (write_lines lines) = lines.
Proof.
  unfold read_lines. induction 1 as [|l lines [Hn Hc] _ IH]; [done|].
  cbn [write_lines foldr]. fold (write_lines lines).
  change (nl +:+ write_lines lines) with (String newline (write_lines lines)).
  rewrite split_char_app by done. cbn [buf_lines].
  pose proof (split_char_nonempty newline (write_lines lines)).
  destruct (split_char newline (write_lines lines)); [done|]. by rewrite Hc, IH.
Qed.

Lemma keep_lines_spec file set lines :
  let kept := filter (fun l => l ∉ header) file in
  keep_lines file (set, lines) = (list_to_set kept ∪ set, lines ++ kept).
Proof.
  cbv zeta. revert set lines. induction file as [|l file IH]; intros set lines; cbn [keep_lines].
  { change (filter _ []) with (@nil string). rewrite app_nil_r. cbn [list_to_set].
    by rewrite (left_id_L ∅ (∪)). }
  case_decide as Hl.
  - rewrite filter_cons_False; [apply IH|]. unfold header. rewrite !elem_of_cons. tauto.
  - rewrite filter_cons_True; [|unfold header; rewrite !elem_of_cons, elem_of_nil; tauto].
    rewrite IH. cbn [fst snd list_to_set]. rewrite <- app_assoc. f_equal.
    by rewrite (assoc_L (∪)), (comm_L (∪) (list_to_set _)).
Qed.

Lemma add_modules_spec modules set lines :
  exists new, (add_modules modules (set, lines)).2 = lines ++ new /\
    NoDup new /\ sublist new modules /\ (forall m, m ∈ new <-> m ∈ modules /\ m ∉ set).
Proof.
  revert set lines. induction modules as [|m ms IH]; intros set lines; cbn [add_modules].
  { exists []. rewrite app_nil_r. split_and!; [done|constructor|constructor|].
    intros m. by rewrite elem_of_nil; split; [|intros [? _]]. }
  cbn [fst snd]. case_decide as Hm.
  - destruct (IH set lines) as (new & E & Hn & Hs & Hin). exists new.
    split_and!; [done|done|by constructor|]. intros x. rewrite Hin, elem_of_cons.
    split; [tauto|]. intros [[->|?] ?]; [done|tauto].
  - destruct (IH ({[m]} ∪ set) (lines ++ [m])) as (new & E & Hn & Hs & Hin).
    exists (m :: new). rewrite E, <- app_assoc. split_and!; [done| |by constructor|].
    + constructor; [|done]. rewrite Hin, elem_of_union, elem_of_singleton. tauto.
    + intros x. rewrite !elem_of_cons, Hin. rewrite elem_of_union, elem_of_singleton.
      destruct (decide (x = m)) as [->|]; tauto.
Qed.

Lemma filter_all {A} (P : A -> Prop) `{forall x, Decision (P x)} l :
  Forall P l -> filter P l = l.
Proof. induction 1; [done|]. rewrite filter_cons_True by done. by f_equal. Qed.

Lemma filter_none {A} (P : A -> Prop) `{forall x, Decision (P x)} l :
  Forall (fun x => ~ P x) l -> filter P l = [].
Proof. induction 1; [done|]. by rewrite filter_cons_False by done. Qed.

Lemma sublist_sorted {A} (R : relation A) l k :
  sublist l k -> StronglySorted R k -> StronglySorted R l.
Proof.
  induction 1 as [|x l k Hs IH|x l k Hs IH]; rewrite ?StronglySorted_cons; [done| |tauto].
  intros [Hx Hk]. split; [|by apply IH]. apply Forall_forall. intros y Hy.
  apply (proj1 (Forall_forall _ _) Hx). by eapply elem_of_sublist.
Qed.

(** What [mod.rs] holds: the header, the lines that were there, and the missing modules. *)
Lemma mod_lines_spec existing names :
  let kept := filter (fun l => l ∉ header) (default [] existing) in
  exists new, mod_lines existing names = header ++ kept ++ new /\
    NoDup new /\ StronglySorted String.le new /\
    (forall m, m ∈ new <-> m ∈ map module_line names /\ m ∉ header ++ kept).
Proof.
  intros kept. unfold mod_lines.
  set (st := match existing with Some _ => _ | None => _ end).
  assert (st = (list_to_set kept ∪ list_to_set header, header ++ kept)) as ->.
  { subst st kept. destruct existing as [file|]; [apply keep_lines_spec|].
    cbn [default]. change (filter _ []) with (@nil string). rewrite app_nil_r.
    f_equal; set_solver. }
  destruct (add_modules_spec (merge_sort String.le (map module_line names))
              (list_to_set kept ∪ list_to_set header) (header ++ kept)) as (new & E & Hn & Hs & Hin).
  exists new. rewrite E, <- app_assoc. split_and!; [done|done| |].
  - eapply sublist_sorted; [done|]. apply StronglySorted_merge_sort; apply _.
  - intros m. rewrite Hin, merge_sort_Permutation, elem_of_app, elem_of_union, !elem_of_list_to_set.
    tauto.
Qed.

Lemma split_char_parts c s : Forall (fun p => no_char c p = true) (split_char c s).
Proof.
  induction s as [|a s IH]; cbn; [by repeat constructor|]. case_decide as Ha; [by constructor|].
  pose proof (split_char_nonempty c s). destruct (split_char c s) as [|p ps]; [done|].
  apply Forall_cons in IH as [Hp Hps]. constructor; [|done].
  unfold no_char in *. cbn. by rewrite bool_decide_eq_true_2.
Qed.

Lemma strip_cr_no_newline s : no_char newline s = true -> no_char newline (strip_cr s) = true.
Proof.
  unfold no_char. induction s as [|c s IH]; [done|]. intros [Hc Hs]%andb_prop.
  destruct s as [|c' s'].
  - cbn [strip_cr]. destruct (decide (c = carriage_return)); [done|]. by apply andb_true_intro.
  - change (strip_cr (String c (String c' s'))) with (String c (strip_cr (String c' s'))).
    apply andb_true_intro. split; [done|by apply IH].
Qed.

Lemma read_lines_no_newline s : Forall (fun l => no_char newline l = true) (read_lines s).
Proof.
  unfold read_lines. pose proof (split_char_parts newline s) as H.
  induction (split_char newline s) as [|p ps IH]; [constructor|].
  apply Forall_cons in H as [Hp Hps]. destruct ps as [|p' ps]; cbn [buf_lines].
  - case_decide; by repeat constructor.
  - constructor; [by apply strip_cr_no_newline|by apply IH].
Qed.

Lemma strip_cr_app s t : t <> "" -> strip_cr (s +:+ t) = s +:+ strip_cr t.
Proof.
  intros Ht. induction s as [|c s IH]; [done|]. rewrite !string_cons_app, <- IH.
  destruct s as [|c' s']; [|done]. destruct t; [done|]. done.
Qed.

(** The line of a module can be read back. *)
Lemma module_line_clean n : no_char newline n = true -> clean_line (module_line n).
Proof.
  intros Hn. split.
  - unfold module_line, no_char. rewrite !string_all_app. cbn [string_all].
    assert (no_char newline (default "" (head (split_char dot n))) = true) as Hh.
    { clear -Hn. unfold no_char in *. induction n as [|c n IH]; [done|].
      apply andb_prop in Hn as [Hc Hn]. cbn [split_char]. destruct (decide (c = dot)); [done|].
      specialize (IH Hn). destruct (split_char dot n); by apply andb_true_intro. }
    unfold no_char in Hh. by rewrite Hh.
  - unfold module_line. rewrite strip_cr_app by (by destruct (default _ _)). by rewrite strip_cr_app.
Qed.

(** The lines of a file that can be written as they were read. *)
Definition clean_file (text : string) : Prop := Forall (fun l => strip_cr l = l) (read_lines text).

(** Writing the index again, for the same modules, changes nothing. *)
Lemma mod_lines_again text names names' :
  clean_file (default "" text) -> Forall (fun n => no_char newline n = true) names ->
  (forall n, n ∈ names' <-> n ∈ names) ->
  let lines := mod_lines (read_lines <$> text) names in
  read_lines (write_lines lines) = lines /\ mod_lines (Some lines) names' = lines.
Proof.
  intros Hc Hn Hs lines. subst lines.
  destruct (mod_lines_spec (read_lines <$> text) names) as (new & E & _ & _ & Hin).
  set (kept := filter (fun l => l ∉ header) (default [] (read_lines <$> text))) in *.
  rewrite E. split.
  - apply read_write_lines. apply Forall_app; split; [by repeat constructor|].
    apply Forall_app; split; apply Forall_forall.
    + intros l [_ Hl]%list_elem_of_filter. destruct text as [text|]; [|by apply not_elem_of_nil in Hl].
      split; [by apply (proj1 (Forall_forall _ _) (read_lines_no_newline text))|].
      by apply (proj1 (Forall_forall _ _) Hc).
    + intros l [Hl _]%Hin. apply list_elem_of_fmap in Hl as (n & -> & Hl).
      apply module_line_clean. by apply (proj1 (Forall_forall _ _) Hn).
  - destruct (mod_lines_spec (Some (header ++ kept ++ new)) names') as (new' & E' & _ & _ & Hin').
    change (default [] (Some (header ++ kept ++ new))) with (header ++ kept ++ new) in *.
    rewrite E'.
    assert (filter (fun l => l ∉ header) (header ++ kept ++ new) = kept ++ new) as Hk.
    { rewrite list.filter_app, filter_none, filter_all; [done|..].
      - apply Forall_app; split; apply Forall_forall.
        + by intros l [Hl _]%list_elem_of_filter.
        + intros l [_ Hl]%Hin Hh. apply Hl, elem_of_app. by left.
      - apply Forall_forall. intros l Hl Hn'. by apply Hn'. }
    rewrite Hk in Hin' |- *. assert (new' = []) as ->; [|by rewrite app_nil_r].
    apply elem_of_nil_inv. intros m [Hm Hnin]%Hin'. apply Hnin.
    rewrite !elem_of_app. apply list_elem_of_fmap in Hm as (n & -> & Hm%Hs).
    destruct (decide (module_line n ∈ header ++ kept)) as [Hk'|Hk'].
    + rewrite elem_of_app in Hk'. tauto.
    + right. right. apply Hin. split; [by apply list_elem_of_fmap_2|exact Hk'].
Qed.

(** ** Properties *)

(** Reading a file gives what was last written to it, and writing one leaves the others. *)
Class FileSysLaws (K : Type) `{FileSys K} : Prop := {
  read_written : forall n s k k', fs_write n s k = (k', Ok tt) -> fs_read n k' = Some (Ok s);
  read_other : forall n m s k k' r, fs_write n s k = (k', r) -> m <> n -> fs_read m k' = fs_read m k }.

Section Laws.
Context {K : Type} `{FileSysLaws K}.

Lemma write_files_read results n k k' :
  write_files results k = (k', Ok tt) -> n ∉ map response_name results -> fs_read n k' = fs_read n k.
Proof using Type*.
  revert k. induction results as [|r results IH]; intros k; cbn [write_files]; munfold; [by intros [= ->]|].
  destruct (fs_write (response_name r) (content r) k) as [k1 [[]|]] eqn:E; [|done].
  intros E' Hn. rewrite (IH k1 E') by (intros ?; apply Hn; by right).
  eapply read_other; [done|]. intros ->. apply Hn. by left.
Qed.

Lemma write_files_content results n c k k' :
  write_files results k = (k', Ok tt) -> n ∈ map response_name results ->
  (forall r, r ∈ results -> response_name r = n -> content r = c) ->
  fs_read n k' = Some (Ok c).
Proof using Type*.
  revert k. induction results as [|r results IH]; intros k; cbn [write_files map]; munfold.
  { by intros _ ?%not_elem_of_nil. }
  destruct (fs_write (response_name r) (content r) k) as [k1 [[]|]] eqn:E; [|done].
  intros E' Hin Heq. destruct (decide (n ∈ map response_name results)) as [Hd|Hd].
  - apply (IH k1 E' Hd). intros r' Hr'. apply Heq. by right.
  - apply elem_of_cons in Hin as [->|Hin]; [|done].
    rewrite (write_files_read _ _ _ _ E' Hd), <- (Heq r) by (done || by left).
    by eapply read_written.
Qed.

(** One run: the index it writes, and the state in which the files are written. *)
Lemma run_index to_rs version fds to_generate customize results run old k k1 :
  gen_mod customize = true -> gen to_rs version fds to_generate customize = Some results ->
  gen_and_write to_rs version fds to_generate customize = Some run ->
  ("mod.rs" ∉ map response_name results) -> fs_read "mod.rs" k = Ok <$> old ->
  run k = (k1, Ok tt) ->
  fs_read "mod.rs" k1 =
    Some (Ok (write_lines (mod_lines (read_lines <$> old) (map response_name results)))) /\
  exists k0, write_files results k0 = (k1, Ok tt).
Proof using Type*.
  unfold gen_and_write. intros Hm -> Hrun Hn Hold. cbn [mbind option_bind] in Hrun.
  injection Hrun as <-. rewrite Hm. munfold.
  destruct (write_mod_rs (map response_name results) k) as [k0 [[]|]] eqn:E; [|done]. intros E1.
  split; [|by exists k0]. rewrite (write_files_read _ _ _ _ E1 Hn).
  unfold write_mod_rs in E. rewrite Hold in E. destruct old; cbn [fmap option_fmap option_map] in E;
    by eapply read_written.
Qed.
End Laws.

(** C35: Running the generator. A run that succeeds leaves each generated text under its name, and a
    module index that has the two header lines, the lines that were there before in their order
    and without other copies of the header, and then, sorted and without repetition, the modules
    that were missing; so no existing line is lost, every generated module is declared, and a
    module is added at most once. A second run, for files that generate the same modules in
    whatever order and number, leaves the index byte for byte as it is. *)
Theorem module_index {K : Type} `{FileSysLaws K} (to_rs : string -> string) (version : string)
    (fds fds' : list FileDescriptorProto) (to_generate to_generate' : list string)
    (customize : Customize) (results results' : list ResponseFile) (run run' : st K string unit)
    (old : option string) (k k1 k2 : K) :
  gen_mod customize = true ->
  gen to_rs version fds to_generate customize = Some results ->
  gen to_rs version fds' to_generate' customize = Some results' ->
  Forall (fun n => no_char newline n = true /\ n <> "mod.rs") (map response_name results) ->
  (forall n, n ∈ map response_name results' <-> n ∈ map response_name results) ->
  fs_read "mod.rs" k = Ok <$> old -> clean_file (default "" old) ->
  gen_and_write to_rs version fds to_generate customize = Some run ->
  gen_and_write to_rs version fds' to_generate' customize = Some run' ->
  run k = (k1, Ok tt) -> run' k1 = (k2, Ok tt) ->
  let kept := filter (fun l => l ∉ header) (read_lines (default "" old)) in
  exists new,
    fs_read "mod.rs" k1 = Some (Ok (write_lines (header ++ kept ++ new))) /\
    NoDup new /\ StronglySorted String.le new /\
    (forall m, m ∈ new <-> m ∈ map module_line (map response_name results) /\ m ∉ header ++ kept) /\
    fs_read "mod.rs" k2 = fs_read "mod.rs" k1 /\
    (forall n c, n ∈ map response_name results ->
       (forall r, r ∈ results -> response_name r = n -> content r = c) ->
       fs_read n k1 = Some (Ok c)).
Proof.
  intros Hm Hg Hg' Hnames Hsame Hold Hclean Hrun Hrun' E1 E2 kept.
  assert ("mod.rs" ∉ map response_name results) as Hn.
  { intros Hin. by apply (proj1 (Forall_forall _ _) Hnames) in Hin as [_ []]. }
  assert ("mod.rs" ∉ map response_name results') as Hn' by (by rewrite Hsame).
  assert (Forall (fun n => no_char newline n = true) (map response_name results)) as Hnl
    by (eapply Forall_impl; [exact Hnames|by intros n []]).
  destruct (run_index _ _ _ _ _ _ _ _ _ _ Hm Hg Hrun Hn Hold E1) as (R1 & k0 & Ew).
  destruct (mod_lines_again old _ _ Hclean Hnl Hsame) as [Hread Hagain].
  destruct (run_index _ _ _ _ _ _ _ (Some _) _ _ Hm Hg' Hrun' Hn' R1 E2) as (R2 & _).
  cbn [fmap option_fmap option_map] in R2. rewrite Hread, Hagain in R2.
  destruct (mod_lines_spec (read_lines <$> old) (map response_name results))
    as (new & E & Hnd & Hsort & Hin).
  assert (default [] (read_lines <$> old) = read_lines (default "" old)) as Ek by (by destruct old).
  rewrite Ek in E, Hin. fold kept in E, Hin. rewrite E in R1. exists new.
  split_and!; [exact R1|done|done|exact Hin|by rewrite R2, R1, E|].
  intros n c Hnin Heq. by eapply write_files_content.
Qed.

Section Witness.
Local Instance dir_files : FileSys (gmap string string) := {
  fs_read := fun n (k : gmap string string) => Ok <$> (k !! n);
  fs_write := fun n s k => (<[n := s]> k, Ok tt) }.

Local Instance dir_files_laws : FileSysLaws (gmap string string).
Proof.
  split; cbn; intros *; intros [= <-].
  - by rewrite lookup_insert_eq.
  - intros. by rewrite lookup_insert_ne.
Qed.

Lemma dir_runs to_rs version fds to_generate customize run (k : gmap string string) :
  gen_and_write to_rs version fds to_generate customize = Some run -> exists k', run k = (k', Ok tt).
Proof.
  assert (forall results (k : gmap string string), exists k', write_files results k = (k', Ok tt)) as Hw.
  { induction results as [|r results IH]; intros k'; cbn [write_files]; munfold; [by eexists|].
    cbn. apply IH. }
  unfold gen_and_write. destruct (gen _ _ _ _ _) as [results|]; [|done].
  cbn [mbind option_bind]. intros [= <-]. munfold. destruct (gen_mod customize); [|by apply Hw].
  assert (exists k', write_mod_rs (map response_name results) k = (k', Ok tt)) as [k' ->].
  { unfold write_mod_rs. cbn. destruct (k !! "mod.rs"); cbn; by eexists. }
  apply Hw.
Qed.

Let to_rs (p : string) : string := if decide (p = "zeta.proto") then "zeta.rs" else "alpha.rs".
Let fds : list FileDescriptorProto :=
  [MkFile "zeta.proto" "" [] [MkService "Example" []];
   MkFile "alpha.proto" "" [] [MkService "Example" []]].
Let cust : Customize := MkCustomize false false false true.
Let old_index : string := write_lines ["// @generated"; "#[cfg(unix)]"; "pub mod custom;"; "";
                                       "pub mod alpha_ttrpc;"].

(** The runs of the source's test. *)
Lemma module_index_witness :
  exists results results' run run' k1 k2 new,
    gen to_rs "v" fds ["zeta.proto"; "zeta.proto"; "alpha.proto"] cust = Some results /\
    gen to_rs "v" fds ["alpha.proto"; "zeta.proto"; "zeta.proto"] cust = Some results' /\
    gen_and_write to_rs "v" fds ["zeta.proto"; "zeta.proto"; "alpha.proto"] cust = Some run /\
    gen_and_write to_rs "v" fds ["alpha.proto"; "zeta.proto"; "zeta.proto"] cust = Some run' /\
    run {["mod.rs" := old_index]} = (k1, Ok tt) /\ run' k1 = (k2, Ok tt) /\
    fs_read "mod.rs" k1 = Some (Ok (write_lines (header ++ ["#[cfg(unix)]"; "pub mod custom;"; "";
                                                             "pub mod alpha_ttrpc;"] ++ new))) /\
    fs_read "mod.rs" k2 = fs_read "mod.rs" k1 /\ NoDup new /\ "pub mod zeta_ttrpc;" ∈ new.
Proof.
  assert (exists results, gen to_rs "v" fds ["zeta.proto"; "zeta.proto"; "alpha.proto"] cust = Some results /\
    map response_name results = ["zeta_ttrpc.rs"; "zeta_ttrpc.rs"; "alpha_ttrpc.rs"]) as (rs & G1 & N1)
    by (eexists; split; vm_compute; reflexivity).
  assert (exists results, gen to_rs "v" fds ["alpha.proto"; "zeta.proto"; "zeta.proto"] cust = Some results /\
    map response_name results = ["alpha_ttrpc.rs"; "zeta_ttrpc.rs"; "zeta_ttrpc.rs"]) as (rs' & G2 & N2)
    by (eexists; split; vm_compute; reflexivity).
  assert (exists run, gen_and_write to_rs "v" fds ["zeta.proto"; "zeta.proto"; "alpha.proto"] cust = Some run)
    as [run R1] by (unfold gen_and_write; rewrite G1; by eexists).
  assert (exists run, gen_and_write to_rs "v" fds ["alpha.proto"; "zeta.proto"; "zeta.proto"] cust = Some run)
    as [run' R2] by (unfold gen_and_write; rewrite G2; by eexists).
  destruct (dir_runs _ _ _ _ _ _ {["mod.rs" := old_index]} R1) as [k1 E1].
  destruct (dir_runs _ _ _ _ _ _ k1 R2) as [k2 E2].
  destruct (module_index to_rs "v" fds fds _ _ cust rs rs' run run' (Some old_index)
              {["mod.rs" := old_index]} k1 k2
              eq_refl G1 G2) as (new & Hidx & Hnd & _ & Hin & Hsame & _);
    [rewrite N1; apply (bool_decide_unpack _); by vm_compute| |exact (f_equal (fmap Ok) (lookup_singleton_eq _ _))
    |unfold clean_file; apply (bool_decide_unpack _); by vm_compute|exact R1|exact R2|exact E1|exact E2|].
  { intros n. rewrite N1, N2. rewrite !elem_of_cons. tauto. }
  exists rs, rs', run, run', k1, k2, new.
  split_and!; [exact G1|exact G2|exact R1|exact R2|exact E1|exact E2| |exact Hsame|exact Hnd|].
  - rewrite Hidx. reflexivity.
  - apply Hin. split.
    + rewrite N1. by left.
    + apply (bool_decide_unpack _). by vm_compute.
Defined.
End Witness.
