(* ===== verification/FrontEnd.v ===== *)
(** The front ends of the service generator: the builder of the ttrpc-codegen crate
    (src/ttrpc-codegen/src/lib.rs) and the entry point of the protoc plugin (src/compiler/src/codegen.rs). *)
From stdpp Require Import sorting.
From S2P Require Import Prelude Names Scope Writer Codegen ModRs.

(** The messages of protoc's plugin protocol, by the fields that the plugin uses. *)
Record CodeGeneratorRequest := MkRequestMsg {
  proto_file : list FileDescriptorProto; file_to_generate : list string }.
Record CodeGeneratorResponse := MkResponseMsg { supported_features : Z; response_file : list ResponseFile }.

Definition FEATURE_PROTO3_OPTIONAL : Z := 1.
Definition default_options : Customize := MkCustomize false false false false.

(** The builder of protobuf-codegen, the parser of protobuf-parse with [{:#}] of its errors, the
    environment, the files of a directory, and protoc on the other end of the standard streams. *)
Class FrontCalls (K : Type) := {
  PbCodegen : Type;
  PbCustomize : Type;
  PbCallback : Type;
  pb_default : PbCodegen;
  pb_customize : PbCustomize -> PbCodegen -> PbCodegen;
  pb_customize_callback : PbCallback -> PbCodegen -> PbCodegen;
  pb_pure : PbCodegen -> PbCodegen;
  pb_out_dir : string -> PbCodegen -> PbCodegen;
  pb_inputs : list string -> PbCodegen -> PbCodegen;
  pb_includes : list string -> PbCodegen -> PbCodegen;
  pb_run : PbCodegen -> st K string unit;
  typecheck : list string -> list string -> K -> res string (list string * list FileDescriptorProto);
  env_out_dir : K -> option string;
  current_dir : K -> option string;
  dir : string -> FileSys K;
  read_request : st K string CodeGeneratorRequest;
  write_response : CodeGeneratorResponse -> st K string unit }.

Section FrontEnd.
Context {K : Type} `{FrontCalls K} (proto_name_to_rs : string -> string) (version : string).

(** ** The builder *)

Record FrontBuilder := MkFrontBuilder {
  f_out_dir : option string;
  f_includes : list string;
  f_inputs : list string;
  f_rust_protobuf : bool;
  f_rust_protobuf_codegen : PbCodegen;
  f_customize : Customize }.

(** [Codegen::new] and the methods that configure it. *)
Definition front_new : FrontBuilder := MkFrontBuilder None [] [] false pb_default default_options.
Definition front_out_dir (d : string) (b : FrontBuilder) : FrontBuilder :=
  MkFrontBuilder (Some d) (f_includes b) (f_inputs b) (f_rust_protobuf b) (f_rust_protobuf_codegen b) (f_customize b).
Definition front_include (i : string) (b : FrontBuilder) : FrontBuilder :=
  MkFrontBuilder (f_out_dir b) (f_includes b ++ [i]) (f_inputs b) (f_rust_protobuf b) (f_rust_protobuf_codegen b) (f_customize b).
Definition front_includes (l : list string) (b : FrontBuilder) : FrontBuilder := foldl (fun b i => front_include i b) b l.
Definition front_input (i : string) (b : FrontBuilder) : FrontBuilder :=
  MkFrontBuilder (f_out_dir b) (f_includes b) (f_inputs b ++ [i]) (f_rust_protobuf b) (f_rust_protobuf_codegen b) (f_customize b).
Definition front_inputs (l : list string) (b : FrontBuilder) : FrontBuilder := foldl (fun b i => front_input i b) b l.
Definition front_rust_protobuf (b : FrontBuilder) : FrontBuilder :=
  MkFrontBuilder (f_out_dir b) (f_includes b) (f_inputs b) true (f_rust_protobuf_codegen b) (f_customize b).
Definition set_codegen (g : PbCodegen) (b : FrontBuilder) : FrontBuilder :=
  MkFrontBuilder (f_out_dir b) (f_includes b) (f_inputs b) (f_rust_protobuf b) g (f_customize b).
Definition front_rust_protobuf_customize (c : PbCustomize) (b : FrontBuilder) : FrontBuilder :=
  set_codegen (pb_customize c (f_rust_protobuf_codegen b)) b.
Definition front_rust_protobuf_customize_callback (c : PbCallback) (b : FrontBuilder) : FrontBuilder :=
  set_codegen (pb_customize_callback c (f_rust_protobuf_codegen b)) b.
Definition front_customize (c : Customize) (b : FrontBuilder) : FrontBuilder :=
  MkFrontBuilder (f_out_dir b) (f_includes b) (f_inputs b) (f_rust_protobuf b) (f_rust_protobuf_codegen b) c.

(** ** [Codegen::run] *)

Record ParsedAndTypechecked := MkParsed { relative_paths : list string; file_descriptors : list FileDescriptorProto }.

Definition parse_and_typecheck (includes input : list string) (k : K) : res string ParsedAndTypechecked :=
  '(paths, fds) ← typecheck includes input k; Ok (MkParsed paths fds).

(** The output directory: the one that was set, [OUT_DIR], the current directory, or the empty path. *)
Definition dst_path (b : FrontBuilder) (k : K) : string :=
  default (default (default "" (current_dir k)) (env_out_dir k)) (f_out_dir b).

(** The generator of the messages, as [run] leaves it in the builder. *)
Definition message_codegen (b : FrontBuilder) (dst : string) : PbCodegen :=
  pb_includes (f_includes b) (pb_inputs (f_inputs b) (pb_out_dir dst (pb_pure (f_rust_protobuf_codegen b)))).

(** The call of [gen_and_write]; [None] is a panic, which comes before anything is written. *)
Definition write_services (dst : string) (p : ParsedAndTypechecked) (c : Customize) (k : K) : K * option (res string unit) :=
  match @gen_and_write K (dir dst) proto_name_to_rs version (file_descriptors p) (relative_paths p) c with
  | Some m => let '(k, r) := m k in (k, Some r)
  | None => (k, None)
  end.

(** The builder and the files as [run] leaves them, with its result; [None] is a panic. *)
Definition front_run (b : FrontBuilder) (k : K) : FrontBuilder * (K * option (res string unit)) :=
  match parse_and_typecheck (f_includes b) (f_inputs b) k with
  | Err e => (b, (k, Some (Err e)))
  | Ok p =>
      let dst := dst_path b k in
      if f_rust_protobuf b then
        let g := message_codegen b dst in
        match pb_run g k with
        | (k, Err _) => (set_codegen g b, (k, None))
        | (k, Ok _) => (set_codegen g b, write_services dst p (f_customize b) k)
        end
      else (b, write_services dst p (f_customize b) k)
  end.

(** ** The plugin *)

(** [gen] with the response it makes. *)
Definition gen_response (fds : list FileDescriptorProto) (to_generate : list string) (c : Customize)
  : option CodeGeneratorResponse :=
  MkResponseMsg FEATURE_PROTO3_OPTIONAL <$> gen proto_name_to_rs version fds to_generate c.

(** [plugin_main_2] and [plugin_main]; [None] is a panic. *)
Definition plugin_main_2 (gen : CodeGeneratorRequest -> option CodeGeneratorResponse) (k : K) : option K :=
  match read_request k with
  | (_, Err _) => None
  | (k, Ok req) =>
      result ← gen req;
      match write_response result k with (k, Ok _) => Some k | (_, Err _) => None end
  end.
Definition plugin_main (gen : list FileDescriptorProto -> list string -> option CodeGeneratorResponse) : K -> option K :=
  plugin_main_2 (fun r => gen (proto_file r) (file_to_generate r)).

Definition protoc_gen_grpc_rust_main : K -> option K :=
  plugin_main (fun fds to_generate => gen_response fds to_generate default_options).

(** ** Lemmas *)

Lemma write_services_spec dst p c k :
  write_services dst p c k =
    match gen proto_name_to_rs version (file_descriptors p) (relative_paths p) c with
    | None => (k, None)
    | Some results =>
        let '(k, r) := (_ ← (if gen_mod c then @write_mod_rs K (dir dst) (map response_name results) else mret tt);
                        @write_files K (dir dst) results) k in (k, Some r)
    end.
Proof. unfold write_services, gen_and_write. by destruct (gen _ _ _ _ _). Qed.

Lemma front_run_parsed b k paths fds :
  typecheck (f_includes b) (f_inputs b) k = Ok (paths, fds) ->
  front_run b k =
    let p := MkParsed paths fds in let dst := dst_path b k in
    if f_rust_protobuf b then
      (set_codegen (message_codegen b dst) b,
       match pb_run (message_codegen b dst) k with (k, Ok _) => write_services dst p (f_customize b) k | (k, Err _) => (k, None) end)
    else (b, write_services dst p (f_customize b) k).
Proof.
  unfold front_run, parse_and_typecheck. intros ->. cbn. destruct (f_rust_protobuf b); [|done].
  by destruct (pb_run _ k) as [? []].
Qed.

(** ** Properties *)

Context `{!forall d, @FileSysLaws K (dir d)}.

Abbreviation read_in d n k := (@fs_read K (dir d) n k).

(** A run of the generator with a module index touches the index and its results only. *)
Lemma run_other d fds paths c results run n k k' :
  gen_mod c = true -> gen proto_name_to_rs version fds paths c = Some results ->
  @gen_and_write K (dir d) proto_name_to_rs version fds paths c = Some run ->
  n <> "mod.rs" -> n ∉ map response_name results -> run k = (k', Ok tt) -> read_in d n k' = read_in d n k.
Proof.
  intros Hm Hg Hw Hne Hnin Hrun. unfold gen_and_write in Hw. rewrite Hg in Hw. cbn [mbind option_bind] in Hw.
  injection Hw as <-. rewrite Hm in Hrun. munfold. revert Hrun.
  destruct (write_mod_rs _ k) as [k3 [[]|]] eqn:Em; [|done].
  intros Hrun. rewrite (write_files_read (H := dir d) _ _ _ _ Hrun Hnin).
  unfold write_mod_rs in Em. destruct (fs_read "mod.rs" k) as [[text|e]|]; [|done|]; by eapply (read_other (H := dir d)).
Qed.

(** C36: the two ways to run the generator agree. For the same descriptors and files, a builder with
    default options and without message generation panics exactly when the plugin does; where the
    plugin answers protoc, the answer announces support of optional fields, and a run of the builder that succeeds
    leaves the texts of that answer in its output directory, under their names, and touches no other file. *)
Theorem front_ends_agree (b : FrontBuilder) (req : CodeGeneratorRequest) (k k0 k1 : K) :
  typecheck (f_includes b) (f_inputs b) k = Ok (file_to_generate req, proto_file req) ->
  f_rust_protobuf b = false -> f_customize b = default_options ->
  read_request k0 = (k1, Ok req) -> (forall resp, is_ok (write_response resp k1).2 = true) ->
  ((front_run b k).2.2 = None <-> protoc_gen_grpc_rust_main k0 = None) /\
  forall k2, protoc_gen_grpc_rust_main k0 = Some k2 ->
    exists resp, write_response resp k1 = (k2, Ok tt) /\ supported_features resp = FEATURE_PROTO3_OPTIONAL /\
      forall k', front_run b k = (b, (k', Some (Ok tt))) ->
        (forall n c, n ∈ map response_name (response_file resp) ->
           (forall r, r ∈ response_file resp -> response_name r = n -> content r = c) ->
           read_in (dst_path b k) n k' = Some (Ok c)) /\
        (forall n, n ∉ map response_name (response_file resp) ->
           read_in (dst_path b k) n k' = read_in (dst_path b k) n k).
Proof.
  intros Ht Hp Hc Hr Hw. rewrite (front_run_parsed _ _ _ _ Ht), Hp, Hc. cbv zeta. rewrite write_services_spec.
  unfold protoc_gen_grpc_rust_main, plugin_main, plugin_main_2, gen_response. rewrite Hr. cbn [file_descriptors relative_paths].
  destruct (gen proto_name_to_rs version (proto_file req) (file_to_generate req) default_options) as [results|];
    [|by split; [|intros]].
  pose proof (Hw (MkResponseMsg FEATURE_PROTO3_OPTIONAL results)) as Hok.
  cbn [mbind option_bind fmap option_fmap option_map snd default_options gen_mod]. munfold.
  destruct (@write_files K (dir (dst_path b k)) results k) as [k3 r3] eqn:Ef. cbn [fst snd].
  destruct (write_response _ k1) as [k2' [[]|e]] eqn:Ew; [|done]. split; [done|].
  intros k2 [= <-]. eexists. split_and!; [exact Ew|done|]. cbn [response_file].
  intros k' [= -> ->].
  split; intros n *; [intros Hn Heq; by eapply write_files_content|intros Hn; by eapply write_files_read].
Qed.

(** C37: services next to messages. Where the builder also generates the messages and both maintain
    the module index, the generator of the messages runs first, on the inputs and include directories
    of the builder and into its output directory; where it fails the run panics, and every file is as
    that generator has left it, nothing of the services being written. A run that succeeds keeps every
    line that it left in the index, in its order, adds the modules of the services that are missing,
    leaves their texts under their names, and the files of the messages as they were. *)
Theorem messages_and_services (b : FrontBuilder) (paths : list string) (fds : list FileDescriptorProto)
    (results : list ResponseFile) (k k1 : K) (r : res string unit) :
  let dst := dst_path b k in let g := message_codegen b dst in
  typecheck (f_includes b) (f_inputs b) k = Ok (paths, fds) ->
  f_rust_protobuf b = true -> gen_mod (f_customize b) = true ->
  gen proto_name_to_rs version fds paths (f_customize b) = Some results ->
  ("mod.rs" ∉ map response_name results) ->
  pb_run g k = (k1, r) ->
  (front_run b k).1 = set_codegen g b /\
  match r with
  | Err _ => (front_run b k).2 = (k1, None)
  | Ok _ => forall old k', read_in dst "mod.rs" k1 = Ok <$> old -> (front_run b k).2 = (k', Some (Ok tt)) ->
      let kept := filter (fun l => l ∉ header) (read_lines (default "" old)) in
      (exists new, read_in dst "mod.rs" k' = Some (Ok (write_lines (header ++ kept ++ new))) /\
         NoDup new /\ forall m, m ∈ map module_line (map response_name results) -> m ∈ header ++ kept ++ new) /\
      (forall n c, n ∈ map response_name results ->
         (forall f, f ∈ results -> response_name f = n -> content f = c) -> read_in dst n k' = Some (Ok c)) /\
      (forall n, n <> "mod.rs" -> n ∉ map response_name results -> read_in dst n k' = read_in dst n k1)
  end.
Proof.
  intros dst g Ht Hp Hm Hg Hn Hr. rewrite (front_run_parsed _ _ _ _ Ht), Hp. cbv zeta. fold dst g. rewrite Hr.
  split; [done|]. destruct r as [u|e]; [|done]. intros old k' Hold Hrun. cbn [snd] in Hrun.
  set (kept := filter _ (read_lines _)). unfold write_services in Hrun. cbn [file_descriptors relative_paths] in Hrun.
  destruct (@gen_and_write K (dir dst) proto_name_to_rs version fds paths (f_customize b)) as [run|] eqn:Hw; [|done].
  destruct (run k1) as [k2 r2] eqn:Hrun2. injection Hrun as -> ->.
  destruct (run_index (H := dir dst) _ _ _ _ _ _ _ _ _ _ Hm Hg Hw Hn Hold Hrun2) as (Hidx & k3 & Hf).
  destruct (mod_lines_spec (read_lines <$> old) (map response_name results)) as (new & E & Hnd & _ & Hin).
  assert (default [] (read_lines <$> old) = read_lines (default "" old)) as Ek by (by destruct old).
  rewrite Ek in E, Hin. fold kept in E, Hin. rewrite E in Hidx. split_and!.
  - exists new. split_and!; [done|done|]. intros m Hm'. rewrite app_assoc. apply elem_of_app.
    destruct (decide (m ∈ header ++ kept)); [by left|right]. by apply Hin.
  - intros n c Hnin Heq. by eapply (write_files_content (H := dir dst)).
  - intros n Hne Hnin. by eapply run_other.
Qed.
End FrontEnd.

Section Witness.
(** Files by their directory and name. The builder of the messages is its output directory, and
    generating writes an index and one file there. *)
Abbreviation Disk := (gmap (string * string) string).
Local Instance disk_dir (d : string) : FileSys Disk := {
  fs_read := fun n k => Ok <$> (k !! (d, n));
  fs_write := fun n s k => (<[(d, n) := s]> k, Ok tt) }.
Local Instance disk_dir_laws d : @FileSysLaws Disk (disk_dir d).
Proof.
  split; cbn; intros *; intros [= <-].
  - by rewrite lookup_insert_eq.
  - intros Hne. rewrite lookup_insert_ne; [done|congruence].
Qed.

Lemma disk_read (d n : string) (k : Disk) (s : string) : @fs_read Disk (disk_dir d) n k = Some (Ok s) -> k !! (d, n) = Some s.
Proof. cbn. destruct (k !! (d, n)); [|done]. by intros [= ->]. Qed.

Let fds : list FileDescriptorProto :=
  [MkFile "zeta.proto" "" [] [MkService "Example" []]; MkFile "alpha.proto" "" [] [MkService "Example" []]].
Let paths : list string := ["zeta.proto"; "alpha.proto"].
Let to_rs (p : string) : string := if decide (p = "zeta.proto") then "zeta.rs" else "alpha.rs".
Let request := MkRequestMsg fds paths.

Local Instance disk_calls : FrontCalls Disk := {
  PbCodegen := string; PbCustomize := unit; PbCallback := unit;
  pb_default := ""; pb_customize := fun _ g => g; pb_customize_callback := fun _ g => g; pb_pure := id;
  pb_out_dir := fun d _ => d; pb_inputs := fun _ g => g; pb_includes := fun _ g => g;
  pb_run := fun d k => (<[(d, "mod.rs") := write_lines ["// @generated"; "pub mod zeta;"]]> (<[(d, "zeta.rs") := "messages"]> k), Ok tt);
  typecheck := fun _ _ _ => Ok (paths, fds);
  env_out_dir := fun _ => Some "target/out"; current_dir := fun _ => None;
  dir := disk_dir;
  read_request := fun k => (k, Ok request);
  write_response := fun _ k => (k, Ok tt) }.

(** Which of two files a run of the builder has written. *)
Let observe (k : Disk) : bool * bool :=
  (bool_decide (is_Some (k !! ("target/out", "alpha_ttrpc.rs"))), bool_decide (is_Some (k !! ("target/out", "mod.rs")))).

(** Without an output directory the builder writes to [OUT_DIR] what the plugin answers. *)
Lemma front_ends_agree_witness :
  let b := front_input "zeta.proto" (front_include "." front_new) in
  exists resp k', gen_response to_rs "v" fds paths default_options = Some resp /\
    front_run to_rs "v" b (∅ : Disk) = (b, (k', Some (Ok tt))) /\
    map response_name (response_file resp) = ["zeta_ttrpc.rs"; "alpha_ttrpc.rs"] /\
    is_Some (k' !! ("target/out", "alpha_ttrpc.rs")) /\ k' !! ("target/out", "mod.rs") = None.
Proof.
  intros b.
  destruct (front_ends_agree to_rs "v" b request (∅ : Disk) ∅ ∅ eq_refl eq_refl eq_refl eq_refl (fun _ => eq_refl)) as [_ Hk].
  assert (map response_name ∘ response_file <$> gen_response to_rs "v" fds paths default_options
    = Some ["zeta_ttrpc.rs"; "alpha_ttrpc.rs"]) as Hg by (vm_compute; reflexivity).
  apply fmap_Some in Hg as (resp & Hg & Hn).
  assert ((fun _ => true) <$> protoc_gen_grpc_rust_main (K := Disk) to_rs "v" ∅ = Some true) as Hp by (vm_compute; reflexivity).
  apply fmap_Some in Hp as (k2 & Hp & _).
  destruct (Hk _ Hp) as (resp' & _ & _ & Hw).
  assert ((is_ok <$> (front_run to_rs "v" b (∅ : Disk)).2.2, observe (front_run to_rs "v" b (∅ : Disk)).2.1)
    = (Some true, (true, false))) as Hd by (vm_compute; reflexivity).
  assert ((front_run to_rs "v" b (∅ : Disk)).1 = b) as Hb by reflexivity.
  destruct (front_run to_rs "v" b (∅ : Disk)) as [b' [k' o]]. cbn [fst snd] in Hb, Hd. subst b'.
  injection Hd as Ho Ha Hm. destruct o as [[[]|e]|]; [|done..].
  exists resp, k'. destruct (Hw k' eq_refl) as [_ _]. split_and!; [exact Hg|done|by symmetry|..].
  - by apply bool_decide_eq_true in Ha.
  - apply bool_decide_eq_false in Hm. by apply eq_None_not_Some.
Defined.

(** The index that the messages leave is kept, and the modules of two services are added. *)
Lemma messages_and_services_witness :
  let b := front_customize (MkCustomize false false false true)
             (front_rust_protobuf (front_out_dir "out" (front_input "zeta.proto" (front_include "." front_new)))) in
  exists k' new, (front_run to_rs "v" b (∅ : Disk)).2 = (k', Some (Ok tt)) /\
    k' !! ("out", "mod.rs") = Some (write_lines (header ++ ["pub mod zeta;"] ++ new)) /\
    "pub mod alpha_ttrpc;" ∈ new /\ k' !! ("out", "zeta.rs") = Some "messages".
Proof.
  intros b.
  assert (map response_name <$> gen to_rs "v" fds paths (MkCustomize false false false true)
    = Some ["zeta_ttrpc.rs"; "alpha_ttrpc.rs"]) as Hg by (vm_compute; reflexivity).
  apply fmap_Some in Hg as (results & Hg & Hn). symmetry in Hn.
  assert ("mod.rs" ∉ map response_name results) as Hmod by (rewrite Hn; apply (bool_decide_unpack _); by vm_compute).
  destruct (pb_run (message_codegen b (dst_path b (∅ : Disk))) (∅ : Disk)) as [k1 r] eqn:Hr.
  destruct (messages_and_services to_rs "v" b paths fds results (∅ : Disk) k1 r eq_refl eq_refl eq_refl Hg Hmod Hr) as [_ Hk].
  assert (is_ok <$> (front_run to_rs "v" b (∅ : Disk)).2.2 = Some true) as Hd by (vm_compute; reflexivity).
  destruct ((front_run to_rs "v" b (∅ : Disk)).2) as [k' [[[]|e]|]] eqn:Hf; [|done..].
  cbn in Hr. injection Hr as <- <-.
  destruct (Hk (Some (write_lines ["// @generated"; "pub mod zeta;"])) k') as ((new & Hi & Hnd & Hin) & _ & Ho);
    [cbn; by rewrite lookup_insert_eq|done|].
  exists k', new. split; [done|].
  assert (filter (fun l => l ∉ header) (read_lines (default "" (Some (write_lines ["// @generated"; "pub mod zeta;"]))))
    = ["pub mod zeta;"]) as Hkept by (vm_compute; reflexivity).
  rewrite Hkept in Hi, Hin. split; [|split].
  - exact (disk_read _ _ _ _ Hi).
  - assert ("pub mod alpha_ttrpc;" ∈ header ++ ["pub mod zeta;"] ++ new) as Ha.
    { apply Hin. rewrite Hn. vm_compute. by right; left. }
    rewrite !elem_of_app in Ha. destruct Ha as [Ha|[Ha|Ha]]; [..|done];
      exfalso; revert Ha; apply (bool_decide_unpack _); by vm_compute.
  - apply disk_read. etrans; [apply Ho; [done|rewrite Hn; apply (bool_decide_unpack _); by vm_compute]|].
    cbn. rewrite lookup_insert_ne by done. by rewrite lookup_insert_eq.
Defined.
End Witness.
