(* ===== verification/Svcgen.v ===== *)
(** The service generator of the prost crate (src/ttrpc-codegen-prost/src/svcgen.rs, and the tokens
    of src/util.rs): the token streams of a service's trait, handlers, constructor and client. A
    token stream is the list of its tokens, a string literal being one token; what [quote] and
    [proc_macro2] do with it, whether a text is an identifier and how tokens are printed, are
    parameters. *)
From S2P Require Import Prelude Names AsyncServer Codegen.

Inductive token := T (text : string) | L (literal : string).
Abbreviation TokenStream := (list token).

(** [quote!] of tokens separated by spaces. *)
Definition quote (s : string) : TokenStream :=
  map T (filter (fun p => p <> "") (split_char (Ascii.ascii_of_nat 32) s)).

(** The descriptions of services that prost-build passes on. *)
Record Method := MkMethodDesc {
  m_name : string; m_proto_name : string; m_input_type : string; m_output_type : string;
  m_client_streaming : bool; m_server_streaming : bool }.
Record PService := MkPService {
  s_name : string; s_proto_name : string; s_package : string; s_methods : list Method }.

Inductive AsyncMode := All | OnlyClient | OnlyServer | NoAsync.
#[global] Instance AsyncMode_eq_dec : EqDecision AsyncMode.
Proof. solve_decision. Defined.
Inductive Side := Client | Server.
#[global] Instance Side_eq_dec : EqDecision Side.
Proof. solve_decision. Defined.

Definition async_on (mode : AsyncMode) (side : Side) : bool :=
  bool_decide (mode = All) ||
  (bool_decide (side = Server) && bool_decide (mode = OnlyServer)) ||
  (bool_decide (side = Client) && bool_decide (mode = OnlyClient)).

(** [MethodType::from_method]. *)
Definition from_method (m : Method) : MethodType :=
  match m_client_streaming m, m_server_streaming m with
  | false, false => Unary
  | true, false => ClientStreaming
  | false, true => ServerStreaming
  | true, true => Duplex
  end.

Definition service_full_name (s : PService) : string :=
  if decide (s_package s = "") then s_name s else s_package s +:+ "." +:+ s_name s.

Definition method_path (s : PService) (m : Method) : string :=
  "/" +:+ service_full_name s +:+ "/" +:+ m_proto_name m.

Definition service_name_rust (s : PService) : string := to_snake_case_prost (s_name s).
Definition method_name_rust (m : Method) : string := to_snake_case_prost (m_name m).
Definition client_type (s : PService) : string := s_name s +:+ "Client".
Definition service_module_name (s : PService) : string :=
  "__ttrpc_services_" +:+ to_snake_case_prost (s_name s).
Definition has_stream_method (s : PService) : bool :=
  existsb (fun m => negb (is_unary (from_method m))) (s_methods s).

(** [str::split] at double colons. *)
Fixpoint split_colons (s : string) : list string :=
  match s with
  | EmptyString => [EmptyString]
  | String a s' =>
      let push := match split_colons s' with
                  | p :: ps => String a p :: ps
                  | [] => [String a EmptyString]
                  end in
      match s' with
      | String b s'' =>
          if decide (ascii_num a = 58 /\ ascii_num b = 58) then EmptyString :: split_colons s''
          else push
      | EmptyString => push
      end
  end.

Fixpoint interleave (sep : TokenStream) (l : list TokenStream) : TokenStream :=
  match l with
  | [] => []
  | [t] => t
  | t :: l' => t ++ sep ++ interleave sep l'
  end.

Section Svcgen.
Context (is_ident : string -> bool).

(** [format_ident!], which panics on a text that is no identifier. *)
Definition format_ident (s : string) : option TokenStream :=
  if is_ident s then Some [T s] else None.

Definition ttrpc_mod : TokenStream := quote ":: ttrpc".

Definition type_token (type_str : string) : option TokenStream :=
  if decide (type_str = "()") then Some (quote "( )")
  else idents ← mapM format_ident (split_colons type_str);
       Some (interleave (quote "::") idents).

Definition message_type (path : string) : option TokenStream :=
  ty ← type_token path; Some (quote "super ::" ++ ty).

Definition ttrpc_context (async : bool) : TokenStream :=
  if async then ttrpc_mod ++ quote ":: r#async :: TtrpcContext"
  else ttrpc_mod ++ quote ":: TtrpcContext".

Definition method_handler_type (s : PService) (m : Method) : option TokenStream :=
  format_ident (to_camel_case_prost (s_name s) +:+ to_camel_case_prost (m_proto_name m) +:+ "Method").

Section Service.
Context (async_mode : AsyncMode) (s : PService).

(** ** The trait *)

Definition trait_method_signature_token (m : Method) : option TokenStream :=
  name ← format_ident (method_name_rust m);
  input_type ← message_type (m_input_type m);
  output_type ← message_type (m_output_type m);
  let '(req_type, resp_type) :=
    match from_method m with
    | Unary => (input_type, output_type)
    | ClientStreaming =>
        (ttrpc_mod ++ quote ":: r#async :: ServerStreamReceiver <" ++ input_type ++ quote ">",
         output_type)
    | ServerStreaming =>
        (input_type ++ quote ", _ :" ++ ttrpc_mod ++ quote ":: r#async :: ServerStreamSender <" ++
         output_type ++ quote ">", quote "( )")
    | Duplex =>
        (ttrpc_mod ++ quote ":: r#async :: ServerStream <" ++ output_type ++ quote "," ++
         input_type ++ quote ">", quote "( )")
    end in
  let context := ttrpc_context (async_on async_mode Server) in
  let err_msg := method_path s m +:+ " is not supported" in
  let async_token := if async_on async_mode Server then quote "async" else [] in
  Some (async_token ++ quote "fn" ++ name ++ quote "( & self , _ctx : &" ++ context ++
        quote ", _ :" ++ req_type ++ quote ") ->" ++ ttrpc_mod ++ quote ":: Result <" ++ resp_type ++
        quote "> { Err (" ++ ttrpc_mod ++ quote ":: Error :: RpcStatus (" ++ ttrpc_mod ++
        quote ":: get_status (" ++ ttrpc_mod ++ quote ":: Code :: NOT_FOUND ," ++ [L err_msg] ++
        quote ", ) ) ) }").

Definition generate_trait : option TokenStream :=
  trait_name ← format_ident (s_name s);
  method_signatures ← mapM trait_method_signature_token (s_methods s);
  let '(derive_token, sync_token) :=
    if async_on async_mode Server then (quote "# [ async_trait ]", quote ": Sync") else ([], []) in
  Some (derive_token ++ quote "pub trait" ++ trait_name ++ sync_token ++ quote "{" ++
        concat method_signatures ++ quote "}").

(** ** The handlers *)

Definition method_handler_impl_sync_token (struct_name : TokenStream) (m : Method)
  : option TokenStream :=
  input_type ← message_type (m_input_type m);
  method_name ← format_ident (method_name_rust m);
  Some (quote "impl" ++ ttrpc_mod ++ quote ":: MethodHandler for" ++ struct_name ++
        quote "{ fn handler ( & self , ctx :" ++ ttrpc_context false ++ quote ", req :" ++ ttrpc_mod ++
        quote ":: Request ) ->" ++ ttrpc_mod ++ quote ":: Result < ( ) > {" ++ ttrpc_mod ++
        quote ":: request_handler ! ( self , ctx , req ," ++ input_type ++ quote "," ++ method_name ++
        quote ") ; Ok ( ( ) ) } }").

Definition method_handler_impl_async_token (struct_name : TokenStream) (m : Method)
  : option TokenStream :=
  input_type ← message_type (m_input_type m);
  method_name ← format_ident (method_name_rust m);
  let '(handler_trait, inner_token, result_type_token, handler_token) :=
    match from_method m with
    | Unary =>
        (quote "MethodHandler", quote "req :" ++ ttrpc_mod ++ quote ":: Request",
         ttrpc_mod ++ quote ":: Response",
         ttrpc_mod ++ quote ":: async_request_handler ! ( self , ctx , req ," ++ input_type ++
         quote "," ++ method_name ++ quote ") ;")
    | ClientStreaming =>
        (quote "StreamHandler", quote "inner :" ++ ttrpc_mod ++ quote ":: r#async :: StreamInner",
         quote "Option <" ++ ttrpc_mod ++ quote ":: Response >",
         ttrpc_mod ++ quote ":: async_client_streamimg_handler ! ( self , ctx , inner ," ++
         method_name ++ quote ") ;")
    | ServerStreaming =>
        (quote "StreamHandler", quote "mut inner :" ++ ttrpc_mod ++ quote ":: r#async :: StreamInner",
         quote "Option <" ++ ttrpc_mod ++ quote ":: Response >",
         ttrpc_mod ++ quote ":: async_server_streamimg_handler ! ( self , ctx , inner ," ++
         input_type ++ quote "," ++ method_name ++ quote ") ;")
    | Duplex =>
        (quote "StreamHandler", quote "inner :" ++ ttrpc_mod ++ quote ":: r#async :: StreamInner",
         quote "Option <" ++ ttrpc_mod ++ quote ":: Response >",
         ttrpc_mod ++ quote ":: async_duplex_streamimg_handler ! ( self , ctx , inner ," ++
         method_name ++ quote ") ;")
    end in
  Some (quote "# [ async_trait ] impl :: ttrpc :: r#async ::" ++ handler_trait ++ quote "for" ++
        struct_name ++ quote "{ async fn handler ( & self , ctx :" ++ ttrpc_context true ++
        quote "," ++ inner_token ++ quote ") ->" ++ ttrpc_mod ++ quote ":: Result <" ++
        result_type_token ++ quote "> {" ++ handler_token ++ quote "} }").

Definition method_handler_token (m : Method) : option TokenStream :=
  struct_name ← method_handler_type s m;
  service_name ← format_ident (s_name s);
  method_handler_impl ← (if async_on async_mode Server
                         then method_handler_impl_async_token struct_name m
                         else method_handler_impl_sync_token struct_name m);
  Some (quote "struct" ++ struct_name ++ quote "{ service : :: std :: sync :: Arc < dyn" ++
        service_name ++ quote "+ Send + Sync > , }" ++ method_handler_impl).

(** A handler is printed on its own. *)
Definition generate_method_handlers : option (list TokenStream) :=
  mapM method_handler_token (s_methods s).

(** ** The constructor *)

Definition new_handler (m : Method) (wrapper : string) (trait : TokenStream) : option TokenStream :=
  mm ← method_handler_type s m;
  Some (quote wrapper ++ quote ":: new (" ++ mm ++
        quote "{ service : :: std :: clone :: Clone :: clone ( & service ) } ) as" ++ quote wrapper ++
        quote "< dyn" ++ trait ++ quote "+ Send + Sync > ) ;").

Definition sync_method_insert (m : Method) : option TokenStream :=
  handler ← new_handler m ":: std :: boxed :: Box" (ttrpc_mod ++ quote ":: MethodHandler");
  Some (quote "methods . insert (" ++ [L (method_path s m)] ++ quote ". to_string ( ) ," ++ handler).

Definition sync_creating_service_method_token : option TokenStream :=
  create_service_name ← format_ident ("create_" +:+ service_name_rust s);
  service_trait ← format_ident (s_name s);
  method_inserts ← mapM sync_method_insert (s_methods s);
  Some (quote "pub fn" ++ create_service_name ++ quote "( service : :: std :: sync :: Arc < dyn" ++
        service_trait ++
        quote "+ Send + Sync > ) -> :: std :: collections :: HashMap < String , :: std :: boxed :: Box < dyn" ++
        ttrpc_mod ++
        quote ":: MethodHandler + Send + Sync > > { let mut methods = :: std :: collections :: HashMap :: new ( ) ;" ++
        concat method_inserts ++ quote "methods }").

Definition async_method_insert (m : Method) : option TokenStream :=
  match from_method m with
  | Unary =>
      handler ← new_handler m ":: std :: boxed :: Box" (ttrpc_mod ++ quote ":: r#async :: MethodHandler");
      Some (quote "methods . insert (" ++ [L (m_proto_name m)] ++ quote ". to_string ( ) ," ++ handler)
  | _ =>
      handler ← new_handler m ":: std :: sync :: Arc" (ttrpc_mod ++ quote ":: r#async :: StreamHandler");
      Some (quote "streams . insert (" ++ [L (m_proto_name m)] ++ quote ". to_string ( ) ," ++ handler)
  end.

Definition async_creating_service_method_token : option TokenStream :=
  create_service_name ← format_ident ("create_" +:+ service_name_rust s);
  service_trait ← format_ident (s_name s);
  method_inserts ← mapM async_method_insert (s_methods s);
  let stream_token :=
    if has_stream_method s then quote "let mut streams = :: std :: collections :: HashMap :: new ( ) ;"
    else quote "let streams = :: std :: collections :: HashMap :: new ( ) ;" in
  Some (quote "pub fn" ++ create_service_name ++ quote "( service : :: std :: sync :: Arc < dyn" ++
        service_trait ++ quote "+ Send + Sync > ) -> :: std :: collections :: HashMap < String ," ++
        ttrpc_mod ++
        quote ":: r#async :: Service > { let mut ret = :: std :: collections :: HashMap :: new ( ) ; let mut methods = :: std :: collections :: HashMap :: new ( ) ;" ++
        stream_token ++ concat method_inserts ++ quote "ret . insert (" ++ [L (service_full_name s)] ++
        quote ". to_string ( ) ," ++ ttrpc_mod ++
        quote ":: r#async :: Service { methods , streams } ) ; ret }").

Definition generate_creating_service_method : option TokenStream :=
  if async_on async_mode Server then async_creating_service_method_token
  else sync_creating_service_method_token.

(** ** The client *)

Definition client_struct_token : option TokenStream :=
  client_type ← format_ident (client_type s);
  let client_field_type :=
    if async_on async_mode Client then ttrpc_mod ++ quote ":: r#async :: Client"
    else ttrpc_mod ++ quote ":: Client" in
  Some (quote "# [ derive ( Clone ) ] pub struct" ++ client_type ++ quote "{ client :" ++
        client_field_type ++ quote ", } impl" ++ client_type ++ quote "{ pub fn new ( client :" ++
        client_field_type ++ quote ") -> Self {" ++ client_type ++ quote "{ client , } } }").

(** The service and method a client macro is given. *)
Definition target (m : Method) : TokenStream :=
  [L (service_full_name s)] ++ quote "," ++ [L (m_proto_name m)].

(** [None] is also the panic on a method that is not unary. *)
Definition sync_client_method_token (m : Method) : option TokenStream :=
  method_name ← format_ident (m_name m);
  input ← message_type (m_input_type m);
  output ← message_type (m_output_type m);
  match from_method m with
  | Unary =>
      Some (quote "pub fn" ++ method_name ++ quote "( & self , ctx :" ++ ttrpc_mod ++
            quote ":: context :: Context , req : &" ++ input ++ quote ") ->" ++ ttrpc_mod ++
            quote ":: Result <" ++ output ++ quote "> { let mut cres =" ++ output ++
            quote ":: default ( ) ;" ++ ttrpc_mod ++ quote ":: client_request ! ( self , ctx , req ," ++
            target m ++ quote ", cres ) ; Ok ( cres ) }")
  | _ => None
  end.

Definition async_client_method_token (m : Method) : option TokenStream :=
  method_name ← format_ident (m_name m);
  input ← message_type (m_input_type m);
  output ← message_type (m_output_type m);
  let '(arg_tokens, ret_token, body_token) :=
    match from_method m with
    | Unary =>
        ([quote "req : &" ++ input], ttrpc_mod ++ quote ":: Result <" ++ output ++ quote ">",
         quote "let mut cres =" ++ output ++ quote ":: default ( ) ;" ++ ttrpc_mod ++
         quote ":: async_client_request ! ( self , ctx , req ," ++ target m ++ quote ", cres ) ;")
    | ClientStreaming =>
        ([], ttrpc_mod ++ quote ":: Result <" ++ ttrpc_mod ++ quote ":: r#async :: ClientStreamSender <" ++
             input ++ quote "," ++ output ++ quote "> >",
         quote ":: ttrpc :: async_client_stream_send ! ( self , ctx ," ++ target m ++ quote ") ;")
    | ServerStreaming =>
        ([quote "req : &" ++ input],
         ttrpc_mod ++ quote ":: Result <" ++ ttrpc_mod ++ quote ":: r#async :: ClientStreamReceiver <" ++
         output ++ quote "> >",
         ttrpc_mod ++ quote ":: async_client_stream_receive ! ( self , ctx , req ," ++ target m ++
         quote ") ;")
    | Duplex =>
        ([], ttrpc_mod ++ quote ":: Result <" ++ ttrpc_mod ++ quote ":: r#async :: ClientStream <" ++
             input ++ quote "," ++ output ++ quote "> >",
         quote ":: ttrpc :: async_client_stream ! ( self , ctx ," ++ target m ++ quote ") ;")
    end in
  let args := [quote "& self"; quote "ctx :" ++ ttrpc_mod ++ quote ":: context :: Context"] ++
              arg_tokens in
  Some (quote "pub async fn" ++ method_name ++ quote "(" ++ interleave (quote ",") args ++
        quote ") ->" ++ ret_token ++ quote "{" ++ body_token ++ quote "}").

Definition client_methods_token : option TokenStream :=
  client_type ← format_ident (client_type s);
  methods ← mapM (if async_on async_mode Client then async_client_method_token
                  else sync_client_method_token) (s_methods s);
  Some (quote "impl" ++ client_type ++ quote "{" ++ concat methods ++ quote "}").

Definition generate_client : option TokenStream :=
  client_struct ← client_struct_token;
  client_methods ← client_methods_token;
  Some (client_struct ++ client_methods).

(** ** [generate] *)

(** The streams that are printed one after the other between the frame of the module. *)
Definition service_streams_of : option (list TokenStream) :=
  trait ← generate_trait;
  handlers ← generate_method_handlers;
  create ← generate_creating_service_method;
  client ← generate_client;
  Some ([trait] ++ handlers ++ [create; client]).

Definition generate (to_string : TokenStream -> string) (buf : string) : option string :=
  let module_name := service_module_name s in
  let async_trait_token :=
    if decide (async_mode <> NoAsync) then quote "use async_trait :: async_trait ;" else [] in
  streams ← service_streams_of;
  Some (buf +:+ "pub mod " +:+ module_name +:+ " { #![allow(unused_imports)] " +:+
        to_string async_trait_token +:+ " " +:+
        foldr (fun t rest => to_string t +:+ rest) "" streams +:+
        "} pub use self :: " +:+ module_name +:+ " :: * ;").
End Service.
End Svcgen.
