(* ===== verification/ProstText.v ===== *)
(** What the prost generator emits: token streams whose brackets nest, with the wire names as their
    literals, and how these compare with those of the compiler crate. *)
From S2P Require Import Prelude AsyncServer Names Scope Writer Codegen GeneratedText Svcgen.

(** ** Nesting of tokens *)

Definition closes (t : string) : option string :=
  if decide (t = "(") then Some ")" else if decide (t = "[") then Some "]"
  else if decide (t = "{") then Some "}" else None.
Definition closer (t : string) : bool :=
  bool_decide (t = ")") || bool_decide (t = "]") || bool_decide (t = "}").

(** Reads a stream under the closing brackets that are awaited: those awaited at its end, and its
    literals. *)
Fixpoint nest (o : list string) (ts : TokenStream) : option (list string * list string) :=
  match ts with
  | [] => Some (o, [])
  | L l :: ts' => '(o', ls) ← nest o ts'; Some (o', l :: ls)
  | T t :: ts' =>
      match closes t with
      | Some c => nest (c :: o) ts'
      | None =>
          if closer t then
            match o with
            | c :: o' => if decide (c = t) then nest o' ts' else None
            | [] => None
            end
          else nest o ts'
      end
  end.

Definition tlex (o o' : list string) (ls : list string) (ts : TokenStream) : Prop :=
  forall base, nest (o ++ base) ts = Some (o' ++ base, ls).

Lemma nest_app a b o :
  nest o (a ++ b) = ('(o1, l1) ← nest o a; '(o2, l2) ← nest o1 b; Some (o2, l1 ++ l2)).
Proof.
  revert o. induction a as [|[t|l] a IH]; intros o; cbn [nest app].
  - cbn. by destruct (nest o b) as [[]|].
  - destruct (closes t); [apply IH|]. destruct (closer t); [|apply IH].
    destruct o as [|c o]; [done|]. case_decide; [apply IH|done].
  - rewrite IH. cbn. destruct (nest o a) as [[o1 l1]|]; [|done]. cbn.
    by destruct (nest o1 b) as [[]|].
Qed.

Lemma tlex_app o o1 o' l1 l2 a b : tlex o o1 l1 a -> tlex o1 o' l2 b -> tlex o o' (l1 ++ l2) (a ++ b).
Proof. intros Ha Hb base. rewrite nest_app, Ha. cbn. by rewrite Hb. Qed.

Lemma nest_frame ts : forall o o' ls base,
  nest o ts = Some (o', ls) -> nest (o ++ base) ts = Some (o' ++ base, ls).
Proof.
  induction ts as [|[t|l] ts IH]; intros o o' ls base; cbn [nest]; [by intros [= <- <-]| |].
  - destruct (closes t); [apply (IH (_ :: _))|]. destruct (closer t); [|apply IH].
    destruct o as [|c o]; [done|]. cbn [app]. case_decide; [apply IH|done].
  - destruct (nest o ts) as [[o1 l1]|] eqn:E; [|done]. cbn. intros [= <- <-].
    by rewrite (IH _ _ _ _ E).
Qed.

Lemma tlex_const o o' ls ts : nest o ts = Some (o', ls) -> tlex o o' ls ts.
Proof. intros H base. by apply nest_frame. Qed.

Lemma tlex_eq o o' ls ls' ts : tlex o o' ls ts -> ls = ls' -> tlex o o' ls' ts.
Proof. by intros H <-. Qed.

Lemma tlex_nil o : tlex o o [] [].
Proof. done. Qed.

Lemma tlex_lit o l : tlex o o [l] [L l].
Proof. done. Qed.

Lemma tlex_concat {A} (f : A -> option TokenStream) (g : A -> list string) l :
  Forall (fun x => exists t, f x = Some t /\ forall o, tlex o o (g x) t) l ->
  exists ts, mapM f l = Some ts /\ forall o, tlex o o (concat (map g l)) (concat ts).
Proof.
  induction 1 as [|x l (t & E & Ht) _ (ts & IHe & IH)]; [by exists []|].
  exists (t :: ts). split; [cbn; by rewrite E, IHe|]. intros o. by eapply tlex_app.
Qed.

Ltac tok_const o t :=
  let r := eval vm_compute in (nest o t) in
  lazymatch r with Some (?o', ?ls) => exact (tlex_const o o' ls t eq_refl) end.
Ltac tok_text :=
  lazymatch goal with
  | H : forall o, tlex o o _ ?t |- tlex _ _ _ ?t => apply H
  | |- tlex _ _ _ (_ ++ _) => eapply tlex_app; [tok_text|tok_text]
  | |- tlex _ _ _ [L _] => apply tlex_lit
  | |- tlex _ _ _ (interleave _ (_ :: _ ++ _)) => cbn [interleave app]; tok_text
  | |- tlex _ _ _ (interleave _ ((_ :: _) ++ _)) => cbn [interleave app]; tok_text
  | |- tlex _ _ _ [] => apply tlex_nil
  | |- tlex ?o _ _ (quote ?s) => tok_const o (quote s)
  | |- tlex ?o _ _ ttrpc_mod => tok_const o ttrpc_mod
  end.
Ltac tok := eapply tlex_eq; [tok_text|].

(** ** Services *)

Section Prost.
Context (is_ident : string -> bool).
(** Brackets are not identifiers. *)
Context (ident_no_bracket : forall t, is_ident t = true -> closes t = None /\ closer t = false).

Lemma ident_ok t : is_ident t = true ->
  exists ts, format_ident is_ident t = Some ts /\ forall o, tlex o o [] ts.
Proof using ident_no_bracket.
  intros H. unfold format_ident. rewrite H. eexists. split; [done|]. intros o base. cbn.
  by destruct (ident_no_bracket t H) as [-> ->].
Qed.

(** The Rust path of a message type, of identifiers, or the unit type. *)
Definition ok_type (path : string) : Prop :=
  path = "()" \/ Forall (fun p => is_ident p = true) (split_colons path).

Lemma message_type_ok path : ok_type path ->
  exists ts, message_type is_ident path = Some ts /\ forall o, tlex o o [] ts.
Proof using ident_no_bracket.
  intros Hp. unfold message_type, type_token. case_decide as E.
  - eexists. split; [reflexivity|]. intros o. tok. done.
  - destruct Hp as [?|Hp]; [done|].
    assert (exists ids, mapM (format_ident is_ident) (split_colons path) = Some ids /\
              forall o, tlex o o [] (interleave (quote "::") ids)) as (ids & -> & Hids).
    { induction Hp as [|p ps Hp _ (ids & IHe & IH)]; [by exists []|].
      destruct (ident_ok p Hp) as (t & Et & Ht). exists (t :: ids).
      split; [cbn; by rewrite Et, IHe|]. intros o.
      destruct ids as [|t' ids]; [apply Ht|]. 
      change (interleave (quote "::") (t :: t' :: ids))
        with (t ++ quote "::" ++ interleave (quote "::") (t' :: ids)). by tok. }
    eexists. split; [reflexivity|]. intros o. by tok.
Qed.

(** What the generator needs of a service in a mode. *)
Record ok_pmethod (s : PService) (m : Method) : Prop := {
  pm_name : is_ident (m_name m) = true;
  pm_rust : is_ident (method_name_rust m) = true;
  pm_handler : is_ident (to_camel_case_prost (s_name s) +:+ to_camel_case_prost (m_proto_name m) +:+
                         "Method") = true;
  pm_input : ok_type (m_input_type m);
  pm_output : ok_type (m_output_type m) }.

Record ok_pservice (mode : AsyncMode) (s : PService) : Prop := {
  ps_name : is_ident (s_name s) = true;
  ps_create : is_ident ("create_" +:+ service_name_rust s) = true;
  ps_client : is_ident (client_type s) = true;
  ps_methods : Forall (ok_pmethod s) (s_methods s);
  ps_unary : async_on mode Client = true \/ Forall (fun m => from_method m = Unary) (s_methods s) }.

(** The stream is made, nests its brackets, and has the literals [ls]. *)
Definition good (ts : option TokenStream) (ls : list string) : Prop :=
  exists t, ts = Some t /\ forall o, tlex o o ls t.

(** Opens the streams of names and types, and closes a goal on a stream made of them. *)
Ltac names :=
  repeat match goal with
    | H : is_ident ?t = true |- context [format_ident is_ident ?t] =>
        let ts := fresh "ts" in let E := fresh "E" in
        destruct (ident_ok t H) as (ts & E & ?); rewrite E; clear H
    | H : ok_type ?p |- context [message_type is_ident ?p] =>
        let ts := fresh "ts" in let E := fresh "E" in
        destruct (message_type_ok p H) as (ts & E & ?); rewrite E; clear H
    end; cbn [mbind option_bind].
Ltac stream := eexists; split; [reflexivity|]; intros o; tok; cbn [app]; rewrite ?app_nil_r; try done.

Section Service.
Context (mode : AsyncMode) (s : PService) (Hs : ok_pservice mode s).

Lemma ttrpc_context_ok b o : tlex o o [] (ttrpc_context b).
Proof using Type. destruct b; unfold ttrpc_context; by tok. Qed.

Lemma trait_method_ok m : ok_pmethod s m ->
  good (trait_method_signature_token is_ident mode s m) [method_path s m +:+ " is not supported"].
Proof using ident_no_bracket.
  intros []. unfold trait_method_signature_token. names. pose proof (ttrpc_context_ok (async_on mode Server)).
  assert (forall o, tlex o o [] (if async_on mode Server then quote "async" else []))
    by (intros o; destruct (async_on mode Server); by tok).
  destruct (from_method m); stream.
Qed.

Lemma mapM_good {A} (f : A -> option TokenStream) (h : A -> list string) l :
  Forall (fun x => good (f x) (h x)) l ->
  exists ts, mapM f l = Some ts /\ forall o, tlex o o (concat (map h l)) (concat ts).
Proof using Type. apply tlex_concat. Qed.

Lemma methods_good f h :
  (forall m, m ∈ s_methods s -> ok_pmethod s m -> good (f m) (h m)) ->
  exists ts, mapM f (s_methods s) = Some ts /\
    forall o, tlex o o (concat (map h (s_methods s))) (concat ts).
Proof using Hs.
  intros H. apply mapM_good. apply Forall_forall. intros m Hm. apply H; [done|].
  by apply (proj1 (Forall_forall _ _) (ps_methods _ _ Hs)).
Qed.

(** The literals of the parts. *)
Definition unsupported_lits : list string :=
  map (fun m => method_path s m +:+ " is not supported") (s_methods s).
Definition key_lits : list string :=
  if async_on mode Server then map m_proto_name (s_methods s) ++ [service_full_name s]
  else map (method_path s) (s_methods s).
Definition call_lits : list string :=
  concat (map (fun m => [service_full_name s; m_proto_name m]) (s_methods s)).

Lemma trait_ok : good (generate_trait is_ident mode s) unsupported_lits.
Proof using ident_no_bracket Hs.
  pose proof (ps_name _ _ Hs). unfold generate_trait, unsupported_lits.
  destruct (methods_good (trait_method_signature_token is_ident mode s)
              (fun m => [method_path s m +:+ " is not supported"])) as (ms & Em & Hm);
    [intros m _; apply trait_method_ok|].
  names. rewrite Em, <- (concat_singletons (fun m => method_path s m +:+ " is not supported")).
  destruct (async_on mode Server); stream.
Qed.

Lemma handler_impl_ok name m : ok_pmethod s m -> (forall o, tlex o o [] name) ->
  good (if async_on mode Server then method_handler_impl_async_token is_ident name m
        else method_handler_impl_sync_token is_ident name m) [].
Proof using ident_no_bracket.
  intros [] Hn. pose proof (ttrpc_context_ok true). pose proof (ttrpc_context_ok false).
  destruct (async_on mode Server).
  - unfold method_handler_impl_async_token. names. destruct (from_method m); stream.
  - unfold method_handler_impl_sync_token. names. stream.
Qed.

Lemma handler_ok m : ok_pmethod s m -> good (method_handler_token is_ident mode s m) [].
Proof using ident_no_bracket Hs.
  intros Hm. pose proof (pm_handler _ _ Hm). pose proof (ps_name _ _ Hs).
  unfold method_handler_token, method_handler_type. names.
  match goal with |- context [method_handler_impl_sync_token is_ident ?name m] =>
    destruct (handler_impl_ok name m) as (t & -> & Ht); [done..|] end.
  cbn [mbind option_bind]. stream.
Qed.

Lemma handlers_ok : exists ts, generate_method_handlers is_ident mode s = Some ts /\
  forall o, tlex o o [] (concat ts).
Proof using ident_no_bracket Hs.
  destruct (methods_good (method_handler_token is_ident mode s) (fun _ => [])) as (ts & E & H);
    [intros m _; apply handler_ok|].
  exists ts. split; [exact E|]. intros o. eapply tlex_eq; [apply H|].
  clear. induction (s_methods s) as [|m ms IH]; [done|exact IH].
Qed.

Lemma new_handler_ok m wrapper trait :
  ok_pmethod s m -> (forall o, tlex o o [] (quote wrapper)) -> (forall o, tlex o o [] trait) ->
  exists t, new_handler is_ident s m wrapper trait = Some t /\
    forall o, tlex (")" :: o) o [] t.
Proof using ident_no_bracket.
  intros [] Hw Ht. unfold new_handler, method_handler_type. names.
  eexists. split; [reflexivity|]. intros o. by tok.
Qed.

Lemma create_ok : good (generate_creating_service_method is_ident mode s) key_lits.
Proof using ident_no_bracket Hs.
  pose proof (ps_name _ _ Hs). pose proof (ps_create _ _ Hs).
  unfold generate_creating_service_method, key_lits. destruct (async_on mode Server) eqn:Ea.
  - unfold async_creating_service_method_token.
    destruct (methods_good (async_method_insert is_ident s) (fun m => [m_proto_name m]))
      as (ms & Em & Hm).
    { intros m _ Hm. unfold async_method_insert.
      destruct (new_handler_ok m ":: std :: boxed :: Box" (ttrpc_mod ++ quote ":: r#async :: MethodHandler"))
        as (t1 & E1 & H1); [done|intros o; by tok..|].
      destruct (new_handler_ok m ":: std :: sync :: Arc" (ttrpc_mod ++ quote ":: r#async :: StreamHandler"))
        as (t2 & E2 & H2); [done|intros o; by tok..|].
      rewrite E1, E2. destruct (from_method m);
        (eexists; split; [reflexivity|]; intros o;
         eapply tlex_eq; [repeat (eapply tlex_app; [tok_text|]); (apply H1 || apply H2)|done]). }
    names. rewrite Em. cbn [mbind option_bind].
    rewrite <- (concat_singletons m_proto_name).
    destruct (has_stream_method s); stream.
  - unfold sync_creating_service_method_token.
    destruct (methods_good (sync_method_insert is_ident s) (fun m => [method_path s m]))
      as (ms & Em & Hm).
    { intros m _ Hm. unfold sync_method_insert.
      destruct (new_handler_ok m ":: std :: boxed :: Box" (ttrpc_mod ++ quote ":: MethodHandler"))
        as (t & E & H1); [done|intros o; by tok..|].
      rewrite E. eexists; split; [reflexivity|]; intros o;
         eapply tlex_eq; [repeat (eapply tlex_app; [tok_text|]); apply H1|done]. }
    names. rewrite Em. cbn [mbind option_bind].
    rewrite <- (concat_singletons (method_path s)). stream.
Qed.

Lemma target_ok m : forall o, tlex o o [service_full_name s; m_proto_name m] (target s m).
Proof using Type. intros o. unfold target. by tok. Qed.

Lemma client_ok : good (generate_client is_ident mode s) call_lits.
Proof using ident_no_bracket Hs.
  pose proof (ps_client _ _ Hs). unfold generate_client, call_lits.
  assert (good (client_struct_token is_ident mode s) []) as (t1 & -> & H1).
  { unfold client_struct_token. names. destruct (async_on mode Client); stream. }
  assert (good (client_methods_token is_ident mode s) call_lits) as (t2 & -> & H2).
  { unfold client_methods_token.
    destruct (methods_good (if async_on mode Client then async_client_method_token is_ident s
                            else sync_client_method_token is_ident s)
                (fun m => [service_full_name s; m_proto_name m])) as (ms & Em & Hm).
    { intros m Hin []. pose proof (target_ok m). destruct (async_on mode Client) eqn:Ea.
      - unfold async_client_method_token. names. destruct (from_method m); stream.
      - unfold sync_client_method_token. names.
        destruct (ps_unary _ _ Hs) as [|Hu]; [congruence|].
        rewrite (proj1 (Forall_forall _ _) Hu m Hin). stream. }
    names. rewrite Em. cbn [mbind option_bind]. stream. }
  cbn [mbind option_bind]. stream.
Qed.
End Service.
End Prost.

(** One service in the descriptors of both generators: prost-build hands on the package, and the names
    and streaming modes of the methods, as they are in the schema. What Rust name it makes of the
    service's is left open. *)
Definition same_service (file : FileDescriptorProto) (p : ServiceDescriptorProto) (s : PService)
  : Prop :=
  s_package s = package file /\
  Forall2 (fun m d => m_proto_name m = method_name d /\ from_method m = type_of d)
    (s_methods s) (methods p).

Lemma calls_agree async svc ms ds :
  Forall2 (fun m d => m_proto_name m = method_name d /\ from_method m = type_of d) ms ds ->
  async = true \/ Forall (fun m => from_method m = Unary) ms ->
  client_calls async svc ds = concat (map (fun m => [svc; m_proto_name m]) ms).
Proof.
  unfold client_calls. induction 1 as [|m d ms ds [Hn Ht] _ IH]; intros Hu; [done|].
  cbn [map concat]. rewrite IH, <- Ht, Hn.
  - destruct Hu as [->|[-> _]%Forall_cons]; [done|]. by destruct async.
  - destruct Hu as [?|[_ ?]%Forall_cons]; [by left|by right].
Qed.

(** ** Properties *)

(** C38: The stubs of the prost crate. For a service whose names are identifiers, the generator does
    not panic in any mode that gives streaming methods an asynchronous client, and the tokens it
    emits nest their brackets; their string literals are exactly the messages of the trait's default
    methods, the keys the server registers and, for each client method, the service and method it
    calls; the keys of a synchronous server are the paths the runtime builds from these. A mode
    whose client is synchronous panics as soon as one method streams. *)
Theorem prost_stubs (is_ident : string -> bool) (mode : AsyncMode) (s : PService) :
  (forall t, is_ident t = true -> closes t = None /\ closer t = false) ->
  (ok_pservice is_ident mode s ->
   exists streams,
     service_streams_of is_ident mode s = Some streams /\
     nest [] (concat streams) = Some ([], unsupported_lits s ++ key_lits mode s ++ call_lits s)) /\
  (forall m, method_path s m = get_path (service_full_name s) (m_proto_name m)) /\
  (async_on mode Client = false -> (exists m, m ∈ s_methods s /\ from_method m <> Unary) ->
   service_streams_of is_ident mode s = None).
Proof.
  intros Hid. split_and!; [|done|].
  - intros Hs. destruct (trait_ok _ Hid _ _ Hs) as (t1 & E1 & H1).
    destruct (handlers_ok _ Hid _ _ Hs) as (t2 & E2 & H2).
    destruct (create_ok _ Hid _ _ Hs) as (t3 & E3 & H3).
    destruct (client_ok _ Hid _ _ Hs) as (t4 & E4 & H4).
    unfold service_streams_of. rewrite E1, E2, E3, E4. cbn [mbind option_bind].
    eexists. split; [reflexivity|]. rewrite !concat_app. cbn [concat]. rewrite !app_nil_r.
    assert (tlex [] [] (unsupported_lits s ++ key_lits mode s ++ call_lits s)
              (t1 ++ concat t2 ++ t3 ++ t4)) as H; [|exact (H [])].
    apply (tlex_app _ []); [apply H1|]. apply (tlex_app _ [] _ []); [apply H2|].
    by apply (tlex_app _ []); [apply H3|apply H4].
  - intros Hc (m & Hm & Hu). unfold service_streams_of, generate_client, client_methods_token.
    rewrite Hc.
    assert (mapM (sync_client_method_token is_ident s) (s_methods s) = None) as ->.
    { assert (sync_client_method_token is_ident s m = None) as E.
      { unfold sync_client_method_token. destruct (format_ident is_ident (m_name m)),
          (message_type is_ident (m_input_type m)), (message_type is_ident (m_output_type m));
          try done. by destruct (from_method m). }
      induction Hm as [m l|m m' l Hm IH]; cbn; [by rewrite E|].
      destruct (sync_client_method_token is_ident s m'); [|done]. cbn. by rewrite (IH Hu E). }
    destruct (generate_trait is_ident mode s), (generate_method_handlers is_ident mode s),
      (generate_creating_service_method is_ident mode s), (client_struct_token is_ident mode s),
      (format_ident is_ident (client_type s)); done.
Qed.

(** C39: When programs generated by the two crates from one schema reach each other. In a schema with
    a package, the two generators call a service by the same name exactly when the Rust name that
    prost-build gives the service, which the prost crate also uses on the wire, is the compiler
    crate's camel case of its name; then, with the same choice of asynchronous sides, clients
    call, and servers register, the same names in both. For a service whose two names differ, or
    in a schema without a package, where the compiler crate's names start with a dot, they do not. *)
Theorem generators_agree (file : FileDescriptorProto) (p : ServiceDescriptorProto) (s : PService)
    (mode : AsyncMode) (customize : Customize) (camel : string) :
  same_service file p s -> to_camel_case (Scope.service_name p) = Some camel ->
  async_on mode Server = Codegen.async_on customize "server" ->
  async_on mode Client = Codegen.async_on customize "client" ->
  async_on mode Client = true \/ Forall (fun m => from_method m = Unary) (s_methods s) ->
  (package file <> "" -> wire_service file p = service_full_name s <-> camel = s_name s) /\
  (package file <> "" -> camel = s_name s ->
     client_calls (Codegen.async_on customize "client") (wire_service file p) (methods p) =
       call_lits s /\
     server_keys (Codegen.async_on customize "server") (wire_service file p) (methods p) =
       key_lits mode s) /\
  (package file <> "" -> camel <> s_name s -> methods p <> [] ->
     client_calls (Codegen.async_on customize "client") (wire_service file p) (methods p) <>
       call_lits s) /\
  (package file = "" -> wire_service file p = "." +:+ camel /\ service_full_name s = s_name s).
Proof.
  intros (Hp & Hm) Hn Eserver Eclient Hu.
  assert (wire_service file p = package file +:+ "." +:+ camel) as Hw by (unfold wire_service; by rewrite Hn).
  assert (package file <> "" -> service_full_name s = package file +:+ "." +:+ s_name s) as Hs
    by (intros; unfold service_full_name; by rewrite Hp, decide_False).
  assert (package file <> "" -> wire_service file p = service_full_name s <-> camel = s_name s) as Hiff.
  { intros Hpk. rewrite Hw, (Hs Hpk). split; [|by intros ->].
    intros E. apply (inj (String.app _)) in E. by injection E. }
  split_and!; [done| | |].
  - intros Hpk E. apply (Hiff Hpk) in E. rewrite E. rewrite <- Eserver, <- Eclient. split; [by apply calls_agree|].
    unfold server_keys, key_lits, method_path. destruct (async_on mode Server); [f_equal|];
      clear E Hiff Hn Hw; induction Hm as [|m d ms ds [Hmn _] _ IH]; cbn [map]; unfold get_path; rewrite ?Hmn; f_equal;
      (apply IH || done); destruct Hu as [?|[_ ?]%Forall_cons]; auto.
  - intros Hpk Hne Hms E. apply Hne, (Hiff Hpk). rewrite <- Eclient, (calls_agree _ _ _ _ Hm Hu) in E.
    unfold call_lits in E. destruct Hm as [|m d ms ds _ _]; [done|]. cbn in E. by injection E.
  - intros Hpk. rewrite Hw, Hpk. split; [done|]. unfold service_full_name. by rewrite Hp, Hpk, decide_True.
Qed.

(** Identifiers for the examples: letters, digits and underscores. *)
Definition example_ident (s : string) : bool :=
  bool_decide (s <> "") &&
  string_all (fun c => is_ascii_uppercase c || is_ascii_lowercase c ||
                       bool_decide (48 <= ascii_num c <= 57) || bool_decide (c = underscore)) s.

Lemma example_ident_no_bracket t : example_ident t = true -> closes t = None /\ closer t = false.
Proof.
  intros H. unfold closes, closer.
  assert (forall b, example_ident b = false -> t <> b) as Hb by (intros b Eb ->; congruence).
  rewrite !decide_False by (by apply Hb). rewrite !bool_decide_eq_false_2 by (by apply Hb). done.
Qed.

Definition example_service : PService :=
  MkPService "Greeter" "Greeter" "grpc"
    [MkMethodDesc "say_hello" "SayHello" "HelloRequest" "super::google::Empty" false false;
     MkMethodDesc "watch" "Watch" "HelloRequest" "()" false true].

Lemma prost_stubs_witness :
  (exists streams,
     service_streams_of example_ident All example_service = Some streams /\
     nest [] (concat streams) =
       Some ([], ["/grpc.Greeter/SayHello is not supported"; "/grpc.Greeter/Watch is not supported";
                  "SayHello"; "Watch"; "grpc.Greeter";
                  "grpc.Greeter"; "SayHello"; "grpc.Greeter"; "Watch"])) /\
  service_streams_of example_ident OnlyServer example_service = None.
Proof.
  destruct (prost_stubs example_ident All example_service example_ident_no_bracket) as (H & _ & _).
  destruct (prost_stubs example_ident OnlyServer example_service example_ident_no_bracket)
    as (_ & _ & Hn).
  split.
  - apply H. split; [done|done|done| |by left].
    assert (forall path, Forall (fun p => example_ident p = true) (split_colons path) ->
                         ok_type example_ident path) as Ht by (intros path Hp; by right).
    apply Forall_cons_2; [|apply Forall_cons_2; [|apply Forall_nil_2]];
      (split; [done|done|done|apply Ht; apply (bool_decide_unpack _); by vm_compute|]).
    + apply Ht; apply (bool_decide_unpack _); by vm_compute.
    + by left.
  - apply Hn; [done|]. eexists. split; [right; left|done].
Defined.

Lemma generators_agree_witness :
  wire_service example_file (MkService "Greeter" []) = "grpc.Greeter" /\
  server_keys true "grpc.Greeter" [MkMethod "SayHello" "" "" false false;
                                   MkMethod "Watch" "" "" false true] = key_lits All example_service.
Proof.
  destruct (generators_agree example_file
              (MkService "Greeter" [MkMethod "SayHello" "" "" false false;
                                    MkMethod "Watch" "" "" false true])
              example_service All (MkCustomize true false false false) "Greeter") as (H1 & H2 & _);
    [split_and!; [done|by repeat constructor]|done|done|done|by left|].
  destruct H2 as [_ H3]; [done|done|]. split; [by apply H1|exact H3].
Defined.

(** A package-less service is registered under different names by the two generators. *)
Lemma packageless_services_differ :
  let file := MkFile "h.proto" "" [] [] in
  let p := MkService "Health" [] in
  let s := MkPService "Health" "Health" "" [] in
  same_service file p s /\ wire_service file p = ".Health" /\ service_full_name s = "Health".
Proof. split_and!; [|done|done]. split_and!; [done|constructor]. Qed.
