(* ===== verification/ProstCodegen.v ===== *)
(** The builder of the prost crate (src/ttrpc-codegen-prost/src/codegen.rs): its options, the checks
    of [run], and the generation: the compilation by prost-build, which is a parameter, the header
    put in front of the generated files, and the removal of the descriptor set. Files are named
    relative to the output directory. *)
From S2P Require Import Prelude Names Scope Writer Codegen Svcgen.

Definition FILE_DESCRIPTOR_SET : string := "fd_set.bin".

Inductive Backend := Prost.

Record PCustomize := MkPCustomize {
  p_gen_mod : bool; p_async_all : bool; p_async_server : bool; p_async_client : bool; p_serde : bool }.
Definition default_customize : PCustomize := MkPCustomize false false false false false.

(** [Customize::async_mode]. *)
Definition async_mode (c : PCustomize) : AsyncMode :=
  if p_async_all c then All
  else if p_async_server c then OnlyServer
  else if p_async_client c then OnlyClient
  else NoAsync.

(** ** The builder *)

Record Builder := MkBuilder {
  b_out_dir : option string; b_includes : list string; b_inputs : list string;
  b_backend : option Backend; b_customize : PCustomize }.

Definition builder_new : Builder := MkBuilder None [] [] None default_customize.
Definition set_out_dir (d : string) (b : Builder) : Builder :=
  MkBuilder (Some d) (b_includes b) (b_inputs b) (b_backend b) (b_customize b).
Definition add_include (i : string) (b : Builder) : Builder :=
  MkBuilder (b_out_dir b) (b_includes b ++ [i]) (b_inputs b) (b_backend b) (b_customize b).
Definition add_includes (l : list string) (b : Builder) : Builder :=
  foldl (fun b i => add_include i b) b l.
Definition add_input (i : string) (b : Builder) : Builder :=
  MkBuilder (b_out_dir b) (b_includes b) (b_inputs b ++ [i]) (b_backend b) (b_customize b).
Definition add_inputs (l : list string) (b : Builder) : Builder :=
  foldl (fun b i => add_input i b) b l.
Definition select_prost (b : Builder) : Builder :=
  MkBuilder (b_out_dir b) (b_includes b) (b_inputs b) (Some Prost) (b_customize b).
Definition set_customize (c : PCustomize) (b : Builder) : Builder :=
  MkBuilder (b_out_dir b) (b_includes b) (b_inputs b) (b_backend b) c.

(** ** Generation *)

(** The configuration handed to prost-build. *)
Record Config := MkConfig {
  c_out_dir : string; c_service_generator : AsyncMode; c_protoc_arg : string;
  c_well_known_types : bool; c_descriptor_set : string; c_include_file : string;
  c_message_attributes : list (string * string); c_protos : list string; c_includes : list string }.

Class OutDir (K : Type) := {
  od_read : string -> K -> option (res string string);
  od_create : string -> st K string unit;
  od_write_all : string -> string -> st K string unit;
  od_remove : string -> st K string unit;
  prost_compile : Config -> st K string unit;
  decode_packages : string -> res string (list string) }.

Section Generate.
Context {K : Type} `{OutDir K} (CARGO_PKG_VERSION : string).
Context (out_dir : string) (protos includes : list string) (c : PCustomize).

Definition config : Config :=
  MkConfig out_dir (async_mode c) "--experimental_allow_proto3_optional" true FILE_DESCRIPTOR_SET
    (if p_gen_mod c then "mod.rs" else "_include.rs")
    (if p_serde c then [(".", "#[derive(::serde::Serialize, ::serde::Deserialize)]")] else [])
    protos includes.

Definition compile_protos : st K string unit :=
  prost_compile config ?: (fun e => "compile protos by prost: " +:+ e).

Definition header_text : string :=
  "// This file is generated by ttrpc-codegen-prost " +:+ CARGO_PKG_VERSION +:+ ". Do not edit" +:+ nl +:+
  "// @generated" +:+ nl +:+ nl.

Definition rs_name (package : string) : string := package +:+ ".rs".
Definition debug_path (name : string) : string := debug_str (out_dir +:+ "/" +:+ name).

(** The loop over the descriptors, by their packages. *)
Fixpoint header_loop (seen : gset string) (packages : list string) : st K string unit :=
  match packages with
  | [] => mret tt
  | package :: packages' =>
      let name := rs_name package in
      if decide (name ∈ seen) then header_loop seen packages'
      else
        let seen := {[name]} ∪ seen in
        fun k =>
          match od_read name k with
          | None => header_loop seen packages' k
          | Some (Err e) => (k, Err ("read from rust file " +:+ debug_path name +:+ ": " +:+ e))
          | Some (Ok text) =>
              (_ ← od_create name ?: (fun e => "open rust file " +:+ debug_path name +:+ ": " +:+ e);
               _ ← od_write_all name (header_text +:+ text) ?:
                     (fun e => "write to rust file " +:+ debug_path name +:+ ": " +:+ e);
               header_loop seen packages') k
          end
  end.

Definition write_header (not_found : string) : st K string unit := fun k =>
  match od_read FILE_DESCRIPTOR_SET k with
  | None => (k, Err not_found)
  | Some (Err e) => (k, Err e)
  | Some (Ok buffer) =>
      match decode_packages buffer with
      | Err e => (k, Err ("decode fd_set: " +:+ e))
      | Ok packages => header_loop ∅ packages k
      end
  end.

Definition clean_up : st K string unit := od_remove FILE_DESCRIPTOR_SET.

Definition codegen_generate (not_found : string) : st K string unit :=
  _ ← compile_protos; _ ← write_header not_found; clean_up.
End Generate.

(** [Codegen::run]; the environment gives [OUT_DIR] and the current directory. *)
Definition run {K} `{OutDir K} (version not_found : string) (env_out_dir current_dir : option string)
    (b : Builder) : st K string unit := fun k =>
  match b_backend b with
  | None => (k, Err "no protobuf backend selected: call .prost()")
  | Some _ =>
      match b_inputs b, b_includes b with
      | [], _ => (k, Err "no .proto inputs configured")
      | _, [] => (k, Err "no include directories configured")
      | inputs, includes =>
          let out_dir := default (default (default "" current_dir) env_out_dir) (b_out_dir b) in
          codegen_generate version out_dir inputs includes (b_customize b) not_found k
      end
  end.

(** ** Lemmas *)

(** Files: creating one empties it, writing appends, and no call touches another file. *)
Class OutDirLaws (K : Type) `{OutDir K} : Prop := {
  create_read : forall n k k', od_create n k = (k', Ok tt) -> od_read n k' = Some (Ok "");
  write_read : forall n s t k k', od_read n k = Some (Ok t) -> od_write_all n s k = (k', Ok tt) ->
    od_read n k' = Some (Ok (t +:+ s));
  create_other : forall n m k k' r, od_create n k = (k', r) -> m <> n -> od_read m k' = od_read m k;
  write_other : forall n m s k k' r, od_write_all n s k = (k', r) -> m <> n ->
    od_read m k' = od_read m k;
  remove_read : forall n k k', od_remove n k = (k', Ok tt) -> od_read n k' = None;
  remove_other : forall n m k k' r, od_remove n k = (k', r) -> m <> n -> od_read m k' = od_read m k }.

(** A file with the header in front. *)
Definition with_header (version : string) (f : option (res string string)) : option (res string string) :=
  match f with Some (Ok text) => Some (Ok (header_text version +:+ text)) | f => f end.

Section Headers.
Context {K : Type} `{OutDirLaws K} (version out_dir : string).

Lemma header_loop_files packages seen (k k' : K) n :
  header_loop version out_dir seen packages k = (k', Ok tt) ->
  od_read n k' = if decide (n ∈ map rs_name packages /\ n ∉ seen)
                 then with_header version (od_read n k) else od_read n k.
Proof using Type*.
  revert seen k. induction packages as [|p ps IH]; intros seen k; cbn [header_loop map].
  { munfold. intros [= ->]. rewrite decide_False; [done|]. by intros [?%not_elem_of_nil _]. }
  destruct (decide (rs_name p ∈ seen)) as [Hseen|Hseen].
  { intros E. rewrite (IH _ _ E). apply decide_ext. rewrite elem_of_cons.
    split; [tauto|]. by intros [[->|?] ?]. }
  destruct (od_read (rs_name p) k) as [[text|e]|] eqn:Er; [|done|].
  - munfold. destruct (od_create (rs_name p) k) as [k1 [[]|]] eqn:Ec; [|done].
    destruct (od_write_all (rs_name p) (header_text version +:+ text) k1) as [k2 [[]|]] eqn:Ew; [|done].
    intros E. rewrite (IH _ _ E). destruct (decide (n = rs_name p)) as [->|Hn].
    + rewrite decide_False by (intros [_ Hin]; apply Hin, elem_of_union; left; by apply elem_of_singleton).
      rewrite decide_True by (split; [by left|done]). rewrite Er.
      apply (write_read _ _ _ _ _ (create_read _ _ _ Ec) Ew).
    + rewrite (write_other _ _ _ _ _ _ Ew Hn), (create_other _ _ _ _ _ Ec Hn).
      apply decide_ext. rewrite elem_of_cons, elem_of_union, elem_of_singleton. tauto.
  - intros E. rewrite (IH _ _ E). destruct (decide (n = rs_name p)) as [->|Hn].
    + rewrite Er. by repeat case_decide.
    + apply decide_ext. rewrite elem_of_cons, elem_of_union, elem_of_singleton. tauto.
Qed.
End Headers.

(** ** Properties *)

(** Running the prost generator. Without a backend, inputs or include directories [run] fails
    with the text that says so and touches nothing. A run that succeeds has compiled the inputs
    with the configuration of the options, and then, of all files but the descriptor set, which is
    gone, exactly those of the packages compiled that exist have the header in front of what
    prost-build wrote, once however many files of one package were compiled, and no other file has
    changed. *)
Theorem prost_run {K : Type} `{OutDirLaws K} (version not_found : string)
    (env_out_dir current_dir : option string) (b : Builder) (k k' : K) :
  (b_backend b = None ->
   run version not_found env_out_dir current_dir b k =
     (k, Err "no protobuf backend selected: call .prost()")) /\
  (b_backend b = Some Prost -> b_inputs b = [] ->
   run version not_found env_out_dir current_dir b k = (k, Err "no .proto inputs configured")) /\
  (b_backend b = Some Prost -> b_inputs b <> [] -> b_includes b = [] ->
   run version not_found env_out_dir current_dir b k = (k, Err "no include directories configured")) /\
  (run version not_found env_out_dir current_dir b k = (k', Ok tt) ->
   exists out_dir k1 buffer packages,
     out_dir = default (default (default "" current_dir) env_out_dir) (b_out_dir b) /\
     prost_compile (config out_dir (b_inputs b) (b_includes b) (b_customize b)) k = (k1, Ok tt) /\
     od_read FILE_DESCRIPTOR_SET k1 = Some (Ok buffer) /\ decode_packages buffer = Ok packages /\
     od_read FILE_DESCRIPTOR_SET k' = None /\
     forall n, n <> FILE_DESCRIPTOR_SET ->
       od_read n k' = if decide (n ∈ map rs_name packages) then with_header version (od_read n k1)
                      else od_read n k1).
Proof.
  unfold run. split_and!.
  - by intros ->.
  - by intros -> ->.
  - intros -> Hi ->. by destruct (b_inputs b).
  - destruct (b_backend b); [|done]. destruct (b_inputs b) as [|i ins] eqn:Ei; [done|].
    destruct (b_includes b) as [|j js] eqn:Ej; [done|].
    set (out_dir := default (default (default "" current_dir) env_out_dir) (b_out_dir b)).
    unfold codegen_generate, compile_protos, clean_up. munfold.
    destruct (prost_compile (config out_dir (i :: ins) (j :: js) (b_customize b)) k)
      as [k1 [[]|]] eqn:Ec; [|done].
    destruct (write_header version out_dir not_found k1) as [k2 [[]|]] eqn:Ew; [|done].
    intros Er. unfold write_header in Ew.
    destruct (od_read FILE_DESCRIPTOR_SET k1) as [[buffer|]|] eqn:Eb; [|done..].
    destruct (decode_packages buffer) as [packages|] eqn:Ed; [|done].
    exists out_dir, k1, buffer, packages. split_and!; [done..|by eapply remove_read|].
    intros n Hn. rewrite (remove_other _ _ _ _ _ Er Hn), (header_loop_files _ _ _ _ _ _ _ Ew).
    apply decide_ext. split; [by intros [? _]|]. intros ?. split; [done|apply not_elem_of_empty].
Qed.

Section Witness.
Local Instance out_files : OutDir (gmap string string) := {
  od_read := fun n (k : gmap string string) => Ok <$> (k !! n);
  od_create := fun n k => (<[n := ""]> k, Ok tt);
  od_write_all := fun n s k => (<[n := default "" (k !! n) +:+ s]> k, Ok tt);
  od_remove := fun n k => (delete n k, Ok tt);
  prost_compile := fun c k => (<["pkg.rs" := "mod a;"]> (<[c_descriptor_set c := "fds"]> k), Ok tt);
  decode_packages := fun _ => Ok ["pkg"; "other"; "pkg"] }.

Local Instance out_files_laws : OutDirLaws (gmap string string).
Proof.
  split; cbn; intros *.
  - intros [= <-]. by rewrite lookup_insert_eq.
  - intros Hr [= <-]. rewrite lookup_insert_eq. destruct (k !! n); [|done]. by injection Hr as ->.
  - intros [= <- _] ?. by rewrite lookup_insert_ne.
  - intros [= <- _] ?. by rewrite lookup_insert_ne.
  - intros [= <-]. by rewrite lookup_delete_eq.
  - intros [= <- _] ?. by rewrite lookup_delete_ne.
Qed.

Let builder : Builder := add_include "proto" (add_input "a.proto" (select_prost builder_new)).

Lemma prost_run_witness :
  run "0.1" "none" (Some "out") None builder_new (∅ : gmap string string) =
    (∅, Err "no protobuf backend selected: call .prost()") /\
  exists k' : gmap string string,
    run "0.1" "none" (Some "out") None builder ∅ = (k', Ok tt) /\
    od_read "pkg.rs" k' = Some (Ok (header_text "0.1" +:+ "mod a;")) /\
    od_read "other.rs" k' = None.
Proof.
  split; [by apply (prost_run "0.1" "none" (Some "out") None builder_new ∅ ∅)|].
  assert (exists k' : gmap string string,
    run "0.1" "none" (Some "out") None builder ∅ = (k', Ok tt)) as [k' E]
    by (eexists; vm_compute; reflexivity).
  exists k'. split; [exact E|].
  destruct (prost_run "0.1" "none" (Some "out") None builder ∅ k') as (_ & _ & _ & H).
  destruct (H E) as (o & k1 & buf & pk & _ & Hc & _ & [= <-] & _ & Hf). injection Hc as <-.
  split; rewrite Hf by done; by vm_compute.
Defined.
End Witness.

(** Asking for both sides separately makes only the server asynchronous, where the compiler crate
    makes both. *)
Lemma both_sides_is_server_only :
  let c := MkPCustomize false false true true false in
  async_on (async_mode c) Server = true /\ async_on (async_mode c) Client = false /\
  Codegen.async_on (MkCustomize false true true false) "client" = true.
Proof. done. Qed.
